(** * OVS CatNat: ingestion-to-policy reconciliation pipeline

    A shallow embedding of the TypeScript core of the repository
    (file processor, lifecycle manager, pricing engine, policy service,
    import queue) together with the properties stated about it.

    Conventions of the embedding.
    - A JavaScript [number] is an IEEE 754 binary64 value: Rocq's primitive
      [float], with the operations of [PrimFloat].
    - A JavaScript string is a [string] of 8-bit units holding its UTF-8
      encoding.  Every character the code tests for (delimiters, quotes,
      digits, keywords, white space) is ASCII; white space and letter case
      outside ASCII are not interpreted.
    - A [Date] is its time value, an integer number of milliseconds since
      the epoch, or the Invalid Date ([option Z]).
    - A [Map] is an association list in insertion order with unique keys.
    - A plain object that holds strings under string names is an
      association list in the order of [Object.keys].
    - Reads of the system clock and of the random source are successive
      readings of an oracle ([Env]); nothing is assumed about them. *)

From Stdlib Require Import ZArith List String Ascii Bool Lia Floats Uint63.
From Stdlib Require Import Sorted Permutation.
Import ListNotations.

Local Open Scope string_scope.
Local Open Scope Z_scope.

(* ========================================================================= *)
(** * The JavaScript runtime the code relies on *)
(* ========================================================================= *)

Module JS.

(** ** Strings *)

(** String.prototype.trim: ASCII white space and line terminators. *)
Definition is_ws (c : ascii) : bool :=
  let n := nat_of_ascii c in
  (((9 <=? n) && (n <=? 13)) || (n =? 32))%nat.

Fixpoint trimStart (s : string) : string :=
  match s with
  | EmptyString => EmptyString
  | String c r => if is_ws c then trimStart r else s
  end.

Fixpoint trimEnd (s : string) : string :=
  match s with
  | EmptyString => EmptyString
  | String c r =>
      match trimEnd r with
      | EmptyString => if is_ws c then EmptyString else String c EmptyString
      | r' => String c r'
      end
  end.

Definition trim (s : string) : string := trimEnd (trimStart s).

(** [s.split(sep)] for a separator that matches exactly one character:
    k separators give k+1 pieces, the empty string gives one empty piece. *)
Fixpoint split (sep : ascii -> bool) (s : string) : list string :=
  match s with
  | EmptyString => [EmptyString]
  | String c r =>
      if sep c then EmptyString :: split sep r
      else match split sep r with
           | [] => [String c EmptyString]
           | h :: t => String c h :: t
           end
  end.

(** Removal of every occurrence of a character (a global regex replace by
    the empty string). *)
Fixpoint removeAll (c : ascii) (s : string) : string :=
  match s with
  | EmptyString => EmptyString
  | String d r => if Ascii.eqb c d then removeAll c r else String d (removeAll c r)
  end.

(** [s.replace(c, d)] with string arguments of length one: first occurrence only. *)
Fixpoint replaceFirst (c d : ascii) (s : string) : string :=
  match s with
  | EmptyString => EmptyString
  | String x r => if Ascii.eqb c x then String d r else String x (replaceFirst c d r)
  end.

Definition lower (c : ascii) : ascii :=
  let n := nat_of_ascii c in
  if ((65 <=? n) && (n <=? 90))%nat then ascii_of_nat (n + 32) else c.

Fixpoint toLowerCase (s : string) : string :=
  match s with
  | EmptyString => EmptyString
  | String c r => String (lower c) (toLowerCase r)
  end.

(** ** Property keys *)

Definition digitValue (c : ascii) : option Z :=
  let n := nat_of_ascii c in
  if ((48 <=? n) && (n <=? 57))%nat then Some (Z.of_nat (n - 48)) else None.

Fixpoint digitsValue (s : string) (acc : Z) : option Z :=
  match s with
  | EmptyString => Some acc
  | String c r =>
      match digitValue c with
      | Some d => digitsValue r (10 * acc + d)
      | None => None
      end
  end.

(** The array index that a property key stands for: the key is the decimal
    text, without leading zeros, of an integer from 0 to 2^32 - 2. *)
Definition arrayIndex (key : string) : option Z :=
  match key with
  | EmptyString => None
  | String c r =>
      match digitsValue key 0 with
      | Some n =>
          if (n <? 4294967295)
             && (match r with EmptyString => true | _ => negb (Ascii.eqb c "0") end)
          then Some n else None
      | None => None
      end
  end.

(** [hay.includes(needle)]. *)
Fixpoint includes (hay needle : string) : bool :=
  String.prefix needle hay ||
  match hay with
  | EmptyString => false
  | String _ r => includes r needle
  end.

Definition isEmpty (s : string) : bool :=
  match s with EmptyString => true | _ => false end.

Definition dquote : ascii := ascii_of_nat 34.
Definition newline : ascii := ascii_of_nat 10.

(** Decimal rendering of an integer, as template literals do for integral numbers. *)
Definition digitChar (n : Z) : ascii := ascii_of_nat (48 + Z.to_nat n).

Fixpoint showPosFuel (fuel : nat) (n : Z) (acc : string) : string :=
  match fuel with
  | O => acc
  | S k =>
      let acc' := String (digitChar (n mod 10)) acc in
      if n <? 10 then acc' else showPosFuel k (n / 10) acc'
  end.

Definition showZ (n : Z) : string :=
  if n <? 0 then String "-"%char (showPosFuel (S (Z.to_nat (Z.log2 (- n)))) (- n) "")
  else showPosFuel (S (Z.to_nat (Z.log2 n))) n "".

(** ** Numbers *)

Local Open Scope float_scope.

Definition isNaN (x : float) : bool := PrimFloat.is_nan x.

(** Strict equality [===] on numbers: NaN differs from itself, the zeros are equal. *)
Definition numEq (x y : float) : bool := PrimFloat.eqb x y.

(** Math.max and Math.min with two arguments: NaN if either is NaN, and
    +0 is larger than -0. *)
Definition Math_max (x y : float) : float :=
  if PrimFloat.is_nan x || PrimFloat.is_nan y then nan
  else if PrimFloat.ltb x y then y
  else if PrimFloat.ltb y x then x
  else if PrimFloat.get_sign x then y else x.

Definition Math_min (x y : float) : float :=
  if PrimFloat.is_nan x || PrimFloat.is_nan y then nan
  else if PrimFloat.ltb x y then x
  else if PrimFloat.ltb y x then y
  else if PrimFloat.get_sign x then x else y.

(** The float of an integer of magnitude at most 2^53 (exact). *)
Definition ofZ (n : Z) : float :=
  match n with
  | Z0 => 0
  | Zpos _ => PrimFloat.of_uint63 (Uint63.of_Z n)
  | Zneg p => - PrimFloat.of_uint63 (Uint63.of_Z (Zpos p))
  end.

(** Math.round: the integral number closest to the argument, ties towards
    +infinity; NaN, the infinities and integral values are returned as they
    are; the result keeps the sign of the argument when it is zero. *)
Definition Math_round (x : float) : float :=
  match Prim2SF x with
  | S754_finite s m e =>
      if (0 <=? e)%Z then x
      else
        let d := Z.pow 2 (- e) in
        let v := if s then Z.neg m else Z.pos m in
        let r := ((2 * v + d) / (2 * d))%Z in
        if (r =? 0)%Z then (if s then (-0) else 0) else ofZ r
  | _ => x
  end.

(** The binary64 value nearest to n/d (ties to even), for positive n and d. *)
Definition nearest (n d : positive) : float :=
  SF2Prim (SFdiv prec emax (S754_finite false n 0) (S754_finite false d 0)).

(** ** parseFloat *)

Definition isDigit (c : ascii) : bool :=
  let n := nat_of_ascii c in ((48 <=? n) && (n <=? 57))%nat.

Definition digitVal (c : ascii) : Z := Z.of_nat (nat_of_ascii c) - 48.

(** Reads a maximal run of digits: its value, its length and the rest. *)
Fixpoint readDigits (s : string) (acc : Z) (len : Z) : Z * Z * string :=
  match s with
  | String c r =>
      if isDigit c then readDigits r (10 * acc + digitVal c)%Z (len + 1)%Z
      else (acc, len, s)
  | EmptyString => (acc, len, s)
  end.

(** An ExponentPart at the head of [s], if there is a complete one. *)
Definition readExponent (s : string) : Z :=
  match s with
  | String c r =>
      if Ascii.eqb c "e" || Ascii.eqb c "E" then
        let '(neg, r') :=
          match r with
          | String "+" t => (false, t)
          | String "-" t => (true, t)
          | _ => (false, r)
          end in
        let '(v, len, _) := readDigits r' 0%Z 0%Z in
        if (len =? 0)%Z then 0%Z else if neg then (- v)%Z else v
      else 0%Z
  | EmptyString => 0%Z
  end.

(** The value of mantissa * 10^e10. *)
Definition decimalValue (mant e10 : Z) : float :=
  match mant with
  | Zpos m =>
      match e10 with
      | Z0 => nearest m 1
      | Zpos k => nearest (m * Pos.pow 10 k) 1
      | Zneg k => nearest m (Pos.pow 10 k)
      end
  | _ => 0
  end.

(** The longest prefix of [s] that is a StrUnsignedDecimalLiteral. *)
Definition parseUnsigned (s : string) : float :=
  if String.prefix "Infinity" s then infinity
  else
    let '(ip, ilen, r1) := readDigits s 0%Z 0%Z in
    match r1 with
    | String "." r2 =>
        let '(m, flen, r3) := readDigits r2 ip 0%Z in
        if ((ilen =? 0) && (flen =? 0))%Z then nan
        else decimalValue m (readExponent r3 - flen)
    | _ =>
        if (ilen =? 0)%Z then nan else decimalValue ip (readExponent r1)
    end.

Definition parseFloat (s : string) : float :=
  match trimStart s with
  | String "-" r => - parseUnsigned r
  | String "+" r => parseUnsigned r
  | r => parseUnsigned r
  end.

(** ** Dates

    A [Date] is [Some t] for the time value [t] (milliseconds since the
    epoch, UTC) or [None] for an Invalid Date.  The functions below are the
    abstract operations of ECMA-262, section "Date Objects". *)

Local Close Scope float_scope.
Local Open Scope Z_scope.

Definition Date := option Z.

Definition msPerDay : Z := 86400000.

Definition Day (t : Z) : Z := t / msPerDay.
Definition TimeWithinDay (t : Z) : Z := t mod msPerDay.

Definition isLeap (y : Z) : bool :=
  if negb (y mod 4 =? 0) then false
  else if negb (y mod 100 =? 0) then true
  else (y mod 400 =? 0).

Definition DaysInYear (y : Z) : Z := if isLeap y then 366 else 365.

Definition DayFromYear (y : Z) : Z :=
  365 * (y - 1970) + (y - 1969) / 4 - (y - 1901) / 100 + (y - 1601) / 400.

(** The largest y with DayFromYear y <= Day t: an estimate from the mean
    length of a year, corrected by at most one. *)
Definition YearFromDay (d : Z) : Z :=
  let y := 1970 + (d * 400) / 146097 in
  if d <? DayFromYear y then y - 1
  else if DayFromYear (y + 1) <=? d then y + 1
  else y.

Definition YearFromTime (t : Z) : Z := YearFromDay (Day t).

Definition DayWithinYear (t : Z) : Z := Day t - DayFromYear (YearFromTime t).

Definition InLeapYear (t : Z) : Z := if isLeap (YearFromTime t) then 1 else 0.

(** The day within the year on which month m (0 to 11) starts. *)
Definition monthStart (m leap : Z) : Z :=
  match m with
  | 0 => 0
  | 1 => 31
  | 2 => 59 + leap
  | 3 => 90 + leap
  | 4 => 120 + leap
  | 5 => 151 + leap
  | 6 => 181 + leap
  | 7 => 212 + leap
  | 8 => 243 + leap
  | 9 => 273 + leap
  | 10 => 304 + leap
  | 11 => 334 + leap
  | _ => 365 + leap
  end.

Definition monthOfDay (dayInYear leap : Z) : Z :=
  if dayInYear <? 31 then 0
  else if dayInYear <? 59 + leap then 1
  else if dayInYear <? 90 + leap then 2
  else if dayInYear <? 120 + leap then 3
  else if dayInYear <? 151 + leap then 4
  else if dayInYear <? 181 + leap then 5
  else if dayInYear <? 212 + leap then 6
  else if dayInYear <? 243 + leap then 7
  else if dayInYear <? 273 + leap then 8
  else if dayInYear <? 304 + leap then 9
  else if dayInYear <? 334 + leap then 10
  else 11.

Definition MonthFromTime (t : Z) : Z := monthOfDay (DayWithinYear t) (InLeapYear t).

Definition DateFromTime (t : Z) : Z :=
  DayWithinYear t - monthStart (MonthFromTime t) (InLeapYear t) + 1.

(** MakeDay for integral arguments: the day number of the given date of the
    given month, months and dates outside their range carrying over. *)
Definition MakeDay (year month date : Z) : Z :=
  let ym := year + month / 12 in
  let mn := month mod 12 in
  DayFromYear ym + monthStart mn (if isLeap ym then 1 else 0) + date - 1.

Definition MakeDate (day time : Z) : Z := day * msPerDay + time.

Definition TimeClip (t : Z) : Date :=
  if Z.abs t <=? 8640000000000000 then Some t else None.

(** Relational operators on dates compare time values; a comparison with an
    invalid date is false. *)
Definition Date_le (a b : Date) : bool :=
  match a, b with
  | Some x, Some y => x <=? y
  | _, _ => false
  end.

Definition Date_ge (a b : Date) : bool := Date_le b a.

Section LocalTime.

(** The local time zone adjustment of the host: LocalTZA(t, isUTC). *)
Variable LocalTZA : Z -> bool -> Z.

Definition LocalTime (t : Z) : Z := t + LocalTZA t true.
Definition UTC (t : Z) : Z := t - LocalTZA t false.

(** Date.prototype.getMonth; NaN on an invalid date. *)
Definition getMonth (d : Date) : option Z :=
  match d with
  | Some t => Some (MonthFromTime (LocalTime t))
  | None => None
  end.

(** Date.prototype.setMonth(month) with an integral month: the new time value. *)
Definition setMonth (d : Date) (month : option Z) : Date :=
  match d, month with
  | Some t0, Some m =>
      let t := LocalTime t0 in
      let newDate := MakeDate (MakeDay (YearFromTime t) m (DateFromTime t))
                              (TimeWithinDay t) in
      TimeClip (UTC newDate)
  | _, _ => None
  end.

End LocalTime.

(** The date part of Date.prototype.toISOString, which is in UTC. *)
Fixpoint zeros (n : nat) : string :=
  match n with
  | O => EmptyString
  | S k => String "0" (zeros k)
  end.

(** [s.padStart(width, "0")]. *)
Definition padLeft (width : nat) (s : string) : string :=
  zeros (width - String.length s) ++ s.

Definition isoYear (y : Z) : string :=
  if (0 <=? y) && (y <=? 9999) then padLeft 4 (showZ y)
  else String (if y <? 0 then "-"%char else "+"%char) (padLeft 6 (showZ (Z.abs y))).

Definition isoDate (t : Z) : string :=
  isoYear (YearFromTime t) ++ "-" ++ padLeft 2 (showZ (MonthFromTime t + 1))
    ++ "-" ++ padLeft 2 (showZ (DateFromTime t)).

End JS.

(** ** Map: association lists in insertion order *)

Module JsMap.

Section Ops.
  Context {V : Type}.

Definition t := list (string * V).

Fixpoint get (m : t) (k : string) : option V :=
  match m with
  | [] => None
  | (k', v) :: r => if String.eqb k' k then Some v else get r k
  end.

Definition has (m : t) (k : string) : bool :=
  match get m k with Some _ => true | None => false end.

(** [set] replaces the value of a present key where it stands and appends
    an absent key. *)
Fixpoint set (m : t) (k : string) (v : V) : t :=
  match m with
  | [] => [(k, v)]
  | (k', v') :: r =>
      if String.eqb k' k then (k', v) :: r else (k', v') :: set r k v
  end.

Fixpoint delete (m : t) (k : string) : t :=
  match m with
  | [] => []
  | (k', v') :: r => if String.eqb k' k then r else (k', v') :: delete r k
  end.

Definition size (m : t) : nat := List.length m.
Definition keys (m : t) : list string := List.map fst m.
Definition values (m : t) : list V := List.map snd m.

End Ops.

Arguments t : clear implicits.

End JsMap.

(* ========================================================================= *)
(** * Data model (src/types/index.ts) *)
(* ========================================================================= *)

Inductive StoreStatus := SActive | SInactive | SPending | SSuspended.
Inductive PolicyStatus := PActive | PExpired | PCancelled | PPending.
Inductive CoverageType := catnat | property | combined.
Inductive ImportStatus := IPending | IProcessing | ICompleted | IFailed.
Inductive UserRole := store_manager | admin | broker.
Inductive AuditAction :=
  | store_created | store_updated | store_deactivated
  | policy_created | policy_renewed | policy_cancelled
  | certificate_generated | file_imported | premium_calculated.

Definition StoreStatus_eqb (a b : StoreStatus) : bool :=
  match a, b with
  | SActive, SActive | SInactive, SInactive
  | SPending, SPending | SSuspended, SSuspended => true
  | _, _ => false
  end.

Definition PolicyStatus_eqb (a b : PolicyStatus) : bool :=
  match a, b with
  | PActive, PActive | PExpired, PExpired
  | PCancelled, PCancelled | PPending, PPending => true
  | _, _ => false
  end.

Definition CoverageType_eqb (a b : CoverageType) : bool :=
  match a, b with
  | catnat, catnat | property, property | combined, combined => true
  | _, _ => false
  end.

Definition UserRole_eqb (a b : UserRole) : bool :=
  match a, b with
  | store_manager, store_manager | admin, admin | broker, broker => true
  | _, _ => false
  end.

(** The string values of the union types, as template literals render them. *)
Definition StoreStatus_str (s : StoreStatus) : string :=
  match s with
  | SActive => "active" | SInactive => "inactive"
  | SPending => "pending" | SSuspended => "suspended"
  end.

Definition CoverageType_str (c : CoverageType) : string :=
  match c with
  | catnat => "catnat" | property => "property" | combined => "combined"
  end.

Definition UserRole_str (r : UserRole) : string :=
  match r with
  | store_manager => "store_manager" | admin => "admin" | broker => "broker"
  end.

Module Store.
Record t := mk {
  storeCode : string;
  businessName : string;
  address : string;
  squareMeters : float;
  status : StoreStatus;
  activationDate : option JS.Date;
  closureDate : option JS.Date;
  createdAt : JS.Date;
  updatedAt : JS.Date }.
End Store.

Module Policy.
Record t := mk {
  policyId : string;
  storeCode : string;
  coverageType : CoverageType;
  insuredSum : float;
  premium : float;
  effectiveFrom : JS.Date;
  effectiveTo : JS.Date;
  status : PolicyStatus;
  createdAt : JS.Date;
  updatedAt : JS.Date }.
End Policy.

Module Certificate.
Record t := mk {
  certId : string;
  policyId : string;
  issueDate : JS.Date;
  documentUrl : string;
  validFrom : JS.Date;
  validTo : JS.Date;
  createdAt : JS.Date }.
End Certificate.

Module AuditLog.
Record t := mk {
  id : string;
  action : AuditAction;
  entityType : string;
  entityId : string;
  previousState : option Store.t;
  newState : Store.t;
  performedBy : string;
  timestamp : JS.Date }.
End AuditLog.

Module ImportError.
Record t := mk {
  row : nat;
  field : string;
  value : string;
  message : string }.
End ImportError.

Module FileImport.
Record t := mk {
  importId : string;
  filename : string;
  status : ImportStatus;
  totalRecords : nat;
  processedRecords : nat;
  errorRecords : nat;
  errors : list ImportError.t;
  uploadedBy : string;
  uploadedAt : JS.Date;
  completedAt : option JS.Date }.
End FileImport.

Module PricingConfig.
Record t := mk {
  coverageType : CoverageType;
  ratePerSquareMeter : float;
  minimumPremium : float;
  maximumInsuredSum : float;
  effectiveFrom : JS.Date;
  effectiveTo : option JS.Date }.
End PricingConfig.

(** ** Interfaces of the ingestion layer (file-processor.ts, import-queue.ts) *)

Module ImportRow.
Record t := mk {
  storeCode : string;
  businessName : string;
  address : string;
  squareMeters : float }.
End ImportRow.

Module ValidationResult.
Record t := mk {
  isValid : bool;
  errors : list ImportError.t;
  warnings : list string }.
End ValidationResult.

Module ProcessingResult.
Record t := mk {
  import : FileImport.t;
  rows : list ImportRow.t;
  validation : ValidationResult.t }.
End ProcessingResult.

Inductive JobStatus := queued | processing | completed | failed.

Definition JobStatus_eqb (a b : JobStatus) : bool :=
  match a, b with
  | queued, queued | processing, processing
  | completed, completed | failed, failed => true
  | _, _ => false
  end.

(** ImportJob and InternalJob are one object shape: InternalJob adds the
    optional [content] key, and every optional key is absent when [None]. *)
Module Job.
Record t := mk {
  jobId : string;
  filename : string;
  uploadedBy : string;
  status : JobStatus;
  progress : nat;
  result : option ProcessingResult.t;
  createdAt : JS.Date;
  startedAt : option JS.Date;
  completedAt : option JS.Date;
  error : option string;
  content : option string }.
End Job.

Abbreviation ImportJob := Job.t (only parsing).
Abbreviation InternalJob := Job.t (only parsing).

(* ========================================================================= *)
(** * State of the service singletons and the effect monad *)
(* ========================================================================= *)

(** A subscriber callback, by identity.  Callbacks are observers: calling one
    is recorded, and it does not call back into the services. *)
Definition JobCallback := nat.

(** A reference to a job object.  The queue's map and the suspended
    processing of a job refer to the same object. *)
Definition Ref := nat.

Module LifecycleState.
Record t := mk {
  auditLog : list AuditLog.t;
  currentSessionId : option string }.
End LifecycleState.

Module PolicyState.
Record t := mk {
  policies : JsMap.t Policy.t;
  certificates : JsMap.t Certificate.t;
  currentSessionId : option string }.
End PolicyState.

Module QueueState.
Record t := mk {
  jobs : JsMap.t Ref;
  queue : list string;
  processing : bool;
  subscribers : list JobCallback;
  stores : JsMap.t Store.t;
  currentSessionId : option string }.
End QueueState.

Inductive Result (A : Type) :=
  | Ok (a : A)
  | Throw (message : string).
Arguments Ok {A} a.
Arguments Throw {A} message.

(** Work that the event loop holds for later: the two points at which
    processNext awaits, and the two timers of the import queue. *)
Inductive Task :=
  | AwaitProcessFile (job : Ref) (jobId : string) (result : ProcessingResult.t)
  | AwaitApply (job : Ref) (jobId : string) (result : ProcessingResult.t)
               (outcome : Result unit)
  | ClearContentTimer (jobId : string)
  | ProcessNextTimer.

(** What the host provides: successive readings of the clock and of the
    random source, the local time zone and the rendering of numbers. *)
Record Env := {
  clock : nat -> Z;
  uuid : nat -> string;
  LocalTZA : Z -> bool -> Z;
  numberToString : float -> string }.

Record World := mkWorld {
  ticks : nat;
  draws : nat;
  pricingConfigs : list PricingConfig.t;
  lifecycleManager : LifecycleState.t;
  policyService : PolicyState.t;
  importQueue : QueueState.t;
  heap : list InternalJob;
  published : list (JobCallback * ImportJob);
  tasks : list Task }.

Definition M (A : Type) : Type := Env -> World -> Result A * World.

Definition ret {A} (a : A) : M A := fun _ w => (Ok a, w).

Definition bind {A B} (m : M A) (k : A -> M B) : M B :=
  fun e w =>
    match m e w with
    | (Ok a, w') => k a e w'
    | (Throw msg, w') => (Throw msg, w')
    end.

Definition throw {A} (msg : string) : M A := fun _ w => (Throw msg, w).

(** try { m } catch (error) { h error.message } *)
Definition tryCatch {A} (m : M A) (h : string -> M A) : M A :=
  fun e w =>
    match m e w with
    | (Ok a, w') => (Ok a, w')
    | (Throw msg, w') => h msg e w'
    end.

Definition gets {A} (f : World -> A) : M A := fun _ w => (Ok (f w), w).
Definition asks {A} (f : Env -> A) : M A := fun e w => (Ok (f e), w).
Definition modify (f : World -> World) : M unit := fun _ w => (Ok tt, f w).

Declare Scope js_scope.
Delimit Scope js_scope with js.
Notation "x <- m ;; k" := (bind m (fun x => k))
  (at level 61, m at next level, right associativity) : js_scope.
Notation "m ;;; k" := (bind m (fun _ => k))
  (at level 61, right associativity) : js_scope.
Local Open Scope js_scope.

Fixpoint forEach {A} (l : list A) (f : A -> M unit) : M unit :=
  match l with
  | [] => ret tt
  | a :: r => f a ;;; forEach r f
  end.

(** Field updates of the world. *)
Definition with_ticks (n : nat) (w : World) : World :=
  mkWorld n (draws w) (pricingConfigs w) (lifecycleManager w) (policyService w)
          (importQueue w) (heap w) (published w) (tasks w).
Definition with_draws (n : nat) (w : World) : World :=
  mkWorld (ticks w) n (pricingConfigs w) (lifecycleManager w) (policyService w)
          (importQueue w) (heap w) (published w) (tasks w).
Definition with_pricingConfigs (c : list PricingConfig.t) (w : World) : World :=
  mkWorld (ticks w) (draws w) c (lifecycleManager w) (policyService w)
          (importQueue w) (heap w) (published w) (tasks w).
Definition with_lifecycleManager (l : LifecycleState.t) (w : World) : World :=
  mkWorld (ticks w) (draws w) (pricingConfigs w) l (policyService w)
          (importQueue w) (heap w) (published w) (tasks w).
Definition with_policyService (p : PolicyState.t) (w : World) : World :=
  mkWorld (ticks w) (draws w) (pricingConfigs w) (lifecycleManager w) p
          (importQueue w) (heap w) (published w) (tasks w).
Definition with_importQueue (q : QueueState.t) (w : World) : World :=
  mkWorld (ticks w) (draws w) (pricingConfigs w) (lifecycleManager w)
          (policyService w) q (heap w) (published w) (tasks w).
Definition with_heap (h : list InternalJob) (w : World) : World :=
  mkWorld (ticks w) (draws w) (pricingConfigs w) (lifecycleManager w)
          (policyService w) (importQueue w) h (published w) (tasks w).
Definition with_published (p : list (JobCallback * ImportJob)) (w : World) : World :=
  mkWorld (ticks w) (draws w) (pricingConfigs w) (lifecycleManager w)
          (policyService w) (importQueue w) (heap w) p (tasks w).
Definition with_tasks (t : list Task) (w : World) : World :=
  mkWorld (ticks w) (draws w) (pricingConfigs w) (lifecycleManager w)
          (policyService w) (importQueue w) (heap w) (published w) t.

(** [Date.now()] and the time value of [new Date()]: the next clock reading. *)
Definition Date_now : M Z :=
  fun e w => (Ok (clock e (ticks w)), with_ticks (S (ticks w)) w).

Definition new_Date : M JS.Date :=
  t <- Date_now ;; ret (Some t).

(** [crypto.randomUUID()]: the next reading of the random source. *)
Definition randomUUID : M string :=
  fun e w => (Ok (uuid e (draws w)), with_draws (S (draws w)) w).

(** [setTimeout] and suspension at [await]: the work is left with the event loop. *)
Definition spawn (t : Task) : M unit :=
  modify (fun w => with_tasks (tasks w ++ [t])%list w).

(** Lifts a computation that reads and writes nothing. *)
Definition liftResult {A} (r : Result A) : M A := fun _ w => (r, w).

(* ========================================================================= *)
(** * File processor (src/lib/ingestion/file-processor.ts) *)
(* ========================================================================= *)

Module FileProcessor.

(** A raw row, [Record<string, string>]: the own properties of a plain
    object, property names to cell values, in the order of [Object.keys]:
    the names that are array indices first, in ascending order, then the
    other names in the order in which they were first assigned. *)
Definition RawRow := JsMap.t string.

(** The separator of [split(/[,;]/)]. *)
Definition isDelimiter (c : ascii) : bool := Ascii.eqb c "," || Ascii.eqb c ";".

Definition isNewline (c : ascii) : bool := Ascii.eqb c JS.newline.

(** [x => x.trim()] followed by the removal of every double quote. *)
Definition cell (x : string) : string := JS.removeAll JS.dquote (JS.trim x).

(** [values[index] ?? ""] *)
Definition valueAt (values : list string) (index : nat) : string :=
  match nth_error values index with
  | Some v => v
  | None => ""
  end.

(** The assignment to a property whose name is the array index [n]: the
    property is replaced where it stands, or created at its place among the
    array indices, before the names that are not array indices. *)
Fixpoint insertIndex (row : RawRow) (n : Z) (key value : string) : RawRow :=
  match row with
  | [] => [(key, value)]
  | (k, v) :: rest =>
      match JS.arrayIndex k with
      | Some m =>
          if m <? n then (k, v) :: insertIndex rest n key value
          else if m =? n then (key, value) :: rest
          else (key, value) :: (k, v) :: rest
      | None => (key, value) :: (k, v) :: rest
      end
  end.

(** [row[key] = value] on a plain object, for a string value.  The name
    [__proto__] is the accessor of Object.prototype, whose setter ignores a
    value that is not an object: no property is created.  Every other name
    becomes, or stays, an own property. *)
Definition assign (row : RawRow) (key value : string) : RawRow :=
  if String.eqb key "__proto__" then row
  else
    match JS.arrayIndex key with
    | Some n => insertIndex row n key value
    | None => JsMap.set row key value
    end.

(** [headers.forEach((header, index) => { row[header] = values[index] ?? "" })] *)
Fixpoint fillRow (headers : list string) (index : nat) (values : list string)
    (row : RawRow) : RawRow :=
  match headers with
  | [] => row
  | header :: rest =>
      fillRow rest (S index) values (assign row header (valueAt values index))
  end.

(** The loop over the data lines. *)
Fixpoint parseLines (headers : list string) (lines : list string) : list RawRow :=
  match lines with
  | [] => []
  | l :: rest =>
      let line := JS.trim l in
      if JS.isEmpty line then parseLines headers rest
      else
        let values := List.map cell (JS.split isDelimiter line) in
        fillRow headers 0 values [] :: parseLines headers rest
  end.

Definition parseCSV (content : string) : Result (list RawRow) :=
  let lines := JS.split isNewline (JS.trim content) in
  match lines with
  | header :: (_ :: _) as data =>
      let headers := List.map cell (JS.split isDelimiter header) in
      Ok (parseLines headers data)
  | _ => Throw "CSV must have at least a header row and one data row"
  end.

(** [Object.keys(rawRows[0]).find(h => keywords.some(k => h.toLowerCase().includes(k)))] *)
Definition findCol (first : RawRow) (keywords : list string) : option string :=
  List.find (fun h => List.existsb (fun k => JS.includes (JS.toLowerCase h) k) keywords)
            (JsMap.keys first).

Definition storeCodeKeywords : list string := ["codice"; "store_code"; "code"; "id"].
Definition businessNameKeywords : list string := ["ragione"; "nome"; "name"; "business"].
Definition addressKeywords : list string := ["indirizzo"; "address"; "ubicazione"].
Definition sqmKeywords : list string := ["metri"; "mq"; "square"; "superficie"].

Definition missingStoreCodeColumn : ImportError.t :=
  ImportError.mk 0 "storeCode" ""
    "Colonna codice punto vendita non trovata. Attese: 'codice', 'store_code', 'code', o 'id'".

Definition missingSqmColumn : ImportError.t :=
  ImportError.mk 0 "squareMeters" ""
    "Colonna metri quadri non trovata. Attese: 'metri', 'mq', 'square', o 'superficie'".

(** [raw[col]?.trim() ?? ""] *)
Definition field (raw : RawRow) (col : string) : string :=
  match JsMap.get raw col with
  | Some v => JS.trim v
  | None => ""
  end.

(** [col ? raw[col]?.trim() ?? "" : ""] *)
Definition optionalField (raw : RawRow) (col : option string) : string :=
  match col with
  | Some c => field raw c
  | None => ""
  end.

(** One step of [rawRows.forEach((raw, index) => ...)]: the row is pushed on
    [rows] or an error on [errors]. *)
Definition mapRow (storeCodeCol sqmCol : string) (businessNameCol addressCol : option string)
    (raw : RawRow) (index : nat)
    (acc : list ImportRow.t * list ImportError.t)
  : list ImportRow.t * list ImportError.t :=
  let '(rows, errors) := acc in
  let rowNum := (index + 2)%nat in
  let storeCode := field raw storeCodeCol in
  let squareMetersStr := field raw sqmCol in
  if JS.isEmpty storeCode then
    (rows, (errors ++ [ImportError.mk rowNum "storeCode" storeCode
                         "Codice store obbligatorio"])%list)
  else
    let squareMeters := JS.parseFloat (JS.replaceFirst "," "." squareMetersStr) in
    if JS.isNaN squareMeters || PrimFloat.leb squareMeters 0%float then
      (rows, (errors ++ [ImportError.mk rowNum "squareMeters" squareMetersStr
                           "Metri quadri deve essere un numero positivo"])%list)
    else
      ((rows ++ [ImportRow.mk storeCode (optionalField raw businessNameCol)
                   (optionalField raw addressCol) squareMeters])%list,
       errors).

Fixpoint mapLoop (storeCodeCol sqmCol : string) (businessNameCol addressCol : option string)
    (rawRows : list RawRow) (index : nat)
    (acc : list ImportRow.t * list ImportError.t)
  : list ImportRow.t * list ImportError.t :=
  match rawRows with
  | [] => acc
  | raw :: rest =>
      mapLoop storeCodeCol sqmCol businessNameCol addressCol rest (S index)
        (mapRow storeCodeCol sqmCol businessNameCol addressCol raw index acc)
  end.

Definition mapRows (rawRows : list RawRow) : list ImportRow.t * list ImportError.t :=
  match rawRows with
  | [] => ([], [])
  | first :: _ =>
      let storeCodeCol := findCol first storeCodeKeywords in
      let businessNameCol := findCol first businessNameKeywords in
      let addressCol := findCol first addressKeywords in
      let sqmCol := findCol first sqmKeywords in
      let errors :=
        ((match storeCodeCol with None => [missingStoreCodeColumn] | Some _ => [] end)
         ++ (match sqmCol with None => [missingSqmColumn] | Some _ => [] end))%list in
      match storeCodeCol, sqmCol with
      | Some sc, Some sq => mapLoop sc sq businessNameCol addressCol rawRows 0 ([], errors)
      | _, _ => ([], errors)
      end
  end.

(** [seenCodes.has(code)] on the set of the codes seen so far. *)
Definition seen (seenCodes : list string) (code : string) : bool :=
  List.existsb (String.eqb code) seenCodes.

Section Validate.

(** The rendering of a number inside a template literal. *)
Variable show : float -> string.

Definition tooSmall (rowNum : nat) (mq : float) : string :=
  "Riga " ++ JS.showZ (Z.of_nat rowNum) ++ ": mq (" ++ show mq
    ++ ") sembra troppo piccolo per un punto vendita".

Definition tooLarge (rowNum : nat) (mq : float) : string :=
  "Riga " ++ JS.showZ (Z.of_nat rowNum) ++ ": mq (" ++ show mq
    ++ ") sembra troppo grande, verificare".

(** The loop of [validate]: errors, warnings and the codes seen so far. *)
Fixpoint validateLoop (rows : list ImportRow.t) (index : nat)
    (errors : list ImportError.t) (warnings : list string) (seenCodes : list string)
  : list ImportError.t * list string :=
  match rows with
  | [] => (errors, warnings)
  | row :: rest =>
      let rowNum := (index + 2)%nat in
      let code := ImportRow.storeCode row in
      let mq := ImportRow.squareMeters row in
      let errors' :=
        if seen seenCodes code
        then (errors ++ [ImportError.mk rowNum "storeCode" code
                           "Codice duplicato nel file"])%list
        else errors in
      let w1 :=
        if PrimFloat.ltb mq 10%float
        then (warnings ++ [tooSmall rowNum mq])%list else warnings in
      let w2 :=
        if PrimFloat.ltb 50000%float mq
        then (w1 ++ [tooLarge rowNum mq])%list else w1 in
      validateLoop rest (S index) errors' w2 (code :: seenCodes)
  end.

Definition validate (rows : list ImportRow.t) : ValidationResult.t :=
  let '(errors, warnings) := validateLoop rows 0 [] [] [] in
  ValidationResult.mk (Nat.eqb (List.length errors) 0) errors warnings.

End Validate.

Local Open Scope js_scope.

Definition processFile (filename content uploadedBy : string) : M ProcessingResult.t :=
  stamp <- Date_now ;;
  uploadedAt <- new_Date ;;
  show <- asks numberToString ;;
  let importId := "IMP-" ++ JS.showZ stamp in
  match parseCSV content with
  | Ok rawRows =>
      let '(rows, mappingErrors) := mapRows rawRows in
      let validation := validate show rows in
      let allErrors := (mappingErrors ++ ValidationResult.errors validation)%list in
      let hasNoErrors :=
        Nat.eqb (List.length mappingErrors) 0 && ValidationResult.isValid validation in
      completedAt <- new_Date ;;
      ret (ProcessingResult.mk
             (FileImport.mk importId filename
                (if hasNoErrors then ICompleted else IFailed)
                (List.length rawRows) (List.length rows) (List.length allErrors)
                allErrors uploadedBy uploadedAt (Some completedAt))
             (if hasNoErrors then rows else [])
             (ValidationResult.mk hasNoErrors allErrors
                (ValidationResult.warnings validation)))
  | Throw message =>
      let errors := [ImportError.mk 0 "file" filename message] in
      completedAt <- new_Date ;;
      ret (ProcessingResult.mk
             (FileImport.mk importId filename IFailed 0 0 0 errors uploadedBy
                uploadedAt (Some completedAt))
             []
             (ValidationResult.mk false errors []))
  end.

End FileProcessor.

(* ========================================================================= *)
(** * Pricing engine (src/lib/core/pricing-engine.ts) *)
(* ========================================================================= *)

Module PricingResult.
Record t := mk {
  premium : float;
  insuredSum : float;
  squareMeters : float;   (* breakdown.squareMeters *)
  rateApplied : float;    (* breakdown.rateApplied *)
  basePremium : float;    (* breakdown.basePremium *)
  adjustments : float     (* breakdown.adjustments *) }.
End PricingResult.

Module PricingError.
Record t := mk {
  storeCode : string;
  coverageType : CoverageType;
  error : string }.
End PricingError.

Module BulkPricingResult.
Record t := mk {
  results : JsMap.t PricingResult.t;
  errors : list PricingError.t }.
End BulkPricingResult.

Module PricingEngine.

Local Open Scope js_scope.

(** [new Date("2024-01-01")]: midnight UTC. *)
Definition date_2024_01_01 : JS.Date := Some 1704067200000.

Definition DEFAULT_PRICING_CONFIGS : list PricingConfig.t :=
  [ PricingConfig.mk catnat 2.5%float 500%float 10000000%float date_2024_01_01 None;
    PricingConfig.mk property 4%float 750%float 15000000%float date_2024_01_01 None;
    PricingConfig.mk combined 5.5%float 1000%float 20000000%float date_2024_01_01 None ].

(** The predicate of [configs.find] in getActiveConfig. *)
Definition isActive (coverageType : CoverageType) (effectiveDate : JS.Date)
    (c : PricingConfig.t) : bool :=
  CoverageType_eqb (PricingConfig.coverageType c) coverageType
  && JS.Date_le (PricingConfig.effectiveFrom c) effectiveDate
  && match PricingConfig.effectiveTo c with
     | None => true
     | Some to => JS.Date_ge to effectiveDate
     end.

Definition getActiveConfig (configs : list PricingConfig.t)
    (coverageType : CoverageType) (effectiveDate : JS.Date) : option PricingConfig.t :=
  List.find (isActive coverageType effectiveDate) configs.

Definition hasPricingConfig (configs : list PricingConfig.t)
    (coverageType : CoverageType) (effectiveDate : JS.Date) : bool :=
  match getActiveConfig configs coverageType effectiveDate with
  | Some _ => true
  | None => false
  end.

(** [Math.round(x * 100) / 100] *)
Definition round2 (x : float) : float :=
  PrimFloat.div (JS.Math_round (PrimFloat.mul x 100%float)) 100%float.

Definition noConfigMessage (coverageType : CoverageType) (formattedDate : string) : string :=
  "Nessuna configurazione di pricing attiva per " ++ String JS.dquote ""
    ++ CoverageType_str coverageType ++ String JS.dquote ""
    ++ " alla data " ++ formattedDate ++ ". "
    ++ "Verificare che esista una configurazione valida per il periodo richiesto.".

(** [calculate] with its three arguments given.  Without a configuration the
    error is thrown once the date is formatted; toISOString throws its own
    RangeError on an invalid date. *)
Definition calculateAt (configs : list PricingConfig.t) (store : Store.t)
    (coverageType : CoverageType) (effectiveDate : JS.Date) : Result PricingResult.t :=
  match getActiveConfig configs coverageType effectiveDate with
  | None =>
      match effectiveDate with
      | Some t => Throw (noConfigMessage coverageType (JS.isoDate t))
      | None => Throw "Invalid time value"
      end
  | Some config =>
      let squareMeters := Store.squareMeters store in
      let ratePerSquareMeter := PricingConfig.ratePerSquareMeter config in
      let minimumPremium := PricingConfig.minimumPremium config in
      let maximumInsuredSum := PricingConfig.maximumInsuredSum config in
      let basePremium := PrimFloat.mul squareMeters ratePerSquareMeter in
      let premium := JS.Math_max basePremium minimumPremium in
      let rawInsuredSum := PrimFloat.mul squareMeters 1000%float in
      let insuredSum := JS.Math_min rawInsuredSum maximumInsuredSum in
      let adjustments := PrimFloat.sub premium basePremium in
      Ok (PricingResult.mk (round2 premium) (round2 insuredSum)
            squareMeters ratePerSquareMeter (round2 basePremium) (round2 adjustments))
  end.

(** The default value [new Date()] of an omitted date parameter. *)
Definition orNow (d : option JS.Date) : M JS.Date :=
  match d with
  | Some d => ret d
  | None => new_Date
  end.

Definition calculate (store : Store.t) (coverageType : CoverageType)
    (effectiveDate : option JS.Date) : M PricingResult.t :=
  date <- orNow effectiveDate ;;
  configs <- gets pricingConfigs ;;
  liftResult (calculateAt configs store coverageType date).

(** The loop of calculateBulk over the stores. *)
Fixpoint bulkLoop (stores : list Store.t) (coverageType : CoverageType)
    (effectiveDate : JS.Date) (acc : BulkPricingResult.t) : M BulkPricingResult.t :=
  match stores with
  | [] => ret acc
  | store :: rest =>
      acc' <- tryCatch
                (result <- calculate store coverageType (Some effectiveDate) ;;
                 ret (BulkPricingResult.mk
                        (JsMap.set (BulkPricingResult.results acc)
                                   (Store.storeCode store) result)
                        (BulkPricingResult.errors acc)))
                (fun message =>
                   ret (BulkPricingResult.mk
                          (BulkPricingResult.results acc)
                          (BulkPricingResult.errors acc
                             ++ [PricingError.mk (Store.storeCode store)
                                   coverageType message])%list)) ;;
      bulkLoop rest coverageType effectiveDate acc'
  end.

Definition calculateBulk (stores : list Store.t) (coverageType : CoverageType)
    (effectiveDate : option JS.Date) : M BulkPricingResult.t :=
  date <- orNow effectiveDate ;;
  bulkLoop stores coverageType date (BulkPricingResult.mk [] []).

(** [c.effectiveFrom.getTime() === config.effectiveFrom.getTime()] *)
Definition sameTime (a b : JS.Date) : bool :=
  match a, b with
  | Some x, Some y => x =? y
  | _, _ => false
  end.

Fixpoint replaceConfig (configs : list PricingConfig.t) (config : PricingConfig.t)
  : option (list PricingConfig.t) :=
  match configs with
  | [] => None
  | c :: rest =>
      if CoverageType_eqb (PricingConfig.coverageType c) (PricingConfig.coverageType config)
         && sameTime (PricingConfig.effectiveFrom c) (PricingConfig.effectiveFrom config)
      then Some (config :: rest)
      else option_map (cons c) (replaceConfig rest config)
  end.

(** [getConfigs]: a copy of the list. *)
Definition getConfigs : M (list PricingConfig.t) := gets pricingConfigs.

Definition setConfig (config : PricingConfig.t) : M unit :=
  modify (fun w =>
    match replaceConfig (pricingConfigs w) config with
    | Some configs => with_pricingConfigs configs w
    | None => with_pricingConfigs (pricingConfigs w ++ [config])%list w
    end).

End PricingEngine.

(* ========================================================================= *)
(** * Lifecycle manager (src/lib/core/lifecycle-manager.ts) *)
(* ========================================================================= *)

Module LifecycleEvent.
Record t := mk {
  storeCode : string;
  previousStatus : StoreStatus;
  newStatus : StoreStatus;
  reason : option string;
  effectiveDate : JS.Date }.
End LifecycleEvent.

Module LifecycleResult.
Record t := mk {
  success : bool;
  store : Store.t;
  event : option LifecycleEvent.t;
  error : option string }.
End LifecycleResult.

Module BulkUpdate.
Record t := mk {
  created : list Store.t;
  updated : list Store.t;
  deactivated : list Store.t }.
End BulkUpdate.

Module LifecycleManager.

Local Open Scope js_scope.

Definition VALID_TRANSITIONS (from : StoreStatus) : list StoreStatus :=
  match from with
  | SPending => [SActive; SInactive]
  | SActive => [SSuspended; SInactive]
  | SSuspended => [SActive; SInactive]
  | SInactive => [SPending]
  end.

Definition isValidTransition (from to : StoreStatus) : bool :=
  List.existsb (StoreStatus_eqb to) (VALID_TRANSITIONS from).

Definition getAllowedTransitions (from : StoreStatus) : list StoreStatus :=
  VALID_TRANSITIONS from.

Definition clearSessionData : M unit :=
  modify (with_lifecycleManager (LifecycleState.mk [] None)).

Definition sameSession (current : option string) (sessionId : string) : bool :=
  match current with
  | Some s => String.eqb s sessionId
  | None => false
  end.

Definition initSession (sessionId : string) : M unit :=
  current <- gets (fun w => LifecycleState.currentSessionId (lifecycleManager w)) ;;
  if sameSession current sessionId then ret tt
  else
    clearSessionData ;;;
    modify (fun w => with_lifecycleManager
                       (LifecycleState.mk (LifecycleState.auditLog (lifecycleManager w))
                                          (Some sessionId)) w).

Definition logAudit (action : AuditAction) (entityId : string)
    (previousState : option Store.t) (newState : Store.t) : M unit :=
  id <- randomUUID ;;
  timestamp <- new_Date ;;
  modify (fun w =>
    let l := lifecycleManager w in
    with_lifecycleManager
      (LifecycleState.mk
         (LifecycleState.auditLog l
            ++ [AuditLog.mk id action "store" entityId previousState newState
                  "system" timestamp])%list
         (LifecycleState.currentSessionId l)) w).

Definition refused (store : Store.t) (message : string) : LifecycleResult.t :=
  LifecycleResult.mk false store None (Some message).

Definition accepted (store updatedStore : Store.t) (newStatus : StoreStatus)
    (reason : option string) (now : JS.Date) : LifecycleResult.t :=
  LifecycleResult.mk true updatedStore
    (Some (LifecycleEvent.mk (Store.storeCode store) (Store.status store)
             newStatus reason now))
    None.

Definition activate (store : Store.t) (reason : option string) : M LifecycleResult.t :=
  if StoreStatus_eqb (Store.status store) SActive then
    ret (refused store "Lo store è già attivo")
  else if negb (isValidTransition (Store.status store) SActive) then
    ret (refused store ("Impossibile attivare uno store con stato: "
                          ++ StoreStatus_str (Store.status store)))
  else
    now <- new_Date ;;
    let updatedStore :=
      Store.mk (Store.storeCode store) (Store.businessName store) (Store.address store)
        (Store.squareMeters store) SActive
        (match Store.activationDate store with
         | Some d => Some d
         | None => Some now
         end)
        None (Store.createdAt store) now in
    logAudit store_updated (Store.storeCode store) (Some store) updatedStore ;;;
    ret (accepted store updatedStore SActive reason now).

Definition deactivate (store : Store.t) (reason : option string) : M LifecycleResult.t :=
  if StoreStatus_eqb (Store.status store) SInactive then
    ret (refused store "Lo store è già inattivo")
  else if negb (isValidTransition (Store.status store) SInactive) then
    ret (refused store ("Impossibile disattivare uno store con stato: "
                          ++ StoreStatus_str (Store.status store)))
  else
    now <- new_Date ;;
    let updatedStore :=
      Store.mk (Store.storeCode store) (Store.businessName store) (Store.address store)
        (Store.squareMeters store) SInactive (Store.activationDate store)
        (Some now) (Store.createdAt store) now in
    logAudit store_deactivated (Store.storeCode store) (Some store) updatedStore ;;;
    ret (accepted store updatedStore SInactive reason now).

Definition suspend (store : Store.t) (reason : option string) : M LifecycleResult.t :=
  if StoreStatus_eqb (Store.status store) SSuspended then
    ret (refused store "Lo store è già sospeso")
  else if negb (isValidTransition (Store.status store) SSuspended) then
    ret (refused store ("Impossibile sospendere uno store con stato: "
                          ++ StoreStatus_str (Store.status store)))
  else
    now <- new_Date ;;
    let updatedStore :=
      Store.mk (Store.storeCode store) (Store.businessName store) (Store.address store)
        (Store.squareMeters store) SSuspended (Store.activationDate store)
        (Store.closureDate store) (Store.createdAt store) now in
    logAudit store_updated (Store.storeCode store) (Some store) updatedStore ;;;
    ret (accepted store updatedStore SSuspended reason now).

(** createStore on the four fields of an imported row. *)
Definition createStore (data : ImportRow.t) : M Store.t :=
  now <- new_Date ;;
  let store :=
    Store.mk (ImportRow.storeCode data) (ImportRow.businessName data)
      (ImportRow.address data) (ImportRow.squareMeters data)
      SPending None None now now in
  logAudit store_created (Store.storeCode store) None store ;;;
  ret store.

(** The test of the second branch of the loop over the imported rows. *)
Definition differs (existing : Store.t) (data : ImportRow.t) : bool :=
  negb (String.eqb (Store.businessName existing) (ImportRow.businessName data))
  || negb (String.eqb (Store.address existing) (ImportRow.address data))
  || negb (JS.numEq (Store.squareMeters existing) (ImportRow.squareMeters data)).

(** The loop over the imported rows: [created] and [updated]. *)
Fixpoint importLoop (existingStores : JsMap.t Store.t) (importedData : list ImportRow.t)
    (created updated : list Store.t) : M (list Store.t * list Store.t) :=
  match importedData with
  | [] => ret (created, updated)
  | data :: rest =>
      match JsMap.get existingStores (ImportRow.storeCode data) with
      | None =>
          store <- createStore data ;;
          result <- activate store (Some "Importazione iniziale") ;;
          importLoop existingStores rest
            (if LifecycleResult.success result
             then (created ++ [LifecycleResult.store result])%list else created)
            updated
      | Some existing =>
          if differs existing data then
            now <- new_Date ;;
            let updatedStore :=
              Store.mk (Store.storeCode existing) (ImportRow.businessName data)
                (ImportRow.address data) (ImportRow.squareMeters data)
                (Store.status existing) (Store.activationDate existing)
                (Store.closureDate existing) (Store.createdAt existing) now in
            logAudit store_updated (Store.storeCode existing) (Some existing)
                     updatedStore ;;;
            importLoop existingStores rest created (updated ++ [updatedStore])%list
          else importLoop existingStores rest created updated
      end
  end.

(** The loop over the existing stores: [deactivated]. *)
Fixpoint absentLoop (entries : list (string * Store.t)) (importedCodes : list string)
    (deactivated : list Store.t) : M (list Store.t) :=
  match entries with
  | [] => ret deactivated
  | (code, store) :: rest =>
      if negb (List.existsb (String.eqb code) importedCodes)
         && StoreStatus_eqb (Store.status store) SActive
      then
        result <- deactivate store (Some "Non presente nell'ultima importazione") ;;
        absentLoop rest importedCodes
          (if LifecycleResult.success result
           then (deactivated ++ [LifecycleResult.store result])%list else deactivated)
      else absentLoop rest importedCodes deactivated
  end.

Definition processBulkUpdate (existingStores : JsMap.t Store.t)
    (importedData : list ImportRow.t) : M BulkUpdate.t :=
  let importedCodes := List.map ImportRow.storeCode importedData in
  cu <- importLoop existingStores importedData [] [] ;;
  deactivated <- absentLoop existingStores importedCodes [] ;;
  ret (BulkUpdate.mk (fst cu) (snd cu) deactivated).

Definition getAuditLog : M (list AuditLog.t) :=
  gets (fun w => LifecycleState.auditLog (lifecycleManager w)).

Definition getStoreAuditLog (storeCode : string) : M (list AuditLog.t) :=
  gets (fun w => List.filter (fun entry => String.eqb (AuditLog.entityId entry) storeCode)
                   (LifecycleState.auditLog (lifecycleManager w))).

End LifecycleManager.

(* ========================================================================= *)
(** * Policy service (src/lib/core/policy-service.ts) *)
(* ========================================================================= *)

Module CreatePolicyInput.
Record t := mk {
  store : Store.t;
  coverageType : CoverageType;
  effectiveFrom : option JS.Date;      (* optional *)
  durationMonths : option Z            (* optional, an integral number *) }.
End CreatePolicyInput.

(** The object that getPortfolioSummary returns. *)
Module PortfolioSummary.
Record t := mk {
  totalPolicies : nat;
  activePolicies : nat;
  totalPremium : float;
  totalInsuredSum : float }.
End PortfolioSummary.

Module PolicyService.

Local Open Scope js_scope.

Definition clearSessionData : M unit :=
  modify (with_policyService (PolicyState.mk [] [] None)).

Definition initSession (sessionId : string) : M unit :=
  current <- gets (fun w => PolicyState.currentSessionId (policyService w)) ;;
  if LifecycleManager.sameSession current sessionId then ret tt
  else
    clearSessionData ;;;
    modify (fun w =>
      let p := policyService w in
      with_policyService
        (PolicyState.mk (PolicyState.policies p) (PolicyState.certificates p)
                        (Some sessionId)) w).

(** [this.policies.set(policyId, policy)] *)
Definition storePolicy (policy : Policy.t) : M unit :=
  modify (fun w =>
    let p := policyService w in
    with_policyService
      (PolicyState.mk (JsMap.set (PolicyState.policies p) (Policy.policyId policy) policy)
                      (PolicyState.certificates p) (PolicyState.currentSessionId p)) w).

(** [effectiveTo = new Date(effectiveFrom);
     effectiveTo.setMonth(effectiveTo.getMonth() + durationMonths)] *)
Definition addMonths (tza : Z -> bool -> Z) (effectiveFrom : JS.Date) (durationMonths : Z)
  : JS.Date :=
  JS.setMonth tza effectiveFrom
    (option_map (fun m => m + durationMonths) (JS.getMonth tza effectiveFrom)).

Definition createPolicy (input : CreatePolicyInput.t) : M Policy.t :=
  let store := CreatePolicyInput.store input in
  let coverageType := CreatePolicyInput.coverageType input in
  effectiveFrom <- PricingEngine.orNow (CreatePolicyInput.effectiveFrom input) ;;
  let durationMonths :=
    match CreatePolicyInput.durationMonths input with
    | Some n => n
    | None => 12
    end in
  pricing <- PricingEngine.calculate store coverageType None ;;
  tza <- asks LocalTZA ;;
  let effectiveTo := addMonths tza effectiveFrom durationMonths in
  now <- new_Date ;;
  stamp <- Date_now ;;
  let policy :=
    Policy.mk ("POL-" ++ Store.storeCode store ++ "-" ++ JS.showZ stamp)
      (Store.storeCode store) coverageType
      (PricingResult.insuredSum pricing) (PricingResult.premium pricing)
      effectiveFrom effectiveTo PActive now now in
  storePolicy policy ;;;
  ret policy.

Definition getPolicy (policyId : string) : M (option Policy.t) :=
  gets (fun w => JsMap.get (PolicyState.policies (policyService w)) policyId).

Definition getActivePolicy (storeCode : string) : M (option Policy.t) :=
  gets (fun w =>
    List.find (fun policy => String.eqb (Policy.storeCode policy) storeCode
                             && PolicyStatus_eqb (Policy.status policy) PActive)
              (JsMap.values (PolicyState.policies (policyService w)))).

Definition getStorePolicies (storeCode : string) : M (list Policy.t) :=
  gets (fun w =>
    List.filter (fun p => String.eqb (Policy.storeCode p) storeCode)
                (JsMap.values (PolicyState.policies (policyService w)))).

Definition cancelPolicy (policyId : string) (reason : option string) : M Policy.t :=
  found <- getPolicy policyId ;;
  match found with
  | None => throw ("Polizza non trovata: " ++ policyId)
  | Some policy =>
      if PolicyStatus_eqb (Policy.status policy) PCancelled then
        throw "La polizza è già stata annullata"
      else
        now <- new_Date ;;
        let updatedPolicy :=
          Policy.mk (Policy.policyId policy) (Policy.storeCode policy)
            (Policy.coverageType policy) (Policy.insuredSum policy)
            (Policy.premium policy) (Policy.effectiveFrom policy)
            (Policy.effectiveTo policy) PCancelled (Policy.createdAt policy) now in
        modify (fun w =>
          let p := policyService w in
          with_policyService
            (PolicyState.mk (JsMap.set (PolicyState.policies p) policyId updatedPolicy)
                            (PolicyState.certificates p)
                            (PolicyState.currentSessionId p)) w) ;;;
        ret updatedPolicy
  end.

Definition updatePolicyPricing (policyId : string) (store : Store.t) : M Policy.t :=
  found <- getPolicy policyId ;;
  match found with
  | None => throw ("Polizza non trovata: " ++ policyId)
  | Some policy =>
      pricing <- PricingEngine.calculate store (Policy.coverageType policy) None ;;
      now <- new_Date ;;
      let updatedPolicy :=
        Policy.mk (Policy.policyId policy) (Policy.storeCode policy)
          (Policy.coverageType policy) (PricingResult.insuredSum pricing)
          (PricingResult.premium pricing) (Policy.effectiveFrom policy)
          (Policy.effectiveTo policy) (Policy.status policy)
          (Policy.createdAt policy) now in
      modify (fun w =>
        let p := policyService w in
        with_policyService
          (PolicyState.mk (JsMap.set (PolicyState.policies p) policyId updatedPolicy)
                          (PolicyState.certificates p)
                          (PolicyState.currentSessionId p)) w) ;;;
      ret updatedPolicy
  end.

(** [this.certificates.set(certId, certificate)] *)
Definition storeCertificate (certificate : Certificate.t) : M unit :=
  modify (fun w =>
    let p := policyService w in
    with_policyService
      (PolicyState.mk (PolicyState.policies p)
         (JsMap.set (PolicyState.certificates p) (Certificate.certId certificate)
            certificate)
         (PolicyState.currentSessionId p)) w).

Definition generateCertificate (policy : Policy.t) : M Certificate.t :=
  now <- new_Date ;;
  stamp <- Date_now ;;
  let certificate :=
    Certificate.mk ("CERT-" ++ Policy.policyId policy ++ "-" ++ JS.showZ stamp)
      (Policy.policyId policy) now
      ("/documents/certificates/" ++ Policy.policyId policy ++ ".pdf")
      (Policy.effectiveFrom policy) (Policy.effectiveTo policy) now in
  storeCertificate certificate ;;;
  ret certificate.

Definition getCertificate (certId : string) : M (option Certificate.t) :=
  gets (fun w => JsMap.get (PolicyState.certificates (policyService w)) certId).

Definition getPolicyCertificates (policyId : string) : M (list Certificate.t) :=
  gets (fun w =>
    List.filter (fun c => String.eqb (Certificate.policyId c) policyId)
                (JsMap.values (PolicyState.certificates (policyService w)))).

(** The loop of getPortfolioSummary: the number of active policies and the
    sums of their premiums and insured sums. *)
Definition addToSummary (acc : nat * float * float) (policy : Policy.t)
  : nat * float * float :=
  let '(activePolicies, totalPremium, totalInsuredSum) := acc in
  if PolicyStatus_eqb (Policy.status policy) PActive then
    (S activePolicies,
     PrimFloat.add totalPremium (Policy.premium policy),
     PrimFloat.add totalInsuredSum (Policy.insuredSum policy))
  else acc.

Definition getPortfolioSummary : M PortfolioSummary.t :=
  gets (fun w =>
    let policies := JsMap.values (PolicyState.policies (policyService w)) in
    let '(activePolicies, totalPremium, totalInsuredSum) :=
      List.fold_left addToSummary policies (O, 0%float, 0%float) in
    PortfolioSummary.mk (List.length policies) activePolicies
      (PricingEngine.round2 totalPremium) (PricingEngine.round2 totalInsuredSum)).

End PolicyService.

(* ========================================================================= *)
(** * Import queue (src/lib/ingestion/import-queue.ts) *)
(* ========================================================================= *)

Module ImportQueue.

Local Open Scope js_scope.

Definition AUTHORIZED_ROLES : list UserRole := [admin; broker].
Definition MAX_JOBS_PER_SESSION : nat := 100.
Definition JOB_RETENTION_HOURS : Z := 24.
Definition CONTENT_CLEAR_DELAY_MS : Z := 5000.

(** [AUTHORIZED_ROLES.includes(userRole)] *)
Definition isAuthorized (userRole : UserRole) : bool :=
  List.existsb (UserRole_eqb userRole) AUTHORIZED_ROLES.

(** [AUTHORIZED_ROLES.join(", ")] *)
Definition authorizedRolesText : string :=
  String.concat ", " (List.map UserRole_str AUTHORIZED_ROLES).

(** ** Field updates of the queue and of job objects *)

Definition with_jobs (j : JsMap.t Ref) (q : QueueState.t) : QueueState.t :=
  QueueState.mk j (QueueState.queue q) (QueueState.processing q)
    (QueueState.subscribers q) (QueueState.stores q) (QueueState.currentSessionId q).
Definition with_queue (l : list string) (q : QueueState.t) : QueueState.t :=
  QueueState.mk (QueueState.jobs q) l (QueueState.processing q)
    (QueueState.subscribers q) (QueueState.stores q) (QueueState.currentSessionId q).
Definition with_processing (b : bool) (q : QueueState.t) : QueueState.t :=
  QueueState.mk (QueueState.jobs q) (QueueState.queue q) b
    (QueueState.subscribers q) (QueueState.stores q) (QueueState.currentSessionId q).
Definition with_subscribers (s : list JobCallback) (q : QueueState.t) : QueueState.t :=
  QueueState.mk (QueueState.jobs q) (QueueState.queue q) (QueueState.processing q)
    s (QueueState.stores q) (QueueState.currentSessionId q).
Definition with_stores (s : JsMap.t Store.t) (q : QueueState.t) : QueueState.t :=
  QueueState.mk (QueueState.jobs q) (QueueState.queue q) (QueueState.processing q)
    (QueueState.subscribers q) s (QueueState.currentSessionId q).
Definition with_session (s : option string) (q : QueueState.t) : QueueState.t :=
  QueueState.mk (QueueState.jobs q) (QueueState.queue q) (QueueState.processing q)
    (QueueState.subscribers q) (QueueState.stores q) s.

Definition updQueue (f : QueueState.t -> QueueState.t) : M unit :=
  modify (fun w => with_importQueue (f (importQueue w)) w).

Definition set_status (s : JobStatus) (j : Job.t) : Job.t :=
  Job.mk (Job.jobId j) (Job.filename j) (Job.uploadedBy j) s (Job.progress j)
    (Job.result j) (Job.createdAt j) (Job.startedAt j) (Job.completedAt j)
    (Job.error j) (Job.content j).
Definition set_progress (p : nat) (j : Job.t) : Job.t :=
  Job.mk (Job.jobId j) (Job.filename j) (Job.uploadedBy j) (Job.status j) p
    (Job.result j) (Job.createdAt j) (Job.startedAt j) (Job.completedAt j)
    (Job.error j) (Job.content j).
Definition set_result (r : ProcessingResult.t) (j : Job.t) : Job.t :=
  Job.mk (Job.jobId j) (Job.filename j) (Job.uploadedBy j) (Job.status j)
    (Job.progress j) (Some r) (Job.createdAt j) (Job.startedAt j)
    (Job.completedAt j) (Job.error j) (Job.content j).
Definition set_startedAt (d : JS.Date) (j : Job.t) : Job.t :=
  Job.mk (Job.jobId j) (Job.filename j) (Job.uploadedBy j) (Job.status j)
    (Job.progress j) (Job.result j) (Job.createdAt j) (Some d)
    (Job.completedAt j) (Job.error j) (Job.content j).
Definition set_completedAt (d : JS.Date) (j : Job.t) : Job.t :=
  Job.mk (Job.jobId j) (Job.filename j) (Job.uploadedBy j) (Job.status j)
    (Job.progress j) (Job.result j) (Job.createdAt j) (Job.startedAt j)
    (Some d) (Job.error j) (Job.content j).
Definition set_error (e : string) (j : Job.t) : Job.t :=
  Job.mk (Job.jobId j) (Job.filename j) (Job.uploadedBy j) (Job.status j)
    (Job.progress j) (Job.result j) (Job.createdAt j) (Job.startedAt j)
    (Job.completedAt j) (Some e) (Job.content j).
(** [delete job.content], and the rest pattern that leaves [content] out. *)
Definition without_content (j : Job.t) : Job.t :=
  Job.mk (Job.jobId j) (Job.filename j) (Job.uploadedBy j) (Job.status j)
    (Job.progress j) (Job.result j) (Job.createdAt j) (Job.startedAt j)
    (Job.completedAt j) (Job.error j) None.

(** ** Job objects *)

Definition alloc (job : InternalJob) : M Ref :=
  fun _ w => (Ok (List.length (heap w)), with_heap (heap w ++ [job])%list w).

(** Reading a property of a reference that holds no object is a TypeError. *)
Definition deref (r : Ref) : M InternalJob :=
  fun _ w =>
    match nth_error (heap w) r with
    | Some job => (Ok job, w)
    | None => (Throw "Cannot read properties of undefined", w)
    end.

Fixpoint updateAt {A} (l : list A) (n : nat) (f : A -> A) : list A :=
  match l, n with
  | [], _ => []
  | a :: r, O => f a :: r
  | a :: r, S k => a :: updateAt r k f
  end.

Definition updJob (r : Ref) (f : InternalJob -> InternalJob) : M unit :=
  modify (fun w => with_heap (updateAt (heap w) r f) w).

(** ** Session *)

Definition clearSessionData : M unit :=
  updQueue (fun q => QueueState.mk [] [] false (QueueState.subscribers q) [] None).

Definition initSession (sessionId : string) : M unit :=
  current <- gets (fun w => QueueState.currentSessionId (importQueue w)) ;;
  if LifecycleManager.sameSession current sessionId then ret tt
  else clearSessionData ;;; updQueue (with_session (Some sessionId)).

(** ** Reading *)

Definition sanitizeJob (job : InternalJob) : ImportJob := without_content job.

Definition notifySubscribers (job : ImportJob) : M unit :=
  modify (fun w =>
    with_published
      (published w
         ++ List.map (fun callback => (callback, job))
              (QueueState.subscribers (importQueue w)))%list w).

Definition getJob (jobId : string) : M (option ImportJob) :=
  q <- gets importQueue ;;
  match JsMap.get (QueueState.jobs q) jobId with
  | Some r => job <- deref r ;; ret (Some (sanitizeJob job))
  | None => ret None
  end.

(** The comparator [(a, b) => b.createdAt.getTime() - a.createdAt.getTime()];
    a NaN difference counts as zero. *)
Definition newestFirst (a b : ImportJob) : Z :=
  match Job.createdAt b, Job.createdAt a with
  | Some tb, Some ta => tb - ta
  | _, _ => 0
  end.

(** Array.prototype.sort is stable. *)
Fixpoint insertSorted {A} (cmp : A -> A -> Z) (x : A) (l : list A) : list A :=
  match l with
  | [] => [x]
  | y :: r => if cmp x y <=? 0 then x :: y :: r else y :: insertSorted cmp x r
  end.

Fixpoint sort {A} (cmp : A -> A -> Z) (l : list A) : list A :=
  match l with
  | [] => []
  | x :: r => insertSorted cmp x (sort cmp r)
  end.

Fixpoint derefAll (refs : list Ref) : M (list InternalJob) :=
  match refs with
  | [] => ret []
  | r :: rest => job <- deref r ;; jobs <- derefAll rest ;; ret (job :: jobs)
  end.

Definition getAllJobs : M (list ImportJob) :=
  q <- gets importQueue ;;
  jobs <- derefAll (JsMap.values (QueueState.jobs q)) ;;
  ret (sort newestFirst (List.map sanitizeJob jobs)).

Definition getStores : M (list Store.t) :=
  gets (fun w => JsMap.values (QueueState.stores (importQueue w))).

Definition getStore (storeCode : string) : M (option Store.t) :=
  gets (fun w => JsMap.get (QueueState.stores (importQueue w)) storeCode).

(** ** Subscriptions *)

(** [this.subscribers.add(callback)]; the function it returns is [unsubscribe]. *)
Definition subscribe (callback : JobCallback) : M unit :=
  updQueue (fun q =>
    if List.existsb (Nat.eqb callback) (QueueState.subscribers q) then q
    else with_subscribers (QueueState.subscribers q ++ [callback])%list q).

Definition unsubscribe (callback : JobCallback) : M unit :=
  updQueue (fun q =>
    with_subscribers
      (List.filter (fun c => negb (Nat.eqb callback c)) (QueueState.subscribers q)) q).

(** ** Pruning *)

Definition retentionMs : Z := JOB_RETENTION_HOURS * 60 * 60 * 1000.

(** The test of pruneOldJobs on one job. *)
Definition isOld (now : Z) (job : InternalJob) : bool :=
  (JobStatus_eqb (Job.status job) completed || JobStatus_eqb (Job.status job) failed)
  && match Job.createdAt job with
     | Some created => retentionMs <? now - created
     | None => false
     end.

Definition pruneOldJobs : M unit :=
  now <- Date_now ;;
  modify (fun w =>
    let q := importQueue w in
    let kept :=
      List.fold_left
        (fun jobs entry =>
           match nth_error (heap w) (snd entry) with
           | Some job => if isOld now job then JsMap.delete jobs (fst entry) else jobs
           | None => jobs
           end)
        (QueueState.jobs q) (QueueState.jobs q) in
    with_importQueue (with_jobs kept q) w).

(** ** Applying an import *)

Definition putStore (store : Store.t) : M unit :=
  updQueue (fun q =>
    with_stores (JsMap.set (QueueState.stores q) (Store.storeCode store) store) q).

Definition applyImportChanges (rows : list ImportRow.t) : M unit :=
  stores <- gets (fun w => QueueState.stores (importQueue w)) ;;
  changes <- LifecycleManager.processBulkUpdate stores rows ;;
  forEach (BulkUpdate.created changes ++ BulkUpdate.updated changes)%list
    (fun store =>
       putStore store ;;;
       if StoreStatus_eqb (Store.status store) SActive then
         existingPolicy <- PolicyService.getActivePolicy (Store.storeCode store) ;;
         match existingPolicy with
         | None =>
             PolicyService.createPolicy
               (CreatePolicyInput.mk store catnat None None) ;;; ret tt
         | Some policy =>
             PolicyService.updatePolicyPricing (Policy.policyId policy) store ;;; ret tt
         end
       else ret tt) ;;;
  forEach (BulkUpdate.deactivated changes)
    (fun store =>
       putStore store ;;;
       policy <- PolicyService.getActivePolicy (Store.storeCode store) ;;
       match policy with
       | Some p =>
           PolicyService.cancelPolicy (Policy.policyId p) (Some "Store disattivato") ;;;
           ret tt
       | None => ret tt
       end).

(** ** Processing

    processNext is an async function.  It runs until it reaches an await,
    where the rest is left with the event loop, or until it ends. *)

Inductive Progress := Suspended | Finished.

(** The promise of a call to an async function without awaits of its own:
    the body has run, and the outcome is delivered at the await. *)
Definition settle {A} (m : M A) : M (Result A) :=
  fun e w => let '(r, w') := m e w in (Ok r, w').

Definition scheduleClearContent (jobId : string) : M unit :=
  spawn (ClearContentTimer jobId).

(** The catch block of processNext. *)
Definition failJob (job : Ref) (jobId : string) (message : string) : M Progress :=
  updJob job (set_status failed) ;;;
  updJob job (set_error message) ;;;
  now <- new_Date ;;
  updJob job (set_completedAt now) ;;;
  scheduleClearContent jobId ;;;
  ret Finished.

(** What follows the try statement of processNext. *)
Definition afterTry (job : Ref) (p : Progress) : M unit :=
  match p with
  | Suspended => ret tt
  | Finished =>
      j <- deref job ;;
      notifySubscribers (sanitizeJob j) ;;;
      updQueue (with_processing false) ;;;
      q <- gets importQueue ;;
      match QueueState.queue q with
      | [] => ret tt
      | _ :: _ => spawn ProcessNextTimer
      end
  end.

(** The end of the try block, from [job.result = result]. *)
Definition complete (job : Ref) (jobId : string) (result : ProcessingResult.t)
  : M Progress :=
  let valid := ValidationResult.isValid (ProcessingResult.validation result) in
  updJob job (set_result result) ;;;
  updJob job (set_status (if valid then completed else failed)) ;;;
  updJob job (set_progress 100) ;;;
  now <- new_Date ;;
  updJob job (set_completedAt now) ;;;
  (if valid then ret tt
   else updJob job
          (set_error ("Validazione fallita con "
             ++ JS.showZ (Z.of_nat (List.length
                  (ValidationResult.errors (ProcessingResult.validation result))))
             ++ " errori"))) ;;;
  scheduleClearContent jobId ;;;
  ret Finished.

(** [if (!content)]: absent or empty. *)
Definition usable (content : option string) : option string :=
  match content with
  | Some c => if JS.isEmpty c then None else Some c
  | None => None
  end.

(** The try block up to the first await. *)
Definition startJob (job : Ref) (jobId : string) : M Progress :=
  updJob job (set_status processing) ;;;
  now <- new_Date ;;
  updJob job (set_startedAt now) ;;;
  updJob job (set_progress 10) ;;;
  j <- deref job ;;
  notifySubscribers (sanitizeJob j) ;;;
  match usable (Job.content j) with
  | None => throw "Contenuto del file non disponibile"
  | Some content =>
      result <- FileProcessor.processFile (Job.filename j) content (Job.uploadedBy j) ;;
      spawn (AwaitProcessFile job jobId result) ;;;
      ret Suspended
  end.

Definition processNext : M unit :=
  q <- gets importQueue ;;
  if QueueState.processing q then ret tt
  else
    match QueueState.queue q with
    | [] => ret tt
    | jobId :: rest =>
        updQueue (with_processing true) ;;;
        updQueue (with_queue rest) ;;;
        match JsMap.get (QueueState.jobs q) jobId with
        | None =>
            (* [job] is undefined: the assignment in the try block and the
               one in the catch block both throw, the promise is rejected *)
            ret tt
        | Some job =>
            p <- tryCatch (startJob job jobId) (failJob job jobId) ;;
            afterTry job p
        end
    end.

(** processNext resumed with the result of processFile. *)
Definition resumeAfterProcessFile (job : Ref) (jobId : string)
    (result : ProcessingResult.t) : M unit :=
  p <- tryCatch
         (updJob job (set_progress 50) ;;;
          j <- deref job ;;
          notifySubscribers (sanitizeJob j) ;;;
          if ValidationResult.isValid (ProcessingResult.validation result)
             && negb (Nat.eqb (List.length (ProcessingResult.rows result)) 0)
          then
            outcome <- settle (applyImportChanges (ProcessingResult.rows result)) ;;
            spawn (AwaitApply job jobId result outcome) ;;;
            ret Suspended
          else complete job jobId result)
         (failJob job jobId) ;;
  afterTry job p.

(** processNext resumed with the outcome of applyImportChanges. *)
Definition resumeAfterApply (job : Ref) (jobId : string)
    (result : ProcessingResult.t) (outcome : Result unit) : M unit :=
  p <- tryCatch
         (liftResult outcome ;;;
          updJob job (set_progress 90) ;;;
          j <- deref job ;;
          notifySubscribers (sanitizeJob j) ;;;
          complete job jobId result)
         (failJob job jobId) ;;
  afterTry job p.

(** The callback of the timer set by scheduleClearContent. *)
Definition clearContent (jobId : string) : M unit :=
  q <- gets importQueue ;;
  match JsMap.get (QueueState.jobs q) jobId with
  | Some job => updJob job without_content
  | None => ret tt
  end.

Definition runTask (t : Task) : M unit :=
  match t with
  | AwaitProcessFile job jobId result => resumeAfterProcessFile job jobId result
  | AwaitApply job jobId result outcome => resumeAfterApply job jobId result outcome
  | ClearContentTimer jobId => clearContent jobId
  | ProcessNextTimer => processNext
  end.

(** ** Mutating entry points *)

Definition enqueue (filename content uploadedBy : string) (userRole : UserRole)
  : M ImportJob :=
  if negb (isAuthorized userRole) then
    throw ("Accesso negato: solo " ++ authorizedRolesText
             ++ " possono eseguire importazioni")
  else
    pruneOldJobs ;;;
    q <- gets importQueue ;;
    if (MAX_JOBS_PER_SESSION <=? JsMap.size (QueueState.jobs q))%nat then
      throw ("Limite massimo di " ++ JS.showZ (Z.of_nat MAX_JOBS_PER_SESSION)
               ++ " job per sessione raggiunto. "
               ++ "Attendere il completamento o eliminare job esistenti.")
    else
      stamp <- Date_now ;;
      id <- randomUUID ;;
      createdAt <- new_Date ;;
      let jobId := "JOB-" ++ JS.showZ stamp ++ "-" ++ String.substring 0 8 id in
      job <- alloc (Job.mk jobId filename uploadedBy queued 0 None createdAt
                      None None None (Some content)) ;;
      updQueue (fun q => with_jobs (JsMap.set (QueueState.jobs q) jobId job) q) ;;;
      updQueue (fun q => with_queue (QueueState.queue q ++ [jobId])%list q) ;;;
      j <- deref job ;;
      notifySubscribers (sanitizeJob j) ;;;
      processNext ;;;
      j' <- deref job ;;
      ret (sanitizeJob j').

Definition deleteJob (jobId : string) (userRole : UserRole) : M bool :=
  if negb (isAuthorized userRole) then
    throw "Accesso negato: permessi insufficienti per eliminare job"
  else
    q <- gets importQueue ;;
    match JsMap.get (QueueState.jobs q) jobId with
    | None => ret false
    | Some r =>
        job <- deref r ;;
        if JobStatus_eqb (Job.status job) processing then
          throw "Impossibile eliminare un job in elaborazione"
        else
          updQueue (fun q => with_jobs (JsMap.delete (QueueState.jobs q) jobId) q) ;;;
          ret true
    end.

End ImportQueue.

(** The event loop runs one piece of pending work at a time, to its end. *)
Inductive step (e : Env) : World -> World -> Prop :=
  | step_task : forall w before t after r w',
      tasks w = (before ++ t :: after)%list ->
      ImportQueue.runTask t e (with_tasks (before ++ after)%list w) = (r, w') ->
      step e w w'.

(* ========================================================================= *)
(** * Sample inputs *)
(* ========================================================================= *)

Module Sample.

Definition nl : string := String JS.newline "".
Definition quote : string := String JS.dquote "".

(** A host whose clock starts on 2025-06-15 and advances by a millisecond at
    each reading, in the UTC time zone. *)
Definition env : Env :=
  {| clock := fun n => 1750000000000 + Z.of_nat n;
     uuid := fun _ => "3f2b8c1e-7a54-4d0b-9e6f-1c2d3e4f5a6b";
     LocalTZA := fun _ _ => 0;
     numberToString := fun _ => "n" |}.

Definition emptyQueue : QueueState.t := QueueState.mk [] [] false [] [] None.

(** The services as they are when the modules are loaded. *)
Definition world : World :=
  mkWorld 0 0 PricingEngine.DEFAULT_PRICING_CONFIGS
    (LifecycleState.mk [] None) (PolicyState.mk [] [] None) emptyQueue [] [] [].

(** The scenario of the specification: a negative area and a duplicate code. *)
Definition csvScenario : string :=
  "codice;mq" ++ nl ++ "S1;100" ++ nl ++ "S2;-5" ++ nl ++ "S1;200".

(** Every row maps, and one store code occurs twice. *)
Definition csvDuplicate : string :=
  "codice;mq" ++ nl ++ "S1;100" ++ nl ++ "S2;250" ++ nl ++ "S1;200".

(** The codes are distinct, and one row has no usable area. *)
Definition csvUnmappable : string :=
  "codice;mq" ++ nl ++ "S1;100" ++ nl ++ "S2;abc" ++ nl ++ "S3;200".

Definition csvValid : string :=
  "codice;nome;mq" ++ nl ++ "S1;Uno;100" ++ nl ++ "S2;Due;250.5".

(** A semicolon-separated file with a quoted address that holds a comma. *)
Definition csvQuoted : string :=
  "codice;indirizzo;mq" ++ nl
    ++ "S1;" ++ quote ++ "Via Roma, 1" ++ quote ++ ";100".

(** A semicolon-separated file with a decimal comma. *)
Definition csvDecimalComma : string :=
  "codice;mq" ++ nl ++ "S1;100,5".

Definition someDate : JS.Date := Some 1700000000000.

Definition store (code name : string) (mq : float) (status : StoreStatus)
    (activationDate closureDate : option JS.Date) : Store.t :=
  Store.mk code name "Via Roma 1" mq status activationDate closureDate
    someDate someDate.

End Sample.

(* ========================================================================= *)
(** * Notions used in the statements *)
(* ========================================================================= *)

(** The job objects behind a list of references, read from the heap. *)
Fixpoint lookupAll (heap : list InternalJob) (refs : list Ref) : option (list InternalJob) :=
  match refs with
  | [] => Some []
  | r :: rest =>
      match nth_error heap r, lookupAll heap rest with
      | Some job, Some jobs => Some (job :: jobs)
      | _, _ => None
      end
  end.

(** One call of notifySubscribers: the job, to each subscriber in turn. *)
Definition notices (subscribers : list JobCallback) (job : ImportJob)
  : list (JobCallback * ImportJob) :=
  List.map (fun callback => (callback, job)) subscribers.

(** What a computation of the queue leaves as it is: the subscribers, the
    identity of the job objects, and what was published before; what it
    publishes goes to subscribers. *)
Definition Frame (w w' : World) : Prop :=
  QueueState.subscribers (importQueue w') = QueueState.subscribers (importQueue w)
  /\ List.map Job.jobId (heap w') = List.map Job.jobId (heap w)
  /\ exists rest,
       published w' = (published w ++ rest)%list
       /\ forall c j, In (c, j) rest -> In c (QueueState.subscribers (importQueue w)).

(** Every outcome of the computation, normal or not, keeps the frame. *)
Definition Framed {A} (m : M A) : Prop :=
  forall e w, Frame w (snd (m e w)).

(** The computation returns whenever the reference holds an object. *)
Definition Returns {A} (r : Ref) (m : M A) : Prop :=
  forall e w, (r < List.length (heap w))%nat -> exists a, fst (m e w) = Ok a.

(** The store that the loop pushes on [updated] for a changed row. *)
Definition updatedFrom (existing : Store.t) (data : ImportRow.t) (s : Store.t) : Prop :=
  Store.storeCode s = Store.storeCode existing
  /\ Store.businessName s = ImportRow.businessName data
  /\ Store.address s = ImportRow.address data
  /\ Store.squareMeters s = ImportRow.squareMeters data
  /\ Store.status s = Store.status existing
  /\ Store.activationDate s = Store.activationDate existing
  /\ Store.closureDate s = Store.closureDate existing
  /\ Store.createdAt s = Store.createdAt existing.

(** A double that is not negative: a zero, a positive number or +infinity. *)
Definition NonNeg (x : spec_float) : Prop :=
  match x with
  | S754_zero _ => True
  | S754_infinity s => s = false
  | S754_finite s _ _ => s = false
  | S754_nan => False
  end.

(** A double that is a number: a zero or a finite non-zero value. *)
Definition Finite (x : spec_float) : Prop :=
  match x with
  | S754_zero _ | S754_finite _ _ _ => True
  | _ => False
  end.

(** What the loop of calculateBulk computes: one error for each store that
    calculate refuses, in order, and the results of the others stored under
    their codes, in order. *)
Definition bulkErrors (configs : list PricingConfig.t) (coverageType : CoverageType)
    (date : JS.Date) (stores : list Store.t) : list PricingError.t :=
  List.flat_map
    (fun store =>
       match PricingEngine.calculateAt configs store coverageType date with
       | Ok _ => []
       | Throw message => [PricingError.mk (Store.storeCode store) coverageType message]
       end) stores.

Definition bulkResults (configs : list PricingConfig.t) (coverageType : CoverageType)
    (date : JS.Date) (stores : list Store.t) (results : JsMap.t PricingResult.t)
  : JsMap.t PricingResult.t :=
  List.fold_left
    (fun results store =>
       match PricingEngine.calculateAt configs store coverageType date with
       | Ok result => JsMap.set results (Store.storeCode store) result
       | Throw _ => results
       end) stores results.

Definition priced (configs : list PricingConfig.t) (coverageType : CoverageType)
    (date : JS.Date) (store : Store.t) : bool :=
  match PricingEngine.calculateAt configs store coverageType date with
  | Ok _ => true
  | Throw _ => false
  end.


(** A string that holds a character other than white space. *)
Fixpoint hasInk (s : string) : bool :=
  match s with
  | EmptyString => false
  | String c r => negb (JS.is_ws c) || hasInk r
  end.

(** A string that holds a character of the given class. *)
Fixpoint hasChar (p : ascii -> bool) (s : string) : bool :=
  match s with
  | EmptyString => false
  | String c r => p c || hasChar p r
  end.

(** The keys of an object after one more assignment. *)
Definition addKey (keys : list string) (k : string) : list string :=
  if List.existsb (fun k' => String.eqb k' k) keys then keys else (keys ++ [k])%list.

(** The names of a list without their repetitions, in the order in which
    they first occur. *)
Definition distinct (names : list string) : list string :=
  List.fold_left addKey names [].

(** The test of mapRows on a mapped row: the store code is not empty and the
    floor area is greater than zero. *)
Definition acceptable (row : ImportRow.t) : bool :=
  negb (JS.isEmpty (ImportRow.storeCode row))
  && PrimFloat.ltb 0%float (ImportRow.squareMeters row).

(** The error of validate for a row whose store code was seen before. *)
Definition repeated (index : nat) (row : ImportRow.t) : ImportError.t :=
  ImportError.mk (index + 2) "storeCode" (ImportRow.storeCode row)
    "Codice duplicato nel file".

(** The test of setConfig on an existing configuration: the same coverage
    type and the same start time as the new one. *)
Definition sameSlot (config c : PricingConfig.t) : bool :=
  CoverageType_eqb (PricingConfig.coverageType c) (PricingConfig.coverageType config)
  && PricingEngine.sameTime (PricingConfig.effectiveFrom c)
       (PricingConfig.effectiveFrom config).

(** Lifecycle operations applied one after the other, each to the store that
    the one before returned. *)
Fixpoint chain (operations : list (Store.t -> option string -> M LifecycleResult.t))
    (store : Store.t) : M Store.t :=
  match operations with
  | [] => ret store
  | operation :: rest =>
      bind (operation store None) (fun result => chain rest (LifecycleResult.store result))
  end.

(** The three cases of processBulkUpdate on an imported row and on an
    existing store. *)
Definition isNew (existingStores : JsMap.t Store.t) (data : ImportRow.t) : bool :=
  negb (JsMap.has existingStores (ImportRow.storeCode data)).

Definition isChanged (existingStores : JsMap.t Store.t) (data : ImportRow.t) : bool :=
  match JsMap.get existingStores (ImportRow.storeCode data) with
  | Some existing => LifecycleManager.differs existing data
  | None => false
  end.

Definition isAbsentActive (importedData : list ImportRow.t) (entry : string * Store.t)
  : bool :=
  negb (List.existsb (String.eqb (fst entry)) (List.map ImportRow.storeCode importedData))
  && StoreStatus_eqb (Store.status (snd entry)) SActive.

(** The store that the loop pushes on [created] for a row with a new code. *)
Definition createdFrom (data : ImportRow.t) (s : Store.t) : Prop :=
  Store.storeCode s = ImportRow.storeCode data
  /\ Store.businessName s = ImportRow.businessName data
  /\ Store.address s = ImportRow.address data
  /\ Store.squareMeters s = ImportRow.squareMeters data
  /\ Store.status s = SActive
  /\ Store.activationDate s <> None
  /\ Store.closureDate s = None.

(** The store that the loop pushes on [deactivated] for an existing store. *)
Definition deactivatedFrom (entry : string * Store.t) (s : Store.t) : Prop :=
  Store.storeCode s = Store.storeCode (snd entry)
  /\ Store.businessName s = Store.businessName (snd entry)
  /\ Store.address s = Store.address (snd entry)
  /\ Store.squareMeters s = Store.squareMeters (snd entry)
  /\ Store.status s = SInactive
  /\ Store.activationDate s = Store.activationDate (snd entry)
  /\ Store.closureDate s <> None.

(** The part of the world that the lifecycle manager does not own. *)
Definition outsideLifecycle (w : World)
  : list PricingConfig.t * PolicyState.t * QueueState.t * list InternalJob
    * list (JobCallback * ImportJob) * list Task :=
  (pricingConfigs w, policyService w, importQueue w, heap w, published w, tasks w).

Definition auditLength (w : World) : nat :=
  List.length (LifecycleState.auditLog (lifecycleManager w)).

(** A policy map as the service builds it: each policy is stored once, under
    its own id. *)
Definition wellKeyed (policies : JsMap.t Policy.t) : Prop :=
  NoDup (JsMap.keys policies)
  /\ Forall (fun entry => Policy.policyId (snd entry) = fst entry) policies.

Definition policiesOf (w : World) : JsMap.t Policy.t :=
  PolicyState.policies (policyService w).

Definition certificatesOf (w : World) : JsMap.t Certificate.t :=
  PolicyState.certificates (policyService w).

Definition isActivePolicy (policy : Policy.t) : bool :=
  PolicyStatus_eqb (Policy.status policy) PActive.

(** The policy that cancelPolicy stores: the status and the update time change. *)
Definition cancelledAt (policy : Policy.t) (now : JS.Date) : Policy.t :=
  Policy.mk (Policy.policyId policy) (Policy.storeCode policy)
    (Policy.coverageType policy) (Policy.insuredSum policy)
    (Policy.premium policy) (Policy.effectiveFrom policy)
    (Policy.effectiveTo policy) PCancelled (Policy.createdAt policy) now.

(** The policy that updatePolicyPricing stores: the amounts and the update
    time change. *)
Definition repricedAt (policy : Policy.t) (pricing : PricingResult.t) (now : JS.Date)
  : Policy.t :=
  Policy.mk (Policy.policyId policy) (Policy.storeCode policy)
    (Policy.coverageType policy) (PricingResult.insuredSum pricing)
    (PricingResult.premium pricing) (Policy.effectiveFrom policy)
    (Policy.effectiveTo policy) (Policy.status policy) (Policy.createdAt policy) now.

(** The world with another policy map. *)
Definition with_policies (policies : JsMap.t Policy.t) (w : World) : World :=
  with_policyService
    (PolicyState.mk policies (PolicyState.certificates (policyService w))
       (PolicyState.currentSessionId (policyService w))) w.

(** The number of stored policies whose status is active. *)
Definition activeCount (w : World) : nat :=
  List.length (List.filter isActivePolicy (JsMap.values (policiesOf w))).

(** A computation that leaves a part of the world as it is, whether it
    returns or throws. *)
Definition Keeps {A B} (part : World -> B) (m : M A) : Prop :=
  forall e w, part (snd (m e w)) = part w.

(** The job map and the number of its jobs. *)
Definition jobsOf (w : World) : JsMap.t Ref := QueueState.jobs (importQueue w).

(** The job object of a job id. *)
Definition jobOf (w : World) (jobId : string) : option InternalJob :=
  match JsMap.get (jobsOf w) jobId with
  | Some r => nth_error (heap w) r
  | None => None
  end.

(** Every reference of the job map holds a job object. *)
Definition refsValid (w : World) : Prop :=
  forall jobId r, JsMap.get (jobsOf w) jobId = Some r -> (r < List.length (heap w))%nat.

(** A job that is completed or failed. *)
Definition isFinished (job : InternalJob) : bool :=
  JobStatus_eqb (Job.status job) completed || JobStatus_eqb (Job.status job) failed.

(** What an import changes outside the queue's own bookkeeping: the stores,
    the policies, the audit log and the pricing configurations. *)
Definition business (w : World)
  : JsMap.t Store.t * PolicyState.t * LifecycleState.t * list PricingConfig.t :=
  (QueueState.stores (importQueue w), policyService w, lifecycleManager w,
   pricingConfigs w).

(** The test of pruneOldJobs on a reference of the job map, and one step of
    its loop over the entries. *)
Definition drops (now : Z) (objects : list InternalJob) (r : Ref) : bool :=
  match nth_error objects r with
  | Some job => ImportQueue.isOld now job
  | None => false
  end.

Definition pruneStep (now : Z) (objects : list InternalJob) (jobs : JsMap.t Ref)
    (entry : string * Ref) : JsMap.t Ref :=
  match nth_error objects (snd entry) with
  | Some job => if ImportQueue.isOld now job then JsMap.delete jobs (fst entry) else jobs
  | None => jobs
  end.

(** The job map once pruneOldJobs has run at the given time. *)
Definition prunedJobs (now : Z) (w : World) : JsMap.t Ref :=
  List.fold_left (pruneStep now (heap w)) (jobsOf w) (jobsOf w).

(** The job object that enqueue creates, and its id. *)
Definition newJobId (e : Env) (w : World) : string :=
  "JOB-" ++ JS.showZ (clock e (S (ticks w))) ++ "-" ++ String.substring 0 8 (uuid e (draws w)).

Definition newJob (filename content uploadedBy : string) (e : Env) (w : World)
  : InternalJob :=
  Job.mk (newJobId e w) filename uploadedBy queued 0 None
    (Some (clock e (S (S (ticks w))))) None None None (Some content).

(** The world in which enqueue calls processNext: the old jobs pruned, and the
    new job stored, queued and announced. *)
Definition enqueued (filename content uploadedBy : string) (e : Env) (w : World)
  : World :=
  let q := importQueue w in
  let job := newJob filename content uploadedBy e w in
  mkWorld (3 + ticks w) (S (draws w)) (pricingConfigs w) (lifecycleManager w)
    (policyService w)
    (QueueState.mk
       (JsMap.set (prunedJobs (clock e (ticks w)) w) (newJobId e w) (List.length (heap w)))
       (QueueState.queue q ++ [newJobId e w])%list
       (QueueState.processing q) (QueueState.subscribers q) (QueueState.stores q)
       (QueueState.currentSessionId q))
    (heap w ++ [job])%list
    (published w ++ notices (QueueState.subscribers q) (ImportQueue.sanitizeJob job))%list
    (tasks w).

(** The world in which enqueue refuses a job for lack of room. *)
Definition prunedWorld (e : Env) (w : World) : World :=
  with_importQueue (ImportQueue.with_jobs (prunedJobs (clock e (ticks w)) w) (importQueue w))
    (with_ticks (S (ticks w)) w).

Definition limitMessage : string :=
  "Limite massimo di 100 job per sessione raggiunto. Attendere il completamento o eliminare job esistenti.".

(** The raw content that each job object holds. *)
Definition contentsOf (w : World) : list (option string) :=
  List.map Job.content (heap w).


(** Pending work that is a timer, not the rest of an import under way. *)
Definition isTimer (t : Task) : bool :=
  match t with
  | ClearContentTimer _ | ProcessNextTimer => true
  | AwaitProcessFile _ _ _ | AwaitApply _ _ _ _ => false
  end.

(** A queue marked as busy while no import is under way. *)
Definition stalled (w : World) : Prop :=
  QueueState.processing (importQueue w) = true
  /\ Forall (fun t => isTimer t = true) (tasks w).

(** The status of each job object. *)
Definition statusesOf (w : World) : list JobStatus := List.map Job.status (heap w).

(** The event loop running the oldest piece of pending work. *)
Definition runOldest (e : Env) (w : World) : World :=
  match tasks w with
  | [] => w
  | t :: rest => snd (ImportQueue.runTask t e (with_tasks rest w))
  end.

(** The time at which a job was created. *)
Definition createdTime (job : ImportJob) : Z :=
  match Job.createdAt job with
  | Some t => t
  | None => 0
  end.

(** A job is listed before the jobs that are not newer. *)
Definition notOlder (a b : ImportJob) : Prop := createdTime b <= createdTime a.

(** The subscribers of the queue, and how many times one call of
    notifySubscribers calls a callback. *)
Definition subscribersOf (w : World) : list JobCallback :=
  QueueState.subscribers (importQueue w).

Definition callsTo (callback : JobCallback) (w : World) : nat :=
  List.length (List.filter (Nat.eqb callback) (subscribersOf w)).

(** A piece of pending work that applies the rows of an import: the rest of
    processNext after processFile, for a valid result with at least one row. *)
Definition appliesImport (t : Task) : bool :=
  match t with
  | AwaitProcessFile _ _ result =>
      ValidationResult.isValid (ProcessingResult.validation result)
      && negb (Nat.eqb (List.length (ProcessingResult.rows result)) 0)
  | _ => false
  end.

(** The timer set by scheduleClearContent. *)
Definition clearsContent (t : Task) : bool :=
  match t with
  | ClearContentTimer _ => true
  | _ => false
  end.

(** A queue at work: the import of a first file is suspended at its first
    await, and a second file waits for its turn. *)
Module Scenario.

Definition oneJob : World :=
  snd (ImportQueue.enqueue "a.csv" Sample.csvValid "anna" admin Sample.env Sample.world).

Definition twoJobs : World :=
  snd (ImportQueue.enqueue "b.csv" Sample.csvValid "anna" broker Sample.env oneJob).

Definition first : string := "JOB-1750000000001-3f2b8c1e".
Definition second : string := "JOB-1750000000008-3f2b8c1e".

(** A result of processFile that failed validation: a store code occurs
    twice. *)
Definition duplicate : ImportError.t :=
  ImportError.mk 4 "storeCode" "S1" "Codice duplicato nel file".

Definition invalidResult : ProcessingResult.t :=
  ProcessingResult.mk
    (FileImport.mk "IMP-1750000000004" "a.csv" IFailed 3 0 1 [duplicate] "anna"
       Sample.someDate (Some Sample.someDate))
    [] (ValidationResult.mk false [duplicate] []).

(** The waiting job is deleted, and the import under way runs to its end. *)
Definition afterDelete : World :=
  snd (ImportQueue.deleteJob second admin Sample.env twoJobs).

Definition orphaned : World :=
  runOldest Sample.env (runOldest Sample.env afterDelete).

End Scenario.

(** A header name that becomes an own property in the order of assignment:
    it is not an array index and not the name [__proto__]. *)
Definition ordinaryName (h : string) : bool :=
  negb (String.eqb h "__proto__")
  && match JS.arrayIndex h with
     | Some _ => false
     | None => true
     end.

(** The floor area that mapRows reads in a raw row, and the test that a raw
    row passes to be mapped: the store code is not empty, and the area is a
    number greater than zero. *)
Definition areaOf (sqmCol : string) (raw : FileProcessor.RawRow) : float :=
  JS.parseFloat (JS.replaceFirst "," "." (FileProcessor.field raw sqmCol)).

Definition mappable (storeCodeCol sqmCol : string) (raw : FileProcessor.RawRow) : bool :=
  negb (JS.isEmpty (FileProcessor.field raw storeCodeCol))
  && negb (JS.isNaN (areaOf sqmCol raw) || PrimFloat.leb (areaOf sqmCol raw) 0%float).

(** The row that mapRows makes of a raw row, and the error that it records
    for the raw row at an index when the row is not mapped. *)
Definition mappedRow (storeCodeCol sqmCol : string) (businessNameCol addressCol : option string)
    (raw : FileProcessor.RawRow) : ImportRow.t :=
  ImportRow.mk (FileProcessor.field raw storeCodeCol)
    (FileProcessor.optionalField raw businessNameCol)
    (FileProcessor.optionalField raw addressCol) (areaOf sqmCol raw).

Definition rowError (storeCodeCol sqmCol : string) (at_index : nat * FileProcessor.RawRow)
  : ImportError.t :=
  if JS.isEmpty (FileProcessor.field (snd at_index) storeCodeCol) then
    ImportError.mk (fst at_index + 2) "storeCode" "" "Codice store obbligatorio"
  else
    ImportError.mk (fst at_index + 2) "squareMeters"
      (FileProcessor.field (snd at_index) sqmCol)
      "Metri quadri deve essere un numero positivo".

(** The elements of a list with their indices, counted from [first]. *)
Definition numbered {A} (first : nat) (l : list A) : list (nat * A) :=
  List.combine (List.seq first (List.length l)) l.

(** A configuration of the coverage type whose period holds the date: it
    starts on or before the date, and has no end or ends on or after it. *)
Definition covers (coverageType : CoverageType) (date : JS.Date) (c : PricingConfig.t)
  : Prop :=
  PricingConfig.coverageType c = coverageType
  /\ JS.Date_le (PricingConfig.effectiveFrom c) date = true
  /\ forall to, PricingConfig.effectiveTo c = Some to -> JS.Date_le date to = true.

(** Two job objects that agree on every field but the content. *)
Definition sameButContent (a b : InternalJob) : Prop :=
  Job.jobId a = Job.jobId b
  /\ Job.filename a = Job.filename b
  /\ Job.uploadedBy a = Job.uploadedBy b
  /\ Job.status a = Job.status b
  /\ Job.progress a = Job.progress b
  /\ Job.result a = Job.result b
  /\ Job.createdAt a = Job.createdAt b
  /\ Job.startedAt a = Job.startedAt b
  /\ Job.completedAt a = Job.completedAt b
  /\ Job.error a = Job.error b.

(* ========================================================================= *)
(** * Properties *)
(* ========================================================================= *)

Local Open Scope js_scope.

(** ** The file processor *)

Section FileProcessorFacts.

  Import FileProcessor.

Variable show : float -> string.

(** The errors of the validation loop are the errors it starts from
    followed by one error for each row whose code was seen before. *)
Lemma validateLoop_no_errors :
  forall rows index errors warnings seenCodes,
    fst (validateLoop show rows index errors warnings seenCodes) = [] <->
    errors = []
    /\ NoDup (List.map ImportRow.storeCode rows)
    /\ (forall c, In c (List.map ImportRow.storeCode rows) -> ~ In c seenCodes).
Proof.
  induction rows as [|row rest IH]; intros index errors warnings seenCodes; simpl.
  - split.
    + intros ->. repeat split; [constructor | intros c []].
    + intros [-> _]. reflexivity.
  - rewrite IH. clear IH. unfold seen.
    destruct (existsb (String.eqb (ImportRow.storeCode row)) seenCodes) eqn:Hseen.
    + apply existsb_exists in Hseen. destruct Hseen as [c [Hin Heq]].
      apply String.eqb_eq in Heq. subst c.
      split.
      * intros [Hnil _]. destruct errors; discriminate.
      * intros [_ [_ Hfresh]]. exfalso.
        apply (Hfresh (ImportRow.storeCode row)); auto.
    + assert (Hnot : ~ In (ImportRow.storeCode row) seenCodes).
      { intro Hin. apply Bool.not_true_iff_false in Hseen. apply Hseen.
        apply existsb_exists. exists (ImportRow.storeCode row).
        split; [assumption | apply String.eqb_refl]. }
      split.
      * intros [He [Hnd Hfresh]]. repeat split; try assumption.
        -- constructor; [|assumption].
           intro Hin. apply (Hfresh _ Hin). left. reflexivity.
        -- intros c [<-|Hin]; [assumption|].
           intro Hc. apply (Hfresh c Hin). right. assumption.
      * intros [He [Hnd Hfresh]]. inversion Hnd as [|x l Hx Hl]; subst.
        repeat split; try assumption.
        intros c Hin [<-|Hc]; [contradiction|].
        apply (Hfresh c); [right; assumption | assumption].
Qed.

Lemma validate_errors :
  forall rows,
    ValidationResult.errors (validate show rows) = [] <->
    NoDup (List.map ImportRow.storeCode rows).
Proof.
  intros rows. unfold validate.
  pose proof (validateLoop_no_errors rows 0 [] [] []) as H.
  destruct (validateLoop show rows 0 [] [] []) as [errors warnings]. simpl in *.
  rewrite H. split.
  - intros [_ [Hnd _]]. exact Hnd.
  - intros Hnd. repeat split; auto.
Qed.

Lemma validate_isValid :
  forall rows,
    ValidationResult.isValid (validate show rows) = true <->
    ValidationResult.errors (validate show rows) = [].
Proof.
  intros rows. unfold validate.
  destruct (validateLoop show rows 0 [] [] []) as [errors warnings]. simpl.
  destruct errors; simpl; split; intros H; try reflexivity; discriminate.
Qed.

End FileProcessorFacts.

(** processFile returns normally on every input and reads the clock three times. *)
Lemma processFile_returns :
  forall filename content uploadedBy e w,
    exists r,
      FileProcessor.processFile filename content uploadedBy e w
      = (Ok r, with_ticks (3 + ticks w) w).
Proof.
  intros filename content uploadedBy e w.
  unfold FileProcessor.processFile, bind, new_Date, Date_now, asks, ret.
  destruct w; simpl.
  destruct (FileProcessor.parseCSV content) as [rawRows|message]; simpl.
  - destruct (FileProcessor.mapRows rawRows) as [rows mappingErrors]; simpl.
    eexists. reflexivity.
  - eexists. reflexivity.
Qed.

(** C1. processFile reports success only when neither mapping nor validation
    produced an error.  Whatever the file name, the content and the uploader,
    processFile returns a result.  When parsing fails, the result is invalid
    with no rows.  Otherwise, with [mapRows] and [validate] run as processFile
    runs them: one mapping error or one validation error makes the result
    invalid with no rows; no error of either kind makes it valid with exactly
    the mapped rows; in particular a duplicate store code among rows that all
    mapped makes it invalid. *)
Theorem processFile_all_or_nothing :
  forall filename content uploadedBy e w,
  exists r w',
    FileProcessor.processFile filename content uploadedBy e w = (Ok r, w')
    /\ let valid := ValidationResult.isValid (ProcessingResult.validation r) in
       let accepted := ProcessingResult.rows r in
       match FileProcessor.parseCSV content with
       | Throw _ => valid = false /\ accepted = []
       | Ok rawRows =>
           let rows := fst (FileProcessor.mapRows rawRows) in
           let mappingErrors := snd (FileProcessor.mapRows rawRows) in
           let validation := FileProcessor.validate (numberToString e) rows in
           (mappingErrors <> [] \/ ValidationResult.errors validation <> []
              -> valid = false /\ accepted = [])
           /\ (mappingErrors = [] /\ ValidationResult.errors validation = []
              -> valid = true /\ accepted = rows)
           /\ (mappingErrors = [] /\ ~ NoDup (List.map ImportRow.storeCode rows)
              -> valid = false /\ accepted = [])
       end.
Proof.
  intros filename content uploadedBy e w.
  unfold FileProcessor.processFile, bind, new_Date, Date_now, asks, ret.
  destruct (FileProcessor.parseCSV content) as [rawRows|message]; simpl.
  - pose proof (validate_isValid (numberToString e)
                  (fst (FileProcessor.mapRows rawRows))) as Hvalid.
    pose proof (validate_errors (numberToString e)
                  (fst (FileProcessor.mapRows rawRows))) as Hdup.
    destruct (FileProcessor.mapRows rawRows) as [rows mappingErrors]; simpl in *.
    do 2 eexists. split; [reflexivity|]. simpl.
    assert (Hcases :
      (mappingErrors <> [] \/
       ValidationResult.errors (FileProcessor.validate (numberToString e) rows) <> []) ->
      (List.length mappingErrors =? 0)%nat
      && ValidationResult.isValid (FileProcessor.validate (numberToString e) rows)
      = false).
    { intros [Hm|Hv].
      - destruct mappingErrors; [contradiction|reflexivity].
      - apply Bool.andb_false_iff. right.
        apply Bool.not_true_iff_false. intro Ht. apply Hv. apply Hvalid. exact Ht. }
    repeat split.
    + rewrite (Hcases H). reflexivity.
    + rewrite (Hcases H). reflexivity.
    + destruct H as [-> Hv]. apply Hvalid in Hv. rewrite Hv. reflexivity.
    + destruct H as [-> Hv]. apply Hvalid in Hv. rewrite Hv. reflexivity.
    + destruct H as [_ Hnd]. rewrite Hcases; [reflexivity|].
      right. intro Hv. apply Hnd. apply Hdup. exact Hv.
    + destruct H as [_ Hnd]. rewrite Hcases; [reflexivity|].
      right. intro Hv. apply Hnd. apply Hdup. exact Hv.
  - do 2 eexists. split; [reflexivity|]. simpl. split; reflexivity.
Qed.

(** A file in which every row maps and one store code occurs twice is
    reported invalid, with no rows. *)
Lemma processFile_all_or_nothing_witness :
  exists r w',
    FileProcessor.processFile "stores.csv" Sample.csvDuplicate "admin"
      Sample.env Sample.world = (Ok r, w')
    /\ snd (FileProcessor.mapRows
              match FileProcessor.parseCSV Sample.csvDuplicate with
              | Ok rawRows => rawRows
              | Throw _ => []
              end) = []
    /\ ValidationResult.isValid (ProcessingResult.validation r) = false
    /\ ProcessingResult.rows r = [].
Proof.
  destruct (processFile_all_or_nothing "stores.csv" Sample.csvDuplicate "admin"
              Sample.env Sample.world) as [r [w' [Hrun Hspec]]].
  exists r, w'. split; [exact Hrun|].
  split; [vm_compute; reflexivity|].
  vm_compute in Hspec. destruct Hspec as [Hany _].
  apply Hany. right. discriminate.
Defined.

(** The three sample files behave as the rule says. *)
Example processFile_samples :
  let run content :=
    match FileProcessor.processFile "stores.csv" content "admin"
            Sample.env Sample.world with
    | (Ok r, _) =>
        Some (ValidationResult.isValid (ProcessingResult.validation r),
              List.length (ProcessingResult.rows r),
              List.length (ValidationResult.errors (ProcessingResult.validation r)))
    | (Throw _, _) => None
    end in
  run Sample.csvDuplicate = Some (false, 0%nat, 1%nat)
  /\ run Sample.csvUnmappable = Some (false, 0%nat, 1%nat)
  /\ run Sample.csvScenario = Some (false, 0%nat, 2%nat)
  /\ run Sample.csvValid = Some (true, 2%nat, 0%nat)
  /\ run "codice;mq" = Some (false, 0%nat, 1%nat).
Proof. vm_compute. repeat split. Qed.

(** With fewer than two lines parseCSV throws. *)
Lemma parseCSV_too_short :
  forall content,
    (List.length (JS.split FileProcessor.isNewline (JS.trim content)) < 2)%nat ->
    FileProcessor.parseCSV content
    = Throw "CSV must have at least a header row and one data row".
Proof.
  intros content Hlen. unfold FileProcessor.parseCSV.
  destruct (JS.split FileProcessor.isNewline (JS.trim content)) as [|h [|d rest]];
    simpl in *; try reflexivity; lia.
Qed.

(** With two lines or more it returns one raw row for each data line that
    is not blank. *)
Lemma parseCSV_rows :
  forall content header data,
    JS.split FileProcessor.isNewline (JS.trim content) = header :: data ->
    data <> [] ->
    exists rawRows,
      FileProcessor.parseCSV content = Ok rawRows
      /\ List.length rawRows
         = List.length (List.filter (fun l => negb (JS.isEmpty (JS.trim l))) data).
Proof.
  intros content header data Hsplit Hdata. unfold FileProcessor.parseCSV.
  rewrite Hsplit. destruct data as [|d rest]; [contradiction|].
  eexists. split; [reflexivity|].
  generalize (d :: rest). intros l. induction l as [|x l IH]; simpl; [reflexivity|].
  destruct (JS.isEmpty (JS.trim x)); simpl; [exact IH | f_equal; exact IH].
Qed.

(** C7 (defect). parseCSV does not keep a quoted field whole, and it has no
    delimiter of the file: every line is cut at every comma and at every
    semicolon, quotes or not.  In the semicolon-separated file
    codice;indirizzo;mq / S1;"Via Roma, 1";100 the quoted address is cut at its
    comma, so the address cell is Via Roma, the area cell is 1 and the row is
    imported with 1 square metre and not 100; in codice;mq / S1;100,5 the
    decimal comma that mapRows accepts is cut as well and the area is 100. *)
Theorem parseCSV_cuts_quoted_field :
  FileProcessor.parseCSV Sample.csvQuoted
  = Ok [[("codice", "S1"); ("indirizzo", "Via Roma"); ("mq", "1")]]
  /\ FileProcessor.mapRows [[("codice", "S1"); ("indirizzo", "Via Roma"); ("mq", "1")]]
     = ([ImportRow.mk "S1" "" "Via Roma" 1%float], [])
  /\ FileProcessor.parseCSV Sample.csvDecimalComma
     = Ok [[("codice", "S1"); ("mq", "100")]]
  /\ JS.parseFloat (JS.replaceFirst "," "." "100,5") = 100.5%float.
Proof. vm_compute. repeat split. Qed.

(** ** The import queue *)

Lemma isAuthorized_spec :
  forall userRole,
    ImportQueue.isAuthorized userRole = true <-> In userRole ImportQueue.AUTHORIZED_ROLES.
Proof.
  intros userRole. unfold ImportQueue.isAuthorized, ImportQueue.AUTHORIZED_ROLES.
  destruct userRole; simpl; split; intros H; try reflexivity; try discriminate; auto;
    destruct H as [H|[H|[]]]; discriminate.
Qed.

(** C8. An enqueue with a role outside the authorized set throws, and the
    world after the throw is the world before it: no job in the map or in the
    queue (so getAllJobs is as before), nothing published to a subscriber, no
    pruning, no read of the clock, nothing left with the event loop. *)
Theorem enqueue_unauthorized_changes_nothing :
  forall userRole,
    ~ In userRole ImportQueue.AUTHORIZED_ROLES ->
    forall filename content uploadedBy e w,
      ImportQueue.enqueue filename content uploadedBy userRole e w
      = (Throw "Accesso negato: solo admin, broker possono eseguire importazioni", w).
Proof.
  intros userRole Hrole filename content uploadedBy e w.
  unfold ImportQueue.enqueue.
  destruct (ImportQueue.isAuthorized userRole) eqn:Hauth.
  - exfalso. apply Hrole. apply isAuthorized_spec. exact Hauth.
  - reflexivity.
Qed.

(** The store manager role is refused in the sample world. *)
Lemma enqueue_unauthorized_changes_nothing_witness :
  ImportQueue.enqueue "stores.csv" Sample.csvValid "mario" store_manager
    Sample.env Sample.world
  = (Throw "Accesso negato: solo admin, broker possono eseguire importazioni",
     Sample.world)
  /\ fst (ImportQueue.getAllJobs Sample.env Sample.world) = Ok [].
Proof.
  split.
  - apply (enqueue_unauthorized_changes_nothing store_manager).
    intros [H|[H|[]]]; discriminate.
  - reflexivity.
Defined.

Lemma derefAll_lookupAll :
  forall refs e w,
    ImportQueue.derefAll refs e w
    = (match lookupAll (heap w) refs with
       | Some jobs => Ok jobs
       | None => Throw "Cannot read properties of undefined"
       end, w).
Proof.
  induction refs as [|r rest IH]; intros e w; simpl; [reflexivity|].
  unfold bind, ImportQueue.deref.
  destruct (nth_error (heap w) r) as [job|]; [|reflexivity].
  rewrite IH. destruct (lookupAll (heap w) rest); reflexivity.
Qed.

Lemma Some_eq :
  forall (A : Type) (a b : A), Some a = Some b -> a = b.
Proof. intros A a b H. injection H as H. exact H. Qed.

Lemma lookupAll_sanitized :
  forall h1 h2 refs,
    List.map ImportQueue.sanitizeJob h1 = List.map ImportQueue.sanitizeJob h2 ->
    option_map (List.map ImportQueue.sanitizeJob) (lookupAll h1 refs)
    = option_map (List.map ImportQueue.sanitizeJob) (lookupAll h2 refs).
Proof.
  intros h1 h2 refs Heq. induction refs as [|r rest IH]; simpl; [reflexivity|].
  assert (Hr : option_map ImportQueue.sanitizeJob (nth_error h1 r)
               = option_map ImportQueue.sanitizeJob (nth_error h2 r)).
  { rewrite <- !nth_error_map. rewrite Heq. reflexivity. }
  destruct (nth_error h1 r) as [j1|], (nth_error h2 r) as [j2|];
    simpl in Hr; try discriminate.
  - apply Some_eq in Hr.
    destruct (lookupAll h1 rest), (lookupAll h2 rest); simpl in *; try discriminate.
    + apply Some_eq in IH. rewrite Hr, IH. reflexivity.
    + reflexivity.
  - reflexivity.
Qed.

Lemma insertSorted_Forall :
  forall (A : Type) (P : A -> Prop) cmp x (l : list A),
    P x -> Forall P l -> Forall P (ImportQueue.insertSorted cmp x l).
Proof.
  intros A P cmp x l Hx Hl. induction Hl as [|y r Hy Hr IH]; simpl.
  - constructor; [assumption|constructor].
  - destruct (cmp x y <=? 0); repeat (constructor; try assumption).
Qed.

Lemma sort_Forall :
  forall (A : Type) (P : A -> Prop) cmp (l : list A),
    Forall P l -> Forall P (ImportQueue.sort cmp l).
Proof.
  intros A P cmp l Hl. induction Hl as [|x r Hx Hr IH]; simpl.
  - constructor.
  - apply insertSorted_Forall; assumption.
Qed.

(** Job objects that agree on every field but the content are shown alike. *)
Lemma sameButContent_sanitized :
  forall a b, sameButContent a b -> ImportQueue.sanitizeJob a = ImportQueue.sanitizeJob b.
Proof.
  intros [] [] H. unfold sameButContent in H. cbn in H.
  destruct H as (-> & -> & -> & -> & -> & -> & -> & -> & -> & ->). reflexivity.
Qed.

Lemma sanitized_sameButContent :
  forall stored, sameButContent stored (ImportQueue.sanitizeJob stored).
Proof. intros []. repeat split. Qed.

Lemma sameButContent_heaps :
  forall h1 h2,
    Forall2 sameButContent h1 h2 ->
    List.map ImportQueue.sanitizeJob h1 = List.map ImportQueue.sanitizeJob h2.
Proof.
  intros h1 h2 H. induction H as [|a b l1 l2 Hab Hrest IH]; simpl; [reflexivity|].
  rewrite (sameButContent_sanitized a b Hab), IH. reflexivity.
Qed.

Lemma lookupAll_In :
  forall h refs objects,
    lookupAll h refs = Some objects ->
    Forall (fun stored => exists r, In r refs /\ nth_error h r = Some stored) objects.
Proof.
  intros h. induction refs as [|r rest IH]; intros objects; simpl.
  - intros H. injection H as <-. constructor.
  - destruct (nth_error h r) as [stored|] eqn:Hr; [|discriminate].
    destruct (lookupAll h rest) as [l|]; [|discriminate].
    intros H. injection H as <-. constructor.
    + exists r. split; [left; reflexivity | exact Hr].
    + eapply Forall_impl; [|apply IH; reflexivity].
      intros a [r' [Hin Hget]]. exists r'. split; [right; exact Hin | exact Hget].
Qed.

(** C9. The read accessors never show the content of a job.  In every state
    of the world, whatever point of its life a job has reached: the job that
    getJob returns is the job object stored under the id with every field as
    it is except the content, which it does not have, and every element of
    the list that getAllJobs returns is such a copy of a job object of the
    job map.  Two worlds with the same queue whose job objects agree on every
    field but the content give the same answers to getJob and to getAllJobs:
    no answer depends on a content. *)
Theorem read_accessors_hide_content :
  forall e jobId,
    (forall w job,
       fst (ImportQueue.getJob jobId e w) = Ok (Some job) ->
       Job.content job = None
       /\ exists r stored,
            JsMap.get (QueueState.jobs (importQueue w)) jobId = Some r
            /\ nth_error (heap w) r = Some stored
            /\ sameButContent stored job)
    /\ (forall w jobs,
          fst (ImportQueue.getAllJobs e w) = Ok jobs ->
          Forall (fun job =>
                    Job.content job = None
                    /\ exists r stored,
                         In r (JsMap.values (QueueState.jobs (importQueue w)))
                         /\ nth_error (heap w) r = Some stored
                         /\ sameButContent stored job) jobs)
    /\ (forall w1 w2,
          importQueue w1 = importQueue w2 ->
          Forall2 sameButContent (heap w1) (heap w2) ->
          fst (ImportQueue.getJob jobId e w1) = fst (ImportQueue.getJob jobId e w2)
          /\ fst (ImportQueue.getAllJobs e w1) = fst (ImportQueue.getAllJobs e w2)).
Proof.
  intros e jobId. split; [|split].
  - intros w job. unfold ImportQueue.getJob, bind, gets, ret, ImportQueue.deref.
    destruct (JsMap.get (QueueState.jobs (importQueue w)) jobId) as [r|];
      [|discriminate].
    destruct (nth_error (heap w) r) as [j|] eqn:Hj; simpl; [|discriminate].
    intros H. injection H as <-. split; [reflexivity|].
    exists r, j. split; [reflexivity|]. split; [exact Hj|].
    apply sanitized_sameButContent.
  - intros w jobs. unfold ImportQueue.getAllJobs, bind, gets, ret.
    rewrite derefAll_lookupAll.
    destruct (lookupAll (heap w) _) as [l|] eqn:Hl; simpl; [|discriminate].
    intros H. injection H as <-. apply sort_Forall.
    apply lookupAll_In in Hl. rewrite Forall_forall in Hl.
    apply Forall_forall. intros j Hj. apply in_map_iff in Hj.
    destruct Hj as [stored [<- Hstored]]. split; [reflexivity|].
    destruct (Hl stored Hstored) as [r [Hr Hget]].
    exists r, stored. split; [exact Hr|]. split; [exact Hget|].
    apply sanitized_sameButContent.
  - intros w1 w2 Hq Hsame. apply sameButContent_heaps in Hsame. rename Hsame into Hheap.
    split.
    + unfold ImportQueue.getJob, bind, gets, ret, ImportQueue.deref. rewrite Hq.
      destruct (JsMap.get (QueueState.jobs (importQueue w2)) jobId) as [r|];
        [|reflexivity].
      assert (Hr : option_map ImportQueue.sanitizeJob (nth_error (heap w1) r)
                   = option_map ImportQueue.sanitizeJob (nth_error (heap w2) r)).
      { rewrite <- !nth_error_map. rewrite Hheap. reflexivity. }
      destruct (nth_error (heap w1) r), (nth_error (heap w2) r);
        simpl in *; try discriminate; [|reflexivity].
      apply Some_eq in Hr. rewrite Hr. reflexivity.
    + unfold ImportQueue.getAllJobs, bind, gets, ret.
      rewrite !derefAll_lookupAll. rewrite Hq.
      pose proof (lookupAll_sanitized (heap w1) (heap w2)
                    (JsMap.values (QueueState.jobs (importQueue w2))) Hheap) as Hl.
      destruct (lookupAll (heap w1) _), (lookupAll (heap w2) _);
        simpl in *; try discriminate; [|reflexivity].
      apply Some_eq in Hl. rewrite Hl. reflexivity.
Qed.

(** *** Frames of the queue's computations *)

Lemma updateAt_last :
  forall (A : Type) (l : list A) (x : A) f,
    ImportQueue.updateAt (l ++ [x]) (List.length l) f = (l ++ [f x])%list.
Proof. induction l; intros; simpl; [reflexivity | rewrite IHl; reflexivity]. Qed.

Lemma nth_error_last :
  forall (A : Type) (l : list A) (x : A),
    nth_error (l ++ [x]) (List.length l) = Some x.
Proof. induction l; intros; simpl; auto. Qed.

Lemma updateAt_jobId :
  forall (l : list InternalJob) n f,
    (forall j, Job.jobId (f j) = Job.jobId j) ->
    List.map Job.jobId (ImportQueue.updateAt l n f) = List.map Job.jobId l.
Proof.
  induction l as [|a l IH]; intros [|n] f Hf; simpl; auto.
  - rewrite Hf. reflexivity.
  - rewrite IH; auto.
Qed.

Lemma bind_ok :
  forall (A B : Type) (m : M A) (k : A -> M B) e w a w1,
    m e w = (Ok a, w1) -> bind m k e w = k a e w1.
Proof. intros. unfold bind. rewrite H. reflexivity. Qed.

Lemma Frame_refl : forall w, Frame w w.
Proof.
  intros w. repeat split. exists []. split; [symmetry; apply app_nil_r | intros c j []].
Qed.

Lemma Frame_trans : forall w1 w2 w3, Frame w1 w2 -> Frame w2 w3 -> Frame w1 w3.
Proof.
  intros w1 w2 w3 [Hs1 [Hh1 [r1 [Hp1 Hin1]]]] [Hs2 [Hh2 [r2 [Hp2 Hin2]]]].
  repeat split; [congruence | congruence |].
  exists (r1 ++ r2)%list. split.
  - rewrite Hp2, Hp1. symmetry. apply app_assoc.
  - intros c j Hin. apply in_app_or in Hin. destruct Hin as [H|H].
    + eapply Hin1; eauto.
    + rewrite <- Hs1. eapply Hin2; eauto.
Qed.

Lemma Frame_length :
  forall w w', Frame w w' -> List.length (heap w') = List.length (heap w).
Proof.
  intros w w' [_ [Hids _]].
  apply (f_equal (@List.length string)) in Hids.
  rewrite !length_map in Hids. exact Hids.
Qed.

Lemma Framed_bind :
  forall A B (m : M A) (k : A -> M B),
    Framed m -> (forall a, Framed (k a)) -> Framed (bind m k).
Proof.
  intros A B m k Hm Hk e w. unfold bind. specialize (Hm e w).
  destruct (m e w) as [[a|msg] w1]; simpl in *.
  - eapply Frame_trans; [exact Hm | apply Hk].
  - exact Hm.
Qed.

Lemma Framed_tryCatch :
  forall A (m : M A) h,
    Framed m -> (forall msg, Framed (h msg)) -> Framed (tryCatch m h).
Proof.
  intros A m h Hm Hh e w. unfold tryCatch. specialize (Hm e w).
  destruct (m e w) as [[a|msg] w1]; simpl in *.
  - exact Hm.
  - eapply Frame_trans; [exact Hm | apply Hh].
Qed.

Lemma Returns_bind :
  forall A B r (m : M A) (k : A -> M B),
    Framed m -> Returns r m -> (forall a, Returns r (k a)) -> Returns r (bind m k).
Proof.
  intros A B r m k Hf Hm Hk e w Hr. unfold bind.
  specialize (Hf e w). destruct (Hm e w Hr) as [a Ha].
  destruct (m e w) as [[a'|msg] w1]; simpl in *; [|discriminate].
  apply Hk. rewrite (Frame_length _ _ Hf). exact Hr.
Qed.

Lemma Returns_tryCatch :
  forall A r (m : M A) h,
    Framed m -> (forall msg, Returns r (h msg)) -> Returns r (tryCatch m h).
Proof.
  intros A r m h Hf Hh e w Hr. unfold tryCatch. specialize (Hf e w).
  destruct (m e w) as [[a|msg] w1]; simpl in *.
  - exists a. reflexivity.
  - apply Hh. rewrite (Frame_length _ _ Hf). exact Hr.
Qed.

Lemma Returns_total :
  forall A r (m : M A), (forall e w, exists a, fst (m e w) = Ok a) -> Returns r m.
Proof. intros A r m H e w _. apply H. Qed.

Lemma Framed_same :
  forall A (m : M A),
    (forall e w,
       QueueState.subscribers (importQueue (snd (m e w)))
       = QueueState.subscribers (importQueue w)
       /\ List.map Job.jobId (heap (snd (m e w))) = List.map Job.jobId (heap w)
       /\ published (snd (m e w)) = published w) ->
    Framed m.
Proof.
  intros A m H e w. destruct (H e w) as [H1 [H2 H3]]. repeat split; try assumption.
  exists []. split; [rewrite H3; symmetry; apply app_nil_r | intros c j []].
Qed.

Lemma Framed_ret : forall A (a : A), Framed (ret a).
Proof. intros. apply Framed_same. intros; repeat split. Qed.

Lemma Framed_throw : forall A msg, Framed (@throw A msg).
Proof. intros. apply Framed_same. intros; repeat split. Qed.

Lemma Framed_new_Date : Framed new_Date.
Proof. apply Framed_same. intros; repeat split. Qed.

Lemma Framed_spawn : forall t, Framed (spawn t).
Proof. intros. apply Framed_same. intros; repeat split. Qed.

Lemma Framed_gets : forall A (f : World -> A), Framed (gets f).
Proof. intros. apply Framed_same. intros; repeat split. Qed.

Lemma Framed_deref : forall r, Framed (ImportQueue.deref r).
Proof.
  intros. apply Framed_same. intros e w. unfold ImportQueue.deref.
  destruct (nth_error (heap w) r); repeat split.
Qed.

Lemma Framed_updJob :
  forall r f, (forall j, Job.jobId (f j) = Job.jobId j) -> Framed (ImportQueue.updJob r f).
Proof.
  intros r f Hf. apply Framed_same. intros; repeat split. simpl.
  apply updateAt_jobId. exact Hf.
Qed.

Lemma Framed_with_processing :
  forall b, Framed (ImportQueue.updQueue (ImportQueue.with_processing b)).
Proof. intros. apply Framed_same. intros; repeat split. Qed.

Lemma Framed_with_queue :
  forall l, Framed (ImportQueue.updQueue (ImportQueue.with_queue l)).
Proof. intros. apply Framed_same. intros; repeat split. Qed.

Lemma Framed_notify : forall j, Framed (ImportQueue.notifySubscribers j).
Proof.
  intros j e w. repeat split. eexists. split; [reflexivity|].
  intros c j' Hin. apply in_map_iff in Hin. destruct Hin as [c' [Heq Hin]]. congruence.
Qed.

Lemma Framed_processFile : forall f c u, Framed (FileProcessor.processFile f c u).
Proof.
  intros. apply Framed_same. intros e w.
  destruct (processFile_returns f c u e w) as [r Hr]. rewrite Hr. repeat split.
Qed.

Create HintDb framed.
#[local] Hint Resolve Framed_ret Framed_throw Framed_new_Date Framed_spawn
  Framed_deref Framed_gets Framed_with_processing Framed_with_queue Framed_notify
  Framed_processFile : framed.
#[local] Hint Extern 1 (Framed (ImportQueue.updJob _ _)) =>
  apply Framed_updJob; intros []; reflexivity : framed.

Ltac framed :=
  repeat first
    [ solve [auto with framed]
    | apply Framed_bind; [|intros ?]
    | apply Framed_tryCatch; [|intros ?]
    | match goal with |- Framed (match ?x with _ => _ end) => destruct x end
    | match goal with |- Framed (if ?x then _ else _) => destruct x end ].

Lemma Framed_failJob : forall r id msg, Framed (ImportQueue.failJob r id msg).
Proof. intros. unfold ImportQueue.failJob, ImportQueue.scheduleClearContent. framed. Qed.

Lemma Framed_startJob : forall r id, Framed (ImportQueue.startJob r id).
Proof. intros. unfold ImportQueue.startJob. framed. Qed.

Lemma Framed_afterTry : forall r p, Framed (ImportQueue.afterTry r p).
Proof. intros. unfold ImportQueue.afterTry. framed. Qed.

#[local] Hint Resolve Framed_failJob Framed_startJob Framed_afterTry : framed.

Lemma Framed_processNext : Framed ImportQueue.processNext.
Proof. unfold ImportQueue.processNext. framed. Qed.

Lemma Returns_deref : forall r, Returns r (ImportQueue.deref r).
Proof.
  intros r e w Hr. unfold ImportQueue.deref.
  destruct (nth_error (heap w) r) eqn:Hn; [eexists; reflexivity|].
  apply nth_error_None in Hn. lia.
Qed.

Lemma Returns_failJob : forall r r' id msg, Returns r (ImportQueue.failJob r' id msg).
Proof. intros. apply Returns_total. intros. eexists. reflexivity. Qed.

Lemma Returns_afterTry : forall r p, Returns r (ImportQueue.afterTry r p).
Proof.
  intros r p. destruct p; simpl.
  - apply Returns_total. intros. eexists. reflexivity.
  - apply Returns_bind; [auto with framed | apply Returns_deref | intros j].
    apply Returns_total. intros e w.
    unfold bind, ImportQueue.notifySubscribers, modify, ImportQueue.updQueue, gets. simpl.
    destruct (QueueState.queue (importQueue w)); eexists; reflexivity.
Qed.

(** processNext returns when the references of the job map hold objects. *)
Lemma processNext_returns :
  forall e w,
    (forall id r,
       JsMap.get (QueueState.jobs (importQueue w)) id = Some r ->
       (r < List.length (heap w))%nat) ->
    exists w', ImportQueue.processNext e w = (Ok tt, w') /\ Frame w w'.
Proof.
  intros e w Hwf.
  pose proof (Framed_processNext e w) as Hframe.
  assert (Hret : exists a, fst (ImportQueue.processNext e w) = Ok a).
  { unfold ImportQueue.processNext. unfold bind at 1. unfold gets at 1.
    destruct (QueueState.processing (importQueue w)); [eexists; reflexivity|].
    destruct (QueueState.queue (importQueue w)) as [|jobId rest] eqn:Hq;
      [eexists; reflexivity|].
    unfold bind at 1. unfold ImportQueue.updQueue at 1, modify at 1.
    unfold bind at 1. unfold ImportQueue.updQueue at 1, modify at 1.
    destruct (JsMap.get (QueueState.jobs (importQueue w)) jobId) as [job|] eqn:Hget;
      [|eexists; reflexivity].
    apply (Returns_bind _ _ job).
    - apply Framed_tryCatch; [apply Framed_startJob | intros; apply Framed_failJob].
    - apply Returns_tryCatch; [apply Framed_startJob | intros; apply Returns_failJob].
    - intros p. apply Returns_afterTry.
    - simpl. eapply Hwf. exact Hget. }
  destruct Hret as [[] Ha].
  destruct (ImportQueue.processNext e w) as [r w'] eqn:Hrun. simpl in *. subst r.
  exists w'. split; [reflexivity | exact Hframe].
Qed.

(** enqueue with an authorized role on a queue that holds no job: the world
    once the job is stored, queued and announced, where processNext is called. *)
Lemma enqueue_fresh_prefix :
  forall filename content uploadedBy userRole e w,
    ImportQueue.isAuthorized userRole = true ->
    QueueState.jobs (importQueue w) = [] ->
    QueueState.queue (importQueue w) = [] ->
    QueueState.processing (importQueue w) = false ->
    let jobId := "JOB-" ++ JS.showZ (clock e (S (ticks w))) ++ "-"
                   ++ String.substring 0 8 (uuid e (draws w)) in
    let job := Job.mk jobId filename uploadedBy queued 0 None
                 (Some (clock e (S (S (ticks w))))) None None None (Some content) in
    let ref := List.length (heap w) in
    ImportQueue.enqueue filename content uploadedBy userRole e w
    = (ImportQueue.processNext ;;;
       j' <- ImportQueue.deref ref ;; ret (ImportQueue.sanitizeJob j')) e
        (mkWorld (3 + ticks w) (S (draws w)) (pricingConfigs w) (lifecycleManager w)
           (policyService w)
           (QueueState.mk [(jobId, ref)] [jobId] false
              (QueueState.subscribers (importQueue w))
              (QueueState.stores (importQueue w))
              (QueueState.currentSessionId (importQueue w)))
           (heap w ++ [job])
           (published w ++ notices (QueueState.subscribers (importQueue w))
                             (ImportQueue.sanitizeJob job))
           (tasks w)).
Proof.
  intros filename content uploadedBy userRole e w Hauth Hjobs Hqueue Hproc.
  destruct w as [tk dr cfg lm ps q hp pub tsk].
  destruct q as [jobs queue proc subs stores sess].
  simpl in Hjobs, Hqueue, Hproc. subst jobs queue proc.
  cbn [ticks draws heap pricingConfigs lifecycleManager policyService importQueue
       published tasks QueueState.subscribers QueueState.stores
       QueueState.currentSessionId].
  cbv zeta.
  unfold ImportQueue.enqueue. rewrite Hauth. cbn [negb].
  etransitivity; [apply bind_ok; reflexivity|].
  etransitivity; [apply bind_ok; reflexivity|].
  cbn [ImportQueue.with_jobs importQueue with_importQueue fold_left QueueState.jobs
       JsMap.size List.length Nat.leb ImportQueue.MAX_JOBS_PER_SESSION].
  do 6 (etransitivity; [apply bind_ok; reflexivity|]).
  etransitivity;
    [apply bind_ok; unfold ImportQueue.deref; cbn [heap with_importQueue with_heap];
     rewrite nth_error_last; reflexivity|].
  etransitivity; [apply bind_ok; reflexivity|].
  reflexivity.
Qed.

(** The same call in full: it returns the view of the new job, and what it
    publishes starts with the announcement of that job to every subscriber
    and goes to subscribers only. *)
Lemma enqueue_fresh :
  forall filename content uploadedBy userRole e w,
    ImportQueue.isAuthorized userRole = true ->
    QueueState.jobs (importQueue w) = [] ->
    QueueState.queue (importQueue w) = [] ->
    QueueState.processing (importQueue w) = false ->
    exists job w' announced rest,
      ImportQueue.enqueue filename content uploadedBy userRole e w = (Ok job, w')
      /\ Job.jobId announced = Job.jobId job
      /\ Job.status announced = queued
      /\ Job.content announced = None
      /\ QueueState.subscribers (importQueue w') = QueueState.subscribers (importQueue w)
      /\ published w'
         = (published w
              ++ notices (QueueState.subscribers (importQueue w)) announced
              ++ rest)%list
      /\ (forall c j, In (c, j) rest -> In c (QueueState.subscribers (importQueue w))).
Proof.
  intros filename content uploadedBy userRole e w Hauth Hjobs Hqueue Hproc.
  rewrite (enqueue_fresh_prefix _ _ _ _ e w Hauth Hjobs Hqueue Hproc).
  set (jobId := "JOB-" ++ _).
  set (job0 := Job.mk jobId _ _ _ _ _ _ _ _ _ _).
  set (w1 := mkWorld _ _ _ _ _ _ _ _ _).
  destruct (processNext_returns e w1) as [w2 [Hrun Hframe]].
  { intros id r. subst w1. cbn [importQueue QueueState.jobs heap JsMap.get].
    destruct (String.eqb jobId id); [|discriminate].
    intros H. injection H as <-. rewrite length_app. simpl. lia. }
  unfold bind at 1. rewrite Hrun.
  pose proof Hframe as [Hsubs [Hids [rest [Hpub Hin]]]].
  assert (Hnth : nth_error (List.map Job.jobId (heap w2)) (List.length (heap w))
                 = Some jobId).
  { rewrite Hids. subst w1. cbn [heap]. rewrite map_app.
    replace (List.length (heap w)) with (List.length (List.map Job.jobId (heap w)))
      by apply length_map.
    apply nth_error_last. }
  rewrite nth_error_map in Hnth.
  unfold bind, ImportQueue.deref, ret.
  destruct (nth_error (heap w2) (List.length (heap w))) as [j'|];
    simpl in Hnth; [|discriminate].
  apply Some_eq in Hnth.
  exists (ImportQueue.sanitizeJob j'), w2, (ImportQueue.sanitizeJob job0), rest.
  subst w1. cbn [importQueue published QueueState.subscribers] in *.
  repeat split; try assumption.
  - simpl. symmetry. exact Hnth.
  - rewrite Hpub. symmetry. apply app_assoc.
Qed.

Lemma clearSessionData_queue :
  forall e w,
    ImportQueue.clearSessionData e w
    = (Ok tt,
       with_importQueue
         (QueueState.mk [] [] false (QueueState.subscribers (importQueue w)) [] None) w).
Proof. reflexivity. Qed.

Lemma initSession_queue :
  forall sessionId e w,
    LifecycleManager.sameSession (QueueState.currentSessionId (importQueue w)) sessionId
    = false ->
    ImportQueue.initSession sessionId e w
    = (Ok tt,
       with_importQueue
         (QueueState.mk [] [] false (QueueState.subscribers (importQueue w)) []
            (Some sessionId)) w).
Proof.
  intros sessionId e w Hdiff. unfold ImportQueue.initSession, bind, gets. simpl.
  rewrite Hdiff. destruct w; reflexivity.
Qed.

Lemma not_in_filtered :
  forall (callback : JobCallback) subscribers,
    ~ In callback (List.filter (fun c => negb (Nat.eqb callback c)) subscribers).
Proof.
  intros callback subscribers Hin. apply filter_In in Hin. destruct Hin as [_ Hneq].
  rewrite Nat.eqb_refl in Hneq. discriminate.
Qed.



(** While a job is being processed its object holds the content, and the
    read accessors do not show it. *)
Example content_is_held_and_hidden :
  let w := snd (ImportQueue.enqueue "stores.csv" Sample.csvValid "anna" admin
                  Sample.env Sample.world) in
  List.map Job.content (heap w) = [Some Sample.csvValid]
  /\ option_map (List.map Job.content) (match fst (ImportQueue.getAllJobs Sample.env w) with
                                        | Ok jobs => Some jobs
                                        | Throw _ => None
                                        end) = Some [None]
  /\ option_map (List.map Job.status) (match fst (ImportQueue.getAllJobs Sample.env w) with
                                       | Ok jobs => Some jobs
                                       | Throw _ => None
                                       end) = Some [processing].
Proof. vm_compute. repeat split. Qed.

(** ** The lifecycle manager *)

Lemma logAudit_returns :
  forall action entityId previousState newState e w,
    exists w',
      LifecycleManager.logAudit action entityId previousState newState e w = (Ok tt, w').
Proof. intros. eexists. reflexivity. Qed.

Lemma activate_returns :
  forall store reason e w,
    exists result w', LifecycleManager.activate store reason e w = (Ok result, w').
Proof.
  intros store reason e w. unfold LifecycleManager.activate.
  destruct (StoreStatus_eqb (Store.status store) SActive); [do 2 eexists; reflexivity|].
  destruct (negb _); do 2 eexists; reflexivity.
Qed.

Lemma deactivate_returns :
  forall store reason e w,
    exists result w', LifecycleManager.deactivate store reason e w = (Ok result, w').
Proof.
  intros store reason e w. unfold LifecycleManager.deactivate.
  destruct (StoreStatus_eqb (Store.status store) SInactive); [do 2 eexists; reflexivity|].
  destruct (negb _); do 2 eexists; reflexivity.
Qed.

Lemma createStore_returns :
  forall data e w,
    exists store w', LifecycleManager.createStore data e w = (Ok store, w').
Proof.
  intros. unfold LifecycleManager.createStore, LifecycleManager.logAudit, bind,
    new_Date, Date_now, randomUUID, ret, modify. simpl.
  do 2 eexists. reflexivity.
Qed.

Lemma importLoop_updates :
  forall existingStores importedData created updated e w,
    exists created' updated' w',
      LifecycleManager.importLoop existingStores importedData created updated e w
      = (Ok (created', updated'), w')
      /\ (forall s, In s updated -> In s updated')
      /\ (forall data existing,
            In data importedData ->
            JsMap.get existingStores (ImportRow.storeCode data) = Some existing ->
            LifecycleManager.differs existing data = true ->
            exists s, In s updated' /\ updatedFrom existing data s).
Proof.
  intros existingStores importedData.
  induction importedData as [|data rest IH]; intros created updated e w; simpl.
  - exists created, updated, w. split; [reflexivity|]. split; [auto|].
    intros data existing [].
  - destruct (JsMap.get existingStores (ImportRow.storeCode data)) as [existing|] eqn:Hget.
    + destruct (LifecycleManager.differs existing data) eqn:Hdiff.
      * unfold bind at 1. unfold new_Date, bind at 1. unfold Date_now, ret.
        unfold bind at 1.
        match goal with
        | |- context [LifecycleManager.logAudit ?a ?b ?c ?d e ?w0] =>
            destruct (logAudit_returns a b c d e w0) as [w1 Hlog]; rewrite Hlog
        end.
        match goal with
        | |- context [LifecycleManager.importLoop _ _ _ ?u e w1] =>
            destruct (IH created u e w1) as [c' [u' [w' [Hrun [Hkeep Hall]]]]]
        end.
        exists c', u', w'. split; [exact Hrun|]. split.
        -- intros s Hs. apply Hkeep. apply in_or_app. left. exact Hs.
        -- intros data' existing' [<-|Hin] Hget' Hdiff'.
           ++ rewrite Hget in Hget'. apply Some_eq in Hget'. subst existing'.
              eexists. split.
              ** apply Hkeep. apply in_or_app. right. left. reflexivity.
              ** repeat split.
           ++ eapply Hall; eauto.
      * destruct (IH created updated e w) as [c' [u' [w' [Hrun [Hkeep Hall]]]]].
        exists c', u', w'. split; [exact Hrun|]. split; [exact Hkeep|].
        intros data' existing' [<-|Hin] Hget' Hdiff'.
        -- rewrite Hget in Hget'. apply Some_eq in Hget'. subst existing'.
           rewrite Hdiff in Hdiff'. discriminate.
        -- eapply Hall; eauto.
    + unfold bind at 1.
      destruct (createStore_returns data e w) as [store [w1 Hcreate]]. rewrite Hcreate.
      unfold bind at 1.
      destruct (activate_returns store (Some "Importazione iniziale") e w1)
        as [result [w2 Hact]]. rewrite Hact.
      match goal with
      | |- context [LifecycleManager.importLoop _ _ ?c updated e w2] =>
          destruct (IH c updated e w2) as [c' [u' [w' [Hrun [Hkeep Hall]]]]]
      end.
      exists c', u', w'. split; [exact Hrun|]. split; [exact Hkeep|].
      intros data' existing' [<-|Hin] Hget' Hdiff'.
      * rewrite Hget in Hget'. discriminate.
      * eapply Hall; eauto.
Qed.

Lemma absentLoop_returns :
  forall entries importedCodes deactivated e w,
    exists deactivated' w',
      LifecycleManager.absentLoop entries importedCodes deactivated e w
      = (Ok deactivated', w').
Proof.
  induction entries as [|[code store] rest IH]; intros importedCodes deactivated e w; simpl.
  - do 2 eexists. reflexivity.
  - destruct (negb _ && _).
    + unfold bind at 1.
      destruct (deactivate_returns store
                  (Some "Non presente nell'ultima importazione") e w)
        as [result [w1 Hde]]. rewrite Hde. apply IH.
    + apply IH.
Qed.

(** C2 (amended). When an imported row has the code of an existing store
    and its business name, address or floor area differs from the store's,
    processBulkUpdate returns, and its updated list holds a store with the
    code of the existing one and the three fields of the row.  The update
    leaves the status as it was, and the activation, closure and creation
    dates too: a store that had been deactivated stays inactive. *)
Theorem bulk_update_applies_changes_and_keeps_status :
  forall e w existingStores importedData data existing,
    In data importedData ->
    JsMap.get existingStores (ImportRow.storeCode data) = Some existing ->
    LifecycleManager.differs existing data = true ->
    exists changes w',
      LifecycleManager.processBulkUpdate existingStores importedData e w
      = (Ok changes, w')
      /\ exists updatedStore,
           In updatedStore (BulkUpdate.updated changes)
           /\ Store.storeCode updatedStore = Store.storeCode existing
           /\ Store.businessName updatedStore = ImportRow.businessName data
           /\ Store.address updatedStore = ImportRow.address data
           /\ Store.squareMeters updatedStore = ImportRow.squareMeters data
           /\ Store.status updatedStore = Store.status existing
           /\ Store.activationDate updatedStore = Store.activationDate existing
           /\ Store.closureDate updatedStore = Store.closureDate existing
           /\ Store.createdAt updatedStore = Store.createdAt existing.
Proof.
  intros e w existingStores importedData data existing Hin Hget Hdiff.
  unfold LifecycleManager.processBulkUpdate.
  destruct (importLoop_updates existingStores importedData [] [] e w)
    as [created [updated [w1 [Hrun [_ Hall]]]]].
  unfold bind at 1. rewrite Hrun.
  destruct (absentLoop_returns existingStores
              (List.map ImportRow.storeCode importedData) [] e w1)
    as [deactivated [w2 Habsent]].
  unfold bind at 1. rewrite Habsent.
  do 2 eexists. split; [reflexivity|]. simpl.
  destruct (Hall data existing Hin Hget Hdiff) as [s [Hs Hfields]].
  exists s. split; [exact Hs | exact Hfields].
Qed.

(** A changed row for a deactivated store: the store is updated and stays
    inactive. *)
Lemma bulk_update_applies_changes_and_keeps_status_witness :
  let existing := Sample.store "S1" "Vecchio" 100%float SInactive
                    (Some Sample.someDate) (Some Sample.someDate) in
  let data := ImportRow.mk "S1" "Nuovo" "Via Roma 1" 100%float in
  exists changes w',
    LifecycleManager.processBulkUpdate [("S1", existing)] [data] Sample.env Sample.world
    = (Ok changes, w')
    /\ exists updatedStore,
         In updatedStore (BulkUpdate.updated changes)
         /\ Store.storeCode updatedStore = "S1"
         /\ Store.businessName updatedStore = "Nuovo"
         /\ Store.status updatedStore = SInactive.
Proof.
  cbv zeta.
  destruct (bulk_update_applies_changes_and_keeps_status Sample.env Sample.world
              [("S1", Sample.store "S1" "Vecchio" 100%float SInactive
                        (Some Sample.someDate) (Some Sample.someDate))]
              [ImportRow.mk "S1" "Nuovo" "Via Roma 1" 100%float]
              (ImportRow.mk "S1" "Nuovo" "Via Roma 1" 100%float)
              (Sample.store "S1" "Vecchio" 100%float SInactive
                 (Some Sample.someDate) (Some Sample.someDate))
              (or_introl eq_refl) eq_refl eq_refl)
    as [changes [w' [Hrun [s [Hin [Hcode [Hname [_ [_ [Hstatus _]]]]]]]]]].
  exists changes, w'. split; [exact Hrun|].
  exists s. repeat split; assumption.
Defined.

(** C2 (counterexample).  The store S1 is inactive and the imported row
    changes its name: processBulkUpdate puts one store on the updated list,
    and its status is inactive, not active; nothing is created or deactivated,
    and the only audit entry is the one of the update. *)
Lemma bulk_update_does_not_reactivate :
  let existing := Sample.store "S1" "Vecchio" 100%float SInactive
                    (Some Sample.someDate) (Some Sample.someDate) in
  let data := ImportRow.mk "S1" "Nuovo" "Via Roma 1" 100%float in
  exists changes w',
    LifecycleManager.processBulkUpdate [("S1", existing)] [data] Sample.env Sample.world
    = (Ok changes, w')
    /\ List.map Store.status (BulkUpdate.updated changes) = [SInactive]
    /\ List.map Store.businessName (BulkUpdate.updated changes) = ["Nuovo"]
    /\ BulkUpdate.created changes = []
    /\ BulkUpdate.deactivated changes = []
    /\ List.map AuditLog.action (LifecycleState.auditLog (lifecycleManager w'))
       = [store_updated]
    /\ ~ (exists s, In s (BulkUpdate.updated changes) /\ Store.status s = SActive).
Proof.
  cbv zeta. do 2 eexists. split; [vm_compute; reflexivity|].
  repeat split.
  intros [s [[<-|[]] Hs]]. discriminate.
Qed.

Lemma isValidTransition_inactive_active :
  LifecycleManager.isValidTransition SInactive SActive = false.
Proof. reflexivity. Qed.

(** C3 (amended).  For every store:
    - activate on a store that is already active returns a failure with a
      descriptive error and the store as it was, and changes nothing;
    - deactivate, when it succeeds, makes the store inactive with the closure
      date set to the time of the call, and an activate that follows
      immediately fails, because the transition table allows inactive stores
      to become pending only: the store stays inactive;
    - activate, when it succeeds, makes the store active, sets the activation
      date to the time of the call if the store had none and keeps the
      original otherwise, and clears the closure date;
    - activate, deactivate and suspend always return, and none of them clears
      or changes an activation date that is set. *)
Theorem lifecycle_dates :
  forall store reason e w,
    (Store.status store = SActive ->
     LifecycleManager.activate store reason e w
     = (Ok (LifecycleResult.mk false store None (Some "Lo store è già attivo")), w))
    /\ (forall result w1,
          LifecycleManager.deactivate store reason e w = (Ok result, w1) ->
          LifecycleResult.success result = true ->
          Store.status (LifecycleResult.store result) = SInactive
          /\ Store.closureDate (LifecycleResult.store result)
             = Some (Some (clock e (ticks w)))
          /\ forall reason',
               LifecycleManager.activate (LifecycleResult.store result) reason' e w1
               = (Ok (LifecycleResult.mk false (LifecycleResult.store result) None
                        (Some "Impossibile attivare uno store con stato: inactive")),
                  w1))
    /\ (forall result w1,
          LifecycleManager.activate store reason e w = (Ok result, w1) ->
          LifecycleResult.success result = true ->
          Store.status (LifecycleResult.store result) = SActive
          /\ Store.activationDate (LifecycleResult.store result)
             = match Store.activationDate store with
               | Some original => Some original
               | None => Some (Some (clock e (ticks w)))
               end
          /\ Store.closureDate (LifecycleResult.store result) = None)
    /\ (forall operation,
          In operation [LifecycleManager.activate; LifecycleManager.deactivate;
                        LifecycleManager.suspend] ->
          exists result w1,
            operation store reason e w = (Ok result, w1)
            /\ (Store.activationDate store <> None ->
                Store.activationDate (LifecycleResult.store result)
                = Store.activationDate store)).
Proof.
  intros store reason e w. split; [|split; [|split]].
  - intros Hactive. unfold LifecycleManager.activate. rewrite Hactive. reflexivity.
  - intros result w1. unfold LifecycleManager.deactivate.
    destruct (StoreStatus_eqb (Store.status store) SInactive).
    { intros H. injection H as <- _. discriminate. }
    destruct (negb _).
    { intros H. injection H as <- _. discriminate. }
    intros H. injection H as <- <-. intros _.
    split; [reflexivity|]. split; [reflexivity|]. intros reason'. reflexivity.
  - intros result w1. unfold LifecycleManager.activate.
    destruct (StoreStatus_eqb (Store.status store) SActive).
    { intros H. injection H as <- _. discriminate. }
    destruct (negb _).
    { intros H. injection H as <- _. discriminate. }
    intros H. injection H as <- <-. intros _.
    split; [reflexivity|]. split; [|reflexivity].
    simpl. destruct (Store.activationDate store); reflexivity.
  - intros operation [<-|[<-|[<-|[]]]].
    + unfold LifecycleManager.activate.
      destruct (StoreStatus_eqb (Store.status store) SActive);
        [do 2 eexists; split; [reflexivity|auto]|].
      destruct (negb _); do 2 eexists; (split; [reflexivity|]); [auto|].
      simpl. destruct (Store.activationDate store); [reflexivity|contradiction].
    + unfold LifecycleManager.deactivate.
      destruct (StoreStatus_eqb (Store.status store) SInactive);
        [do 2 eexists; split; [reflexivity|auto]|].
      destruct (negb _); do 2 eexists; (split; [reflexivity|]); auto.
    + unfold LifecycleManager.suspend.
      destruct (StoreStatus_eqb (Store.status store) SSuspended);
        [do 2 eexists; split; [reflexivity|auto]|].
      destruct (negb _); do 2 eexists; (split; [reflexivity|]); auto.
Qed.

(** C3 (counterexample).  An active store is deactivated, with success, and
    activated immediately after: the activation fails and the store is
    inactive, not active.  Its activation date is still the original. *)
Lemma deactivate_then_activate_stays_inactive :
  let store := Sample.store "S1" "Uno" 100%float SActive (Some Sample.someDate) None in
  exists deactivated w1 activated w2,
    LifecycleManager.deactivate store None Sample.env Sample.world = (Ok deactivated, w1)
    /\ LifecycleResult.success deactivated = true
    /\ LifecycleManager.activate (LifecycleResult.store deactivated) None Sample.env w1
       = (Ok activated, w2)
    /\ LifecycleResult.success activated = false
    /\ Store.status (LifecycleResult.store activated) = SInactive
    /\ Store.status (LifecycleResult.store activated) <> SActive
    /\ Store.activationDate (LifecycleResult.store activated) = Some Sample.someDate.
Proof.
  cbv zeta. do 4 eexists.
  split; [vm_compute; reflexivity|].
  split; [reflexivity|].
  split; [vm_compute; reflexivity|].
  repeat split. discriminate.
Qed.

(** The successful transitions of the sample stores. *)
Example lifecycle_samples :
  let run (operation : Store.t -> option string -> M LifecycleResult.t) store :=
    match operation store None Sample.env Sample.world with
    | (Ok result, _) =>
        Some (LifecycleResult.success result,
              Store.status (LifecycleResult.store result),
              Store.activationDate (LifecycleResult.store result),
              Store.closureDate (LifecycleResult.store result))
    | (Throw _, _) => None
    end in
  let now : JS.Date := Some 1750000000000 in
  run LifecycleManager.activate (Sample.store "S1" "Uno" 100%float SPending None None)
  = Some (true, SActive, Some now, None)
  /\ run LifecycleManager.activate
       (Sample.store "S1" "Uno" 100%float SSuspended (Some Sample.someDate) None)
     = Some (true, SActive, Some Sample.someDate, None)
  /\ run LifecycleManager.deactivate
       (Sample.store "S1" "Uno" 100%float SActive (Some Sample.someDate) None)
     = Some (true, SInactive, Some Sample.someDate, Some now)
  /\ run LifecycleManager.suspend
       (Sample.store "S1" "Uno" 100%float SActive (Some Sample.someDate) None)
     = Some (true, SSuspended, Some Sample.someDate, None)
  /\ run LifecycleManager.activate
       (Sample.store "S1" "Uno" 100%float SInactive (Some Sample.someDate)
          (Some Sample.someDate))
     = Some (false, SInactive, Some Sample.someDate, Some Sample.someDate).
Proof. vm_compute. repeat split. Qed.

(** ** Numbers: signs of the results of the operations on doubles *)

Local Open Scope Z_scope.

Lemma iter_pos_inv :
  forall (A : Type) (P : A -> Prop) (f : A -> A),
    (forall x, P x -> P (f x)) -> forall n x, P x -> P (iter_pos f n x).
Proof.
  intros A P f Hf. induction n as [n IH|n IH|]; intros x Hx; simpl; auto.
Qed.

Lemma shr_1_nonneg : forall mrs, 0 <= shr_m mrs -> 0 <= shr_m (shr_1 mrs).
Proof.
  intros [m r s] H. simpl in *. destruct m as [|[p|p|]|[p|p|]]; simpl; lia.
Qed.

Lemma shr_nonneg : forall mrs e n, 0 <= shr_m mrs -> 0 <= shr_m (fst (shr mrs e n)).
Proof.
  intros mrs e n H. unfold shr. destruct n; simpl; auto.
  apply iter_pos_inv; auto. apply shr_1_nonneg.
Qed.

Lemma shr_record_of_loc_m : forall m l, shr_m (shr_record_of_loc m l) = m.
Proof. intros m [|[]]; reflexivity. Qed.

Lemma shr_fexp_nonneg : forall m e l, 0 <= m -> 0 <= shr_m (fst (shr_fexp prec emax m e l)).
Proof.
  intros m e l H. unfold shr_fexp. apply shr_nonneg. rewrite shr_record_of_loc_m. exact H.
Qed.

Lemma round_nearest_even_nonneg : forall m l, 0 <= m -> 0 <= round_nearest_even m l.
Proof.
  intros m [|[]] H; simpl; try lia. destruct (Z.even m); lia.
Qed.

Lemma binary_round_aux_nonneg :
  forall m e l, 0 <= m -> NonNeg (binary_round_aux prec emax false m e l).
Proof.
  intros m e l H. unfold binary_round_aux.
  pose proof (shr_fexp_nonneg m e l H) as H1.
  destruct (shr_fexp prec emax m e l) as [mrs' e']. simpl in H1.
  pose proof (shr_fexp_nonneg (round_nearest_even (shr_m mrs') (loc_of_shr_record mrs')) e' loc_Exact
                (round_nearest_even_nonneg _ _ H1)) as H2.
  destruct (shr_fexp prec emax _ e' loc_Exact) as [mrs'' e'']. simpl in H2.
  destruct (shr_m mrs''); simpl; auto; try lia.
  match goal with |- context [if ?b then _ else _] => destruct b end; simpl; reflexivity.
Qed.

Lemma binary_round_nonneg : forall m e, NonNeg (binary_round prec emax false m e).
Proof.
  intros m e. unfold binary_round.
  destruct (shl_align m e _) as [mz ez]. apply binary_round_aux_nonneg. lia.
Qed.

Lemma binary_normalize_nonneg : forall m e s, 0 <= m -> NonNeg (binary_normalize prec emax m e s).
Proof.
  intros m e s H. destruct m; simpl; auto; [apply binary_round_nonneg | lia].
Qed.

Lemma SFmul_nonneg :
  forall x m e, NonNeg x -> NonNeg (SFmul prec emax x (S754_finite false m e)).
Proof.
  intros [s|s| |s mx ex] m e H; simpl in *; auto; try contradiction.
  - subst. reflexivity.
  - subst. apply binary_round_aux_nonneg. lia.
Qed.

Lemma SFdiv_nonneg :
  forall x m e, NonNeg x -> NonNeg (SFdiv prec emax x (S754_finite false m e)).
Proof.
  intros [s|s| |s mx ex] m e H; simpl in *; auto; try contradiction.
  - subst. reflexivity.
  - subst. unfold SFdiv_core_binary.
    set (s := Z.sub _ _).
    set (m' := match s with Z0 => _ | Zpos _ => _ | Zneg _ => _ end).
    assert (Hm' : 0 <= m').
    { subst m'. destruct s; try lia. apply Z.shiftl_nonneg. lia. }
    pose proof (Z.div_eucl_eq m' (Z.pos m) ltac:(lia)) as Heq.
    pose proof (Z.mod_pos_bound m' (Z.pos m) ltac:(lia)) as Hmod.
    unfold Z.modulo in Hmod.
    destruct (Z.div_eucl m' (Z.pos m)) as [q r].
    apply binary_round_aux_nonneg. nia.
Qed.

Lemma SFcompare_refl : forall x, x <> S754_nan -> SFcompare x x = Some Eq.
Proof.
  intros [s|s| |s m e] H; simpl; try reflexivity; try congruence.
  - destruct s; reflexivity.
  - destruct s; rewrite Z.compare_refl, Pos.compare_cont_refl; reflexivity.
Qed.

Lemma is_nan_false : forall x, PrimFloat.is_nan x = false -> Prim2SF x <> S754_nan.
Proof.
  intros x H Hn. unfold PrimFloat.is_nan in H. rewrite FloatAxioms.eqb_spec, Hn in H. discriminate.
Qed.

Lemma is_finite_true :
  forall x, PrimFloat.is_finite x = true ->
    match Prim2SF x with
    | S754_zero _ | S754_finite _ _ _ => True
    | _ => False
    end.
Proof.
  intros x H. unfold PrimFloat.is_finite, PrimFloat.is_nan, PrimFloat.is_infinity in H.
  rewrite !FloatAxioms.eqb_spec, abs_spec in H.
  change (Prim2SF infinity) with (S754_infinity false) in H.
  destruct (Prim2SF x) as [s|[|]| |s m e]; simpl in *; auto; discriminate.
Qed.

Lemma leb_zero_nonneg : forall y, NonNeg (Prim2SF y) -> PrimFloat.leb 0 y = true.
Proof.
  intros y H. rewrite FloatAxioms.leb_spec. change (Prim2SF 0) with (S754_zero false).
  destruct (Prim2SF y) as [s|s| |s m e]; simpl in *; subst; auto; contradiction.
Qed.

Lemma of_uint63_nonneg : forall n, NonNeg (Prim2SF (PrimFloat.of_uint63 n)).
Proof.
  intros n. rewrite of_uint63_spec. apply binary_normalize_nonneg.
  pose proof (Uint63.to_Z_bounded n). lia.
Qed.

Lemma Math_round_nonneg :
  forall x, NonNeg (Prim2SF x) -> NonNeg (Prim2SF (JS.Math_round x)).
Proof.
  intros x H. unfold JS.Math_round.
  destruct (Prim2SF x) as [s|s| |s m e] eqn:Hx; try (rewrite Hx; exact H).
  simpl in H. subst s.
  destruct (0 <=? e) eqn:He; [rewrite Hx; reflexivity|].
  apply Z.leb_gt in He.
  set (r := (2 * Z.pos m + 2 ^ (- e)) / (2 * 2 ^ (- e))).
  destruct (r =? 0) eqn:Hr0; [exact I|].
  assert (Hr : 0 <= r).
  { subst r. assert (0 < 2 ^ (- e)) by (apply Z.pow_pos_nonneg; lia).
    apply Z.div_pos; lia. }
  unfold JS.ofZ. destruct r; [discriminate Hr0 | apply of_uint63_nonneg | lia].
Qed.

Lemma iter_xO : forall d m, Z.pos (Pos.iter xO m d) = Z.pos m * 2 ^ Z.pos d.
Proof.
  intros d m. induction d as [|d IH] using Pos.peano_ind.
  - simpl. lia.
  - rewrite Pos.iter_succ. rewrite Pos2Z.inj_xO, IH.
    rewrite Pos2Z.inj_succ, Z.pow_succ_r by lia. lia.
Qed.

Lemma shl_align_value :
  forall m e e', e' <= e -> Z.pos (fst (shl_align m e e')) = Z.pos m * 2 ^ (e - e').
Proof.
  intros m e e' H. unfold shl_align.
  destruct (e' - e) as [|d|d] eqn:Hd; cbn [fst].
  - replace (e - e') with 0 by lia. rewrite Z.pow_0_r. lia.
  - lia.
  - rewrite iter_xO. f_equal. f_equal. lia.
Qed.

Lemma digits2_pos_bounds :
  forall m, 2 ^ (Z.pos (digits2_pos m) - 1) <= Z.pos m < 2 ^ Z.pos (digits2_pos m).
Proof.
  induction m as [m IH|m IH|]; simpl digits2_pos.
  - rewrite Pos2Z.inj_succ. replace (Z.succ (Z.pos (digits2_pos m)) - 1) with (Z.succ (Z.pos (digits2_pos m) - 1)) by lia.
    rewrite !Z.pow_succ_r by lia. lia.
  - rewrite Pos2Z.inj_succ. replace (Z.succ (Z.pos (digits2_pos m)) - 1) with (Z.succ (Z.pos (digits2_pos m) - 1)) by lia.
    rewrite !Z.pow_succ_r by lia. lia.
  - simpl. lia.
Qed.

(** A canonical mantissa is below 2^prec, and at least 2^(prec-1) above the
    least exponent. *)
Lemma bounded_mantissa :
  forall m e, bounded prec emax m e = true ->
    Z.pos m < 2 ^ prec /\ SpecFloat.emin prec emax <= e /\ (SpecFloat.emin prec emax < e -> 2 ^ (prec - 1) <= Z.pos m).
Proof.
  intros m e H. unfold bounded, canonical_mantissa, fexp, SpecFloat.emin in H. unfold SpecFloat.emin.
  apply andb_true_iff in H. destruct H as [H _]. apply Z.eqb_eq in H.
  pose proof (digits2_pos_bounds m) as [Hlo Hhi].
  assert (Hd : Z.pos (digits2_pos m) <= prec) by lia.
  split; [|split].
  - eapply Z.lt_le_trans; [exact Hhi|]. apply Z.pow_le_mono_r; lia.
  - lia.
  - intros He. assert (Z.pos (digits2_pos m) = prec) by lia.
    replace (prec - 1) with (Z.pos (digits2_pos m) - 1) by lia. exact Hlo.
Qed.

Lemma SFsub_self_nonneg : forall x, Finite x -> NonNeg (SFsub prec emax x x).
Proof.
  intros [s|s| |s m e] H; simpl in *; try contradiction.
  - destruct s; exact I.
  - rewrite Z.sub_diag. exact I.
Qed.

Lemma SFcompare_swap :
  forall x y, SFcompare y x = option_map CompOpp (SFcompare x y).
Proof.
  intros [s1|s1| |s1 m1 e1] [s2|s2| |s2 m2 e2]; simpl; try reflexivity;
    try (destruct s1; reflexivity); try (destruct s2; reflexivity);
    try (destruct s1, s2; reflexivity).
  destruct s1, s2; simpl; try reflexivity.
  - rewrite (Z.compare_antisym e1 e2).
    destruct (e1 ?= e2); simpl; try reflexivity.
    rewrite (Pos.compare_cont_antisym m1 m2 Eq). simpl.
    destruct (Pos.compare_cont Eq m1 m2); reflexivity.
  - rewrite (Z.compare_antisym e1 e2).
    destruct (e1 ?= e2); simpl; try reflexivity.
    rewrite (Pos.compare_cont_antisym m1 m2 Eq). reflexivity.
Qed.

Lemma pow2_prec : 2 ^ prec = 2 * 2 ^ (prec - 1).
Proof. reflexivity. Qed.

(** Of two canonical positive numbers the one with the larger exponent is
    the larger. *)
Lemma larger_exponent :
  forall m1 e1 m2 e2,
    bounded prec emax m1 e1 = true -> bounded prec emax m2 e2 = true ->
    e1 < e2 -> Z.pos m1 < Z.pos m2 * 2 ^ (e2 - e1).
Proof.
  intros m1 e1 m2 e2 H1 H2 He.
  destruct (bounded_mantissa m1 e1 H1) as [Hm1 [Hmin _]].
  destruct (bounded_mantissa m2 e2 H2) as [_ [_ Hm2]].
  specialize (Hm2 ltac:(lia)).
  assert (Hp : 2 ^ 1 <= 2 ^ (e2 - e1)) by (apply Z.pow_le_mono_r; lia).
  rewrite pow2_prec in Hm1. change (2 ^ 1) with 2 in Hp.
  assert (0 < 2 ^ (prec - 1)) by reflexivity.
  nia.
Qed.

Lemma SFsub_lt_nonneg :
  forall b m,
    valid_binary b = true -> valid_binary m = true -> Finite b ->
    SFltb b m = true -> NonNeg (SFsub prec emax m b).
Proof.
  intros b m Hvb Hvm Hb Hlt. unfold SFltb in Hlt.
  destruct b as [sb|sb| |sb mb eb]; simpl in Hb; try contradiction;
    destruct m as [sm|sm| |sm mm em]; simpl in Hlt; try discriminate.
  - destruct sm; [discriminate | reflexivity].
  - destruct sm; [discriminate | reflexivity].
  - destruct sb; [reflexivity | discriminate].
  - destruct sm; [discriminate | reflexivity].
  - 
    simpl in Hvb, Hvm. unfold SFsub.
    apply binary_normalize_nonneg.
    rewrite !shl_align_value by lia.
    assert (Hpow : forall k, 0 < 2 ^ k \/ 2 ^ k = 0).
    { intros k. destruct (Z.le_gt_cases 0 k).
      - left. apply Z.pow_pos_nonneg; lia.
      - right. apply Z.pow_neg_r. lia. }
    destruct sb, sm; simpl in Hlt; try discriminate; cbn [cond_Zopp].
    + 
      destruct (eb ?= em) eqn:He; try discriminate.
      * apply Z.compare_eq in He. subst em.
        rewrite Z.min_id, Z.sub_diag. 
        destruct (Pos.compare_cont Eq mb mm) eqn:Hm; try discriminate.
        change (Pos.compare_cont Eq mb mm) with (Pos.compare mb mm) in Hm.
        apply -> Pos.compare_gt_iff in Hm. change (2 ^ 0) with 1. lia.
      * apply -> Z.compare_gt_iff in He.
        rewrite Z.min_l by lia. rewrite Z.sub_diag. change (2 ^ 0) with 1.
        pose proof (larger_exponent mm em mb eb Hvm Hvb He). lia.
    + 
      destruct (Hpow (em - Z.min em eb)), (Hpow (eb - Z.min em eb)); nia.
    + 
      destruct (eb ?= em) eqn:He; try discriminate.
      * apply Z.compare_eq in He. subst em.
        rewrite Z.min_id, Z.sub_diag.
        change (Pos.compare_cont Eq mb mm) with (Pos.compare mb mm) in Hlt.
        destruct (Pos.compare mb mm) eqn:Hm; try discriminate.
        apply -> Pos.compare_lt_iff in Hm. change (2 ^ 0) with 1. lia.
      * apply -> Z.compare_lt_iff in He.
        rewrite Z.min_r by lia. rewrite Z.sub_diag. change (2 ^ 0) with 1.
        pose proof (larger_exponent mb eb mm em Hvb Hvm He). lia.
Qed.

Lemma SFsub_eq_nonneg :
  forall b m, Finite b -> SFcompare b m = Some Eq -> NonNeg (SFsub prec emax m b).
Proof.
  intros b m Hb Heq.
  destruct b as [sb|sb| |sb mb eb]; simpl in Hb; try contradiction;
    destruct m as [sm|sm| |sm mm em]; simpl in Heq; try discriminate;
    try (destruct sm; discriminate); try (destruct sb; discriminate).
  - destruct sm, sb; exact I.
  - assert (sb = sm /\ eb = em /\ mb = mm) as [-> [-> ->]].
    { destruct sb, sm; try discriminate;
        destruct (eb ?= em) eqn:He; try discriminate;
        apply Z.compare_eq in He;
        change (Pos.compare_cont Eq mb mm) with (Pos.compare mb mm) in Heq;
        destruct (Pos.compare mb mm) eqn:Hm; try discriminate;
        apply Pos.compare_eq in Hm; auto. }
    apply SFsub_self_nonneg. exact I.
Qed.

(** The difference between the larger of two numbers and the first of them
    is not negative. *)
Lemma max_minus_nonneg :
  forall b m : float,
    PrimFloat.is_finite b = true -> PrimFloat.is_nan m = false ->
    NonNeg (Prim2SF (PrimFloat.sub (JS.Math_max b m) b)).
Proof.
  intros b m Hb Hm.
  pose proof (is_finite_true b Hb) as HB.
  assert (Hbn : PrimFloat.is_nan b = false).
  { unfold PrimFloat.is_finite in Hb. destruct (PrimFloat.is_nan b); [discriminate|reflexivity]. }
  unfold JS.Math_max. rewrite Hbn, Hm. simpl.
  rewrite !FloatAxioms.ltb_spec.
  destruct (SFltb (Prim2SF b) (Prim2SF m)) eqn:H1.
  - rewrite FloatAxioms.sub_spec. apply SFsub_lt_nonneg; auto using Prim2SF_valid.
  - destruct (SFltb (Prim2SF m) (Prim2SF b)) eqn:H2.
    + rewrite FloatAxioms.sub_spec. apply SFsub_self_nonneg. exact HB.
    + destruct (PrimFloat.get_sign b).
      * rewrite FloatAxioms.sub_spec. apply SFsub_eq_nonneg; [exact HB|].
        unfold SFltb in H1, H2. rewrite SFcompare_swap in H2.
        pose proof (is_nan_false m Hm) as Hmn.
        destruct (Prim2SF b) as [sb|sb| |sb mb eb]; simpl in HB; try contradiction;
          destruct (Prim2SF m) as [sm|sm| |sm mm em]; try congruence;
          destruct (SFcompare _ _) as [[]|] eqn:Hc; simpl in *; try discriminate;
          try reflexivity.
        all: try (destruct sm; discriminate).
      * rewrite FloatAxioms.sub_spec. apply SFsub_self_nonneg. exact HB.
Qed.

Lemma round2_nonneg :
  forall x, NonNeg (Prim2SF x) -> PrimFloat.leb 0 (PricingEngine.round2 x) = true.
Proof.
  intros x H. apply leb_zero_nonneg. unfold PricingEngine.round2.
  rewrite FloatAxioms.div_spec. change (Prim2SF 100) with (S754_finite false 7036874417766400 (-46)).
  apply SFdiv_nonneg. apply Math_round_nonneg.
  rewrite FloatAxioms.mul_spec. change (Prim2SF 100) with (S754_finite false 7036874417766400 (-46)).
  apply SFmul_nonneg. exact H.
Qed.

(** ** The pricing engine *)

Lemma bulkLoop_spec :
  forall stores coverageType date acc e w,
    PricingEngine.bulkLoop stores coverageType date acc e w
    = (Ok (BulkPricingResult.mk
             (bulkResults (pricingConfigs w) coverageType date stores (BulkPricingResult.results acc))
             (BulkPricingResult.errors acc ++ bulkErrors (pricingConfigs w) coverageType date stores)%list),
       w).
Proof.
  induction stores as [|store rest IH]; intros coverageType date acc e w; simpl.
  - rewrite app_nil_r. destruct acc; reflexivity.
  - unfold bind at 1. unfold tryCatch, bind, PricingEngine.calculate, PricingEngine.orNow, ret, gets, liftResult.
    simpl.
    destruct (PricingEngine.calculateAt (pricingConfigs w) store coverageType date) as [result|message].
    + rewrite IH. simpl. reflexivity.
    + rewrite IH. simpl. rewrite <- app_assoc. reflexivity.
Qed.

Lemma set_has_other : forall (V : Type) (m : JsMap.t V) k v k',
  JsMap.has (JsMap.set m k v) k' = (String.eqb k k' || JsMap.has m k').
Proof.
  intros V m k v k'. unfold JsMap.has.
  induction m as [|[k0 v0] r IH]; simpl.
  - destruct (String.eqb k k'); reflexivity.
  - destruct (String.eqb k0 k) eqn:H0; simpl.
    + apply String.eqb_eq in H0. subst k0.
      destruct (String.eqb k k'); reflexivity.
    + destruct (String.eqb k0 k') eqn:H1.
      * destruct (String.eqb k k'); reflexivity.
      * exact IH.
Qed.

Lemma set_size : forall (V : Type) (m : JsMap.t V) k v,
  JsMap.size (JsMap.set m k v) = (if JsMap.has m k then JsMap.size m else S (JsMap.size m)).
Proof.
  intros V m k v. unfold JsMap.has, JsMap.size.
  induction m as [|[k0 v0] r IH]; simpl; [reflexivity|].
  destruct (String.eqb k0 k); simpl; [reflexivity|].
  rewrite IH. destruct (JsMap.get r k); reflexivity.
Qed.

Lemma set_get_same : forall (V : Type) (m : JsMap.t V) k v,
  JsMap.get (JsMap.set m k v) k = Some v.
Proof.
  intros V m k v. induction m as [|[k0 v0] r IH]; simpl.
  - rewrite String.eqb_refl. reflexivity.
  - destruct (String.eqb k0 k) eqn:H0; simpl.
    + rewrite H0. reflexivity.
    + rewrite H0. exact IH.
Qed.

Lemma set_get_other : forall (V : Type) (m : JsMap.t V) k v k',
  k <> k' -> JsMap.get (JsMap.set m k v) k' = JsMap.get m k'.
Proof.
  intros V m k v k' Hneq. induction m as [|[k0 v0] r IH]; simpl.
  - destruct (String.eqb k k') eqn:H; [apply String.eqb_eq in H; contradiction | reflexivity].
  - destruct (String.eqb k0 k) eqn:H0; simpl.
    + apply String.eqb_eq in H0. subst k0.
      destruct (String.eqb k k') eqn:H; [apply String.eqb_eq in H; contradiction | reflexivity].
    + destruct (String.eqb k0 k'); [reflexivity | exact IH].
Qed.

Section Bulk.
Variables (configs : list PricingConfig.t) (coverageType : CoverageType) (date : JS.Date).

Lemma bulkErrors_length : forall stores,
  List.length (bulkErrors configs coverageType date stores)
  = List.length (List.filter (fun s => negb (priced configs coverageType date s)) stores).
Proof.
  induction stores as [|s r IH]; simpl; [reflexivity|]. unfold priced at 1.
  destruct (PricingEngine.calculateAt configs s coverageType date); simpl.
  - exact IH.
  - f_equal. exact IH.
Qed.

Lemma bulkResults_size_le : forall stores results,
  (JsMap.size (bulkResults configs coverageType date stores results)
   <= JsMap.size results + List.length (List.filter (priced configs coverageType date) stores))%nat.
Proof.
  induction stores as [|s r IH]; intros results; simpl; [lia|].
  unfold priced in *. simpl.
  destruct (PricingEngine.calculateAt configs s coverageType date); simpl.
  - specialize (IH (JsMap.set results (Store.storeCode s) a)).
    rewrite set_size in IH. destruct (JsMap.has results (Store.storeCode s)); lia.
  - apply IH.
Qed.

Lemma bulkResults_size_distinct : forall stores results,
  NoDup (List.map Store.storeCode stores) ->
  (forall s, In s stores -> JsMap.has results (Store.storeCode s) = false) ->
  JsMap.size (bulkResults configs coverageType date stores results)
  = (JsMap.size results + List.length (List.filter (priced configs coverageType date) stores))%nat.
Proof.
  induction stores as [|s r IH]; intros results Hnd Hfresh; simpl; [lia|].
  inversion Hnd as [|x l Hx Hl]; subst.
  unfold priced in *. simpl.
  destruct (PricingEngine.calculateAt configs s coverageType date); simpl.
  - rewrite IH; auto.
    + rewrite set_size. rewrite (Hfresh s) by (left; reflexivity). lia.
    + intros s' Hs'. rewrite set_has_other. rewrite (Hfresh s') by (right; exact Hs').
      rewrite orb_false_r. apply String.eqb_neq. intros Heq. apply Hx.
      rewrite Heq. apply in_map. exact Hs'.
  - apply IH; auto. intros s' Hs'. apply Hfresh. right. exact Hs'.
Qed.

Lemma filter_split_length : forall (A : Type) (f : A -> bool) (l : list A),
  (List.length (List.filter f l) + List.length (List.filter (fun x => negb (f x)) l)
   = List.length l)%nat.
Proof.
  induction l as [|a l IH]; simpl; [reflexivity|]. destruct (f a); simpl; lia.
Qed.

Lemma bulkResults_has : forall stores results s,
  In s stores -> priced configs coverageType date s = true ->
  JsMap.has (bulkResults configs coverageType date stores results) (Store.storeCode s) = true.
Proof.
  assert (Hkeep : forall stores results k, JsMap.has results k = true ->
            JsMap.has (bulkResults configs coverageType date stores results) k = true).
  { induction stores as [|s r IH]; intros results k H; simpl; [exact H|].
    destruct (PricingEngine.calculateAt configs s coverageType date); apply IH; auto.
    rewrite set_has_other, H. apply orb_true_r. }
  induction stores as [|s0 r IH]; intros results s Hin Hp; simpl; [destruct Hin|].
  destruct Hin as [<-|Hin].
  - unfold priced in Hp.
    destruct (PricingEngine.calculateAt configs s0 coverageType date); [|discriminate].
    apply Hkeep. rewrite set_has_other, String.eqb_refl. reflexivity.
  - apply IH; assumption.
Qed.

End Bulk.

Lemma keep_get :
  forall configs coverageType date stores results k,
    (forall s, In s stores -> Store.storeCode s <> k) ->
    JsMap.get (bulkResults configs coverageType date stores results) k
    = JsMap.get results k.
Proof.
  intros configs coverageType date.
  induction stores as [|s r IH]; intros results k Hother; simpl; [reflexivity|].
  destruct (PricingEngine.calculateAt configs s coverageType date).
  - rewrite IH by (intros s' Hs'; apply Hother; right; exact Hs').
    apply set_get_other. apply Hother. left. reflexivity.
  - apply IH. intros s' Hs'. apply Hother. right. exact Hs'.
Qed.

Lemma bulkResults_get_distinct :
  forall configs coverageType date stores results s result,
    NoDup (List.map Store.storeCode stores) ->
    In s stores ->
    PricingEngine.calculateAt configs s coverageType date = Ok result ->
    JsMap.get (bulkResults configs coverageType date stores results) (Store.storeCode s)
    = Some result.
Proof.
  intros configs coverageType date.
  induction stores as [|s0 r IH]; intros results s result Hnd Hin Hok; simpl;
    [destruct Hin|].
  inversion Hnd as [|x l Hx Hl]; subst.
  destruct Hin as [<-|Hin].
  - rewrite Hok. rewrite keep_get.
    + apply set_get_same.
    + intros s' Hs' Heq. apply Hx. rewrite <- Heq. apply in_map. exact Hs'.
  - destruct (PricingEngine.calculateAt configs s0 coverageType date);
      apply IH; assumption.
Qed.

(** The entry of a code is the one the map had when no later store of that
    code is priced. *)
Lemma later_get :
  forall configs coverageType date stores results k,
    (forall s, In s stores -> Store.storeCode s = k ->
       priced configs coverageType date s = false) ->
    JsMap.get (bulkResults configs coverageType date stores results) k
    = JsMap.get results k.
Proof.
  intros configs coverageType date.
  induction stores as [|s r IH]; intros results k Hlater; simpl; [reflexivity|].
  assert (Hrest : forall s', In s' r -> Store.storeCode s' = k ->
                    priced configs coverageType date s' = false).
  { intros s' Hs'. apply Hlater. right. exact Hs'. }
  destruct (PricingEngine.calculateAt configs s coverageType date) as [result|message]
    eqn:Hs.
  - rewrite IH by exact Hrest. apply set_get_other. intro Heq.
    specialize (Hlater s (or_introl eq_refl) Heq). unfold priced in Hlater.
    rewrite Hs in Hlater. discriminate Hlater.
  - apply IH. exact Hrest.
Qed.

Lemma bulkResults_app :
  forall configs coverageType date before after results,
    bulkResults configs coverageType date (before ++ after) results
    = bulkResults configs coverageType date after
        (bulkResults configs coverageType date before results).
Proof. intros. unfold bulkResults. apply fold_left_app. Qed.

(** C5 (amended).  calculateBulk never throws.  It records one structured
    error, with the store code, the coverage type and the message, for each
    store that calculate refuses, in the order of the stores, so that no
    failed store is dropped.  It stores the result of each store that
    calculate accepts under the store's code: every such store has an entry,
    and a later store with the same code replaces the result of an earlier
    one.  Hence results.size + errors.length is at most stores.length, and is
    equal to stores.length, each store with its own result, when the store
    codes are pairwise distinct. *)
Theorem calculateBulk_accounts_for_stores :
  forall stores coverageType effectiveDate e w,
    let date := match effectiveDate with
                | Some d => d
                | None => Some (clock e (ticks w))
                end in
    let outcome store :=
      PricingEngine.calculateAt (pricingConfigs w) store coverageType date in
    exists bulk w',
      PricingEngine.calculateBulk stores coverageType effectiveDate e w = (Ok bulk, w')
      /\ BulkPricingResult.errors bulk
         = List.flat_map
             (fun store =>
                match outcome store with
                | Ok _ => []
                | Throw message =>
                    [PricingError.mk (Store.storeCode store) coverageType message]
                end) stores
      /\ (forall store result,
            In store stores -> outcome store = Ok result ->
            JsMap.has (BulkPricingResult.results bulk) (Store.storeCode store) = true)
      /\ (JsMap.size (BulkPricingResult.results bulk)
          + List.length (BulkPricingResult.errors bulk) <= List.length stores)%nat
      /\ (NoDup (List.map Store.storeCode stores) ->
          (JsMap.size (BulkPricingResult.results bulk)
           + List.length (BulkPricingResult.errors bulk) = List.length stores)%nat
          /\ forall store result,
               In store stores -> outcome store = Ok result ->
               JsMap.get (BulkPricingResult.results bulk) (Store.storeCode store)
               = Some result)
      /\ (forall before store after result,
            stores = (before ++ store :: after)%list ->
            outcome store = Ok result ->
            (forall later r,
               In later after -> Store.storeCode later = Store.storeCode store ->
               outcome later <> Ok r) ->
            JsMap.get (BulkPricingResult.results bulk) (Store.storeCode store)
            = Some result)
      /\ (forall code,
            (forall store r,
               In store stores -> Store.storeCode store = code -> outcome store <> Ok r) ->
            JsMap.get (BulkPricingResult.results bulk) code = None).
Proof.
  intros stores coverageType effectiveDate e w date outcome.
  assert (Hunpriced : forall store,
            (forall r, outcome store <> Ok r) ->
            priced (pricingConfigs w) coverageType date store = false).
  { intros store Hnot. unfold priced. fold (outcome store).
    destruct (outcome store) as [r|message]; [|reflexivity].
    exfalso. exact (Hnot r eq_refl). }
  assert (Hrun : exists w',
            PricingEngine.calculateBulk stores coverageType effectiveDate e w
            = (Ok (BulkPricingResult.mk
                     (bulkResults (pricingConfigs w) coverageType date stores [])
                     (bulkErrors (pricingConfigs w) coverageType date stores)), w')).
  { unfold PricingEngine.calculateBulk, bind, PricingEngine.orNow.
    destruct effectiveDate as [d|]; simpl.
    - rewrite bulkLoop_spec. eexists. reflexivity.
    - rewrite bulkLoop_spec. eexists. reflexivity. }
  destruct Hrun as [w' Hrun].
  eexists. exists w'. split; [exact Hrun|]. cbn [BulkPricingResult.errors
    BulkPricingResult.results].
  pose proof (bulkErrors_length (pricingConfigs w) coverageType date stores) as Herr.
  pose proof (filter_split_length _ (priced (pricingConfigs w) coverageType date) stores)
    as Hsplit.
  split; [reflexivity|]. split; [|split; [|split; [|split]]].
  - intros store result Hin Hok. apply bulkResults_has; [exact Hin|].
    unfold priced. fold (outcome store). rewrite Hok. reflexivity.
  - pose proof (bulkResults_size_le (pricingConfigs w) coverageType date stores [])
      as Hle.
    simpl in Hle. lia.
  - intros Hnd. split.
    + rewrite (bulkResults_size_distinct (pricingConfigs w) coverageType date stores [])
        by (auto; intros; reflexivity).
      simpl. lia.
    + intros store result Hin Hok. apply bulkResults_get_distinct; assumption.
  - intros before store after result Hstores Hok Hlater. rewrite Hstores.
    rewrite bulkResults_app. cbn [bulkResults List.fold_left].
    fold (outcome store). rewrite Hok.
    fold (bulkResults (pricingConfigs w) coverageType date after
            (JsMap.set (bulkResults (pricingConfigs w) coverageType date before [])
               (Store.storeCode store) result)).
    rewrite later_get; [apply set_get_same|].
    intros later Hin Hcode. apply Hunpriced. intros r. exact (Hlater later r Hin Hcode).
  - intros code Hnone. rewrite later_get; [reflexivity|].
    intros store Hin Hcode. apply Hunpriced. intros r. exact (Hnone store r Hin Hcode).
Qed.

(** C5 (counterexample).  Two stores of the batch have the code S1 and both
    are priced: the result of the second replaces the result of the first,
    the map has one entry, there is no error, and 1 + 0 is not 2. *)
Lemma calculateBulk_same_code_counts_once :
  let first := Sample.store "S1" "Uno" 100%float SActive None None in
  let second := Sample.store "S1" "Uno bis" 4000%float SActive None None in
  exists bulk w',
    PricingEngine.calculateBulk [first; second] catnat None Sample.env Sample.world
    = (Ok bulk, w')
    /\ JsMap.size (BulkPricingResult.results bulk) = 1%nat
    /\ List.length (BulkPricingResult.errors bulk) = 0%nat
    /\ (JsMap.size (BulkPricingResult.results bulk)
        + List.length (BulkPricingResult.errors bulk))%nat
       <> List.length [first; second]
    /\ option_map PricingResult.premium
         (JsMap.get (BulkPricingResult.results bulk) "S1") = Some 10000%float.
Proof.
  cbv zeta. do 2 eexists. split; [vm_compute; reflexivity|].
  repeat split. simpl. discriminate.
Qed.

(** A batch with distinct codes on a date before any configuration: one
    error for each store. *)
Lemma calculateBulk_accounts_for_stores_witness :
  let stores := [Sample.store "S1" "Uno" 100%float SActive None None;
                 Sample.store "S2" "Due" 4000%float SActive None None] in
  exists bulk w',
    PricingEngine.calculateBulk stores catnat (Some (Some 1600000000000))
      Sample.env Sample.world = (Ok bulk, w')
    /\ List.map PricingError.storeCode (BulkPricingResult.errors bulk) = ["S1"; "S2"]
    /\ (JsMap.size (BulkPricingResult.results bulk)
        + List.length (BulkPricingResult.errors bulk))%nat = 2%nat.
Proof.
  cbv zeta.
  destruct (calculateBulk_accounts_for_stores
              [Sample.store "S1" "Uno" 100%float SActive None None;
               Sample.store "S2" "Due" 4000%float SActive None None]
              catnat (Some (Some 1600000000000)) Sample.env Sample.world)
    as [bulk [w' [Hrun [Herrors [_ [_ [Hdistinct _]]]]]]].
  exists bulk, w'. split; [exact Hrun|]. split.
  - rewrite Herrors. vm_compute. reflexivity.
  - apply Hdistinct. repeat constructor; simpl; intuition discriminate.
Defined.

(** Math.round rounds half up: on a finite double with a fractional part,
    of value v / d with d = 2^-e, it returns the integer r with
    r - 1/2 <= v / d < r + 1/2. *)
Lemma Math_round_half_up :
  forall x s m e,
    Prim2SF x = S754_finite s m e -> e < 0 ->
    let d := 2 ^ (- e) in
    let v := if s then Z.neg m else Z.pos m in
    exists r,
      (2 * r - 1) * d <= 2 * v < (2 * r + 1) * d
      /\ JS.Math_round x
         = if r =? 0 then (if s then (-0)%float else 0%float) else JS.ofZ r.
Proof.
  intros x s m e Hx He d v. unfold JS.Math_round. rewrite Hx.
  destruct (0 <=? e) eqn:Hle; [apply Z.leb_le in Hle; lia|].
  exists ((2 * v + d) / (2 * d)). split; [|reflexivity].
  assert (Hd : 0 < d) by (apply Z.pow_pos_nonneg; lia).
  pose proof (Z.div_mod (2 * v + d) (2 * d) ltac:(lia)) as Hdiv.
  pose proof (Z.mod_pos_bound (2 * v + d) (2 * d) ltac:(lia)) as Hmod.
  nia.
Qed.

(** C4 (amended).  With a pricing configuration of rate r, minimum premium m
    and maximum insured sum M active for the coverage type at the date, and a
    store of floor area a, calculate returns
    premium = round2 (max (a * r, m)) and insuredSum = round2 (min (a * 1000, M)),
    where round2 x is Math.round (x * 100) / 100, the operations being those of
    doubles and Math.round rounding half up.  The breakdown holds
    basePremium = round2 (a * r) and adjustments = round2 (max (a * r, m) - a * r):
    the rounding of the difference of the amounts before they are rounded, not
    the difference of the two amounts returned.  The adjustments are not
    negative when a * r is finite and m is a number. *)
Theorem calculate_formula :
  forall configs store coverageType effectiveDate config,
    PricingEngine.getActiveConfig configs coverageType effectiveDate = Some config ->
    let a := Store.squareMeters store in
    let r := PricingConfig.ratePerSquareMeter config in
    let m := PricingConfig.minimumPremium config in
    let M := PricingConfig.maximumInsuredSum config in
    exists result,
      PricingEngine.calculateAt configs store coverageType effectiveDate = Ok result
      /\ PricingResult.premium result
         = PricingEngine.round2 (JS.Math_max (PrimFloat.mul a r) m)
      /\ PricingResult.insuredSum result
         = PricingEngine.round2 (JS.Math_min (PrimFloat.mul a 1000%float) M)
      /\ PricingResult.basePremium result = PricingEngine.round2 (PrimFloat.mul a r)
      /\ PricingResult.adjustments result
         = PricingEngine.round2
             (PrimFloat.sub (JS.Math_max (PrimFloat.mul a r) m) (PrimFloat.mul a r))
      /\ (PrimFloat.is_finite (PrimFloat.mul a r) = true ->
          PrimFloat.is_nan m = false ->
          PrimFloat.leb 0%float (PricingResult.adjustments result) = true).
Proof.
  intros configs store coverageType effectiveDate config Hconfig a r m M.
  unfold PricingEngine.calculateAt. rewrite Hconfig.
  eexists. split; [reflexivity|]. cbn [PricingResult.premium PricingResult.insuredSum
    PricingResult.basePremium PricingResult.adjustments].
  repeat split.
  intros Hfinite Hnumber. apply round2_nonneg. apply max_minus_nonneg; assumption.
Qed.

(** The default catnat configuration on 2025-06-15 applied to 100 and to
    5000 square metres. *)
Lemma calculate_formula_witness :
  let date : JS.Date := Some 1750000000000 in
  let priced mq :=
    option_map (fun result => (PricingResult.premium result,
                               PricingResult.insuredSum result,
                               PricingResult.adjustments result))
      (match PricingEngine.calculateAt PricingEngine.DEFAULT_PRICING_CONFIGS
               (Sample.store "S1" "Uno" mq SActive None None) catnat date with
       | Ok result => Some result
       | Throw _ => None
       end) in
  priced 100%float = Some (500%float, 100000%float, 250%float)
  /\ priced 5000%float = Some (12500%float, 5000000%float, 0%float)
  /\ exists result,
       PricingEngine.calculateAt PricingEngine.DEFAULT_PRICING_CONFIGS
         (Sample.store "S1" "Uno" 100%float SActive None None) catnat date = Ok result
       /\ PrimFloat.leb 0%float (PricingResult.adjustments result) = true.
Proof.
  cbv zeta. split; [vm_compute; reflexivity|]. split; [vm_compute; reflexivity|].
  destruct (calculate_formula PricingEngine.DEFAULT_PRICING_CONFIGS
              (Sample.store "S1" "Uno" 100%float SActive None None) catnat
              (Some 1750000000000)
              (PricingConfig.mk catnat 2.5%float 500%float 10000000%float
                 PricingEngine.date_2024_01_01 None)
              eq_refl)
    as [result [Hrun [_ [_ [_ [_ Hnonneg]]]]]].
  exists result. split; [exact Hrun|].
  apply Hnonneg; vm_compute; reflexivity.
Defined.

(** C4 (counterexample).  A store of 100.25 square metres under the default
    catnat configuration (rate 2.5, minimum 500): the base premium 250.625 is
    returned as 250.63, the premium is 500, and the adjustments, 249.375
    before rounding, are returned as 249.38.  They are neither the difference
    500 - 250.63 = 249.37 of the amounts returned nor the difference 249.375
    of the amounts before rounding.  And for a floor area of +infinity, which
    is positive, the adjustments are NaN, which is not at least zero. *)
Lemma calculate_adjustments_are_rounded_apart :
  let date : JS.Date := Some 1750000000000 in
  let run mq :=
    PricingEngine.calculateAt PricingEngine.DEFAULT_PRICING_CONFIGS
      (Sample.store "S1" "Uno" mq SActive None None) catnat date in
  (exists result,
     run 100.25%float = Ok result
     /\ PricingResult.premium result = 500%float
     /\ PricingResult.basePremium result = PrimFloat.div 25063 100
     /\ PricingResult.adjustments result = PrimFloat.div 24938 100
     /\ PrimFloat.sub (PricingResult.premium result) (PricingResult.basePremium result)
        = PrimFloat.div 24937 100
     /\ PrimFloat.eqb (PricingResult.adjustments result)
          (PrimFloat.sub (PricingResult.premium result)
             (PricingResult.basePremium result)) = false
     /\ PrimFloat.eqb (PricingResult.adjustments result)
          (PrimFloat.sub (JS.Math_max (PrimFloat.mul 100.25 2.5) 500)
             (PrimFloat.mul 100.25 2.5)) = false)
  /\ (exists result,
        PrimFloat.ltb 0%float infinity = true
        /\ run infinity = Ok result
        /\ PrimFloat.is_nan (PricingResult.adjustments result) = true
        /\ PrimFloat.leb 0%float (PricingResult.adjustments result) = false).
Proof.
  cbv zeta. split.
  - eexists. split; [vm_compute; reflexivity|]. vm_compute. repeat split.
  - eexists. split; [reflexivity|]. split; [vm_compute; reflexivity|].
    vm_compute. split; reflexivity.
Qed.

(* ========================================================================= *)
(** * Policy service: the price and the period of a new policy *)
(* ========================================================================= *)

Lemma mod_of_multiple (a n m : Z) :
  0 < n -> 0 < m -> (n | m) -> a mod m = 0 -> a mod n = 0.
Proof.
  intros Hn Hm Hd H. apply Z.mod_divide in H; [|lia]. apply Z.mod_divide; [lia|].
  eapply Z.divide_trans; eassumption.
Qed.

Lemma mod_shift (y c k : Z) : 0 < k -> c mod k = 0 -> (y - c) mod k = y mod k.
Proof.
  intros Hk H. apply Z.mod_divide in H; [|lia]. destruct H as [q ->].
  replace (y - q * k) with (y + (- q) * k) by lia. apply Z.mod_add. lia.
Qed.

Lemma DayFromYear_succ y : JS.DayFromYear (y + 1) = JS.DayFromYear y + JS.DaysInYear y.
Proof.
  unfold JS.DayFromYear, JS.DaysInYear, JS.isLeap.
  assert (E4 : (y + 1 - 1969) / 4 = (y - 1969) / 4 + (if y mod 4 =? 0 then 1 else 0)).
  { rewrite <- (mod_shift y 1968 4) by (reflexivity || lia).
    destruct ((y - 1968) mod 4 =? 0) eqn:E.
    - apply Z.eqb_eq in E. Z.div_mod_to_equations. lia.
    - apply Z.eqb_neq in E. Z.div_mod_to_equations. lia. }
  assert (E100 : (y + 1 - 1901) / 100 = (y - 1901) / 100 + (if y mod 100 =? 0 then 1 else 0)).
  { rewrite <- (mod_shift y 1900 100) by (reflexivity || lia).
    destruct ((y - 1900) mod 100 =? 0) eqn:E.
    - apply Z.eqb_eq in E. Z.div_mod_to_equations. lia.
    - apply Z.eqb_neq in E. Z.div_mod_to_equations. lia. }
  assert (E400 : (y + 1 - 1601) / 400 = (y - 1601) / 400 + (if y mod 400 =? 0 then 1 else 0)).
  { rewrite <- (mod_shift y 1600 400) by (reflexivity || lia).
    destruct ((y - 1600) mod 400 =? 0) eqn:E.
    - apply Z.eqb_eq in E. Z.div_mod_to_equations. lia.
    - apply Z.eqb_neq in E. Z.div_mod_to_equations. lia. }
  rewrite E4, E100, E400.
  assert (D1 : y mod 100 = 0 -> y mod 4 = 0)
    by (apply mod_of_multiple; [lia | lia | exists 25; lia]).
  assert (D2 : y mod 400 = 0 -> y mod 100 = 0)
    by (apply mod_of_multiple; [lia | lia | exists 4; lia]).
  destruct (y mod 4 =? 0) eqn:H4; destruct (y mod 100 =? 0) eqn:H100;
    destruct (y mod 400 =? 0) eqn:H400; simpl negb; cbv iota;
    rewrite ?Z.eqb_eq, ?Z.eqb_neq in *; try lia.
Qed.

Lemma DaysInYear_pos y : 365 <= JS.DaysInYear y <= 366.
Proof. unfold JS.DaysInYear. destruct (JS.isLeap y); lia. Qed.

Lemma DayFromYear_mono y1 y2 : y1 < y2 -> JS.DayFromYear y1 + 365 <= JS.DayFromYear y2.
Proof.
  intros H. unfold JS.DayFromYear. Z.div_mod_to_equations. lia.
Qed.

Lemma YearFromDay_bounds d :
  JS.DayFromYear (JS.YearFromDay d) <= d < JS.DayFromYear (JS.YearFromDay d + 1).
Proof.
  unfold JS.YearFromDay.
  set (y := 1970 + d * 400 / 146097).
  destruct (d <? JS.DayFromYear y) eqn:H1.
  - apply Z.ltb_lt in H1. replace (y - 1 + 1) with y by lia. split; [|lia].
    unfold JS.DayFromYear in *. subst y. Z.div_mod_to_equations. lia.
  - apply Z.ltb_ge in H1.
    destruct (JS.DayFromYear (y + 1) <=? d) eqn:H2.
    + apply Z.leb_le in H2. split; [lia|].
      unfold JS.DayFromYear in *. subst y. Z.div_mod_to_equations. lia.
    + apply Z.leb_gt in H2. lia.
Qed.

Lemma YearFromDay_unique d y :
  JS.DayFromYear y <= d < JS.DayFromYear (y + 1) -> JS.YearFromDay d = y.
Proof.
  intros H. pose proof (YearFromDay_bounds d) as B.
  destruct (Z.lt_trichotomy (JS.YearFromDay d) y) as [L | [E | G]]; [|exact E|].
  - assert (JS.YearFromDay d + 1 = y \/ JS.YearFromDay d + 1 < y) as [<- | L2] by lia; [lia|].
    pose proof (DayFromYear_mono _ _ L2). lia.
  - assert (y + 1 = JS.YearFromDay d \/ y + 1 < JS.YearFromDay d) as [E | L2] by lia.
    + rewrite <- E in B. lia.
    + pose proof (DayFromYear_mono _ _ L2). lia.
Qed.

Lemma Day_MakeDate day time :
  0 <= time < JS.msPerDay ->
  JS.Day (JS.MakeDate day time) = day /\ JS.TimeWithinDay (JS.MakeDate day time) = time.
Proof.
  unfold JS.Day, JS.TimeWithinDay, JS.MakeDate, JS.msPerDay. intros H.
  Z.div_mod_to_equations. lia.
Qed.

Lemma TimeWithinDay_bounds t : 0 <= JS.TimeWithinDay t < JS.msPerDay.
Proof. unfold JS.TimeWithinDay, JS.msPerDay. apply Z.mod_pos_bound. lia. Qed.

Lemma monthOfDay_monthStart mn leap date :
  0 <= mn < 12 -> 0 <= leap <= 1 -> 1 <= date <= 28 ->
  JS.monthOfDay (JS.monthStart mn leap + date - 1) leap = mn.
Proof.
  intros Hm Hl Hd.
  assert (mn = 0 \/ mn = 1 \/ mn = 2 \/ mn = 3 \/ mn = 4 \/ mn = 5 \/ mn = 6 \/ mn = 7
          \/ mn = 8 \/ mn = 9 \/ mn = 10 \/ mn = 11) as C by lia.
  unfold JS.monthOfDay.
  repeat (destruct C as [-> | C]); [.. | subst mn]; cbn [JS.monthStart];
    repeat match goal with
           | |- context [?a <? ?b] => destruct (Z.ltb_spec a b); try lia
           end.
Qed.

Lemma monthStart_in_year mn leap date :
  0 <= mn < 12 -> 0 <= leap <= 1 -> 1 <= date <= 28 ->
  0 <= JS.monthStart mn leap + date - 1 < 365 + leap.
Proof.
  intros Hm Hl Hd.
  assert (mn = 0 \/ mn = 1 \/ mn = 2 \/ mn = 3 \/ mn = 4 \/ mn = 5 \/ mn = 6 \/ mn = 7
          \/ mn = 8 \/ mn = 9 \/ mn = 10 \/ mn = 11) as C by lia.
  repeat (destruct C as [-> | C]); [.. | subst mn]; cbn [JS.monthStart]; lia.
Qed.

Lemma fields_of_MakeDay year month date time :
  1 <= date <= 28 -> 0 <= time < JS.msPerDay ->
  let t := JS.MakeDate (JS.MakeDay year month date) time in
  JS.YearFromTime t = year + month / 12
  /\ JS.MonthFromTime t = month mod 12
  /\ JS.DateFromTime t = date
  /\ JS.TimeWithinDay t = time.
Proof.
  intros Hd Ht t.
  destruct (Day_MakeDate (JS.MakeDay year month date) time Ht) as [HD HT].
  fold t in HD, HT.
  set (ym := year + month / 12). set (mn := month mod 12).
  assert (Hmn : 0 <= mn < 12) by (apply Z.mod_pos_bound; lia).
  set (leap := if JS.isLeap ym then 1 else 0).
  assert (Hleap : 0 <= leap <= 1) by (subst leap; destruct (JS.isLeap ym); lia).
  assert (Hday : JS.Day t = JS.DayFromYear ym + (JS.monthStart mn leap + date - 1)).
  { rewrite HD. unfold JS.MakeDay. fold ym mn leap. lia. }
  pose proof (monthStart_in_year mn leap date Hmn Hleap Hd) as Hin.
  assert (Hy : JS.YearFromTime t = ym).
  { unfold JS.YearFromTime. apply YearFromDay_unique. rewrite DayFromYear_succ, Hday.
    unfold JS.DaysInYear. subst leap. destruct (JS.isLeap ym); lia. }
  assert (Hw : JS.DayWithinYear t = JS.monthStart mn leap + date - 1).
  { unfold JS.DayWithinYear. rewrite Hy, Hday. lia. }
  assert (Hl : JS.InLeapYear t = leap) by (unfold JS.InLeapYear; rewrite Hy; reflexivity).
  assert (Hm : JS.MonthFromTime t = mn).
  { unfold JS.MonthFromTime. rewrite Hw, Hl. apply monthOfDay_monthStart; assumption. }
  repeat split; try assumption.
  unfold JS.DateFromTime. rewrite Hm, Hw, Hl. lia.
Qed.

Lemma DateFromTime_pos t : 1 <= JS.DateFromTime t.
Proof.
  unfold JS.DateFromTime, JS.MonthFromTime.
  assert (H : 0 <= JS.DayWithinYear t).
  { unfold JS.DayWithinYear, JS.YearFromTime. pose proof (YearFromDay_bounds (JS.Day t)). lia. }
  assert (Hl : 0 <= JS.InLeapYear t <= 1)
    by (unfold JS.InLeapYear; destruct (JS.isLeap _); lia).
  revert H Hl. generalize (JS.DayWithinYear t) (JS.InLeapYear t). intros d l H Hl.
  unfold JS.monthOfDay.
  repeat match goal with
         | |- context [?a <? ?b] => destruct (Z.ltb_spec a b); cbn [JS.monthStart]; try lia
         end.
Qed.

Section ZeroOffset.

(** A host whose local time is UTC. *)

Variable tza : Z -> bool -> Z.
Hypothesis utc : forall t b, tza t b = 0.

Lemma addMonths_fields t n :
  JS.DateFromTime t <= 28 ->
  exists t',
    PolicyService.addMonths tza (Some t) n = JS.TimeClip t'
    /\ JS.YearFromTime t' = JS.YearFromTime t + (JS.MonthFromTime t + n) / 12
    /\ JS.MonthFromTime t' = (JS.MonthFromTime t + n) mod 12
    /\ JS.DateFromTime t' = JS.DateFromTime t
    /\ JS.TimeWithinDay t' = JS.TimeWithinDay t.
Proof.
  intros Hd.
  unfold PolicyService.addMonths, JS.setMonth, JS.getMonth, JS.LocalTime, JS.UTC.
  cbn [option_map]. rewrite !utc, Z.add_0_r.
  eexists. split; [rewrite Z.sub_0_r; reflexivity|].
  apply fields_of_MakeDay.
  - pose proof (DateFromTime_pos t). lia.
  - apply TimeWithinDay_bounds.
Qed.

End ZeroOffset.

(** C6 (amended).  createPolicy with an explicit effectiveFrom asks
    the pricing engine for a price without passing a date, so the premium and
    the insured sum are those of the configuration in force at the time of
    the call, read from the clock, whatever effectiveFrom is; when no
    configuration is in force at that time the call throws the engine's error
    and stores nothing.  Otherwise the policy keeps the given effectiveFrom,
    its effectiveTo is effectiveFrom moved by durationMonths (12 when omitted)
    with Date.setMonth, its status is active and it is stored under its id.
    Where local time is UTC and the day of the month is at most 28, moving by
    setMonth adds exactly that number of calendar months and keeps the day of
    the month and the time of day. *)
Theorem createPolicy_prices_as_of_call_time :
  forall e w store coverageType effectiveFrom durationMonths,
    let input :=
      CreatePolicyInput.mk store coverageType (Some effectiveFrom) durationMonths in
    let months := match durationMonths with Some n => n | None => 12 end in
    let callTime : JS.Date := Some (clock e (ticks w)) in
    match PricingEngine.calculateAt (pricingConfigs w) store coverageType callTime with
    | Throw message =>
        PolicyService.createPolicy input e w
        = (Throw message, with_ticks (S (ticks w)) w)
    | Ok pricing =>
        exists policy w',
          PolicyService.createPolicy input e w = (Ok policy, w')
          /\ Policy.storeCode policy = Store.storeCode store
          /\ Policy.coverageType policy = coverageType
          /\ Policy.premium policy = PricingResult.premium pricing
          /\ Policy.insuredSum policy = PricingResult.insuredSum pricing
          /\ Policy.effectiveFrom policy = effectiveFrom
          /\ Policy.effectiveTo policy
             = PolicyService.addMonths (LocalTZA e) effectiveFrom months
          /\ Policy.status policy = PActive
          /\ JsMap.get (PolicyState.policies (policyService w')) (Policy.policyId policy)
             = Some policy
          /\ (forall t,
                effectiveFrom = Some t ->
                (forall x b, LocalTZA e x b = 0) ->
                JS.DateFromTime t <= 28 ->
                exists t',
                  Policy.effectiveTo policy = JS.TimeClip t'
                  /\ 12 * JS.YearFromTime t' + JS.MonthFromTime t'
                     = 12 * JS.YearFromTime t + JS.MonthFromTime t + months
                  /\ JS.DateFromTime t' = JS.DateFromTime t
                  /\ JS.TimeWithinDay t' = JS.TimeWithinDay t)
    end.
Proof.
  intros e w store coverageType effectiveFrom durationMonths input months callTime.
  unfold PolicyService.createPolicy, PricingEngine.calculate, PricingEngine.orNow,
    new_Date, Date_now, bind, ret, gets, asks, liftResult.
  cbn [CreatePolicyInput.effectiveFrom CreatePolicyInput.store
       CreatePolicyInput.coverageType CreatePolicyInput.durationMonths input
       pricingConfigs with_ticks].
  fold callTime. fold months.
  destruct (PricingEngine.calculateAt (pricingConfigs w) store coverageType callTime)
    as [pricing | message]; [|reflexivity].
  unfold PolicyService.storePolicy, modify. cbn -[Z.mul Z.add].
  eexists. eexists. split; [reflexivity|].
  cbn -[Z.mul Z.add]. repeat split.
  - apply set_get_same.
  - intros t -> Hutc Hday.
    destruct (addMonths_fields (LocalTZA e) Hutc t months Hday)
      as [t' [Hto [Hy [Hm [Hd Ht]]]]].
    exists t'. repeat split; try assumption.
    rewrite Hy, Hm. Z.div_mod_to_equations. lia.
Qed.

(** A policy taken out on 2025-06-15 with effect from 2024-06-01, when the
    rate was raised from 2.5 to 3 on 2025-01-01: 1000 square metres are
    charged 3000, and the policy runs to 2025-06-01. *)
Lemma createPolicy_prices_as_of_call_time_witness :
  let oldRate := PricingConfig.mk catnat 2.5%float 500%float 10000000%float
                   (Some 1704067200000) (Some (Some 1735689599999)) in
  let newRate := PricingConfig.mk catnat 3%float 500%float 10000000%float
                   (Some 1735689600000) None in
  let w := with_pricingConfigs [oldRate; newRate] Sample.world in
  let store := Sample.store "S1" "Uno" 1000%float SActive None None in
  JS.isoDate 1717200000000 = "2024-06-01"
  /\ JS.DateFromTime 1717200000000 <= 28
  /\ exists policy w',
       PolicyService.createPolicy
         (CreatePolicyInput.mk store catnat (Some (Some 1717200000000)) None)
         Sample.env w = (Ok policy, w')
       /\ Policy.premium policy = 3000%float
       /\ Policy.effectiveFrom policy = Some 1717200000000
       /\ Policy.status policy = PActive
       /\ exists t',
            Policy.effectiveTo policy = JS.TimeClip t'
            /\ 12 * JS.YearFromTime t' + JS.MonthFromTime t' = 12 * 2024 + 5 + 12
            /\ JS.DateFromTime t' = 1.
Proof.
  intros oldRate newRate w store.
  split; [vm_compute; reflexivity|]. split; [vm_compute; discriminate|].
  pose proof (createPolicy_prices_as_of_call_time Sample.env w store catnat
                (Some 1717200000000) None) as H.
  cbv zeta in H.
  replace (PricingEngine.calculateAt (pricingConfigs w) store catnat
             (Some (clock Sample.env (ticks w))))
    with (Ok (PricingResult.mk 3000%float 1000000%float 1000%float 3%float
                3000%float 0%float))
    in H by (vm_compute; reflexivity).
  destruct H as [policy [w' [Hrun [_ [_ [Hp [_ [Hf [_ [Hs [_ Hcal]]]]]]]]]]].
  exists policy, w'. split; [exact Hrun|]. split; [exact Hp|]. split; [exact Hf|].
  split; [exact Hs|].
  destruct (Hcal 1717200000000 eq_refl (fun _ _ => eq_refl))
    as [t' [Hto [Hym [Hd _]]]]; [vm_compute; discriminate|].
  exists t'. split; [exact Hto|]. split; [|exact Hd].
  rewrite Hym. vm_compute. reflexivity.
Defined.

(** C6 (counterexample).  With a rate of 2.5 in force during 2024 and a rate
    of 3 from 2025-01-01, a policy created on 2025-06-15 with effect from
    2024-06-01 for a store of 1000 square metres: the engine prices that store
    at 2500 as of 2024-06-01, and the policy carries the premium 3000 of the
    day of the call.  With the default configurations, which start on
    2024-01-01, a policy with effect from 2023-06-01 is created with premium
    2500 although the engine has no price as of that date. *)
Lemma createPolicy_ignores_effectiveFrom :
  let oldRate := PricingConfig.mk catnat 2.5%float 500%float 10000000%float
                   (Some 1704067200000) (Some (Some 1735689599999)) in
  let newRate := PricingConfig.mk catnat 3%float 500%float 10000000%float
                   (Some 1735689600000) None in
  let w := with_pricingConfigs [oldRate; newRate] Sample.world in
  let store := Sample.store "S1" "Uno" 1000%float SActive None None in
  (JS.isoDate 1717200000000 = "2024-06-01"
   /\ JS.isoDate (clock Sample.env (ticks w)) = "2025-06-15"
   /\ exists pricing policy w',
        PricingEngine.calculateAt (pricingConfigs w) store catnat (Some 1717200000000)
        = Ok pricing
        /\ PolicyService.createPolicy
             (CreatePolicyInput.mk store catnat (Some (Some 1717200000000)) None)
             Sample.env w = (Ok policy, w')
        /\ Policy.effectiveFrom policy = Some 1717200000000
        /\ PricingResult.premium pricing = 2500%float
        /\ Policy.premium policy = 3000%float
        /\ PrimFloat.eqb (Policy.premium policy) (PricingResult.premium pricing) = false)
  /\ (JS.isoDate 1685577600000 = "2023-06-01"
      /\ exists message policy w',
           PricingEngine.calculateAt (pricingConfigs Sample.world) store catnat
             (Some 1685577600000) = Throw message
           /\ PolicyService.createPolicy
                (CreatePolicyInput.mk store catnat (Some (Some 1685577600000)) None)
                Sample.env Sample.world = (Ok policy, w')
           /\ Policy.effectiveFrom policy = Some 1685577600000
           /\ Policy.premium policy = 2500%float).
Proof.
  cbv zeta. split.
  - split; [vm_compute; reflexivity|]. split; [vm_compute; reflexivity|].
    eexists. eexists. eexists.
    split; [vm_compute; reflexivity|]. split; [vm_compute; reflexivity|].
    vm_compute. repeat split.
  - split; [vm_compute; reflexivity|].
    eexists. eexists. eexists.
    split; [vm_compute; reflexivity|]. split; [vm_compute; reflexivity|].
    vm_compute. repeat split.
Qed.

(** Date.setMonth carries a day of the month that the target month lacks into
    the month after: one month from 2025-01-31 is 2025-03-03. *)
Lemma addMonths_samples :
  option_map JS.isoDate (PolicyService.addMonths (LocalTZA Sample.env) (Some 1717200000000) 12)
  = Some "2025-06-01"
  /\ JS.isoDate 1738281600000 = "2025-01-31"
  /\ option_map JS.isoDate (PolicyService.addMonths (LocalTZA Sample.env) (Some 1738281600000) 1)
     = Some "2025-03-03"
  /\ PolicyService.addMonths (LocalTZA Sample.env) None 12 = None.
Proof. vm_compute. repeat split. Qed.

(** ** The statements on sample stores and on a job that is being processed *)

(** A suspended store that was activated before is activated again: it keeps
    its activation date and has no closure date; an active store is refused. *)
Lemma lifecycle_dates_witness :
  let suspended := Sample.store "S1" "Uno" 100%float SSuspended (Some Sample.someDate) None in
  let active := Sample.store "S2" "Due" 100%float SActive (Some Sample.someDate) None in
  (exists result w1,
     LifecycleManager.activate suspended None Sample.env Sample.world = (Ok result, w1)
     /\ Store.status (LifecycleResult.store result) = SActive
     /\ Store.activationDate (LifecycleResult.store result) = Some Sample.someDate
     /\ Store.closureDate (LifecycleResult.store result) = None)
  /\ LifecycleManager.activate active None Sample.env Sample.world
     = (Ok (LifecycleResult.mk false active None (Some "Lo store è già attivo")),
        Sample.world).
Proof.
  intros suspended active. split.
  - destruct (lifecycle_dates suspended None Sample.env Sample.world)
      as [_ [_ [Hactivate _]]].
    do 2 eexists. split; [vm_compute; reflexivity|].
    eapply Hactivate; [vm_compute; reflexivity | reflexivity].
  - destruct (lifecycle_dates active None Sample.env Sample.world) as [Hrefused _].
    apply Hrefused. reflexivity.
Defined.

(** A job that is being processed holds its content, and neither accessor
    shows it. *)
Lemma read_accessors_hide_content_witness :
  let w := snd (ImportQueue.enqueue "stores.csv" Sample.csvValid "anna" admin
                  Sample.env Sample.world) in
  List.map Job.content (heap w) = [Some Sample.csvValid]
  /\ exists jobs,
       fst (ImportQueue.getAllJobs Sample.env w) = Ok jobs
       /\ List.length jobs = 1%nat
       /\ Forall (fun job => Job.content job = None) jobs.
Proof.
  intros w. split; [vm_compute; reflexivity|].
  destruct (read_accessors_hide_content Sample.env "") as [_ [Hall _]].
  eexists. split; [vm_compute; reflexivity|]. split; [reflexivity|].
  eapply Forall_impl; [|apply (Hall w); vm_compute; reflexivity].
  intros job [Hcontent _]. exact Hcontent.
Defined.

(* ========================================================================= *)
(** * Further properties of the file processor *)
(* ========================================================================= *)

(** ** Lines and cells *)

Lemma trimStart_ink :
  forall s, hasInk (JS.trimStart s) = hasInk s.
Proof.
  induction s as [|c r IH]; simpl; [reflexivity|].
  destruct (JS.is_ws c) eqn:Hc; simpl; [exact IH|].
  rewrite Hc. reflexivity.
Qed.

Lemma trimEnd_empty :
  forall s, JS.isEmpty (JS.trimEnd s) = negb (hasInk s).
Proof.
  induction s as [|c r IH]; simpl; [reflexivity|].
  destruct (JS.trimEnd r) eqn:Hr; simpl in *.
  - destruct (JS.is_ws c); simpl; [exact IH | reflexivity].
  - destruct (hasInk r); [|discriminate].
    rewrite Bool.orb_true_r. reflexivity.
Qed.

Lemma trim_empty :
  forall s, JS.isEmpty (JS.trim s) = negb (hasInk s).
Proof.
  intros s. unfold JS.trim. rewrite trimEnd_empty, trimStart_ink. reflexivity.
Qed.

(** A trimmed string is empty or ends with a character that is not white space. *)
Lemma trimEnd_last :
  forall s,
    JS.trimEnd s = "" \/
    exists p c, JS.trimEnd s = p ++ String c "" /\ JS.is_ws c = false.
Proof.
  induction s as [|c r IH]; simpl; [left; reflexivity|].
  destruct IH as [-> | [p [d [-> Hd]]]].
  - destruct (JS.is_ws c) eqn:Hc; [left; reflexivity|].
    right. exists "", c. split; [reflexivity | exact Hc].
  - right. destruct (p ++ String d "") eqn:Hp.
    + destruct p; discriminate.
    + exists (String c p), d. rewrite <- Hp. split; [reflexivity | exact Hd].
Qed.

(** The last piece of a split holds the last character of the string. *)
Lemma split_last_ink :
  forall sep p c,
    sep c = false -> JS.is_ws c = false ->
    exists pieces l,
      JS.split sep (p ++ String c "") = (pieces ++ [l])%list /\ hasInk l = true.
Proof.
  intros sep p c Hsep Hink. induction p as [|d p IH]; simpl.
  - rewrite Hsep. exists [], (String c ""). split; [reflexivity|].
    simpl. rewrite Hink. reflexivity.
  - destruct IH as [pieces [l [IH Hl]]]. rewrite IH.
    destruct (sep d).
    + exists ("" :: pieces)%list, l. split; [reflexivity | exact Hl].
    + destruct pieces as [|h t]; simpl.
      * exists [], (String d l). split; [reflexivity|].
        simpl. rewrite Hl. apply Bool.orb_true_r.
      * exists (String d h :: t)%list, l. split; [reflexivity | exact Hl].
Qed.

Lemma parseLines_length :
  forall headers lines,
    List.length (FileProcessor.parseLines headers lines)
    = List.length (List.filter hasInk lines).
Proof.
  intros headers lines. induction lines as [|l rest IH]; simpl; [reflexivity|].
  rewrite trim_empty. destruct (hasInk l); simpl; [f_equal|]; exact IH.
Qed.

Lemma split_nonempty :
  forall sep s, JS.split sep s <> [].
Proof.
  intros sep s. destruct s as [|c r]; simpl; [discriminate|].
  destruct (sep c); [discriminate|]. destruct (JS.split sep r); discriminate.
Qed.

(** The trimmed content is empty, or its last line holds a character other
    than white space. *)
Lemma lines_of_trimmed :
  forall content,
    JS.split FileProcessor.isNewline (JS.trim content) = [""] \/
    exists pieces l,
      JS.split FileProcessor.isNewline (JS.trim content) = (pieces ++ [l])%list
      /\ hasInk l = true.
Proof.
  intros content. unfold JS.trim.
  destruct (trimEnd_last (JS.trimStart content)) as [He | [p [c [He Hc]]]].
  - left. rewrite He. reflexivity.
  - right. rewrite He. apply split_last_ink; [|exact Hc].
    unfold FileProcessor.isNewline, JS.newline.
    destruct (Ascii.eqb c (ascii_of_nat 10)) eqn:Hnl; [|reflexivity].
    apply Ascii.eqb_eq in Hnl. subst c. discriminate.
Qed.

Lemma parseCSV_ok_nonempty :
  forall content rawRows, FileProcessor.parseCSV content = Ok rawRows -> rawRows <> [].
Proof.
  intros content rawRows. unfold FileProcessor.parseCSV.
  destruct (lines_of_trimmed content) as [Hone | [pieces [l [Hsplit Hl]]]].
  - rewrite Hone. discriminate.
  - destruct (JS.split FileProcessor.isNewline (JS.trim content))
      as [|header [|d rest]]; try discriminate.
    intros H.
    assert (Hrows : List.length rawRows = List.length (List.filter hasInk (d :: rest))).
    { injection H as <-. apply (parseLines_length _ (d :: rest)). }
    assert (Hin : In l (d :: rest)).
    { destruct pieces as [|p0 pieces]; [discriminate|].
      injection Hsplit as _ Hrest. rewrite Hrest. apply in_or_app. right. left. reflexivity. }
    intro Hnil. rewrite Hnil in Hrows.
    assert (Hf : In l (List.filter hasInk (d :: rest))) by (apply filter_In; auto).
    destruct (List.filter hasInk (d :: rest)); [contradiction | discriminate].
Qed.


(** ** The shape of the raw rows *)

Lemma keys_set :
  forall (V : Type) (m : JsMap.t V) k v,
    JsMap.keys (JsMap.set m k v) = addKey (JsMap.keys m) k.
Proof.
  intros V m k v. unfold addKey. induction m as [|[k0 v0] r IH]; simpl; [reflexivity|].
  destruct (String.eqb k0 k); simpl; [reflexivity|].
  rewrite IH. destruct (existsb (fun k' => String.eqb k' k) (JsMap.keys r)); reflexivity.
Qed.

(** The assignment to an ordinary name is the one of a map. *)
Lemma assign_ordinary :
  forall row h v,
    ordinaryName h = true -> FileProcessor.assign row h v = JsMap.set row h v.
Proof.
  intros row h v Hh. unfold ordinaryName in Hh. apply Bool.andb_true_iff in Hh.
  destruct Hh as [Hproto Hindex]. unfold FileProcessor.assign.
  apply Bool.negb_true_iff in Hproto. rewrite Hproto.
  destruct (JS.arrayIndex h); [discriminate Hindex | reflexivity].
Qed.

Lemma keys_fillRow :
  forall headers index values row,
    Forall (fun h => ordinaryName h = true) headers ->
    JsMap.keys (FileProcessor.fillRow headers index values row)
    = List.fold_left addKey headers (JsMap.keys row).
Proof.
  induction headers as [|h rest IH]; intros index values row Hall; simpl; [reflexivity|].
  inversion Hall as [|x l Hh Hrest]; subst.
  rewrite IH by exact Hrest. rewrite assign_ordinary by exact Hh.
  rewrite keys_set. reflexivity.
Qed.

Lemma set_entries :
  forall (V : Type) (m : JsMap.t V) k v entry,
    In entry (JsMap.set m k v) -> entry = (k, v) \/ In entry m.
Proof.
  intros V m k v entry. induction m as [|[k0 v0] r IH]; simpl.
  - intros [<- | []]. left. reflexivity.
  - destruct (String.eqb k0 k) eqn:Hk; simpl.
    + apply String.eqb_eq in Hk. subst k0.
      intros [<- | H]; [left; reflexivity | right; right; exact H].
    + intros [<- | H]; [right; left; reflexivity|].
      destruct (IH H) as [-> | H']; [left; reflexivity | right; right; exact H'].
Qed.

Lemma entries_insertIndex :
  forall row n k v entry,
    In entry (FileProcessor.insertIndex row n k v) -> entry = (k, v) \/ In entry row.
Proof.
  induction row as [|[k0 v0] rest IH]; intros n k v entry; simpl.
  - intros [<- | []]. left. reflexivity.
  - destruct (JS.arrayIndex k0) as [m|].
    + destruct (m <? n).
      * intros [<- | H]; [right; left; reflexivity|].
        destruct (IH _ _ _ _ H) as [-> | H']; [left; reflexivity | right; right; exact H'].
      * destruct (m =? n).
        -- intros [<- | H]; [left; reflexivity | right; right; exact H].
        -- intros [<- | H]; [left; reflexivity | right; exact H].
    + intros [<- | H]; [left; reflexivity | right; exact H].
Qed.

Lemma entries_assign :
  forall row k v entry,
    In entry (FileProcessor.assign row k v) -> entry = (k, v) \/ In entry row.
Proof.
  intros row k v entry. unfold FileProcessor.assign.
  destruct (String.eqb k "__proto__"); [intros H; right; exact H|].
  destruct (JS.arrayIndex k); [apply entries_insertIndex | apply set_entries].
Qed.

Lemma entries_fillRow :
  forall headers index values row entry,
    In entry (FileProcessor.fillRow headers index values row) ->
    In entry row
    \/ (In (fst entry) headers /\ (snd entry = "" \/ In (snd entry) values)).
Proof.
  induction headers as [|h rest IH]; intros index values row entry; simpl; [auto|].
  intros H. destruct (IH _ _ _ _ H) as [H1 | [H1 H2]].
  - apply entries_assign in H1. destruct H1 as [-> | H1]; [|left; exact H1].
    right. split; [left; reflexivity|]. cbn [snd]. unfold FileProcessor.valueAt.
    destruct (nth_error values index) eqn:Hn; [right; eapply nth_error_In; exact Hn|].
    left. reflexivity.
  - right. split; [right; exact H1 | exact H2].
Qed.

Lemma addKey_spec :
  forall keys k,
    NoDup keys ->
    NoDup (addKey keys k) /\ forall x, In x (addKey keys k) <-> In x keys \/ x = k.
Proof.
  intros keys k Hnd. unfold addKey.
  destruct (existsb (fun k' => String.eqb k' k) keys) eqn:Hex.
  - apply existsb_exists in Hex. destruct Hex as [k' [Hin Heq]].
    apply String.eqb_eq in Heq. subst k'. split; [exact Hnd|].
    intros x. split; [auto | intros [H | ->]; assumption].
  - assert (Hnot : ~ In k keys).
    { intro Hin. apply Bool.not_true_iff_false in Hex. apply Hex.
      apply existsb_exists. exists k. split; [exact Hin | apply String.eqb_refl]. }
    split.
    + apply NoDup_app; [exact Hnd | repeat constructor; intros [] | ].
      intros a Ha [<-|[]]. exact (Hnot Ha).
    + intros x. rewrite in_app_iff. simpl. intuition.
Qed.

Lemma fold_addKey_spec :
  forall names keys,
    NoDup keys ->
    NoDup (List.fold_left addKey names keys)
    /\ forall x, In x (List.fold_left addKey names keys) <-> In x keys \/ In x names.
Proof.
  induction names as [|n rest IH]; intros keys Hnd; simpl.
  - split; [exact Hnd | intuition].
  - destruct (addKey_spec keys n Hnd) as [Hnd' Hin'].
    destruct (IH (addKey keys n) Hnd') as [Hnd'' Hin''].
    split; [exact Hnd''|]. intros x. rewrite Hin'', Hin'. intuition.
Qed.

Lemma get_fillRow_other :
  forall headers index values row h,
    Forall (fun h => ordinaryName h = true) headers ->
    ~ In h headers ->
    JsMap.get (FileProcessor.fillRow headers index values row) h = JsMap.get row h.
Proof.
  induction headers as [|h0 rest IH]; intros index values row h Hall Hnot; simpl;
    [reflexivity|].
  inversion Hall as [|x l Hh Hrest]; subst.
  rewrite IH by (try exact Hrest; intro H; apply Hnot; right; exact H).
  rewrite assign_ordinary by exact Hh.
  apply set_get_other. intro Heq. apply Hnot. left. exact Heq.
Qed.

(** Where the header names are distinct, the cell under the j-th header is
    the j-th value of the line, or the empty string when the line is short. *)
Lemma get_fillRow_nth :
  forall headers index values row j h,
    Forall (fun h => ordinaryName h = true) headers ->
    NoDup headers ->
    nth_error headers j = Some h ->
    JsMap.get (FileProcessor.fillRow headers index values row) h
    = Some (FileProcessor.valueAt values (index + j)).
Proof.
  induction headers as [|h0 rest IH]; intros index values row j h Hall Hnd Hj.
  - destruct j; discriminate.
  - inversion Hnd as [|x l Hx Hl]; subst.
    inversion Hall as [|x l Hh Hrest]; subst. destruct j as [|j]; simpl in *.
    + injection Hj as ->. rewrite get_fillRow_other by assumption.
      rewrite assign_ordinary by exact Hh.
      rewrite Nat.add_0_r. apply set_get_same.
    + rewrite (IH (S index) values _ j h Hrest Hl Hj). f_equal. f_equal. lia.
Qed.

Lemma get_In :
  forall (V : Type) (m : JsMap.t V) k v, JsMap.get m k = Some v -> In v (JsMap.values m).
Proof.
  intros V m k v. induction m as [|[k0 v0] r IH]; simpl; [discriminate|].
  destruct (String.eqb k0 k); intros H; [injection H as ->; left; reflexivity|].
  right. apply IH. exact H.
Qed.

Lemma values_set :
  forall (V : Type) (m : JsMap.t V) k v x,
    In x (JsMap.values (JsMap.set m k v)) -> x = v \/ In x (JsMap.values m).
Proof.
  intros V m k v x. induction m as [|[k0 v0] r IH]; simpl.
  - intros [<-|[]]. left. reflexivity.
  - destruct (String.eqb k0 k); simpl.
    + intros [<-|H]; [left; reflexivity | right; right; exact H].
    + intros [<-|H]; [right; left; reflexivity|].
      destruct (IH H) as [->|H']; [left; reflexivity | right; right; exact H'].
Qed.

Lemma values_fillRow :
  forall headers index values row x,
    In x (JsMap.values (FileProcessor.fillRow headers index values row)) ->
    In x (JsMap.values row) \/ x = "" \/ In x values.
Proof.
  intros headers index values row x Hx. apply in_map_iff in Hx.
  destruct Hx as [entry [<- Hentry]]. apply entries_fillRow in Hentry.
  destruct Hentry as [H | [_ H]]; [left; apply in_map; exact H | right; exact H].
Qed.

Lemma keys_fillRow_named :
  forall headers index values row h,
    In h (JsMap.keys (FileProcessor.fillRow headers index values row)) ->
    In h (JsMap.keys row) \/ In h headers.
Proof.
  intros headers index values row h Hh. apply in_map_iff in Hh.
  destruct Hh as [entry [<- Hentry]]. apply entries_fillRow in Hentry.
  destruct Hentry as [H | [H _]]; [left; apply in_map; exact H | right; exact H].
Qed.

Lemma split_pieces_clean :
  forall sep s, Forall (fun piece => hasChar sep piece = false) (JS.split sep s).
Proof.
  intros sep s. induction s as [|c r IH]; simpl.
  - repeat constructor.
  - destruct (sep c) eqn:Hc.
    + constructor; [reflexivity | exact IH].
    + destruct (JS.split sep r) as [|h t].
      * repeat constructor. simpl. rewrite Hc. reflexivity.
      * inversion IH as [|x l Hh Ht]; subst.
        constructor; [simpl; rewrite Hc; exact Hh | exact Ht].
Qed.

Lemma hasChar_trimStart :
  forall p s, hasChar p s = false -> hasChar p (JS.trimStart s) = false.
Proof.
  intros p s. induction s as [|c r IH]; simpl; [auto|].
  intros H. apply Bool.orb_false_iff in H. destruct H as [Hc Hr].
  destruct (JS.is_ws c); [apply IH; exact Hr|].
  simpl. rewrite Hc, Hr. reflexivity.
Qed.

Lemma hasChar_trimEnd :
  forall p s, hasChar p s = false -> hasChar p (JS.trimEnd s) = false.
Proof.
  intros p s. induction s as [|c r IH]; simpl; [auto|].
  intros H. apply Bool.orb_false_iff in H. destruct H as [Hc Hr].
  specialize (IH Hr). destruct (JS.trimEnd r) eqn:Ht.
  - destruct (JS.is_ws c); simpl; [reflexivity|]. rewrite Hc. reflexivity.
  - simpl in *. rewrite Hc. exact IH.
Qed.

Lemma hasChar_removeAll :
  forall p c s, hasChar p s = false -> hasChar p (JS.removeAll c s) = false.
Proof.
  intros p c s. induction s as [|d r IH]; simpl; [auto|].
  intros H. apply Bool.orb_false_iff in H. destruct H as [Hd Hr].
  destruct (Ascii.eqb c d); [apply IH; exact Hr|].
  simpl. rewrite Hd. apply IH. exact Hr.
Qed.

Lemma removeAll_removes :
  forall c s, hasChar (Ascii.eqb c) (JS.removeAll c s) = false.
Proof.
  intros c s. induction s as [|d r IH]; simpl; [reflexivity|].
  destruct (Ascii.eqb c d) eqn:Hd; [exact IH|]. simpl. rewrite Hd. exact IH.
Qed.

(** The cells of a line hold neither a separator nor a double quote. *)
Lemma cells_clean :
  forall line x,
    In x (List.map FileProcessor.cell (JS.split FileProcessor.isDelimiter line)) ->
    hasChar FileProcessor.isDelimiter x = false
    /\ hasChar (Ascii.eqb JS.dquote) x = false.
Proof.
  intros line x Hin. apply in_map_iff in Hin. destruct Hin as [piece [<- Hpiece]].
  pose proof (split_pieces_clean FileProcessor.isDelimiter line) as Hclean.
  rewrite Forall_forall in Hclean. specialize (Hclean piece Hpiece).
  unfold FileProcessor.cell, JS.trim. split.
  - apply hasChar_removeAll, hasChar_trimEnd, hasChar_trimStart. exact Hclean.
  - apply removeAll_removes.
Qed.

Lemma parseLines_rows :
  forall headers lines row,
    In row (FileProcessor.parseLines headers lines) ->
    exists line,
      In line lines /\ hasInk line = true
      /\ row = FileProcessor.fillRow headers 0
                 (List.map FileProcessor.cell
                    (JS.split FileProcessor.isDelimiter (JS.trim line))) [].
Proof.
  intros headers lines row. induction lines as [|l rest IH]; simpl; [intros []|].
  rewrite trim_empty. destruct (hasInk l) eqn:Hl; simpl.
  - intros [<- | H].
    + exists l. repeat split; auto.
    + destruct (IH H) as [line [Hin Hrest]]. exists line. split; [right; exact Hin | exact Hrest].
  - intros H. destruct (IH H) as [line [Hin Hrest]].
    exists line. split; [right; exact Hin | exact Hrest].
Qed.

(** X2. The rows that parseCSV returns are built from the header names.
    The keys of every row are header names, and no value holds a comma, a
    semicolon or a double quote.  When no header name is an array index or
    the name __proto__, every row has the same keys: the header names, each
    once, in the order in which they first occur; so the columns that mapRows
    looks up among the keys of the first row are keys of every row.  Where
    such header names are distinct, the value under the j-th header is the
    j-th cell of the line the row comes from, trimmed and without quotes, and
    the empty string when the line has fewer cells. *)
Theorem parseCSV_rows_share_header_keys :
  forall content rawRows,
    FileProcessor.parseCSV content = Ok rawRows ->
    let lines := JS.split FileProcessor.isNewline (JS.trim content) in
    let headers :=
      List.map FileProcessor.cell (JS.split FileProcessor.isDelimiter (List.hd "" lines)) in
    forall row,
      In row rawRows ->
      (forall h, In h (JsMap.keys row) -> In h headers)
      /\ (forall v, In v (JsMap.values row) ->
            hasChar FileProcessor.isDelimiter v = false
            /\ hasChar (Ascii.eqb JS.dquote) v = false)
      /\ exists line,
           In line (List.tl lines) /\ hasInk line = true
           /\ let cells := List.map FileProcessor.cell
                             (JS.split FileProcessor.isDelimiter (JS.trim line)) in
              (Forall (fun h => ordinaryName h = true) headers ->
               JsMap.keys row = distinct headers
               /\ NoDup (JsMap.keys row)
               /\ (forall h, In h (JsMap.keys row) <-> In h headers)
               /\ (NoDup headers ->
                   forall j h, nth_error headers j = Some h ->
                     JsMap.get row h = Some (FileProcessor.valueAt cells j))).
Proof.
  intros content rawRows Hparse. cbv zeta. unfold FileProcessor.parseCSV in Hparse.
  destruct (JS.split FileProcessor.isNewline (JS.trim content))
    as [|header [|d rest]]; try discriminate.
  injection Hparse as <-. cbn [List.hd List.tl].
  intros row Hrow. apply (parseLines_rows _ (d :: rest)) in Hrow.
  destruct Hrow as [line [Hline [Hink ->]]].
  destruct (fold_addKey_spec
              (List.map FileProcessor.cell (JS.split FileProcessor.isDelimiter header))
              [] (NoDup_nil _)) as [Hnd Hin].
  split; [|split].
  - intros h Hh. apply keys_fillRow_named in Hh. destruct Hh as [[] | Hh]. exact Hh.
  - intros v Hv. apply values_fillRow in Hv. destruct Hv as [[] | [-> | Hv]].
    + split; reflexivity.
    + eapply cells_clean. exact Hv.
  - exists line. split; [exact Hline|]. split; [exact Hink|].
    intros Hordinary. rewrite keys_fillRow by exact Hordinary.
    fold (distinct
      (List.map FileProcessor.cell (JS.split FileProcessor.isDelimiter header))).
    split; [reflexivity|]. split; [exact Hnd|]. split.
    + intros h. unfold distinct. rewrite Hin. simpl. intuition.
    + intros Hdistinct j h Hj.
      rewrite (get_fillRow_nth _ 0 _ [] j h Hordinary Hdistinct Hj). reflexivity.
Qed.

(** The rows of the sample file have the keys codice, nome and mq. *)
Lemma parseCSV_rows_share_header_keys_witness :
  exists rawRows,
    FileProcessor.parseCSV Sample.csvValid = Ok rawRows
    /\ List.length rawRows = 2%nat
    /\ forall row, In row rawRows -> JsMap.keys row = ["codice"; "nome"; "mq"].
Proof.
  destruct (FileProcessor.parseCSV Sample.csvValid) as [rawRows|] eqn:Hparse;
    [|vm_compute in Hparse; discriminate].
  exists rawRows. split; [reflexivity|]. split.
  - vm_compute in Hparse. injection Hparse as <-. reflexivity.
  - intros row Hrow.
    destruct (parseCSV_rows_share_header_keys Sample.csvValid rawRows Hparse row Hrow)
      as (_ & _ & line & _ & _ & Hordinary).
    destruct Hordinary as [Hkeys _].
    { match goal with
      | |- Forall _ ?l =>
          replace l with ["codice"; "nome"; "mq"] by (vm_compute; reflexivity)
      end.
      repeat constructor. }
    rewrite Hkeys. vm_compute. reflexivity.
Defined.

(** With the years 2024 and 2023 as header names the keys of a row are in
    ascending order, and a column named __proto__ leaves no key. *)
Example parseCSV_rows_follow_object_key_order :
  option_map (List.map JsMap.keys)
    (match FileProcessor.parseCSV ("codice;2024;2023" ++ Sample.nl ++ "S1;10;20") with
     | Ok rawRows => Some rawRows
     | Throw _ => None
     end)
  = Some [["2023"; "2024"; "codice"]]
  /\ option_map (List.map JsMap.keys)
       (match FileProcessor.parseCSV ("codice;__proto__" ++ Sample.nl ++ "S1;10") with
        | Ok rawRows => Some rawRows
        | Throw _ => None
        end)
     = Some [["codice"]].
Proof. split; vm_compute; reflexivity. Qed.

(** ** Mapping *)

(** A number that is neither NaN nor at most zero is greater than zero. *)
Lemma positive_of_checks :
  forall x,
    JS.isNaN x || PrimFloat.leb x 0%float = false -> PrimFloat.ltb 0%float x = true.
Proof.
  intros x H. apply Bool.orb_false_iff in H. destruct H as [Hnan Hle].
  unfold JS.isNaN in Hnan. apply is_nan_false in Hnan.
  rewrite FloatAxioms.leb_spec in Hle. rewrite FloatAxioms.ltb_spec.
  change (Prim2SF 0%float) with (S754_zero false) in *.
  unfold SFleb, SFltb in *.
  destruct (Prim2SF x) as [s|s| |s m e]; simpl in *;
    try (destruct s; simpl in *); congruence.
Qed.

(** What mapRows accepts as a row: a store code that is not empty and a
    floor area greater than zero. *)
Lemma mapRow_step :
  forall storeCodeCol sqmCol businessNameCol addressCol raw index rows errors,
    (exists row,
       FileProcessor.mapRow storeCodeCol sqmCol businessNameCol addressCol raw index
         (rows, errors) = ((rows ++ [row])%list, errors)
       /\ acceptable row = true)
    \/ (exists error,
          FileProcessor.mapRow storeCodeCol sqmCol businessNameCol addressCol raw index
            (rows, errors) = (rows, (errors ++ [error])%list)
          /\ ImportError.row error = (index + 2)%nat).
Proof.
  intros. unfold FileProcessor.mapRow.
  destruct (JS.isEmpty (FileProcessor.field raw storeCodeCol)) eqn:Hcode.
  - right. eexists. split; reflexivity.
  - destruct (JS.isNaN _ || PrimFloat.leb _ 0) eqn:Hnum.
    + right. eexists. split; reflexivity.
    + left. eexists. split; [reflexivity|].
      unfold acceptable. cbn [ImportRow.storeCode ImportRow.squareMeters].
      rewrite Hcode. rewrite (positive_of_checks _ Hnum). reflexivity.
Qed.

Lemma mapLoop_accounts :
  forall storeCodeCol sqmCol businessNameCol addressCol rawRows index rows errors,
    exists newRows newErrors,
      FileProcessor.mapLoop storeCodeCol sqmCol businessNameCol addressCol rawRows index
        (rows, errors) = ((rows ++ newRows)%list, (errors ++ newErrors)%list)
      /\ (List.length newRows + List.length newErrors = List.length rawRows)%nat
      /\ Forall (fun row => acceptable row = true) newRows
      /\ Forall (fun error => index + 2 <= ImportError.row error
                              < index + 2 + List.length rawRows)%nat newErrors.
Proof.
  intros storeCodeCol sqmCol businessNameCol addressCol rawRows.
  induction rawRows as [|raw rest IH]; intros index rows errors.
  - exists [], []. simpl. rewrite !app_nil_r. repeat split; constructor.
  - cbn [FileProcessor.mapLoop List.length].
    destruct (mapRow_step storeCodeCol sqmCol businessNameCol addressCol raw index
                rows errors) as [[row [-> Hrow]] | [error [-> Herror]]].
    + destruct (IH (S index) (rows ++ [row])%list errors)
        as [newRows [newErrors [-> [Hlen [Hrows Herrors]]]]].
      exists (row :: newRows), newErrors. rewrite <- app_assoc.
      split; [reflexivity|]. split; [simpl; lia|]. split; [constructor; assumption|].
      eapply Forall_impl; [|exact Herrors]. simpl. intros a Ha. lia.
    + destruct (IH (S index) rows (errors ++ [error])%list)
        as [newRows [newErrors [-> [Hlen [Hrows Herrors]]]]].
      exists newRows, (error :: newErrors). rewrite <- app_assoc.
      split; [reflexivity|]. split; [simpl; lia|]. split; [assumption|].
      constructor; [lia|].
      eapply Forall_impl; [|exact Herrors]. simpl. intros a Ha. lia.
Qed.

(** The two outcomes of mapRows on raw rows: a required column is missing,
    or every raw row is accounted for. *)
Lemma mapRows_outcomes :
  forall rawRows,
    let rows := fst (FileProcessor.mapRows rawRows) in
    let errors := snd (FileProcessor.mapRows rawRows) in
    Forall (fun row => acceptable row = true) rows
    /\ ((rawRows <> [] /\ rows = [] /\ errors <> []
         /\ Forall (fun error => ImportError.row error = 0%nat) errors)
        \/ ((List.length rows + List.length errors = List.length rawRows)%nat
            /\ Forall (fun error => 2 <= ImportError.row error
                                    <= List.length rawRows + 1)%nat errors)).
Proof.
  intros rawRows. cbv zeta. unfold FileProcessor.mapRows.
  destruct rawRows as [|first rest].
  - simpl. split; [constructor|]. right. split; [reflexivity | constructor].
  - destruct (FileProcessor.findCol first FileProcessor.storeCodeKeywords) as [sc|];
      destruct (FileProcessor.findCol first FileProcessor.sqmKeywords) as [sq|];
      cbn [fst snd app];
      try (split; [constructor|]; left;
           split; [discriminate|]; split; [reflexivity|]; split; [discriminate|];
           repeat constructor).
    destruct (mapLoop_accounts sc sq
                (FileProcessor.findCol first FileProcessor.businessNameKeywords)
                (FileProcessor.findCol first FileProcessor.addressKeywords)
                (first :: rest) 0 [] [])
      as [newRows [newErrors [-> [Hlen [Hrows Herrors]]]]].
    cbn [fst snd app]. split; [exact Hrows|]. right. split; [exact Hlen|].
    eapply Forall_impl; [|exact Herrors]. simpl. intros a Ha. lia.
Qed.

(** One step of the loop of mapRows: a mappable raw row gives a row, any
    other an error. *)
Lemma mapRow_exact :
  forall storeCodeCol sqmCol businessNameCol addressCol raw index rows errors,
    FileProcessor.mapRow storeCodeCol sqmCol businessNameCol addressCol raw index
      (rows, errors)
    = if mappable storeCodeCol sqmCol raw then
        ((rows ++ [mappedRow storeCodeCol sqmCol businessNameCol addressCol raw])%list,
         errors)
      else (rows, (errors ++ [rowError storeCodeCol sqmCol (index, raw)])%list).
Proof.
  intros. unfold FileProcessor.mapRow, mappable, rowError, mappedRow, areaOf.
  cbn [fst snd].
  destruct (JS.isEmpty (FileProcessor.field raw storeCodeCol)) eqn:Hcode; cbn [negb andb].
  - destruct (FileProcessor.field raw storeCodeCol); [reflexivity | discriminate Hcode].
  - destruct (JS.isNaN _ || PrimFloat.leb _ 0); reflexivity.
Qed.

(** The loop of mapRows as a whole: the mappable raw rows give the rows, in
    order, and the others give the errors, in order, each with the row number
    of the file. *)
Lemma mapLoop_exact :
  forall storeCodeCol sqmCol businessNameCol addressCol rawRows index rows errors,
    FileProcessor.mapLoop storeCodeCol sqmCol businessNameCol addressCol rawRows index
      (rows, errors)
    = ((rows ++ List.map (mappedRow storeCodeCol sqmCol businessNameCol addressCol)
                  (List.filter (mappable storeCodeCol sqmCol) rawRows))%list,
       (errors ++ List.map (rowError storeCodeCol sqmCol)
                    (List.filter (fun x => negb (mappable storeCodeCol sqmCol (snd x)))
                       (numbered index rawRows)))%list).
Proof.
  intros storeCodeCol sqmCol businessNameCol addressCol rawRows.
  induction rawRows as [|raw rest IH]; intros index rows errors.
  - cbn. rewrite !app_nil_r. reflexivity.
  - cbn [FileProcessor.mapLoop]. rewrite mapRow_exact. unfold numbered.
    cbn [List.length List.seq List.combine List.filter snd].
    fold (numbered (S index) rest).
    destruct (mappable storeCodeCol sqmCol raw); cbn [negb]; rewrite IH;
      cbn [List.map]; rewrite <- app_assoc; reflexivity.
Qed.

(** X3. mapRows never yields a row with an empty store code or with a floor
    area that is NaN, zero or negative.  Without raw rows it returns nothing.
    When no key of the first raw row names the store code, or none names the
    floor area, it returns no rows and the error of row 0 of each missing
    column, the store code first.  Otherwise the raw rows with a store code
    and a floor area greater than zero give the rows, in order, and each
    other raw row gives one error, in order, with the row number of the
    file, index + 2: for the store code when it is empty, else for the floor
    area.  So rows and errors together are as many as the raw rows. *)
Theorem mapRows_accounts_for_every_row :
  forall rawRows rows errors,
    FileProcessor.mapRows rawRows = (rows, errors) ->
    Forall (fun row => JS.isEmpty (ImportRow.storeCode row) = false
                       /\ PrimFloat.ltb 0%float (ImportRow.squareMeters row) = true
                       /\ PrimFloat.is_nan (ImportRow.squareMeters row) = false) rows
    /\ match rawRows with
       | [] => rows = [] /\ errors = []
       | first :: _ =>
           match FileProcessor.findCol first FileProcessor.storeCodeKeywords,
                 FileProcessor.findCol first FileProcessor.sqmKeywords with
           | Some storeCodeCol, Some sqmCol =>
               rows = List.map
                        (mappedRow storeCodeCol sqmCol
                           (FileProcessor.findCol first FileProcessor.businessNameKeywords)
                           (FileProcessor.findCol first FileProcessor.addressKeywords))
                        (List.filter (mappable storeCodeCol sqmCol) rawRows)
               /\ errors = List.map (rowError storeCodeCol sqmCol)
                             (List.filter
                                (fun x => negb (mappable storeCodeCol sqmCol (snd x)))
                                (numbered 0 rawRows))
               /\ (List.length rows + List.length errors = List.length rawRows)%nat
               /\ Forall (fun error => 2 <= ImportError.row error
                                       <= List.length rawRows + 1)%nat errors
           | None, Some _ =>
               rows = [] /\ errors = [FileProcessor.missingStoreCodeColumn]
           | Some _, None =>
               rows = [] /\ errors = [FileProcessor.missingSqmColumn]
           | None, None =>
               rows = []
               /\ errors = [FileProcessor.missingStoreCodeColumn;
                            FileProcessor.missingSqmColumn]
           end
       end.
Proof.
  intros rawRows rows errors Hmap.
  pose proof (mapRows_outcomes rawRows) as H. cbv zeta in H.
  rewrite Hmap in H. cbn [fst snd] in H. destruct H as [Hrows Hcases].
  split.
  { eapply Forall_impl; [|exact Hrows]. intros row Hrow.
    unfold acceptable in Hrow. apply Bool.andb_true_iff in Hrow.
    destruct Hrow as [Hcode Harea]. apply Bool.negb_true_iff in Hcode.
    repeat split; try assumption.
    unfold PrimFloat.is_nan. rewrite FloatAxioms.eqb_spec. unfold SFeqb.
    rewrite FloatAxioms.ltb_spec in Harea. unfold SFltb in Harea.
    rewrite SFcompare_refl; [reflexivity|].
    intro Hnan. rewrite Hnan in Harea. discriminate. }
  clear Hrows Hcases. unfold FileProcessor.mapRows in Hmap.
  destruct rawRows as [|first rest].
  - injection Hmap as <- <-. split; reflexivity.
  - destruct (FileProcessor.findCol first FileProcessor.storeCodeKeywords)
      as [storeCodeCol|];
      destruct (FileProcessor.findCol first FileProcessor.sqmKeywords) as [sqmCol|];
      cbv zeta in Hmap; cbn [app] in Hmap;
      try (injection Hmap as <- <-; split; reflexivity).
    destruct (mapLoop_accounts storeCodeCol sqmCol
                (FileProcessor.findCol first FileProcessor.businessNameKeywords)
                (FileProcessor.findCol first FileProcessor.addressKeywords)
                (first :: rest) 0 [] [])
      as [newRows [newErrors [Hloop [Hlen [_ Herrors]]]]].
    rewrite Hloop in Hmap. cbn [app] in Hmap. injection Hmap as <- <-.
    rewrite mapLoop_exact in Hloop. cbn [app] in Hloop.
    injection Hloop as Hr He. split; [symmetry; exact Hr|].
    split; [symmetry; exact He|]. split; [exact Hlen|].
    eapply Forall_impl; [|exact Herrors]. simpl. intros a Ha. lia.
Qed.

(** The file of the scenario: one of its three rows has a negative area. *)
Lemma mapRows_accounts_for_every_row_witness :
  exists rawRows rows errors,
    FileProcessor.parseCSV Sample.csvScenario = Ok rawRows
    /\ FileProcessor.mapRows rawRows = (rows, errors)
    /\ List.length rows = 2%nat
    /\ List.map ImportError.row errors = [3%nat]
    /\ Forall (fun row => PrimFloat.ltb 0%float (ImportRow.squareMeters row) = true) rows.
Proof.
  destruct (FileProcessor.parseCSV Sample.csvScenario) as [rawRows|] eqn:Hparse;
    [|vm_compute in Hparse; discriminate].
  destruct (FileProcessor.mapRows rawRows) as [rows errors] eqn:Hmap.
  exists rawRows, rows, errors. split; [reflexivity|]. split; [exact Hmap|].
  destruct (mapRows_accounts_for_every_row rawRows rows errors Hmap) as [Hrows _].
  vm_compute in Hparse. injection Hparse as <-.
  vm_compute in Hmap. injection Hmap as <- <-.
  split; [reflexivity|]. split; [reflexivity|].
  eapply Forall_impl; [|exact Hrows]. intros row [_ [Hpos _]]. exact Hpos.
Defined.

(** ** Validation *)

Lemma seen_In :
  forall seenCodes code, FileProcessor.seen seenCodes code = true <-> In code seenCodes.
Proof.
  intros seenCodes code. unfold FileProcessor.seen. rewrite existsb_exists. split.
  - intros [c [Hin Heq]]. apply String.eqb_eq in Heq. subst c. exact Hin.
  - intros Hin. exists code. split; [exact Hin | apply String.eqb_refl].
Qed.

(** The error that validate records for the row at index i. *)
Lemma validateLoop_errors :
  forall show rows index errors warnings seenCodes e,
    In e (fst (FileProcessor.validateLoop show rows index errors warnings seenCodes)) <->
    In e errors
    \/ exists i row,
         nth_error rows i = Some row
         /\ (In (ImportRow.storeCode row) seenCodes
             \/ In (ImportRow.storeCode row)
                  (List.map ImportRow.storeCode (List.firstn i rows)))
         /\ e = repeated (index + i) row.
Proof.
  intros show rows. induction rows as [|row rest IH];
    intros index errors warnings seenCodes e.
  - simpl. split; [auto|]. intros [H | [i [row [Hi _]]]]; [exact H|].
    destruct i; discriminate.
  - cbn [FileProcessor.validateLoop]. rewrite IH. clear IH. split.
    + intros [He | [i [r [Hi [Hseen ->]]]]].
      * destruct (FileProcessor.seen seenCodes (ImportRow.storeCode row)) eqn:Hs;
          [|left; exact He].
        apply in_app_or in He. destruct He as [He | [<- | []]]; [left; exact He|].
        right. exists 0%nat, row. split; [reflexivity|]. split.
        -- left. apply seen_In. exact Hs.
        -- unfold repeated. rewrite Nat.add_0_r. reflexivity.
      * right. exists (S i), r. split; [exact Hi|]. split.
        -- destruct Hseen as [[<- | Hseen] | Hseen].
           ++ right. left. reflexivity.
           ++ left. exact Hseen.
           ++ right. right. exact Hseen.
        -- f_equal. lia.
    + intros [He | [i [r [Hi [Hseen ->]]]]].
      * left. destruct (FileProcessor.seen seenCodes (ImportRow.storeCode row));
          [apply in_or_app; left|]; exact He.
      * destruct i as [|i]; simpl in Hi.
        -- injection Hi as <-. left.
           destruct Hseen as [Hseen | []].
           apply seen_In in Hseen. rewrite Hseen. apply in_or_app. right. left.
           unfold repeated. rewrite Nat.add_0_r. reflexivity.
        -- right. exists i, r. split; [exact Hi|]. split.
           ++ destruct Hseen as [Hseen | [<- | Hseen]].
              ** left. right. exact Hseen.
              ** left. left. reflexivity.
              ** right. exact Hseen.
           ++ f_equal. lia.
Qed.

Lemma validateLoop_warnings :
  forall show rows index errors warnings seenCodes,
    List.length (snd (FileProcessor.validateLoop show rows index errors warnings seenCodes))
    = (List.length warnings
       + List.length (List.filter
           (fun row => PrimFloat.ltb (ImportRow.squareMeters row) 10%float) rows)
       + List.length (List.filter
           (fun row => PrimFloat.ltb 50000%float (ImportRow.squareMeters row)) rows))%nat.
Proof.
  intros show rows. induction rows as [|row rest IH];
    intros index errors warnings seenCodes.
  - simpl. lia.
  - cbn [FileProcessor.validateLoop List.filter]. rewrite IH.
    destruct (PrimFloat.ltb (ImportRow.squareMeters row) 10);
      destruct (PrimFloat.ltb 50000 (ImportRow.squareMeters row));
      cbn [List.length]; rewrite ?length_app; cbn [List.length]; lia.
Qed.


(** ** The outcome of processFile *)

Lemma mapRows_no_errors :
  forall rawRows,
    snd (FileProcessor.mapRows rawRows) = [] ->
    List.length (fst (FileProcessor.mapRows rawRows)) = List.length rawRows.
Proof.
  intros rawRows Hnone. pose proof (mapRows_outcomes rawRows) as H. cbv zeta in H.
  destruct H as [_ [[_ [_ [Herr _]]] | [Hlen _]]]; [contradiction|].
  rewrite Hnone in Hlen. simpl in Hlen. lia.
Qed.

(** X5. processFile always returns, with a record that is closed: the
    completion date is set and the record and the validation carry the same
    errors.  When the content parses, errorRecords counts these errors; when
    parseCSV throws, the only error is the one of the file, with row 0 and the
    message thrown, while errorRecords and totalRecords stay 0.  A valid
    result has the status completed, no error and at least one row: every raw
    row of the file was mapped, the codes are pairwise distinct and each row
    has a code and a floor area greater than zero.  An invalid result has the
    status failed, at least one error and no rows. *)
Theorem processFile_outcome :
  forall filename content uploadedBy e w,
    exists r,
      FileProcessor.processFile filename content uploadedBy e w
      = (Ok r, with_ticks (3 + ticks w) w)
      /\ let record := ProcessingResult.import r in
         let validation := ProcessingResult.validation r in
         let rows := ProcessingResult.rows r in
         FileImport.filename record = filename
         /\ FileImport.uploadedBy record = uploadedBy
         /\ FileImport.completedAt record <> None
         /\ FileImport.errors record = ValidationResult.errors validation
         /\ match FileProcessor.parseCSV content with
            | Ok rawRows =>
                FileImport.totalRecords record = List.length rawRows
                /\ FileImport.errorRecords record
                   = List.length (ValidationResult.errors validation)
            | Throw message =>
                ValidationResult.errors validation
                = [ImportError.mk 0 "file" filename message]
                /\ FileImport.totalRecords record = 0%nat
                /\ FileImport.errorRecords record = 0%nat
            end
         /\ (ValidationResult.isValid validation = true ->
             FileImport.status record = ICompleted
             /\ ValidationResult.errors validation = []
             /\ rows <> []
             /\ List.length rows = FileImport.totalRecords record
             /\ FileImport.processedRecords record = FileImport.totalRecords record
             /\ NoDup (List.map ImportRow.storeCode rows)
             /\ Forall (fun row => acceptable row = true) rows)
         /\ (ValidationResult.isValid validation = false ->
             FileImport.status record = IFailed
             /\ ValidationResult.errors validation <> []
             /\ rows = []).
Proof.
  intros filename content uploadedBy e w.
  unfold FileProcessor.processFile, bind, new_Date, Date_now, asks, ret.
  destruct w as [ticks0 draws0 configs lm ps q h pub ts]; cbn [with_ticks ticks draws
    pricingConfigs lifecycleManager policyService importQueue heap published tasks].
  pose proof (parseCSV_ok_nonempty content) as Hnonempty.
  destruct (FileProcessor.parseCSV content) as [rawRows|message].
  - specialize (Hnonempty rawRows eq_refl).
    pose proof (mapRows_no_errors rawRows) as Hall.
    pose proof (mapRows_outcomes rawRows) as Hrows. cbv zeta in Hrows.
    destruct Hrows as [Hrows _].
    pose proof (validate_isValid (numberToString e)
                  (fst (FileProcessor.mapRows rawRows))) as Hvalid.
    pose proof (validate_errors (numberToString e)
                  (fst (FileProcessor.mapRows rawRows))) as Hdup.
    destruct (FileProcessor.mapRows rawRows) as [rows mappingErrors].
    cbn [fst snd] in *.
    eexists. split; [reflexivity|].
    cbn [ProcessingResult.import ProcessingResult.validation ProcessingResult.rows
         FileImport.filename FileImport.uploadedBy FileImport.completedAt
         FileImport.errors FileImport.errorRecords FileImport.status
         FileImport.totalRecords FileImport.processedRecords
         ValidationResult.isValid ValidationResult.errors].
    split; [reflexivity|]. split; [reflexivity|]. split; [discriminate|].
    split; [reflexivity|]. split; [split; reflexivity|]. split.
    + intros Hok. rewrite Hok. apply Bool.andb_true_iff in Hok.
      destruct Hok as [Hmap Hval]. apply Nat.eqb_eq in Hmap.
      apply length_zero_iff_nil in Hmap. subst mappingErrors.
      specialize (Hall eq_refl). apply Hvalid in Hval.
      split; [reflexivity|]. split; [rewrite Hval; reflexivity|].
      split; [intro Hnil; subst rows; destruct rawRows; [contradiction | discriminate]|].
      split; [exact Hall|]. split; [exact Hall|].
      split; [apply Hdup; exact Hval | exact Hrows].
    + intros Hbad. rewrite Hbad. split; [reflexivity|]. split; [|reflexivity].
      intro Hnil. apply app_eq_nil in Hnil. destruct Hnil as [Hm Hv].
      subst mappingErrors. apply Hvalid in Hv. rewrite Hv in Hbad. discriminate.
  - eexists. split; [reflexivity|].
    cbn [ProcessingResult.import ProcessingResult.validation ProcessingResult.rows
         FileImport.filename FileImport.uploadedBy FileImport.completedAt
         FileImport.errors FileImport.errorRecords FileImport.status
         FileImport.totalRecords FileImport.processedRecords
         ValidationResult.isValid ValidationResult.errors].
    split; [reflexivity|]. split; [reflexivity|]. split; [discriminate|].
    split; [reflexivity|]. split; [repeat split|]. split.
    + intros Hok. discriminate Hok.
    + intros _. split; [reflexivity|]. split; [discriminate | reflexivity].
Qed.

(* ========================================================================= *)
(** * Further properties of the pricing engine *)
(* ========================================================================= *)

Lemma find_first :
  forall (A : Type) (p : A -> bool) (l : list A) (x : A),
    List.find p l = Some x ->
    p x = true
    /\ exists before after,
         l = (before ++ x :: after)%list /\ Forall (fun y => p y = false) before.
Proof.
  intros A p l x. induction l as [|y r IH]; simpl; [discriminate|].
  destruct (p y) eqn:Hy.
  - intros H. injection H as ->. split; [exact Hy|].
    exists [], r. split; [reflexivity | constructor].
  - intros H. destruct (IH H) as [Hx [before [after [-> Hbefore]]]].
    split; [exact Hx|]. exists (y :: before), after.
    split; [reflexivity | constructor; assumption].
Qed.

Lemma find_none :
  forall (A : Type) (p : A -> bool) (l : list A),
    List.find p l = None <-> Forall (fun y => p y = false) l.
Proof.
  intros A p l. induction l as [|y r IH]; simpl.
  - split; [constructor | reflexivity].
  - destruct (p y) eqn:Hy.
    + split; [discriminate|]. intros H. inversion H; congruence.
    + rewrite IH. split; [intros H; constructor; assumption|].
      intros H. inversion H; assumption.
Qed.

(** The test of getActiveConfig on a configuration, spelled out. *)
Lemma isActive_covers :
  forall coverageType effectiveDate c,
    PricingEngine.isActive coverageType effectiveDate c = true <->
    covers coverageType effectiveDate c.
Proof.
  intros coverageType effectiveDate c. unfold PricingEngine.isActive, covers.
  rewrite !Bool.andb_true_iff. unfold JS.Date_ge.
  assert (Htype : CoverageType_eqb (PricingConfig.coverageType c) coverageType = true <->
                  PricingConfig.coverageType c = coverageType).
  { destruct (PricingConfig.coverageType c), coverageType; simpl;
      split; intros H; try reflexivity; discriminate H. }
  rewrite Htype. split.
  - intros [[Ht Hfrom] Hto]. split; [exact Ht|]. split; [exact Hfrom|].
    intros to Heq. rewrite Heq in Hto. exact Hto.
  - intros [Ht [Hfrom Hto]]. split; [split; assumption|].
    destruct (PricingConfig.effectiveTo c) as [to|]; [apply Hto; reflexivity | reflexivity].
Qed.

(** X6. The configuration that prices a coverage type at a date is the first
    one of the list, in its order, of that coverage type whose period holds
    the date: it starts on or before the date and has no end or ends on or
    after it.  One is found whenever the list holds such a configuration,
    and none is found exactly when it holds none.  hasPricingConfig answers
    true exactly when calculate returns a result for that type and date,
    whatever the store; no configuration is active on an invalid date, so
    calculate throws there; and the result reports the floor area of the
    store and the rate of the configuration. *)
Theorem getActiveConfig_first_match :
  forall configs coverageType effectiveDate,
    (forall config,
       PricingEngine.getActiveConfig configs coverageType effectiveDate = Some config ->
       PricingConfig.coverageType config = coverageType
       /\ JS.Date_le (PricingConfig.effectiveFrom config) effectiveDate = true
       /\ (forall to, PricingConfig.effectiveTo config = Some to ->
             JS.Date_le effectiveDate to = true)
       /\ exists before after,
            configs = (before ++ config :: after)%list
            /\ Forall (fun c => PricingEngine.isActive coverageType effectiveDate c = false)
                 before)
    /\ (forall store,
          PricingEngine.hasPricingConfig configs coverageType effectiveDate = true <->
          exists result,
            PricingEngine.calculateAt configs store coverageType effectiveDate = Ok result)
    /\ (forall store result config,
          PricingEngine.calculateAt configs store coverageType effectiveDate = Ok result ->
          PricingEngine.getActiveConfig configs coverageType effectiveDate = Some config ->
          PricingResult.squareMeters result = Store.squareMeters store
          /\ PricingResult.rateApplied result = PricingConfig.ratePerSquareMeter config)
    /\ (effectiveDate = None ->
        PricingEngine.hasPricingConfig configs coverageType effectiveDate = false
        /\ forall store, exists message,
             PricingEngine.calculateAt configs store coverageType effectiveDate
             = Throw message)
    /\ (forall config,
          PricingEngine.getActiveConfig configs coverageType effectiveDate = Some config ->
          covers coverageType effectiveDate config
          /\ exists before after,
               configs = (before ++ config :: after)%list
               /\ Forall (fun c => ~ covers coverageType effectiveDate c) before)
    /\ (forall c,
          In c configs -> covers coverageType effectiveDate c ->
          exists config,
            PricingEngine.getActiveConfig configs coverageType effectiveDate = Some config)
    /\ (PricingEngine.getActiveConfig configs coverageType effectiveDate = None <->
        forall c, In c configs -> ~ covers coverageType effectiveDate c).
Proof.
  intros configs coverageType effectiveDate.
  assert (Hcomplete :
            PricingEngine.getActiveConfig configs coverageType effectiveDate = None
            <-> forall c, In c configs -> ~ covers coverageType effectiveDate c).
  { unfold PricingEngine.getActiveConfig. rewrite find_none, Forall_forall.
    split; intros H c Hc.
    - rewrite <- isActive_covers. rewrite (H c Hc). discriminate.
    - destruct (PricingEngine.isActive coverageType effectiveDate c) eqn:Hactive;
        [|reflexivity].
      apply isActive_covers in Hactive. exfalso. exact (H c Hc Hactive). }
  split; [|split; [|split; [|split; [|split; [|split; [|exact Hcomplete]]]]]].
  5:{ intros config Hfind. unfold PricingEngine.getActiveConfig in Hfind.
      apply find_first in Hfind. destruct Hfind as [Hactive [before [after [Hl Hbefore]]]].
      split; [apply isActive_covers; exact Hactive|].
      exists before, after. split; [exact Hl|].
      eapply Forall_impl; [|exact Hbefore]. intros c Hc Hcovers.
      apply isActive_covers in Hcovers. cbv beta in Hc. rewrite Hcovers in Hc.
      discriminate Hc. }
  5:{ intros c Hc Hcovers.
      destruct (PricingEngine.getActiveConfig configs coverageType effectiveDate)
        as [config|]; [exists config; reflexivity|].
      exfalso. destruct Hcomplete as [Hnone _]. exact (Hnone eq_refl c Hc Hcovers). }
  - intros config Hfind. unfold PricingEngine.getActiveConfig in Hfind.
    apply find_first in Hfind. destruct Hfind as [Hactive Hfirst].
    unfold PricingEngine.isActive in Hactive.
    apply Bool.andb_true_iff in Hactive. destruct Hactive as [Hactive Hto].
    apply Bool.andb_true_iff in Hactive. destruct Hactive as [Htype Hfrom].
    split; [destruct (PricingConfig.coverageType config), coverageType;
            (reflexivity || discriminate)|].
    split; [exact Hfrom|]. split; [|exact Hfirst].
    intros to Heq. rewrite Heq in Hto. exact Hto.
  - intros store. unfold PricingEngine.hasPricingConfig, PricingEngine.calculateAt.
    destruct (PricingEngine.getActiveConfig configs coverageType effectiveDate).
    + split; [intros _; eexists; reflexivity | reflexivity].
    + split; [discriminate|]. intros [result H]. destruct effectiveDate; discriminate.
  - intros store result config. unfold PricingEngine.calculateAt. intros Hrun Hfind.
    rewrite Hfind in Hrun. injection Hrun as <-. split; reflexivity.
  - intros ->.
    assert (Hnone : PricingEngine.getActiveConfig configs coverageType None = None).
    { unfold PricingEngine.getActiveConfig. apply find_none.
      apply Forall_forall. intros c _. unfold PricingEngine.isActive.
      destruct (PricingConfig.effectiveFrom c); simpl;
        rewrite Bool.andb_false_r; reflexivity. }
    unfold PricingEngine.hasPricingConfig, PricingEngine.calculateAt. rewrite Hnone.
    split; [reflexivity|]. intros store. eexists. reflexivity.
Qed.

(** With a rate for 2024 listed before the open-ended rate in force since
    2025, a date in 2024 is priced by the first and a date in 2025 by the
    second. *)
Lemma getActiveConfig_first_match_witness :
  let oldRate := PricingConfig.mk catnat 2.5%float 500%float 10000000%float
                   (Some 1704067200000) (Some (Some 1735689599999)) in
  let newRate := PricingConfig.mk catnat 3%float 500%float 10000000%float
                   (Some 1735689600000) None in
  PricingEngine.getActiveConfig [oldRate; newRate] catnat (Some 1717200000000)
  = Some oldRate
  /\ PricingEngine.getActiveConfig [oldRate; newRate] catnat (Some 1750000000000)
     = Some newRate
  /\ JS.Date_le (PricingConfig.effectiveFrom newRate) (Some 1750000000000) = true.
Proof.
  intros oldRate newRate. split; [reflexivity|]. split; [reflexivity|].
  destruct (getActiveConfig_first_match [oldRate; newRate] catnat (Some 1750000000000))
    as [Hfirst _].
  destruct (Hfirst newRate eq_refl) as [_ [Hfrom _]]. exact Hfrom.
Defined.

(** ** setConfig *)

Lemma replaceConfig_none :
  forall configs config,
    PricingEngine.replaceConfig configs config = None <->
    Forall (fun c => sameSlot config c = false) configs.
Proof.
  intros configs config. induction configs as [|c rest IH]; simpl.
  - split; [constructor | reflexivity].
  - destruct (CoverageType_eqb (PricingConfig.coverageType c)
                (PricingConfig.coverageType config)
              && PricingEngine.sameTime (PricingConfig.effectiveFrom c)
                   (PricingConfig.effectiveFrom config)) eqn:Hc.
    + split; [discriminate|]. intros H. inversion H as [|x l Hx Hl]; subst.
      unfold sameSlot in Hx. congruence.
    + destruct (PricingEngine.replaceConfig rest config) as [replaced|] eqn:Hr; simpl.
      * split; [discriminate|]. intros H. inversion H as [|x l Hx Hl]; subst.
        apply IH in Hl. discriminate.
      * split; [|reflexivity]. intros _. constructor; [exact Hc|].
        apply IH. reflexivity.
Qed.

Lemma replaceConfig_some :
  forall configs config configs',
    PricingEngine.replaceConfig configs config = Some configs' ->
    exists before old after,
      configs = (before ++ old :: after)%list
      /\ configs' = (before ++ config :: after)%list
      /\ sameSlot config old = true
      /\ Forall (fun c => sameSlot config c = false) before.
Proof.
  intros configs config. induction configs as [|c rest IH]; intros configs'; simpl;
    [discriminate|].
  destruct (CoverageType_eqb (PricingConfig.coverageType c)
              (PricingConfig.coverageType config)
            && PricingEngine.sameTime (PricingConfig.effectiveFrom c)
                 (PricingConfig.effectiveFrom config)) eqn:Hc.
  - intros H. injection H as <-. exists [], c, rest.
    repeat split; [exact Hc | constructor].
  - destruct (PricingEngine.replaceConfig rest config) as [l|]; simpl; [|discriminate].
    intros H. injection H as <-.
    destruct (IH l eq_refl) as [before [old [after [-> [-> [Hold Hbefore]]]]]].
    exists (c :: before), old, after.
    repeat split; [exact Hold | constructor; assumption].
Qed.

Lemma find_app :
  forall (A : Type) (p : A -> bool) (l1 l2 : list A),
    List.find p (l1 ++ l2)%list
    = match List.find p l1 with
      | Some x => Some x
      | None => List.find p l2
      end.
Proof.
  intros A p l1 l2. induction l1 as [|x r IH]; simpl; [reflexivity|].
  destruct (p x); [reflexivity | exact IH].
Qed.

(** X7. setConfig changes nothing but the list of configurations.  A
    configuration of the same coverage type that starts at the same time is
    replaced where it stands, the first such one; otherwise the new
    configuration is appended at the end.  The prices of the other coverage
    types are never affected.  An appended configuration prices only the
    dates that no earlier configuration of its type covers: wherever a
    configuration was active before, the same one is active after. *)
Theorem setConfig_replaces_or_appends :
  forall config e w,
    let configs := pricingConfigs w in
    exists configs',
      PricingEngine.setConfig config e w = (Ok tt, with_pricingConfigs configs' w)
      /\ In config configs'
      /\ (forall coverageType date,
            coverageType <> PricingConfig.coverageType config ->
            PricingEngine.getActiveConfig configs' coverageType date
            = PricingEngine.getActiveConfig configs coverageType date)
      /\ ((exists before old after,
             configs = (before ++ old :: after)%list
             /\ configs' = (before ++ config :: after)%list
             /\ sameSlot config old = true
             /\ Forall (fun c => sameSlot config c = false) before)
          \/ (Forall (fun c => sameSlot config c = false) configs
              /\ configs' = (configs ++ [config])%list
              /\ forall coverageType date active,
                   PricingEngine.getActiveConfig configs coverageType date = Some active ->
                   PricingEngine.getActiveConfig configs' coverageType date
                   = Some active)).
Proof.
  intros config e w configs. unfold PricingEngine.setConfig, modify.
  fold configs.
  assert (Hother : forall c coverageType date,
            coverageType <> PricingConfig.coverageType config ->
            sameSlot config c = true ->
            PricingEngine.isActive coverageType date c = false).
  { intros c coverageType date Hne Hslot. unfold sameSlot in Hslot.
    apply Bool.andb_true_iff in Hslot. destruct Hslot as [Htype _].
    unfold PricingEngine.isActive.
    destruct (PricingConfig.coverageType c), (PricingConfig.coverageType config),
      coverageType; simpl in *; try reflexivity; try discriminate; congruence. }
  assert (Hnew : forall coverageType date,
            coverageType <> PricingConfig.coverageType config ->
            PricingEngine.isActive coverageType date config = false).
  { intros coverageType date Hne. unfold PricingEngine.isActive.
    destruct (PricingConfig.coverageType config), coverageType;
      simpl in *; try reflexivity; congruence. }
  destruct (PricingEngine.replaceConfig configs config) as [configs'|] eqn:Hreplace.
  - exists configs'. split; [reflexivity|].
    destruct (replaceConfig_some configs config configs' Hreplace)
      as [before [old [after [Hconfigs [Hconfigs' [Hold Hbefore]]]]]].
    split; [rewrite Hconfigs'; apply in_or_app; right; left; reflexivity|].
    split.
    + intros coverageType date Hne. unfold PricingEngine.getActiveConfig.
      rewrite Hconfigs, Hconfigs', !find_app. simpl.
      rewrite (Hnew coverageType date Hne), (Hother old coverageType date Hne Hold).
      reflexivity.
    + left. exists before, old, after. repeat split; assumption.
  - exists (configs ++ [config])%list. split; [reflexivity|].
    split; [apply in_or_app; right; left; reflexivity|]. split.
    + intros coverageType date Hne. unfold PricingEngine.getActiveConfig.
      rewrite find_app. simpl. rewrite (Hnew coverageType date Hne).
      destruct (find _ configs); reflexivity.
    + right. split; [apply replaceConfig_none; exact Hreplace|].
      split; [reflexivity|].
      intros coverageType date active Hactive. unfold PricingEngine.getActiveConfig in *.
      rewrite find_app, Hactive. reflexivity.
Qed.

(** A rate of 3 from 2025-01-01 is set beside the default catnat rate, which
    has no end: the price of 2025-06-15 is still that of the default rate. *)
Lemma setConfig_replaces_or_appends_witness :
  let newRate := PricingConfig.mk catnat 3%float 500%float 10000000%float
                   (Some 1735689600000) None in
  let w' := snd (PricingEngine.setConfig newRate Sample.env Sample.world) in
  In newRate (pricingConfigs w')
  /\ option_map PricingConfig.ratePerSquareMeter
       (PricingEngine.getActiveConfig (pricingConfigs w') catnat (Some 1750000000000))
     = Some 2.5%float.
Proof.
  intros newRate w'.
  destruct (setConfig_replaces_or_appends newRate Sample.env Sample.world)
    as [configs' [Hrun [Hin [_ Hcases]]]].
  assert (Hw : pricingConfigs w' = configs').
  { unfold w'. rewrite Hrun. reflexivity. }
  rewrite Hw. split; [exact Hin|].
  destruct Hcases as [[before [old [after [Hconfigs [_ [Hold Hbefore]]]]]]
                     | [_ [_ Hkept]]].
  - exfalso.
    assert (Hall : Forall (fun c => sameSlot newRate c = false)
                     (pricingConfigs Sample.world)) by (repeat constructor).
    rewrite Hconfigs in Hall. apply Forall_app in Hall. destruct Hall as [_ Hall].
    inversion Hall as [|x l Hx Hl]; subst. rewrite Hold in Hx. discriminate.
  - erewrite Hkept; [|reflexivity]. reflexivity.
Defined.

(** ** The default configurations *)

(** X8. With the default configurations every coverage type has a price at
    every date from 2024-01-01, midnight UTC, onwards, at the rate of its
    type, and no price before: there calculate throws an error that names the
    coverage type and the date.  So a call of calculate without a date
    returns whenever the clock is past that day. *)
Theorem default_configs_cover_2024_onwards :
  forall store coverageType t,
    let rate := match coverageType with
                | catnat => 2.5%float
                | property => 4%float
                | combined => 5.5%float
                end in
    (1704067200000 <= t ->
     exists result,
       PricingEngine.calculateAt PricingEngine.DEFAULT_PRICING_CONFIGS store coverageType
         (Some t) = Ok result
       /\ PricingResult.rateApplied result = rate
       /\ forall e w,
            pricingConfigs w = PricingEngine.DEFAULT_PRICING_CONFIGS ->
            clock e (ticks w) = t ->
            PricingEngine.calculate store coverageType None e w
            = (Ok result, with_ticks (S (ticks w)) w))
    /\ (t < 1704067200000 ->
        PricingEngine.calculateAt PricingEngine.DEFAULT_PRICING_CONFIGS store coverageType
          (Some t)
        = Throw ("Nessuna configurazione di pricing attiva per "
                   ++ Sample.quote ++ CoverageType_str coverageType ++ Sample.quote
                   ++ " alla data " ++ JS.isoDate t ++ ". "
                   ++ "Verificare che esista una configurazione valida per il periodo richiesto.")).
Proof.
  intros store coverageType t rate. split.
  - intros Hfrom. apply Z.leb_le in Hfrom.
    assert (Hrun : exists result,
              PricingEngine.calculateAt PricingEngine.DEFAULT_PRICING_CONFIGS store
                coverageType (Some t) = Ok result
              /\ PricingResult.rateApplied result = rate).
    { unfold PricingEngine.calculateAt, PricingEngine.getActiveConfig,
        PricingEngine.DEFAULT_PRICING_CONFIGS, PricingEngine.isActive,
        PricingEngine.date_2024_01_01.
      destruct coverageType; cbn [List.find CoverageType_eqb PricingConfig.coverageType
        PricingConfig.effectiveFrom PricingConfig.effectiveTo JS.Date_le andb];
        rewrite Hfrom; cbn [andb]; eexists; split; reflexivity. }
    destruct Hrun as [result [Hrun Hrate]]. exists result.
    split; [exact Hrun|]. split; [exact Hrate|].
    intros e w Hconfigs Hclock.
    unfold PricingEngine.calculate, PricingEngine.orNow, new_Date, Date_now, bind, ret,
      gets, liftResult. cbn [pricingConfigs with_ticks].
    rewrite Hconfigs, Hclock, Hrun. reflexivity.
  - intros Hbefore. apply Z.leb_gt in Hbefore.
    unfold PricingEngine.calculateAt, PricingEngine.getActiveConfig,
      PricingEngine.DEFAULT_PRICING_CONFIGS, PricingEngine.isActive,
      PricingEngine.date_2024_01_01.
    destruct coverageType; cbn [List.find CoverageType_eqb PricingConfig.coverageType
      PricingConfig.effectiveFrom PricingConfig.effectiveTo JS.Date_le andb];
      rewrite ?Hbefore; cbn [andb List.find]; reflexivity.
Qed.

(** The sample clock reads 2025-06-15. *)
Lemma default_configs_cover_2024_onwards_witness :
  exists result,
    PricingEngine.calculate (Sample.store "S1" "Uno" 100%float SActive None None)
      property None Sample.env Sample.world
    = (Ok result, with_ticks 1 Sample.world)
    /\ PricingResult.rateApplied result = 4%float.
Proof.
  destruct (default_configs_cover_2024_onwards
              (Sample.store "S1" "Uno" 100%float SActive None None) property
              1750000000000) as [Hfrom _].
  destruct Hfrom as [result [_ [Hrate Hcall]]]; [vm_compute; discriminate|].
  exists result. split; [|exact Hrate].
  apply Hcall; reflexivity.
Defined.

(** ** The minimum premium *)

Lemma float_of_spec :
  forall x s, Prim2SF x = s -> x = SF2Prim s.
Proof. intros x s <-. symmetry. apply FloatAxioms.SF2Prim_Prim2SF. Qed.

(** A finite number greater than zero. *)
Lemma positive_finite :
  forall b,
    PrimFloat.is_finite b = true -> PrimFloat.ltb 0%float b = true ->
    exists m e, Prim2SF b = S754_finite false m e.
Proof.
  intros b Hfinite Hpos. apply is_finite_true in Hfinite.
  rewrite FloatAxioms.ltb_spec in Hpos. unfold SFltb in Hpos.
  change (Prim2SF 0%float) with (S754_zero false) in Hpos.
  destruct (Prim2SF b) as [s|s| |s m e]; simpl in *; try contradiction;
    try discriminate.
  destruct s; [discriminate|]. exists m, e. reflexivity.
Qed.

Lemma sub_self :
  forall b,
    PrimFloat.is_finite b = true -> PrimFloat.ltb 0%float b = true ->
    PrimFloat.sub b b = 0%float.
Proof.
  intros b Hfinite Hpos.
  destruct (positive_finite b Hfinite Hpos) as [m [e Hb]].
  transitivity (SF2Prim (S754_zero false)); [|reflexivity].
  apply float_of_spec. rewrite FloatAxioms.sub_spec, Hb. simpl.
  rewrite Z.pos_sub_diag. reflexivity.
Qed.

Lemma Math_max_of_larger :
  forall b m,
    PrimFloat.is_finite b = true -> PrimFloat.ltb 0%float b = true ->
    PrimFloat.is_nan m = false -> PrimFloat.ltb b m = false ->
    JS.Math_max b m = b.
Proof.
  intros b m Hfinite Hpos Hm Hlt.
  destruct (positive_finite b Hfinite Hpos) as [mb [eb Hb]].
  assert (Hnan : PrimFloat.is_nan b = false).
  { unfold PrimFloat.is_nan. rewrite FloatAxioms.eqb_spec. unfold SFeqb.
    rewrite SFcompare_refl; [reflexivity|]. rewrite Hb. discriminate. }
  unfold JS.Math_max. rewrite Hnan, Hm, Hlt. cbn [orb].
  destruct (PrimFloat.ltb m b); [reflexivity|].
  assert (Hsign : PrimFloat.get_sign b = false).
  { unfold PrimFloat.get_sign, PrimFloat.is_zero.
    assert (Hz : PrimFloat.eqb b PrimFloat.zero = false).
    { rewrite FloatAxioms.eqb_spec, Hb. reflexivity. }
    rewrite Hz. cbv zeta. rewrite FloatAxioms.ltb_spec, Hb. reflexivity. }
  rewrite Hsign. reflexivity.
Qed.

(** X9. How the minimum premium enters the price.  Let the base premium,
    floor area times rate, be finite and greater than zero, and the minimum
    premium be a number.  When the base premium is below the minimum, the
    premium is the minimum, rounded; otherwise the premium is the base premium
    as the breakdown reports it, and the adjustments are zero. *)
Theorem minimum_premium_is_a_floor :
  forall configs store coverageType effectiveDate config,
    PricingEngine.getActiveConfig configs coverageType effectiveDate = Some config ->
    let base := PrimFloat.mul (Store.squareMeters store)
                  (PricingConfig.ratePerSquareMeter config) in
    let minimum := PricingConfig.minimumPremium config in
    PrimFloat.is_finite base = true ->
    PrimFloat.ltb 0%float base = true ->
    PrimFloat.is_nan minimum = false ->
    exists result,
      PricingEngine.calculateAt configs store coverageType effectiveDate = Ok result
      /\ (PrimFloat.ltb base minimum = true ->
          PricingResult.premium result = PricingEngine.round2 minimum)
      /\ (PrimFloat.ltb base minimum = false ->
          PricingResult.premium result = PricingResult.basePremium result
          /\ PricingResult.adjustments result = 0%float).
Proof.
  intros configs store coverageType effectiveDate config Hconfig base minimum
    Hfinite Hpos Hminimum.
  unfold PricingEngine.calculateAt. rewrite Hconfig. fold base minimum.
  eexists. split; [reflexivity|].
  cbn [PricingResult.premium PricingResult.basePremium PricingResult.adjustments].
  split.
  - intros Hbelow. unfold JS.Math_max. rewrite Hminimum, Hbelow.
    destruct (PrimFloat.is_nan base) eqn:Hnan; [|reflexivity].
    exfalso. unfold PrimFloat.is_nan in Hnan.
    destruct (positive_finite base Hfinite Hpos) as [m [e Hb]].
    rewrite FloatAxioms.eqb_spec, Hb in Hnan. unfold SFeqb in Hnan.
    rewrite SFcompare_refl in Hnan; discriminate.
  - intros Hnot. rewrite (Math_max_of_larger base minimum Hfinite Hpos Hminimum Hnot).
    split; [reflexivity|]. rewrite (sub_self base Hfinite Hpos). reflexivity.
Qed.

(** The default catnat configuration: 100 square metres are charged the
    minimum of 500, and 5000 square metres the base premium of 12500. *)
Lemma minimum_premium_is_a_floor_witness :
  let config := PricingConfig.mk catnat 2.5%float 500%float 10000000%float
                  PricingEngine.date_2024_01_01 None in
  let date : JS.Date := Some 1750000000000 in
  (exists result,
     PricingEngine.calculateAt PricingEngine.DEFAULT_PRICING_CONFIGS
       (Sample.store "S1" "Uno" 100%float SActive None None) catnat date = Ok result
     /\ PricingResult.premium result = 500%float)
  /\ (exists result,
        PricingEngine.calculateAt PricingEngine.DEFAULT_PRICING_CONFIGS
          (Sample.store "S2" "Due" 5000%float SActive None None) catnat date = Ok result
        /\ PricingResult.premium result = 12500%float
        /\ PricingResult.adjustments result = 0%float).
Proof.
  intros config date. split.
  - destruct (minimum_premium_is_a_floor PricingEngine.DEFAULT_PRICING_CONFIGS
                (Sample.store "S1" "Uno" 100%float SActive None None) catnat date config
                eq_refl eq_refl eq_refl eq_refl) as [result [Hrun [Hbelow _]]].
    exists result. split; [exact Hrun|]. rewrite Hbelow; reflexivity.
  - destruct (minimum_premium_is_a_floor PricingEngine.DEFAULT_PRICING_CONFIGS
                (Sample.store "S2" "Due" 5000%float SActive None None) catnat date config
                eq_refl eq_refl eq_refl eq_refl) as [result [Hrun [_ Habove]]].
    exists result. split; [exact Hrun|].
    destruct (Habove eq_refl) as [Hpremium Hadjust]. split; [|exact Hadjust].
    rewrite Hpremium. injection Hrun as <-. reflexivity.
Defined.

(* ========================================================================= *)
(** * Further properties of the lifecycle manager *)
(* ========================================================================= *)

(** X10. activate, deactivate and suspend follow the transition table: each
    returns, and succeeds exactly when the table allows the move from the
    status of the store to its target status.  A refusal carries an error and
    the store as it was, and leaves the manager untouched, the audit log
    included.  A success returns the store with the target status and the
    same code, name, address, floor area and creation date, reports the move
    in its event, and appends one entry to the audit log: the action, the
    store code, the store before and the store after, performed by system. *)
Theorem lifecycle_follows_transition_table :
  forall operation target action,
    In (operation, target, action)
       [(LifecycleManager.activate, SActive, store_updated);
        (LifecycleManager.deactivate, SInactive, store_deactivated);
        (LifecycleManager.suspend, SSuspended, store_updated)] ->
    forall store reason e w,
    exists result w',
      operation store reason e w = (Ok result, w')
      /\ LifecycleResult.success result
         = LifecycleManager.isValidTransition (Store.status store) target
      /\ (LifecycleResult.success result = false ->
          w' = w
          /\ LifecycleResult.store result = store
          /\ LifecycleResult.event result = None
          /\ LifecycleResult.error result <> None)
      /\ (LifecycleResult.success result = true ->
          let updated := LifecycleResult.store result in
          let now : JS.Date := Some (clock e (ticks w)) in
          Store.status updated = target
          /\ Store.storeCode updated = Store.storeCode store
          /\ Store.businessName updated = Store.businessName store
          /\ Store.address updated = Store.address store
          /\ Store.squareMeters updated = Store.squareMeters store
          /\ Store.createdAt updated = Store.createdAt store
          /\ Store.updatedAt updated = now
          /\ LifecycleResult.error result = None
          /\ LifecycleResult.event result
             = Some (LifecycleEvent.mk (Store.storeCode store) (Store.status store)
                       target reason now)
          /\ w' = mkWorld (2 + ticks w) (S (draws w)) (pricingConfigs w)
                    (LifecycleState.mk
                       (LifecycleState.auditLog (lifecycleManager w)
                          ++ [AuditLog.mk (uuid e (draws w)) action "store"
                                (Store.storeCode store) (Some store) updated "system"
                                (Some (clock e (S (ticks w))))])%list
                       (LifecycleState.currentSessionId (lifecycleManager w)))
                    (policyService w) (importQueue w) (heap w) (published w)
                    (tasks w)).
Proof.
  intros operation target action Hop store reason e w.
  destruct w as [ticks0 draws0 configs lm ps q h pub ts].
  destruct Hop as [Hop | [Hop | [Hop | []]]]; injection Hop as <- <- <-.
  - unfold LifecycleManager.activate.
    destruct (Store.status store) eqn:Hstatus; cbn;
      do 2 eexists; (split; [reflexivity|]); cbn;
      (split; [reflexivity|]);
      (split; [intros Hs; try discriminate Hs; repeat split; discriminate
              | intros Hs; try discriminate Hs; repeat split;
                rewrite ?Hstatus; reflexivity]).
  - unfold LifecycleManager.deactivate.
    destruct (Store.status store) eqn:Hstatus; cbn;
      do 2 eexists; (split; [reflexivity|]); cbn;
      (split; [reflexivity|]);
      (split; [intros Hs; try discriminate Hs; repeat split; discriminate
              | intros Hs; try discriminate Hs; repeat split;
                rewrite ?Hstatus; reflexivity]).
  - unfold LifecycleManager.suspend.
    destruct (Store.status store) eqn:Hstatus; cbn;
      do 2 eexists; (split; [reflexivity|]); cbn;
      (split; [reflexivity|]);
      (split; [intros Hs; try discriminate Hs; repeat split; discriminate
              | intros Hs; try discriminate Hs; repeat split;
                rewrite ?Hstatus; reflexivity]).
Qed.

(** A pending store is activated, and cannot be suspended. *)
Lemma lifecycle_follows_transition_table_witness :
  let store := Sample.store "S1" "Uno" 100%float SPending None None in
  (exists result w',
     LifecycleManager.activate store None Sample.env Sample.world = (Ok result, w')
     /\ LifecycleResult.success result = true
     /\ List.length (LifecycleState.auditLog (lifecycleManager w')) = 1%nat)
  /\ (exists result,
        LifecycleManager.suspend store None Sample.env Sample.world
        = (Ok result, Sample.world)
        /\ LifecycleResult.success result = false).
Proof.
  intros store. split.
  - destruct (lifecycle_follows_transition_table LifecycleManager.activate SActive
                store_updated (or_introl eq_refl) store None Sample.env Sample.world)
      as [result [w' [Hrun [Hsuccess [_ Hdone]]]]].
    exists result, w'. split; [exact Hrun|]. split; [exact Hsuccess|].
    destruct (Hdone Hsuccess) as [_ [_ [_ [_ [_ [_ [_ [_ [_ ->]]]]]]]]]. reflexivity.
  - destruct (lifecycle_follows_transition_table LifecycleManager.suspend SSuspended
                store_updated (or_intror (or_intror (or_introl eq_refl))) store None
                Sample.env Sample.world)
      as [result [w' [Hrun [Hsuccess [Hrefused _]]]]].
    exists result. destruct (Hrefused Hsuccess) as [Hw _]. subst w'.
    split; [exact Hrun | exact Hsuccess].
Defined.

(** X11. The lifecycle manager never brings an inactive store back: activate,
    deactivate and suspend, applied in any number and order, each to the
    store the one before returned, all refuse an inactive store, return it as
    it is and leave the manager, the audit log included, untouched. *)
Theorem inactive_store_stays_inactive :
  forall operations store e w,
    Forall (fun operation =>
              In operation [LifecycleManager.activate; LifecycleManager.deactivate;
                            LifecycleManager.suspend]) operations ->
    Store.status store = SInactive ->
    chain operations store e w = (Ok store, w).
Proof.
  intros operations store e w Hops Hstatus.
  induction Hops as [|operation rest Hop Hrest IH]; [reflexivity|].
  cbn [chain]. unfold bind.
  assert (Hrefused : exists message,
            operation store None e w
            = (Ok (LifecycleManager.refused store message), w)).
  { destruct Hop as [<- | [<- | [<- | []]]].
    - unfold LifecycleManager.activate. rewrite Hstatus. eexists. reflexivity.
    - unfold LifecycleManager.deactivate. rewrite Hstatus. eexists. reflexivity.
    - unfold LifecycleManager.suspend. rewrite Hstatus. eexists. reflexivity. }
  destruct Hrefused as [message ->]. exact IH.
Qed.

(** A store closed by deactivate is not reopened by activate, suspend and
    activate again. *)
Lemma inactive_store_stays_inactive_witness :
  let store := Sample.store "S1" "Uno" 100%float SInactive (Some Sample.someDate)
                 (Some Sample.someDate) in
  chain [LifecycleManager.activate; LifecycleManager.suspend; LifecycleManager.activate]
    store Sample.env Sample.world
  = (Ok store, Sample.world).
Proof.
  intros store. apply inactive_store_stays_inactive; [|reflexivity].
  constructor; [left; reflexivity|].
  constructor; [right; right; left; reflexivity|].
  constructor; [left; reflexivity | constructor].
Defined.

(** ** The bulk update *)

Lemma new_Date_run :
  forall e w, new_Date e w = (Ok (Some (clock e (ticks w))), with_ticks (S (ticks w)) w).
Proof. reflexivity. Qed.

Lemma logAudit_effect :
  forall action entityId previousState newState e w,
    exists w',
      LifecycleManager.logAudit action entityId previousState newState e w = (Ok tt, w')
      /\ outsideLifecycle w' = outsideLifecycle w
      /\ auditLength w' = S (auditLength w).
Proof.
  intros action entityId previousState newState e w.
  destruct w as [tk dr cfg lm ps q hp pub tsk].
  unfold LifecycleManager.logAudit, bind, new_Date, Date_now, randomUUID, ret, modify,
    auditLength. cbn.
  eexists. split; [reflexivity|]. cbn. split; [reflexivity|].
  rewrite length_app. simpl. lia.
Qed.

Lemma createStore_effect :
  forall data e w,
    exists store w',
      LifecycleManager.createStore data e w = (Ok store, w')
      /\ Store.storeCode store = ImportRow.storeCode data
      /\ Store.businessName store = ImportRow.businessName data
      /\ Store.address store = ImportRow.address data
      /\ Store.squareMeters store = ImportRow.squareMeters data
      /\ Store.status store = SPending
      /\ Store.activationDate store = None
      /\ Store.closureDate store = None
      /\ outsideLifecycle w' = outsideLifecycle w
      /\ auditLength w' = S (auditLength w).
Proof.
  intros data e w. destruct w as [tk dr cfg lm ps q hp pub tsk].
  unfold LifecycleManager.createStore, LifecycleManager.logAudit, bind, new_Date, Date_now, randomUUID, ret, modify, auditLength. cbn.
  do 2 eexists. split; [reflexivity|]. cbn. repeat split.
  rewrite length_app. simpl. lia.
Qed.

Lemma activate_pending :
  forall store reason e w,
    Store.status store = SPending ->
    exists result w',
      LifecycleManager.activate store reason e w = (Ok result, w')
      /\ LifecycleResult.success result = true
      /\ Store.storeCode (LifecycleResult.store result) = Store.storeCode store
      /\ Store.businessName (LifecycleResult.store result) = Store.businessName store
      /\ Store.address (LifecycleResult.store result) = Store.address store
      /\ Store.squareMeters (LifecycleResult.store result) = Store.squareMeters store
      /\ Store.status (LifecycleResult.store result) = SActive
      /\ Store.activationDate (LifecycleResult.store result) <> None
      /\ Store.closureDate (LifecycleResult.store result) = None
      /\ outsideLifecycle w' = outsideLifecycle w
      /\ auditLength w' = S (auditLength w).
Proof.
  intros store reason e w Hstatus. destruct w as [tk dr cfg lm ps q hp pub tsk].
  unfold LifecycleManager.activate, LifecycleManager.logAudit,
    bind, new_Date, Date_now, randomUUID, ret, modify, auditLength.
  rewrite Hstatus. cbn.
  do 2 eexists. split; [reflexivity|]. cbn. repeat split.
  - destruct (Store.activationDate store); discriminate.
  - rewrite length_app. simpl. lia.
Qed.

Lemma deactivate_active :
  forall store reason e w,
    Store.status store = SActive ->
    exists result w',
      LifecycleManager.deactivate store reason e w = (Ok result, w')
      /\ LifecycleResult.success result = true
      /\ deactivatedFrom (Store.storeCode store, store) (LifecycleResult.store result)
      /\ outsideLifecycle w' = outsideLifecycle w
      /\ auditLength w' = S (auditLength w).
Proof.
  intros store reason e w Hstatus. destruct w as [tk dr cfg lm ps q hp pub tsk].
  unfold LifecycleManager.deactivate, LifecycleManager.logAudit,
    bind, new_Date, Date_now, randomUUID, ret, modify, auditLength, deactivatedFrom.
  rewrite Hstatus. cbn.
  do 2 eexists. split; [reflexivity|]. cbn. repeat split.
  - discriminate.
  - rewrite length_app. simpl. lia.
Qed.

Lemma importLoop_classifies :
  forall existingStores importedData created updated e w,
    exists newCreated newUpdated w',
      LifecycleManager.importLoop existingStores importedData created updated e w
      = (Ok ((created ++ newCreated)%list, (updated ++ newUpdated)%list), w')
      /\ Forall2 createdFrom (List.filter (isNew existingStores) importedData) newCreated
      /\ Forall2 (fun data s =>
                    exists existing,
                      JsMap.get existingStores (ImportRow.storeCode data) = Some existing
                      /\ updatedFrom existing data s)
           (List.filter (isChanged existingStores) importedData) newUpdated
      /\ outsideLifecycle w' = outsideLifecycle w
      /\ auditLength w'
         = (auditLength w + 2 * List.length newCreated + List.length newUpdated)%nat.
Proof.
  intros existingStores importedData.
  induction importedData as [|data rest IH]; intros created updated e w.
  - exists [], [], w. simpl. unfold ret. rewrite !app_nil_r.
    repeat split; try constructor. lia.
  - cbn [LifecycleManager.importLoop List.filter]. unfold isNew at 1, isChanged at 1.
    unfold JsMap.has.
    destruct (JsMap.get existingStores (ImportRow.storeCode data)) as [existing|] eqn:Hget.
    + cbn [negb]. destruct (LifecycleManager.differs existing data) eqn:Hdiff.
      * unfold bind at 1. rewrite new_Date_run. cbv beta iota.
        unfold bind at 1.
        match goal with
        | |- context [LifecycleManager.logAudit ?a ?i ?p ?s e ?w0] =>
            destruct (logAudit_effect a i p s e w0) as [w1 [-> [Hout1 Hlen1]]];
            destruct (IH created (updated ++ [s])%list e w1)
              as [newCreated [newUpdated [w' [Hrun [Hc [Hu [Hout Hlen]]]]]]];
            exists newCreated, (s :: newUpdated), w'
        end.
        rewrite <- app_assoc in Hrun. split; [exact Hrun|].
        split; [exact Hc|]. split.
        -- constructor; [|exact Hu]. exists existing. split; [exact Hget|].
           unfold updatedFrom. repeat split.
        -- split; [rewrite Hout, Hout1; destruct w as [tk dr cfg lm ps q hp pub tsk]; reflexivity|].
           rewrite Hlen, Hlen1. destruct w as [tk dr cfg lm ps q hp pub tsk]. unfold auditLength. simpl. lia.
      * destruct (IH created updated e w)
          as [newCreated [newUpdated [w' [Hrun [Hc [Hu [Hout Hlen]]]]]]].
        exists newCreated, newUpdated, w'. repeat split; assumption.
    + cbn [negb]. unfold bind at 1.
      destruct (createStore_effect data e w)
        as [store [w1 [-> [Hcode [Hname [Haddr [Hmq [Hstatus [_ [_ [Hout1 Hlen1]]]]]]]]]]].
      unfold bind at 1.
      destruct (activate_pending store (Some "Importazione iniziale") e w1 Hstatus)
        as [result [w2 [-> [-> [Hc2 [Hn2 [Ha2 [Hm2 [Hs2 [Had2 [Hcl2 [Hout2 Hlen2]]]]]]]]]]]].
      destruct (IH (created ++ [LifecycleResult.store result])%list updated e w2)
        as [newCreated [newUpdated [w' [Hrun [Hc [Hu [Hout Hlen]]]]]]].
      exists (LifecycleResult.store result :: newCreated), newUpdated, w'.
      rewrite <- app_assoc in Hrun. split; [exact Hrun|]. split.
      * constructor; [|exact Hc]. unfold createdFrom.
        repeat split; try congruence; assumption.
      * split; [exact Hu|]. split; [congruence|].
        rewrite Hlen, Hlen2, Hlen1. simpl. lia.
Qed.

Lemma absentLoop_classifies :
  forall importedData entries deactivated e w,
    exists newDeactivated w',
      LifecycleManager.absentLoop entries (List.map ImportRow.storeCode importedData)
        deactivated e w
      = (Ok (deactivated ++ newDeactivated)%list, w')
      /\ Forall2 deactivatedFrom (List.filter (isAbsentActive importedData) entries)
           newDeactivated
      /\ outsideLifecycle w' = outsideLifecycle w
      /\ auditLength w' = (auditLength w + List.length newDeactivated)%nat.
Proof.
  intros importedData entries.
  induction entries as [|[code store] rest IH]; intros deactivated e w.
  - exists [], w. simpl. unfold ret. rewrite app_nil_r. repeat split; try constructor. lia.
  - cbn [LifecycleManager.absentLoop List.filter]. unfold isAbsentActive at 1.
    cbn [fst snd].
    destruct (negb (existsb (String.eqb code) (List.map ImportRow.storeCode importedData))
              && StoreStatus_eqb (Store.status store) SActive) eqn:Htest.
    + apply Bool.andb_true_iff in Htest. destruct Htest as [_ Hactive].
      assert (Hstatus : Store.status store = SActive)
        by (destruct (Store.status store); (reflexivity || discriminate)).
      unfold bind at 1.
      destruct (deactivate_active store (Some "Non presente nell'ultima importazione")
                  e w Hstatus) as [result [w1 [-> [-> [Hfrom [Hout1 Hlen1]]]]]].
      destruct (IH (deactivated ++ [LifecycleResult.store result])%list e w1)
        as [newDeactivated [w' [Hrun [Hd [Hout Hlen]]]]].
      exists (LifecycleResult.store result :: newDeactivated), w'.
      rewrite <- app_assoc in Hrun. split; [exact Hrun|]. split.
      * constructor; [exact Hfrom | exact Hd].
      * split; [congruence|]. rewrite Hlen, Hlen1. simpl. lia.
    + destruct (IH deactivated e w) as [newDeactivated [w' [Hrun [Hd [Hout Hlen]]]]].
      exists newDeactivated, w'. repeat split; assumption.
Qed.

(** X12. processBulkUpdate always returns, and sorts the rows and the stores
    into three lists.  [created] holds, in the order of the rows, one store
    for each row whose code is not a key of the existing stores: the fields of
    the row, active, with an activation date and no closure date.  [updated]
    holds one store for each row whose code is a key and whose name, address
    or floor area differs from the store under it.  [deactivated] holds, in
    the order of the map, each active store whose key is the code of no row,
    now inactive with a closure date.  A row that equals its store, and a
    store that is not active, are on no list.  The audit log grows by two
    entries for each created store and one for each updated or deactivated
    store, and nothing outside the lifecycle manager changes. *)
Theorem processBulkUpdate_classifies :
  forall existingStores importedData e w,
    exists changes w',
      LifecycleManager.processBulkUpdate existingStores importedData e w = (Ok changes, w')
      /\ Forall2 createdFrom (List.filter (isNew existingStores) importedData)
           (BulkUpdate.created changes)
      /\ Forall2 (fun data s =>
                    exists existing,
                      JsMap.get existingStores (ImportRow.storeCode data) = Some existing
                      /\ updatedFrom existing data s)
           (List.filter (isChanged existingStores) importedData)
           (BulkUpdate.updated changes)
      /\ Forall2 deactivatedFrom (List.filter (isAbsentActive importedData) existingStores)
           (BulkUpdate.deactivated changes)
      /\ outsideLifecycle w' = outsideLifecycle w
      /\ auditLength w'
         = (auditLength w + 2 * List.length (BulkUpdate.created changes)
            + List.length (BulkUpdate.updated changes)
            + List.length (BulkUpdate.deactivated changes))%nat.
Proof.
  intros existingStores importedData e w. unfold LifecycleManager.processBulkUpdate.
  destruct (importLoop_classifies existingStores importedData [] [] e w)
    as [created [updated [w1 [Hrun1 [Hc [Hu [Hout1 Hlen1]]]]]]].
  unfold bind at 1. rewrite Hrun1.
  destruct (absentLoop_classifies importedData existingStores [] e w1)
    as [deactivated [w2 [Hrun2 [Hd [Hout2 Hlen2]]]]].
  unfold bind at 1. rewrite Hrun2.
  do 2 eexists. split; [reflexivity|].
  cbn [BulkUpdate.created BulkUpdate.updated BulkUpdate.deactivated fst snd app].
  split; [exact Hc|]. split; [exact Hu|]. split; [exact Hd|].
  split; [congruence|]. rewrite Hlen2, Hlen1. lia.
Qed.

(* ========================================================================= *)
(** * Further properties of the policy service *)
(* ========================================================================= *)

Lemma get_of_entry :
  forall (V : Type) (m : JsMap.t V) k v,
    NoDup (JsMap.keys m) -> In (k, v) m -> JsMap.get m k = Some v.
Proof.
  intros V m k v. induction m as [|[k0 v0] r IH]; simpl; [intros _ []|].
  intros Hnd Hin. inversion Hnd as [|x l Hx Hl]; subst.
  destruct Hin as [Heq | Hin].
  - injection Heq as -> ->. rewrite String.eqb_refl. reflexivity.
  - destruct (String.eqb k0 k) eqn:Hk.
    + apply String.eqb_eq in Hk. subst k0. exfalso. apply Hx.
      apply in_map_iff. exists (k, v). split; [reflexivity | exact Hin].
    + apply IH; assumption.
Qed.

Lemma entry_of_get :
  forall (V : Type) (m : JsMap.t V) k v, JsMap.get m k = Some v -> In (k, v) m.
Proof.
  intros V m k v. induction m as [|[k0 v0] r IH]; simpl; [discriminate|].
  destruct (String.eqb k0 k) eqn:Hk.
  - apply String.eqb_eq in Hk. subst k0. intros H. injection H as ->. left. reflexivity.
  - intros H. right. apply IH. exact H.
Qed.

Lemma wellKeyed_set :
  forall policies policy,
    wellKeyed policies ->
    wellKeyed (JsMap.set policies (Policy.policyId policy) policy).
Proof.
  intros policies policy [Hnd Hkeys]. split.
  - rewrite keys_set. apply addKey_spec. exact Hnd.
  - apply Forall_forall. intros entry Hin. apply set_entries in Hin.
    destruct Hin as [-> | Hin]; [reflexivity|].
    rewrite Forall_forall in Hkeys. apply Hkeys. exact Hin.
Qed.

Lemma find_In :
  forall (A : Type) (p : A -> bool) (l : list A) x,
    List.find p l = Some x -> In x l /\ p x = true.
Proof.
  intros A p l x. induction l as [|y r IH]; simpl; [discriminate|].
  destruct (p y) eqn:Hy.
  - intros H. injection H as ->. split; [left; reflexivity | exact Hy].
  - intros H. destruct (IH H) as [Hin Hx]. split; [right; exact Hin | exact Hx].
Qed.

(** What the operations of the service do to the policy map. *)
Lemma createPolicy_policies :
  forall input e w,
    policiesOf (snd (PolicyService.createPolicy input e w)) = policiesOf w
    \/ exists policy,
         policiesOf (snd (PolicyService.createPolicy input e w))
         = JsMap.set (policiesOf w) (Policy.policyId policy) policy.
Proof.
  intros input e w. destruct w as [tk dr cfg lm ps q hp pub tsk].
  unfold PolicyService.createPolicy, PricingEngine.calculate, PricingEngine.orNow,
    PolicyService.storePolicy, new_Date, Date_now, bind, ret, gets, asks, liftResult,
    modify, policiesOf.
  destruct (CreatePolicyInput.effectiveFrom input); cbn;
    match goal with
    | |- context [PricingEngine.calculateAt ?c ?s ?t ?d] =>
        destruct (PricingEngine.calculateAt c s t d)
    end; cbn -[JsMap.set]; try (left; reflexivity);
    right; eexists (Policy.mk _ _ _ _ _ _ _ _ _ _); reflexivity.
Qed.

Lemma cancelPolicy_policies :
  forall policyId reason e w,
    wellKeyed (policiesOf w) ->
    policiesOf (snd (PolicyService.cancelPolicy policyId reason e w)) = policiesOf w
    \/ exists policy,
         policiesOf (snd (PolicyService.cancelPolicy policyId reason e w))
         = JsMap.set (policiesOf w) (Policy.policyId policy) policy.
Proof.
  intros policyId reason e w [Hnd Hkeys]. destruct w as [tk dr cfg lm ps q hp pub tsk].
  unfold PolicyService.cancelPolicy, PolicyService.getPolicy, new_Date, Date_now, bind,
    ret, gets, modify, throw, policiesOf in *. cbn in *.
  destruct (JsMap.get (PolicyState.policies ps) policyId) as [policy|] eqn:Hget;
    [|left; reflexivity].
  destruct (PolicyStatus_eqb (Policy.status policy) PCancelled); [left; reflexivity|].
  cbn -[JsMap.set]. right.
  apply entry_of_get in Hget. rewrite Forall_forall in Hkeys.
  specialize (Hkeys _ Hget). cbn in Hkeys.
  eexists (Policy.mk _ _ _ _ _ _ _ _ _ _). cbn -[JsMap.set]. rewrite Hkeys. reflexivity.
Qed.

Lemma updatePolicyPricing_policies :
  forall policyId store e w,
    wellKeyed (policiesOf w) ->
    policiesOf (snd (PolicyService.updatePolicyPricing policyId store e w)) = policiesOf w
    \/ exists policy,
         policiesOf (snd (PolicyService.updatePolicyPricing policyId store e w))
         = JsMap.set (policiesOf w) (Policy.policyId policy) policy.
Proof.
  intros policyId store e w [Hnd Hkeys]. destruct w as [tk dr cfg lm ps q hp pub tsk].
  unfold PolicyService.updatePolicyPricing, PolicyService.getPolicy,
    PricingEngine.calculate, PricingEngine.orNow, new_Date, Date_now, bind,
    ret, gets, modify, throw, liftResult, policiesOf in *. cbn in *.
  destruct (JsMap.get (PolicyState.policies ps) policyId) as [policy|] eqn:Hget;
    [|left; reflexivity].
  cbn.
  match goal with
  | |- context [PricingEngine.calculateAt ?c ?s ?t ?d] =>
      destruct (PricingEngine.calculateAt c s t d)
  end; cbn -[JsMap.set]; [|left; reflexivity].
  right. apply entry_of_get in Hget. rewrite Forall_forall in Hkeys.
  specialize (Hkeys _ Hget). cbn in Hkeys.
  eexists (Policy.mk _ _ _ _ _ _ _ _ _ _). cbn -[JsMap.set]. rewrite Hkeys. reflexivity.
Qed.

(** X13. The policy map keeps each policy once and under its own id:
    createPolicy, cancelPolicy, updatePolicyPricing, generateCertificate,
    clearSessionData and initSession all preserve this, whether they return
    or throw.  In such a map the policy that getActivePolicy finds for a store
    code is an active policy of that store which getPolicy returns under its
    id, so cancelling it by that id, as the import queue does for a
    deactivated store, succeeds. *)
Theorem policy_map_keeps_policies_under_their_ids :
  forall e w,
    wellKeyed (policiesOf w) ->
    (forall input, wellKeyed (policiesOf (snd (PolicyService.createPolicy input e w))))
    /\ (forall policyId reason,
          wellKeyed (policiesOf (snd (PolicyService.cancelPolicy policyId reason e w))))
    /\ (forall policyId store,
          wellKeyed (policiesOf
                       (snd (PolicyService.updatePolicyPricing policyId store e w))))
    /\ (forall policy,
          policiesOf (snd (PolicyService.generateCertificate policy e w)) = policiesOf w)
    /\ wellKeyed (policiesOf (snd (PolicyService.clearSessionData e w)))
    /\ (forall sessionId,
          wellKeyed (policiesOf (snd (PolicyService.initSession sessionId e w))))
    /\ (forall storeCode policy,
          fst (PolicyService.getActivePolicy storeCode e w) = Ok (Some policy) ->
          Policy.storeCode policy = storeCode
          /\ Policy.status policy = PActive
          /\ fst (PolicyService.getPolicy (Policy.policyId policy) e w) = Ok (Some policy)
          /\ forall reason,
             exists cancelled w',
               PolicyService.cancelPolicy (Policy.policyId policy) reason e w
               = (Ok cancelled, w')
               /\ Policy.status cancelled = PCancelled
               /\ Policy.policyId cancelled = Policy.policyId policy).
Proof.
  intros e w Hwell. split; [|split; [|split; [|split; [|split; [|split]]]]].
  - intros input. destruct (createPolicy_policies input e w) as [-> | [policy ->]];
      [exact Hwell | apply wellKeyed_set; exact Hwell].
  - intros policyId reason.
    destruct (cancelPolicy_policies policyId reason e w Hwell) as [-> | [policy ->]];
      [exact Hwell | apply wellKeyed_set; exact Hwell].
  - intros policyId store.
    destruct (updatePolicyPricing_policies policyId store e w Hwell)
      as [-> | [policy ->]]; [exact Hwell | apply wellKeyed_set; exact Hwell].
  - intros policy. destruct w as [tk dr cfg lm ps q hp pub tsk]. reflexivity.
  - destruct w as [tk dr cfg lm ps q hp pub tsk]. split; constructor.
  - intros sessionId. destruct w as [tk dr cfg lm ps q hp pub tsk].
    unfold PolicyService.initSession, bind, gets. cbn. destruct (LifecycleManager.sameSession _ sessionId); cbn;
      [exact Hwell | split; constructor].
  - intros storeCode policy Hfound.
    unfold PolicyService.getActivePolicy, gets in Hfound. cbn in Hfound.
    injection Hfound as Hfound. apply find_In in Hfound.
    destruct Hfound as [Hin Htest]. apply Bool.andb_true_iff in Htest.
    destruct Htest as [Hcode Hstatus]. apply String.eqb_eq in Hcode.
    assert (Hactive : Policy.status policy = PActive)
      by (destruct (Policy.status policy); (reflexivity || discriminate)).
    unfold JsMap.values in Hin. apply in_map_iff in Hin.
    destruct Hin as [[k p] [Hp Hentry]]. cbn in Hp. subst p.
    destruct Hwell as [Hnd Hkeys]. unfold policiesOf in *.
    pose proof Hentry as Hkey. rewrite Forall_forall in Hkeys. apply Hkeys in Hkey.
    cbn in Hkey. subst k.
    pose proof (get_of_entry _ _ _ _ Hnd Hentry) as Hget.
    split; [exact Hcode|]. split; [exact Hactive|].
    split; [unfold PolicyService.getPolicy, gets; cbn; rewrite Hget; reflexivity|].
    intros reason. unfold PolicyService.cancelPolicy, PolicyService.getPolicy, bind, gets.
    rewrite Hget. rewrite Hactive. cbn. do 2 eexists. split; [reflexivity|].
    split; reflexivity.
Qed.

(** A policy is created for a store and found again as its active policy. *)
Lemma policy_map_keeps_policies_under_their_ids_witness :
  let store := Sample.store "S1" "Uno" 100%float SActive None None in
  let w := snd (PolicyService.createPolicy (CreatePolicyInput.mk store catnat None None)
                  Sample.env Sample.world) in
  wellKeyed (policiesOf w)
  /\ exists policy cancelled w',
       fst (PolicyService.getActivePolicy "S1" Sample.env w) = Ok (Some policy)
       /\ PolicyService.cancelPolicy (Policy.policyId policy) None Sample.env w
          = (Ok cancelled, w')
       /\ Policy.status cancelled = PCancelled.
Proof.
  intros store w.
  assert (Hempty : wellKeyed (policiesOf Sample.world)) by (split; constructor).
  destruct (policy_map_keeps_policies_under_their_ids Sample.env Sample.world Hempty)
    as [Hcreate _].
  assert (Hwell : wellKeyed (policiesOf w)) by (apply Hcreate).
  split; [exact Hwell|].
  destruct (policy_map_keeps_policies_under_their_ids Sample.env w Hwell)
    as [_ [_ [_ [_ [_ [_ Hfound]]]]]].
  destruct (fst (PolicyService.getActivePolicy "S1" Sample.env w)) as [[policy|]|] eqn:Hget;
    try (vm_compute in Hget; discriminate).
  destruct (Hfound "S1" policy Hget) as [_ [_ [_ Hcancel]]].
  destruct (Hcancel None) as [cancelled [w' [Hrun [Hstatus _]]]].
  exists policy, cancelled, w'. repeat split; assumption.
Defined.

(** ** Cancelling and repricing *)

Lemma set_get_run :
  forall (V : Type) (m : JsMap.t V) k v k',
    JsMap.get (JsMap.set m k v) k' = if String.eqb k k' then Some v else JsMap.get m k'.
Proof.
  intros V m k v k'. destruct (String.eqb k k') eqn:Hk.
  - apply String.eqb_eq in Hk. subst k'. apply set_get_same.
  - apply set_get_other. intro Heq. subst k'. rewrite String.eqb_refl in Hk. discriminate.
Qed.

Lemma cancelPolicy_run :
  forall policyId reason e w,
    PolicyService.cancelPolicy policyId reason e w
    = match JsMap.get (policiesOf w) policyId with
      | None => (Throw ("Polizza non trovata: " ++ policyId), w)
      | Some policy =>
          if PolicyStatus_eqb (Policy.status policy) PCancelled
          then (Throw "La polizza è già stata annullata", w)
          else
            let cancelled := cancelledAt policy (Some (clock e (ticks w))) in
            (Ok cancelled,
             with_policies (JsMap.set (policiesOf w) policyId cancelled)
               (with_ticks (S (ticks w)) w))
      end.
Proof.
  intros policyId reason e w. destruct w as [ticks0 draws0 configs lm ps q h pub ts].
  unfold PolicyService.cancelPolicy, PolicyService.getPolicy, bind, gets, throw,
    new_Date, Date_now, ret, modify, policiesOf, with_policies, cancelledAt.
  cbn -[JsMap.set].
  destruct (JsMap.get (PolicyState.policies ps) policyId) as [policy|]; [|reflexivity].
  destruct (PolicyStatus_eqb (Policy.status policy) PCancelled); reflexivity.
Qed.

Lemma updatePolicyPricing_run :
  forall policyId store e w,
    PolicyService.updatePolicyPricing policyId store e w
    = match JsMap.get (policiesOf w) policyId with
      | None => (Throw ("Polizza non trovata: " ++ policyId), w)
      | Some policy =>
          match PricingEngine.calculateAt (pricingConfigs w) store
                  (Policy.coverageType policy) (Some (clock e (ticks w))) with
          | Throw message => (Throw message, with_ticks (S (ticks w)) w)
          | Ok pricing =>
              let updated := repricedAt policy pricing (Some (clock e (S (ticks w)))) in
              (Ok updated,
               with_policies (JsMap.set (policiesOf w) policyId updated)
                 (with_ticks (S (S (ticks w))) w))
          end
      end.
Proof.
  intros policyId store e w. destruct w as [ticks0 draws0 configs lm ps q h pub ts].
  unfold PolicyService.updatePolicyPricing, PolicyService.getPolicy,
    PricingEngine.calculate, PricingEngine.orNow, bind, gets, throw, liftResult,
    new_Date, Date_now, ret, modify, policiesOf, with_policies, repricedAt.
  cbn -[JsMap.set PricingEngine.calculateAt].
  destruct (JsMap.get (PolicyState.policies ps) policyId) as [policy|]; [|reflexivity].
  cbn -[JsMap.set PricingEngine.calculateAt].
  destruct (PricingEngine.calculateAt configs store (Policy.coverageType policy)
              (Some (clock e ticks0))); reflexivity.
Qed.

Lemma createPolicy_run :
  forall input e w,
    exists ticks1,
      match PolicyService.createPolicy input e w with
      | (Throw _, w') => w' = with_ticks ticks1 w
      | (Ok policy, w') =>
          Policy.status policy = PActive
          /\ Policy.storeCode policy = Store.storeCode (CreatePolicyInput.store input)
          /\ w' = with_policies (JsMap.set (policiesOf w) (Policy.policyId policy) policy)
                    (with_ticks ticks1 w)
      end.
Proof.
  intros input e w. destruct w as [ticks0 draws0 configs lm ps q h pub ts].
  unfold PolicyService.createPolicy, PricingEngine.calculate, PricingEngine.orNow,
    PolicyService.storePolicy, new_Date, Date_now, bind, ret, gets, asks, liftResult,
    modify, policiesOf, with_policies.
  destruct (CreatePolicyInput.effectiveFrom input); cbn -[JsMap.set PricingEngine.calculateAt];
    match goal with
    | |- context [PricingEngine.calculateAt ?c ?s ?t ?d] =>
        destruct (PricingEngine.calculateAt c s t d)
    end; cbn -[JsMap.set]; eexists; try reflexivity; repeat split.
Qed.

(** X14. cancelPolicy is final and touches one policy.  An unknown id
    throws the error that names it, and a policy that is already cancelled
    throws too, both without changing anything.  Otherwise the policy is
    stored again under the same id with the status cancelled and a new update
    time, all its other fields as they were; every other policy and every
    certificate is untouched; the reason that the caller gives makes no
    difference; and a second cancellation of the same id throws. *)
Theorem cancelPolicy_is_final :
  forall policyId reason e w,
    match JsMap.get (policiesOf w) policyId with
    | None =>
        PolicyService.cancelPolicy policyId reason e w
        = (Throw ("Polizza non trovata: " ++ policyId), w)
    | Some policy =>
        if PolicyStatus_eqb (Policy.status policy) PCancelled then
          PolicyService.cancelPolicy policyId reason e w
          = (Throw "La polizza è già stata annullata", w)
        else
          exists cancelled w',
            PolicyService.cancelPolicy policyId reason e w = (Ok cancelled, w')
            /\ Policy.status cancelled = PCancelled
            /\ Policy.updatedAt cancelled = Some (clock e (ticks w))
            /\ (Policy.policyId cancelled, Policy.storeCode cancelled,
                Policy.coverageType cancelled, Policy.insuredSum cancelled,
                Policy.premium cancelled, Policy.effectiveFrom cancelled,
                Policy.effectiveTo cancelled, Policy.createdAt cancelled)
               = (Policy.policyId policy, Policy.storeCode policy,
                  Policy.coverageType policy, Policy.insuredSum policy,
                  Policy.premium policy, Policy.effectiveFrom policy,
                  Policy.effectiveTo policy, Policy.createdAt policy)
            /\ (forall other,
                  JsMap.get (policiesOf w') other
                  = if String.eqb policyId other then Some cancelled
                    else JsMap.get (policiesOf w) other)
            /\ certificatesOf w' = certificatesOf w
            /\ (forall reason', PolicyService.cancelPolicy policyId reason' e w
                                = (Ok cancelled, w'))
            /\ forall reason' e',
                 PolicyService.cancelPolicy policyId reason' e' w'
                 = (Throw "La polizza è già stata annullata", w')
    end.
Proof.
  intros policyId reason e w.
  pose proof (cancelPolicy_run policyId) as Hrun.
  destruct (JsMap.get (policiesOf w) policyId) as [policy|] eqn:Hget.
  - destruct (PolicyStatus_eqb (Policy.status policy) PCancelled) eqn:Hstatus.
    + rewrite Hrun, Hget, Hstatus. reflexivity.
    + do 2 eexists. split; [rewrite Hrun, Hget, Hstatus; reflexivity|].
      split; [reflexivity|]. split; [reflexivity|]. split; [reflexivity|].
      split; [|split; [|split]].
      * intros other. destruct w as [tk dr cfg lm ps q hp pub tsk]. apply set_get_run.
      * destruct w as [tk dr cfg lm ps q hp pub tsk]. reflexivity.
      * intros reason'. rewrite Hrun, Hget, Hstatus. reflexivity.
      * intros reason' e'. rewrite Hrun.
        replace (JsMap.get (policiesOf _) policyId)
          with (Some (cancelledAt policy (Some (clock e (ticks w)))))
          by (destruct w as [tk dr cfg lm ps q hp pub tsk]; symmetry; apply set_get_same).
        reflexivity.
  - rewrite Hrun, Hget. reflexivity.
Qed.

(** X15. updatePolicyPricing reprices one policy as of the time of the call.
    An unknown id throws the error that names it and changes nothing.  For a
    known id the engine is asked for the coverage type of the policy and the
    store given, whatever the status of the policy and the code of the store:
    when it has no price the error is thrown and no policy changes; otherwise
    the policy is stored again under its id with the new insured sum and
    premium and a new update time, and with its id, store code, coverage
    type, period, status and creation date as they were, and no policy is
    added or removed. *)
Theorem updatePolicyPricing_keeps_the_policy :
  forall policyId store e w,
    match JsMap.get (policiesOf w) policyId with
    | None =>
        PolicyService.updatePolicyPricing policyId store e w
        = (Throw ("Polizza non trovata: " ++ policyId), w)
    | Some policy =>
        match PricingEngine.calculateAt (pricingConfigs w) store
                (Policy.coverageType policy) (Some (clock e (ticks w))) with
        | Throw message =>
            PolicyService.updatePolicyPricing policyId store e w
            = (Throw message, with_ticks (S (ticks w)) w)
        | Ok pricing =>
            exists updated w',
              PolicyService.updatePolicyPricing policyId store e w = (Ok updated, w')
              /\ Policy.premium updated = PricingResult.premium pricing
              /\ Policy.insuredSum updated = PricingResult.insuredSum pricing
              /\ (Policy.policyId updated, Policy.storeCode updated,
                  Policy.coverageType updated, Policy.effectiveFrom updated,
                  Policy.effectiveTo updated, Policy.status updated,
                  Policy.createdAt updated)
                 = (Policy.policyId policy, Policy.storeCode policy,
                    Policy.coverageType policy, Policy.effectiveFrom policy,
                    Policy.effectiveTo policy, Policy.status policy,
                    Policy.createdAt policy)
              /\ (forall other,
                    JsMap.get (policiesOf w') other
                    = if String.eqb policyId other then Some updated
                      else JsMap.get (policiesOf w) other)
              /\ JsMap.size (policiesOf w') = JsMap.size (policiesOf w)
        end
    end.
Proof.
  intros policyId store e w.
  pose proof (updatePolicyPricing_run policyId store e w) as Hrun.
  destruct (JsMap.get (policiesOf w) policyId) as [policy|] eqn:Hget; [|exact Hrun].
  destruct (PricingEngine.calculateAt (pricingConfigs w) store
              (Policy.coverageType policy) (Some (clock e (ticks w))))
    as [pricing|message]; [|exact Hrun].
  do 2 eexists. split; [exact Hrun|].
  split; [reflexivity|]. split; [reflexivity|]. split; [reflexivity|]. split.
  - intros other. destruct w as [tk dr cfg lm ps q hp pub tsk]. apply set_get_run.
  - destruct w as [tk dr cfg lm ps q hp pub tsk]. unfold with_policies, policiesOf in *.
    cbn -[JsMap.set JsMap.size] in *.
    rewrite set_size. unfold JsMap.has. rewrite Hget. reflexivity.
Qed.

(** ** Certificates and the portfolio *)

Lemma set_In_value :
  forall (V : Type) (m : JsMap.t V) k v, In v (JsMap.values (JsMap.set m k v)).
Proof.
  intros V m k v. induction m as [|[k0 v0] r IH]; simpl; [left; reflexivity|].
  destruct (String.eqb k0 k); simpl; [left; reflexivity | right; exact IH].
Qed.

(** X16. generateCertificate never throws and never looks the policy up: for
    any policy object it issues a certificate whose id holds the policy id
    and the time of issue, whose validity is the period of the policy and
    whose document is the PDF of the policy.  The certificate is then
    returned by getCertificate under its id and listed by
    getPolicyCertificates for the policy; the other certificates and all
    policies are untouched. *)
Theorem generateCertificate_round_trip :
  forall policy e w,
    exists certificate w',
      PolicyService.generateCertificate policy e w = (Ok certificate, w')
      /\ Certificate.certId certificate
         = "CERT-" ++ Policy.policyId policy ++ "-" ++ JS.showZ (clock e (S (ticks w)))
      /\ Certificate.policyId certificate = Policy.policyId policy
      /\ Certificate.validFrom certificate = Policy.effectiveFrom policy
      /\ Certificate.validTo certificate = Policy.effectiveTo policy
      /\ Certificate.issueDate certificate = Some (clock e (ticks w))
      /\ Certificate.documentUrl certificate
         = "/documents/certificates/" ++ Policy.policyId policy ++ ".pdf"
      /\ PolicyService.getCertificate (Certificate.certId certificate) e w'
         = (Ok (Some certificate), w')
      /\ (exists listed,
            PolicyService.getPolicyCertificates (Policy.policyId policy) e w'
            = (Ok listed, w')
            /\ In certificate listed
            /\ Forall (fun c => Certificate.policyId c = Policy.policyId policy) listed)
      /\ (forall other,
            other <> Certificate.certId certificate ->
            JsMap.get (certificatesOf w') other = JsMap.get (certificatesOf w) other)
      /\ policiesOf w' = policiesOf w.
Proof.
  intros policy e w. destruct w as [ticks0 draws0 configs lm ps q h pub ts].
  unfold PolicyService.generateCertificate, PolicyService.storeCertificate,
    PolicyService.getCertificate, PolicyService.getPolicyCertificates,
    bind, gets, new_Date, Date_now, ret, modify, certificatesOf, policiesOf.
  cbn -[JsMap.set String.append].
  do 2 eexists. split; [reflexivity|].
  cbn -[JsMap.set String.append].
  repeat (split; [reflexivity|]).
  split; [rewrite set_get_same; reflexivity|].
  split; [|split; [|reflexivity]].
  - eexists. split; [reflexivity|]. split.
    + apply filter_In. split; [apply set_In_value|].
      cbn. apply String.eqb_refl.
    + apply Forall_forall. intros c Hc. apply filter_In in Hc.
      destruct Hc as [_ Hc]. apply String.eqb_eq in Hc. exact Hc.
  - intros other Hother. apply set_get_other. intro Heq. apply Hother.
    symmetry. exact Heq.
Qed.

Lemma fold_addToSummary :
  forall policies active premium insured,
    fst (fst (List.fold_left PolicyService.addToSummary policies
                (active, premium, insured)))
    = (active + List.length (List.filter isActivePolicy policies))%nat.
Proof.
  induction policies as [|p rest IH]; intros active premium insured; simpl; [lia|].
  unfold isActivePolicy at 1.
  destruct (PolicyStatus_eqb (Policy.status p) PActive); simpl; rewrite IH; simpl; lia.
Qed.

Lemma fold_addToSummary_none :
  forall policies acc,
    List.filter isActivePolicy policies = [] ->
    List.fold_left PolicyService.addToSummary policies acc = acc.
Proof.
  induction policies as [|p rest IH]; intros [[active premium] insured]; simpl;
    [reflexivity|].
  unfold isActivePolicy at 1.
  destruct (PolicyStatus_eqb (Policy.status p) PActive); [discriminate|].
  intros H. apply IH. exact H.
Qed.

Lemma values_set_fresh :
  forall (V : Type) (m : JsMap.t V) k v,
    JsMap.has m k = false ->
    JsMap.values (JsMap.set m k v) = (JsMap.values m ++ [v])%list.
Proof.
  intros V m k v. unfold JsMap.has. induction m as [|[k0 v0] r IH]; simpl;
    [reflexivity|].
  destruct (String.eqb k0 k); [discriminate|].
  intros H. simpl. rewrite IH by exact H. reflexivity.
Qed.

Lemma values_set_replaced :
  forall (V : Type) (m : JsMap.t V) k old new,
    JsMap.get m k = Some old ->
    exists before after,
      JsMap.values m = (before ++ old :: after)%list
      /\ JsMap.values (JsMap.set m k new) = (before ++ new :: after)%list.
Proof.
  intros V m k old new. induction m as [|[k0 v0] r IH]; simpl; [discriminate|].
  destruct (String.eqb k0 k).
  - intros H. injection H as ->. exists [], (JsMap.values r). split; reflexivity.
  - intros H. destruct (IH H) as [before [after [H1 H2]]].
    exists (v0 :: before), after. simpl. rewrite H1, H2. split; reflexivity.
Qed.

(** X17. getPortfolioSummary counts every stored policy in totalPolicies and
    the policies whose status is active in activePolicies, which is never the
    larger number; with no active policy both totals are zero.  A successful
    cancelPolicy leaves totalPolicies as it was and lowers activePolicies by
    one when the policy was active; a successful createPolicy under an id
    that is not yet in the map raises both by one. *)
Theorem portfolio_counts_active_policies :
  forall e w,
    exists summary,
      PolicyService.getPortfolioSummary e w = (Ok summary, w)
      /\ PortfolioSummary.totalPolicies summary = JsMap.size (policiesOf w)
      /\ PortfolioSummary.activePolicies summary = activeCount w
      /\ (activeCount w <= JsMap.size (policiesOf w))%nat
      /\ (activeCount w = 0%nat ->
          PortfolioSummary.totalPremium summary = 0%float
          /\ PortfolioSummary.totalInsuredSum summary = 0%float)
      /\ (forall policyId reason policy cancelled w',
            JsMap.get (policiesOf w) policyId = Some policy ->
            PolicyService.cancelPolicy policyId reason e w = (Ok cancelled, w') ->
            JsMap.size (policiesOf w') = JsMap.size (policiesOf w)
            /\ (activeCount w' + (if isActivePolicy policy then 1 else 0))%nat
               = activeCount w)
      /\ (forall input policy w',
            PolicyService.createPolicy input e w = (Ok policy, w') ->
            JsMap.has (policiesOf w) (Policy.policyId policy) = false ->
            JsMap.size (policiesOf w') = S (JsMap.size (policiesOf w))
            /\ activeCount w' = S (activeCount w)).
Proof.
  intros e w.
  assert (Hrun : exists summary,
            PolicyService.getPortfolioSummary e w = (Ok summary, w)
            /\ PortfolioSummary.totalPolicies summary = JsMap.size (policiesOf w)
            /\ PortfolioSummary.activePolicies summary = activeCount w
            /\ (activeCount w = 0%nat ->
                PortfolioSummary.totalPremium summary = 0%float
                /\ PortfolioSummary.totalInsuredSum summary = 0%float)).
  { unfold PolicyService.getPortfolioSummary, gets, policiesOf, activeCount.
    pose proof (fold_addToSummary
                  (JsMap.values (PolicyState.policies (policyService w)))
                  O 0%float 0%float) as Hcount.
    pose proof (fold_addToSummary_none
                  (JsMap.values (PolicyState.policies (policyService w)))
                  (O, 0%float, 0%float)) as Hnone.
    destruct (List.fold_left PolicyService.addToSummary
                (JsMap.values (PolicyState.policies (policyService w)))
                (O, 0%float, 0%float)) as [[active premium] insured].
    cbn [fst snd] in *. eexists. split; [reflexivity|].
    cbn [PortfolioSummary.totalPolicies PortfolioSummary.activePolicies
         PortfolioSummary.totalPremium PortfolioSummary.totalInsuredSum].
    split; [unfold JsMap.size, JsMap.values; rewrite length_map; reflexivity|].
    split; [exact Hcount|].
    intros Hzero. unfold policiesOf in Hzero. apply length_zero_iff_nil in Hzero.
    specialize (Hnone Hzero). injection Hnone as _ -> ->. split; reflexivity. }
  destruct Hrun as [summary [Hrun [Htotal [Hactive Hzero]]]].
  exists summary. split; [exact Hrun|]. split; [exact Htotal|]. split; [exact Hactive|].
  split; [|split; [exact Hzero|split]].
  - unfold activeCount, JsMap.size, JsMap.values.
    rewrite <- (length_map snd (policiesOf w)). apply filter_length_le.
  - intros policyId reason policy cancelled w' Hget Hcancel.
    rewrite cancelPolicy_run, Hget in Hcancel.
    destruct (PolicyStatus_eqb (Policy.status policy) PCancelled) eqn:Hstatus;
      [discriminate|].
    injection Hcancel as <- <-.
    assert (Hpolicies :
      policiesOf (with_policies
                    (JsMap.set (policiesOf w) policyId
                       (cancelledAt policy (Some (clock e (ticks w)))))
                    (with_ticks (S (ticks w)) w))
      = JsMap.set (policiesOf w) policyId (cancelledAt policy (Some (clock e (ticks w)))))
      by (destruct w as [tk dr cfg lm ps q hp pub tsk]; reflexivity).
    unfold activeCount. rewrite Hpolicies. split.
    + rewrite set_size. unfold JsMap.has. rewrite Hget. reflexivity.
    + destruct (values_set_replaced _ (policiesOf w) policyId policy
                  (cancelledAt policy (Some (clock e (ticks w)))) Hget)
        as [before [after [Hold Hnew]]].
      rewrite Hold, Hnew, !filter_app, !length_app. cbn [List.filter].
      unfold isActivePolicy at 2. cbn [cancelledAt Policy.status PolicyStatus_eqb].
      destruct (isActivePolicy policy); cbn [List.length]; lia.
  - intros input policy w' Hcreate Hfresh.
    destruct (createPolicy_run input e w) as [ticks1 Hshape].
    rewrite Hcreate in Hshape. destruct Hshape as [Hstatus [_ ->]].
    assert (Hpolicies :
      policiesOf (with_policies (JsMap.set (policiesOf w) (Policy.policyId policy) policy)
                    (with_ticks ticks1 w))
      = JsMap.set (policiesOf w) (Policy.policyId policy) policy)
      by (destruct w as [tk dr cfg lm ps q hp pub tsk]; reflexivity).
    unfold activeCount. rewrite Hpolicies. split.
    + rewrite set_size, Hfresh. reflexivity.
    + rewrite (values_set_fresh _ _ _ _ Hfresh), filter_app, length_app.
      cbn [List.filter]. unfold isActivePolicy at 2. rewrite Hstatus.
      cbn [PolicyStatus_eqb List.length]. lia.
Qed.

(** A policy is created and then cancelled in the sample world. *)
Lemma portfolio_counts_active_policies_witness :
  let store := Sample.store "S1" "Uno" 100%float SActive None None in
  let created := PolicyService.createPolicy (CreatePolicyInput.mk store catnat None None)
                   Sample.env Sample.world in
  exists policy summary,
    fst created = Ok policy
    /\ PolicyService.getPortfolioSummary Sample.env (snd created)
       = (Ok summary, snd created)
    /\ JsMap.size (policiesOf (snd created)) = 1%nat
    /\ activeCount (snd created) = 1%nat
    /\ PortfolioSummary.totalPremium summary = 500%float.
Proof.
  intros store created.
  destruct (portfolio_counts_active_policies Sample.env Sample.world)
    as [empty [_ [_ [_ [_ [_ [_ Hcreate]]]]]]].
  destruct created as [[policy|message] w'] eqn:Hcreated;
    [|vm_compute in Hcreated; discriminate].
  destruct (Hcreate _ policy w' Hcreated) as [Hsize Hcount]; [reflexivity|].
  destruct (portfolio_counts_active_policies Sample.env w') as [summary [Hrun _]].
  exists policy, summary. cbn [fst snd].
  split; [reflexivity|]. split; [exact Hrun|]. split; [exact Hsize|].
  split; [exact Hcount|].
  vm_compute in Hcreated. injection Hcreated as <- <-.
  vm_compute in Hrun. injection Hrun as <-. reflexivity.
Defined.

(** ** Sessions *)

(** X18. Session isolation of the policy service and of the lifecycle
    manager.  initSession with the id of the current session changes nothing.
    With any other id, and when no session is open, it empties the policies
    and the certificates, or the audit log, and adopts the new id: no policy
    of the earlier session is returned by getPolicy or getActivePolicy, and
    getAuditLog is empty.  Neither call touches the other services or the
    pricing configurations, which outlive the session. *)
Theorem initSession_isolates_sessions :
  forall sessionId e w,
    (LifecycleManager.sameSession
       (PolicyState.currentSessionId (policyService w)) sessionId = true ->
     PolicyService.initSession sessionId e w = (Ok tt, w))
    /\ (LifecycleManager.sameSession
          (PolicyState.currentSessionId (policyService w)) sessionId = false ->
        PolicyService.initSession sessionId e w
        = (Ok tt, with_policyService (PolicyState.mk [] [] (Some sessionId)) w)
        /\ forall key e',
             let w' := snd (PolicyService.initSession sessionId e w) in
             PolicyService.getPolicy key e' w' = (Ok None, w')
             /\ PolicyService.getActivePolicy key e' w' = (Ok None, w')
             /\ PolicyService.getCertificate key e' w' = (Ok None, w')
             /\ PolicyService.getStorePolicies key e' w' = (Ok [], w'))
    /\ (LifecycleManager.sameSession
          (LifecycleState.currentSessionId (lifecycleManager w)) sessionId = true ->
        LifecycleManager.initSession sessionId e w = (Ok tt, w))
    /\ (LifecycleManager.sameSession
          (LifecycleState.currentSessionId (lifecycleManager w)) sessionId = false ->
        LifecycleManager.initSession sessionId e w
        = (Ok tt, with_lifecycleManager (LifecycleState.mk [] (Some sessionId)) w)
        /\ forall key e',
             let w' := snd (LifecycleManager.initSession sessionId e w) in
             LifecycleManager.getAuditLog e' w' = (Ok [], w')
             /\ LifecycleManager.getStoreAuditLog key e' w' = (Ok [], w')).
Proof.
  intros sessionId e w. destruct w as [ticks0 draws0 configs lm ps q h pub ts].
  cbn [policyService lifecycleManager].
  split; [|split; [|split]].
  - intros Hsame. unfold PolicyService.initSession, bind, gets, ret.
    cbn [policyService]. rewrite Hsame. reflexivity.
  - intros Hother.
    assert (Hrun : PolicyService.initSession sessionId e
                     (mkWorld ticks0 draws0 configs lm ps q h pub ts)
                   = (Ok tt, with_policyService (PolicyState.mk [] [] (Some sessionId))
                               (mkWorld ticks0 draws0 configs lm ps q h pub ts))).
    { unfold PolicyService.initSession, PolicyService.clearSessionData, bind, gets, ret,
        modify. cbn [policyService]. rewrite Hother. reflexivity. }
    split; [exact Hrun|]. intros key e'. rewrite Hrun. cbv zeta. repeat split.
  - intros Hsame. unfold LifecycleManager.initSession, bind, gets, ret.
    cbn [lifecycleManager]. rewrite Hsame. reflexivity.
  - intros Hother.
    assert (Hrun : LifecycleManager.initSession sessionId e
                     (mkWorld ticks0 draws0 configs lm ps q h pub ts)
                   = (Ok tt, with_lifecycleManager (LifecycleState.mk [] (Some sessionId))
                               (mkWorld ticks0 draws0 configs lm ps q h pub ts))).
    { unfold LifecycleManager.initSession, LifecycleManager.clearSessionData, bind, gets,
        ret, modify. cbn [lifecycleManager]. rewrite Hother. reflexivity. }
    split; [exact Hrun|]. intros key e'. rewrite Hrun. cbv zeta. repeat split.
Qed.

(** A policy created in the session anna is gone in the session bruno. *)
Lemma initSession_isolates_sessions_witness :
  let store := Sample.store "S1" "Uno" 100%float SActive None None in
  let w1 := snd (PolicyService.initSession "anna" Sample.env Sample.world) in
  let w2 := snd (PolicyService.createPolicy (CreatePolicyInput.mk store catnat None None)
                   Sample.env w1) in
  let w3 := snd (PolicyService.initSession "bruno" Sample.env w2) in
  JsMap.size (policiesOf w2) = 1%nat
  /\ PolicyService.initSession "anna" Sample.env w2 = (Ok tt, w2)
  /\ PolicyService.getActivePolicy "S1" Sample.env w3 = (Ok None, w3).
Proof.
  intros store w1 w2 w3. split; [reflexivity|].
  destruct (initSession_isolates_sessions "anna" Sample.env w2) as [Hsame _].
  destruct (initSession_isolates_sessions "bruno" Sample.env w2) as [_ [Hother _]].
  split; [apply Hsame; reflexivity|].
  destruct (Hother eq_refl) as [_ Hgone].
  destruct (Hgone "S1" Sample.env) as [_ [Hactive _]]. exact Hactive.
Defined.

(* ========================================================================= *)
(** * Further properties of the import queue *)
(* ========================================================================= *)

(** ** What a computation keeps *)

Lemma Keeps_bind :
  forall A B C (part : World -> C) (m : M A) (k : A -> M B),
    Keeps part m -> (forall a, Keeps part (k a)) -> Keeps part (bind m k).
Proof.
  intros A B C part m k Hm Hk e w. unfold bind. specialize (Hm e w).
  destruct (m e w) as [[a|message] w1]; simpl in *; [|exact Hm].
  rewrite (Hk a e w1). exact Hm.
Qed.

Lemma Keeps_tryCatch :
  forall A C (part : World -> C) (m : M A) (h : string -> M A),
    Keeps part m -> (forall message, Keeps part (h message)) ->
    Keeps part (tryCatch m h).
Proof.
  intros A C part m h Hm Hh e w. unfold tryCatch. specialize (Hm e w).
  destruct (m e w) as [[a|message] w1]; simpl in *; [exact Hm|].
  rewrite (Hh message e w1). exact Hm.
Qed.

Lemma Keeps_deref :
  forall C (part : World -> C) r, Keeps part (ImportQueue.deref r).
Proof.
  intros C part r e w. unfold ImportQueue.deref.
  destruct (nth_error (heap w) r); reflexivity.
Qed.

Lemma Keeps_forEach :
  forall A C (part : World -> C) (l : list A) (f : A -> M unit),
    (forall a, Keeps part (f a)) -> Keeps part (forEach l f).
Proof.
  intros A C part l f Hf. induction l as [|a rest IH]; simpl.
  - intros e w. reflexivity.
  - apply Keeps_bind; [apply Hf | intros _; exact IH].
Qed.

Create HintDb keeps.

Ltac keeps :=
  repeat first
    [ solve [auto with keeps]
    | apply Keeps_deref
    | progress cbv zeta
    | apply Keeps_bind; [|intros ?]
    | apply Keeps_tryCatch; [|intros ?]
    | match goal with |- Keeps _ (match ?x with _ => _ end) => destruct x end
    | match goal with |- Keeps _ (if ?x then _ else _) => destruct x end
    | solve [intros ? [? ? ? ? ? ? ? ? ?]; reflexivity]
    | match goal with
      | |- Keeps ?part ?m => let m' := eval hnf in m in progress change (Keeps part m')
      end ].

Lemma processFile_keeps_jobs :
  forall f c u, Keeps jobsOf (FileProcessor.processFile f c u).
Proof. intros f c u. unfold FileProcessor.processFile. keeps. Qed.

#[local] Hint Resolve processFile_keeps_jobs : keeps.

Lemma processNext_keeps_jobs : Keeps jobsOf ImportQueue.processNext.
Proof. unfold ImportQueue.processNext. keeps. Qed.

(** ** enqueue, step by step *)

Lemma pruneOldJobs_run :
  forall e w, ImportQueue.pruneOldJobs e w = (Ok tt, prunedWorld e w).
Proof. intros e w. destruct w as [tk dr cfg lm ps q hp pub tsk]. reflexivity. Qed.

Lemma enqueue_prefix :
  forall filename content uploadedBy userRole e w,
    ImportQueue.isAuthorized userRole = true ->
    ImportQueue.enqueue filename content uploadedBy userRole e w
    = if (100 <=? JsMap.size (prunedJobs (clock e (ticks w)) w))%nat
      then (Throw limitMessage, prunedWorld e w)
      else (ImportQueue.processNext ;;;
            j' <- ImportQueue.deref (List.length (heap w)) ;;
            ret (ImportQueue.sanitizeJob j')) e
             (enqueued filename content uploadedBy e w).
Proof.
  intros filename content uploadedBy userRole e w Hauth.
  unfold ImportQueue.enqueue. rewrite Hauth. cbn [negb].
  etransitivity; [apply bind_ok; apply pruneOldJobs_run|].
  etransitivity; [apply bind_ok; reflexivity|].
  destruct w as [tk dr cfg lm ps q hp pub tsk].
  destruct q as [jobs queue proc subs stores sess].
  unfold prunedWorld, enqueued, newJob, newJobId.
  cbn [ticks draws heap pricingConfigs lifecycleManager policyService importQueue
       published tasks QueueState.subscribers QueueState.stores QueueState.queue
       QueueState.processing QueueState.jobs QueueState.currentSessionId
       with_ticks with_importQueue ImportQueue.with_jobs].
  unfold ImportQueue.MAX_JOBS_PER_SESSION.
  destruct (100 <=? JsMap.size _)%nat eqn:Hfull.
  - reflexivity.
  - do 6 (etransitivity; [apply bind_ok; reflexivity|]).
    etransitivity;
      [apply bind_ok; unfold ImportQueue.deref; cbn [heap with_importQueue with_heap];
       rewrite nth_error_last; reflexivity|].
    etransitivity; [apply bind_ok; reflexivity|].
    reflexivity.
Qed.

(** ** Pruning *)

Lemma delete_size :
  forall (V : Type) (m : JsMap.t V) k, (JsMap.size (JsMap.delete m k) <= JsMap.size m)%nat.
Proof.
  intros V m k. unfold JsMap.size. induction m as [|[k0 v0] r IH]; simpl; [lia|].
  destruct (String.eqb k0 k); simpl; lia.
Qed.

Lemma delete_get_other :
  forall (V : Type) (m : JsMap.t V) k k',
    k <> k' -> JsMap.get (JsMap.delete m k) k' = JsMap.get m k'.
Proof.
  intros V m k k' Hne. induction m as [|[k0 v0] r IH]; simpl; [reflexivity|].
  destruct (String.eqb k0 k) eqn:Hk; simpl.
  - apply String.eqb_eq in Hk. subst k0.
    destruct (String.eqb k k') eqn:Hk'; [|reflexivity].
    apply String.eqb_eq in Hk'. contradiction.
  - rewrite IH. reflexivity.
Qed.

Lemma get_none_of_keys :
  forall (V : Type) (m : JsMap.t V) k, ~ In k (JsMap.keys m) -> JsMap.get m k = None.
Proof.
  intros V m k. induction m as [|[k0 v0] r IH]; simpl; [reflexivity|].
  intros Hnot. destruct (String.eqb k0 k) eqn:Hk.
  - apply String.eqb_eq in Hk. subst k0. exfalso. apply Hnot. left. reflexivity.
  - apply IH. intro H. apply Hnot. right. exact H.
Qed.

Lemma delete_get_same :
  forall (V : Type) (m : JsMap.t V) k,
    NoDup (JsMap.keys m) -> JsMap.get (JsMap.delete m k) k = None.
Proof.
  intros V m k. induction m as [|[k0 v0] r IH]; simpl; [reflexivity|].
  intros Hnd. inversion Hnd as [|x l Hx Hl]; subst.
  destruct (String.eqb k0 k) eqn:Hk; simpl.
  - apply String.eqb_eq in Hk. subst k0. apply get_none_of_keys. exact Hx.
  - rewrite Hk. apply IH. exact Hl.
Qed.

Lemma delete_keys :
  forall (V : Type) (m : JsMap.t V) k x,
    In x (JsMap.keys (JsMap.delete m k)) -> In x (JsMap.keys m).
Proof.
  intros V m k x. induction m as [|[k0 v0] r IH]; simpl; [auto|].
  destruct (String.eqb k0 k); simpl; [auto|].
  intros [H | H]; [left; exact H | right; apply IH; exact H].
Qed.

Lemma delete_NoDup :
  forall (V : Type) (m : JsMap.t V) k,
    NoDup (JsMap.keys m) -> NoDup (JsMap.keys (JsMap.delete m k)).
Proof.
  intros V m k. induction m as [|[k0 v0] r IH]; simpl; [auto|].
  intros Hnd. inversion Hnd as [|x l Hx Hl]; subst.
  destruct (String.eqb k0 k); simpl; [exact Hl|].
  constructor; [|apply IH; exact Hl].
  intro H. apply Hx. eapply delete_keys. exact H.
Qed.

Section Pruning.

Variable now : Z.
Variable objects : list InternalJob.

Lemma pruneStep_cases :
  forall jobs entry,
    pruneStep now objects jobs entry
    = if drops now objects (snd entry) then JsMap.delete jobs (fst entry) else jobs.
Proof.
  intros jobs entry. unfold pruneStep, drops.
  destruct (nth_error objects (snd entry)); reflexivity.
Qed.

Lemma prune_size :
  forall entries jobs,
    (JsMap.size (List.fold_left (pruneStep now objects) entries jobs) <= JsMap.size jobs)%nat.
Proof.
  induction entries as [|entry rest IH]; intros jobs; simpl; [lia|].
  etransitivity; [apply IH|]. rewrite pruneStep_cases.
  destruct (drops now objects (snd entry)); [apply delete_size | lia].
Qed.

Lemma prune_get :
  forall entries jobs jobId,
    NoDup (JsMap.keys jobs) ->
    JsMap.get (List.fold_left (pruneStep now objects) entries jobs) jobId
    = if List.existsb (fun entry => String.eqb (fst entry) jobId && drops now objects (snd entry))
           entries
      then None else JsMap.get jobs jobId.
Proof.
  induction entries as [|entry rest IH]; intros jobs jobId Hnd; simpl; [reflexivity|].
  rewrite pruneStep_cases. destruct (drops now objects (snd entry)) eqn:Hdrop.
  - rewrite IH by (apply delete_NoDup; exact Hnd).
    destruct (String.eqb (fst entry) jobId) eqn:Hk; simpl.
    + apply String.eqb_eq in Hk. subst jobId.
      rewrite delete_get_same by exact Hnd.
      destruct (existsb _ rest); reflexivity.
    + rewrite delete_get_other; [reflexivity|].
      intro Heq. subst jobId. rewrite String.eqb_refl in Hk. discriminate.
  - rewrite Bool.andb_false_r. simpl. apply IH. exact Hnd.
Qed.

Lemma prune_own_entries :
  forall jobs jobId,
    NoDup (JsMap.keys jobs) ->
    List.existsb (fun entry => String.eqb (fst entry) jobId && drops now objects (snd entry)) jobs
    = match JsMap.get jobs jobId with
      | Some r => drops now objects r
      | None => false
      end.
Proof.
  induction jobs as [|[k0 r0] rest IH]; intros jobId Hnd; simpl; [reflexivity|].
  inversion Hnd as [|x l Hx Hl]; subst.
  destruct (String.eqb k0 jobId) eqn:Hk; simpl.
  - apply String.eqb_eq in Hk. subst k0.
    destruct (drops now objects r0); [reflexivity|]. simpl.
    rewrite IH by exact Hl. rewrite get_none_of_keys by exact Hx. reflexivity.
  - apply IH. exact Hl.
Qed.

End Pruning.

Lemma prunedJobs_fold :
  forall now w,
    prunedJobs now w = List.fold_left (pruneStep now (heap w)) (jobsOf w) (jobsOf w).
Proof. reflexivity. Qed.

(** X19. pruneOldJobs removes a job from the map exactly when its object is
    completed or failed and was created more than 24 hours (86400000 ms)
    before the reading of the clock; jobs that are queued or in processing,
    however old, and jobs of the last 24 hours stay under the same
    reference.  It adds nothing and touches neither the FIFO queue nor the
    job objects, the subscribers, the stores or the pending work. *)
Theorem pruneOldJobs_drops_only_old_finished_jobs :
  forall e w,
    NoDup (JsMap.keys (jobsOf w)) ->
    let now := clock e (ticks w) in
    exists w',
      ImportQueue.pruneOldJobs e w = (Ok tt, w')
      /\ (forall jobId,
            JsMap.get (jobsOf w') jobId
            = match JsMap.get (jobsOf w) jobId with
              | Some r =>
                  match nth_error (heap w) r with
                  | Some job => if ImportQueue.isOld now job then None else Some r
                  | None => Some r
                  end
              | None => None
              end)
      /\ (forall job,
            ImportQueue.isOld now job = true <->
            (Job.status job = completed \/ Job.status job = failed)
            /\ exists created,
                 Job.createdAt job = Some created /\ 86400000 < now - created)
      /\ (JsMap.size (jobsOf w') <= JsMap.size (jobsOf w))%nat
      /\ heap w' = heap w
      /\ QueueState.queue (importQueue w') = QueueState.queue (importQueue w)
      /\ QueueState.processing (importQueue w') = QueueState.processing (importQueue w)
      /\ QueueState.subscribers (importQueue w') = QueueState.subscribers (importQueue w)
      /\ business w' = business w
      /\ tasks w' = tasks w
      /\ published w' = published w.
Proof.
  intros e w Hnd now. exists (prunedWorld e w).
  split; [apply pruneOldJobs_run|]. split; [|split; [|split]].
  - intros jobId.
    replace (jobsOf (prunedWorld e w)) with (prunedJobs now w)
      by (destruct w as [tk dr cfg lm ps q hp pub tsk]; reflexivity).
    rewrite prunedJobs_fold, prune_get by exact Hnd.
    rewrite prune_own_entries by exact Hnd. unfold drops.
    destruct (JsMap.get (jobsOf w) jobId) as [r|]; [|reflexivity].
    destruct (nth_error (heap w) r) as [job|]; [|reflexivity].
    destruct (ImportQueue.isOld now job); reflexivity.
  - intros job. unfold ImportQueue.isOld, ImportQueue.retentionMs,
      ImportQueue.JOB_RETENTION_HOURS.
    change (24 * 60 * 60 * 1000) with 86400000. split.
    + intros H. apply Bool.andb_true_iff in H. destruct H as [Hstatus Hage].
      split.
      * destruct (Job.status job); simpl in Hstatus; try discriminate; auto.
      * destruct (Job.createdAt job) as [created|]; [|discriminate].
        exists created. split; [reflexivity|]. apply Z.ltb_lt. exact Hage.
    + intros [Hstatus [created [Hcreated Hage]]]. rewrite Hcreated.
      apply Bool.andb_true_iff. split.
      * destruct Hstatus as [-> | ->]; reflexivity.
      * apply Z.ltb_lt. exact Hage.
  - replace (jobsOf (prunedWorld e w)) with (prunedJobs now w)
      by (destruct w as [tk dr cfg lm ps q hp pub tsk]; reflexivity).
    rewrite prunedJobs_fold. apply prune_size.
  - destruct w as [tk dr cfg lm ps q hp pub tsk]. repeat split.
Qed.

(** A completed job of two days ago is pruned; a queued job of the same age
    is kept. *)
Lemma pruneOldJobs_drops_only_old_finished_jobs_witness :
  let created : JS.Date := Some (1750000000000 - 172800000) in
  let done := Job.mk "JOB-1" "a.csv" "anna" completed 100 None created None None None None in
  let waiting := Job.mk "JOB-2" "b.csv" "anna" queued 0 None created None None None
                   (Some "codice;mq") in
  let w := with_heap [done; waiting]
             (with_importQueue
                (QueueState.mk [("JOB-1", 0%nat); ("JOB-2", 1%nat)] ["JOB-2"] false [] [] None)
                Sample.world) in
  exists w',
    ImportQueue.pruneOldJobs Sample.env w = (Ok tt, w')
    /\ JsMap.get (jobsOf w') "JOB-1" = None
    /\ JsMap.get (jobsOf w') "JOB-2" = Some 1%nat.
Proof.
  intros created done waiting w.
  destruct (pruneOldJobs_drops_only_old_finished_jobs Sample.env w)
    as [w' [Hrun [Hget _]]].
  { repeat constructor; simpl; intuition discriminate. }
  exists w'. split; [exact Hrun|]. split; rewrite Hget; reflexivity.
Defined.

(** ** What processing keeps *)

Lemma processBulkUpdate_outside :
  forall existingStores importedData e w,
    outsideLifecycle (snd (LifecycleManager.processBulkUpdate existingStores importedData e w))
    = outsideLifecycle w.
Proof.
  intros existingStores importedData e w. unfold LifecycleManager.processBulkUpdate.
  destruct (importLoop_classifies existingStores importedData [] [] e w)
    as [created [updated [w1 [Hrun1 [_ [_ [Hout1 _]]]]]]].
  unfold bind at 1. rewrite Hrun1.
  destruct (absentLoop_classifies importedData existingStores [] e w1)
    as [deactivated [w2 [Hrun2 [_ [Hout2 _]]]]].
  unfold bind at 1. rewrite Hrun2. simpl. congruence.
Qed.

Lemma processBulkUpdate_keeps_jobs :
  forall existingStores importedData,
    Keeps jobsOf (LifecycleManager.processBulkUpdate existingStores importedData).
Proof.
  intros existingStores importedData e w.
  pose proof (processBulkUpdate_outside existingStores importedData e w) as H.
  unfold outsideLifecycle in H. unfold jobsOf. congruence.
Qed.

Lemma processBulkUpdate_keeps_contents :
  forall existingStores importedData,
    Keeps contentsOf (LifecycleManager.processBulkUpdate existingStores importedData).
Proof.
  intros existingStores importedData e w.
  pose proof (processBulkUpdate_outside existingStores importedData e w) as H.
  unfold outsideLifecycle in H. unfold contentsOf. congruence.
Qed.

Lemma Keeps_settle :
  forall A C (part : World -> C) (m : M A), Keeps part m -> Keeps part (ImportQueue.settle m).
Proof.
  intros A C part m Hm e w. unfold ImportQueue.settle. specialize (Hm e w).
  destruct (m e w) as [r w1]. exact Hm.
Qed.

Lemma updateAt_content :
  forall (f : InternalJob -> InternalJob) l n,
    (forall j, Job.content (f j) = Job.content j) ->
    List.map Job.content (ImportQueue.updateAt l n f) = List.map Job.content l.
Proof.
  intros f l. induction l as [|a r IH]; intros n Hf; simpl; [reflexivity|].
  destruct n; simpl; [rewrite Hf; reflexivity | rewrite IH by exact Hf; reflexivity].
Qed.

Lemma updJob_keeps_contents :
  forall r f,
    (forall j, Job.content (f j) = Job.content j) ->
    Keeps contentsOf (ImportQueue.updJob r f).
Proof.
  intros r f Hf e w. unfold ImportQueue.updJob, modify, contentsOf. simpl.
  apply updateAt_content. exact Hf.
Qed.

#[local] Hint Resolve processBulkUpdate_keeps_jobs processBulkUpdate_keeps_contents
  : keeps.
#[local] Hint Extern 1 (Keeps contentsOf (ImportQueue.updJob _ _)) =>
  apply updJob_keeps_contents; intros ?; reflexivity : keeps.

Ltac keeps_all :=
  repeat first
    [ apply Keeps_settle
    | apply Keeps_forEach; intros ?
    | progress keeps ].

Lemma applyImportChanges_keeps_jobs :
  forall rows, Keeps jobsOf (ImportQueue.applyImportChanges rows).
Proof. intros rows. unfold ImportQueue.applyImportChanges. keeps_all. Qed.

Lemma applyImportChanges_keeps_contents :
  forall rows, Keeps contentsOf (ImportQueue.applyImportChanges rows).
Proof. intros rows. unfold ImportQueue.applyImportChanges. keeps_all. Qed.

#[local] Hint Resolve applyImportChanges_keeps_jobs applyImportChanges_keeps_contents
  : keeps.

Lemma runTask_keeps_jobs : forall t, Keeps jobsOf (ImportQueue.runTask t).
Proof.
  intros [job jobId result | job jobId result outcome | jobId | ]; cbn [ImportQueue.runTask].
  - unfold ImportQueue.resumeAfterProcessFile. keeps_all.
  - unfold ImportQueue.resumeAfterApply. keeps_all.
  - unfold ImportQueue.clearContent. keeps_all.
  - apply processNext_keeps_jobs.
Qed.

(** ** The size of the job map *)

Lemma enqueue_tail_keeps_jobs :
  forall r,
    Keeps jobsOf (ImportQueue.processNext ;;;
                  j' <- ImportQueue.deref r ;; ret (ImportQueue.sanitizeJob j')).
Proof.
  intros r. apply Keeps_bind; [apply processNext_keeps_jobs | intros _]. keeps.
Qed.

Lemma enqueue_refused :
  forall filename content uploadedBy userRole e w,
    ImportQueue.isAuthorized userRole = false ->
    ImportQueue.enqueue filename content uploadedBy userRole e w
    = (Throw "Accesso negato: solo admin, broker possono eseguire importazioni", w).
Proof.
  intros filename content uploadedBy userRole e w Hauth.
  unfold ImportQueue.enqueue. rewrite Hauth. reflexivity.
Qed.

Lemma enqueue_jobs :
  forall filename content uploadedBy userRole e w,
    jobsOf (snd (ImportQueue.enqueue filename content uploadedBy userRole e w))
    = if ImportQueue.isAuthorized userRole then
        if (100 <=? JsMap.size (prunedJobs (clock e (ticks w)) w))%nat
        then prunedJobs (clock e (ticks w)) w
        else JsMap.set (prunedJobs (clock e (ticks w)) w) (newJobId e w)
               (List.length (heap w))
      else jobsOf w.
Proof.
  intros filename content uploadedBy userRole e w.
  destruct (ImportQueue.isAuthorized userRole) eqn:Hauth.
  - rewrite enqueue_prefix by exact Hauth.
    destruct (100 <=? JsMap.size (prunedJobs (clock e (ticks w)) w))%nat.
    + destruct w as [tk dr cfg lm ps q hp pub tsk]. reflexivity.
    + rewrite enqueue_tail_keeps_jobs. destruct w as [tk dr cfg lm ps q hp pub tsk].
      reflexivity.
  - rewrite enqueue_refused by exact Hauth. reflexivity.
Qed.

Lemma deleteJob_run :
  forall jobId userRole e w,
    ImportQueue.deleteJob jobId userRole e w
    = if negb (ImportQueue.isAuthorized userRole) then
        (Throw "Accesso negato: permessi insufficienti per eliminare job", w)
      else
        match JsMap.get (jobsOf w) jobId with
        | None => (Ok false, w)
        | Some r =>
            match nth_error (heap w) r with
            | None => (Throw "Cannot read properties of undefined", w)
            | Some job =>
                if JobStatus_eqb (Job.status job) processing then
                  (Throw "Impossibile eliminare un job in elaborazione", w)
                else
                  (Ok true,
                   with_importQueue
                     (ImportQueue.with_jobs (JsMap.delete (jobsOf w) jobId)
                        (importQueue w)) w)
            end
        end.
Proof.
  intros jobId userRole e w. destruct w as [tk dr cfg lm ps q hp pub tsk].
  unfold ImportQueue.deleteJob, jobsOf.
  destruct (negb (ImportQueue.isAuthorized userRole)); [reflexivity|].
  unfold bind at 1. unfold gets at 1. cbn [importQueue heap].
  destruct (JsMap.get (QueueState.jobs q) jobId) as [r|]; [|reflexivity].
  unfold bind at 1. unfold ImportQueue.deref at 1. cbn [heap].
  destruct (nth_error hp r) as [job|]; [|reflexivity].
  destruct (JobStatus_eqb (Job.status job) processing); reflexivity.
Qed.

Lemma deleteJob_jobs :
  forall jobId userRole e w,
    jobsOf (snd (ImportQueue.deleteJob jobId userRole e w)) = jobsOf w
    \/ jobsOf (snd (ImportQueue.deleteJob jobId userRole e w))
       = JsMap.delete (jobsOf w) jobId.
Proof.
  intros jobId userRole e w. rewrite deleteJob_run.
  destruct (negb (ImportQueue.isAuthorized userRole)); [left; reflexivity|].
  destruct (JsMap.get (jobsOf w) jobId) as [r|]; [|left; reflexivity].
  destruct (nth_error (heap w) r) as [job|]; [|left; reflexivity].
  destruct (JobStatus_eqb (Job.status job) processing); [left; reflexivity|].
  right. destruct w as [tk dr cfg lm ps q hp pub tsk]. reflexivity.
Qed.

(** X20. The job map never outgrows the limit of 100 jobs of a session.
    If it holds at most 100 jobs, it still does after enqueue, whatever the
    arguments and the outcome, after deleteJob and after any piece of pending
    work of the queue; pending work, processNext included, does not add or
    remove jobs at all.  An authorized enqueue that finds 100 jobs left after
    pruning throws the error of the limit: the new job is not stored, queued,
    announced or given an object. *)
Theorem job_map_stays_within_limit :
  forall e w,
    (JsMap.size (jobsOf w) <= 100)%nat ->
    (forall filename content uploadedBy userRole,
       (JsMap.size (jobsOf (snd (ImportQueue.enqueue filename content uploadedBy
                                   userRole e w))) <= 100)%nat)
    /\ (forall jobId userRole,
          (JsMap.size (jobsOf (snd (ImportQueue.deleteJob jobId userRole e w)))
           <= JsMap.size (jobsOf w))%nat)
    /\ (forall t, jobsOf (snd (ImportQueue.runTask t e w)) = jobsOf w)
    /\ (forall filename content uploadedBy userRole,
          ImportQueue.isAuthorized userRole = true ->
          (100 <= JsMap.size (prunedJobs (clock e (ticks w)) w))%nat ->
          exists w',
            ImportQueue.enqueue filename content uploadedBy userRole e w
            = (Throw limitMessage, w')
            /\ jobsOf w' = prunedJobs (clock e (ticks w)) w
            /\ heap w' = heap w
            /\ QueueState.queue (importQueue w') = QueueState.queue (importQueue w)
            /\ published w' = published w
            /\ tasks w' = tasks w).
Proof.
  intros e w Hsize.
  assert (Hpruned : (JsMap.size (prunedJobs (clock e (ticks w)) w) <= 100)%nat).
  { rewrite prunedJobs_fold. etransitivity; [apply prune_size | exact Hsize]. }
  split; [|split; [|split]].
  - intros filename content uploadedBy userRole. rewrite enqueue_jobs.
    destruct (ImportQueue.isAuthorized userRole); [|exact Hsize].
    destruct (100 <=? JsMap.size (prunedJobs (clock e (ticks w)) w))%nat eqn:Hfull;
      [exact Hpruned|].
    apply Nat.leb_gt in Hfull. rewrite set_size.
    destruct (JsMap.has _ _); lia.
  - intros jobId userRole.
    destruct (deleteJob_jobs jobId userRole e w) as [-> | ->];
      [lia | apply delete_size].
  - intros t. apply runTask_keeps_jobs.
  - intros filename content uploadedBy userRole Hauth Hfull.
    apply Nat.leb_le in Hfull. rewrite enqueue_prefix by exact Hauth. rewrite Hfull.
    exists (prunedWorld e w). split; [reflexivity|].
    destruct w as [tk dr cfg lm ps q hp pub tsk]. repeat split.
Qed.

(** The sample world holds no job: an enqueue leaves one. *)
Lemma job_map_stays_within_limit_witness :
  (JsMap.size (jobsOf Sample.world) <= 100)%nat
  /\ (JsMap.size (jobsOf (snd (ImportQueue.enqueue "stores.csv" Sample.csvValid "anna"
                                 admin Sample.env Sample.world))) <= 100)%nat.
Proof.
  assert (Hsize : (JsMap.size (jobsOf Sample.world) <= 100)%nat) by (simpl; lia).
  split; [exact Hsize|].
  destruct (job_map_stays_within_limit Sample.env Sample.world Hsize) as [Henqueue _].
  apply Henqueue.
Defined.

(** ** Deleting a job *)

Lemma getJob_missing :
  forall jobId e w,
    JsMap.get (jobsOf w) jobId = None -> ImportQueue.getJob jobId e w = (Ok None, w).
Proof.
  intros jobId e w Hget. destruct w as [tk dr cfg lm ps q hp pub tsk].
  unfold ImportQueue.getJob, bind, gets. unfold jobsOf in Hget. cbn [importQueue] in *.
  rewrite Hget. reflexivity.
Qed.

(** X21. deleteJob, for a role that may import: an unknown id gives false, a
    job in processing is refused with an error, and in both cases, as for a
    role that may not import, nothing changes.  Any other job is removed from
    the job map, so that getJob no longer finds it, and true is returned; the
    other jobs stay as they were, and so do the job objects, the publications
    and the pending work.  The waiting list is not touched either: the id of
    a deleted job that was still queued stays in it. *)
Theorem deleteJob_outcomes :
  forall jobId userRole e w,
    NoDup (JsMap.keys (jobsOf w)) ->
    forall r w',
      ImportQueue.deleteJob jobId userRole e w = (r, w') ->
      match r with
      | Ok true =>
          ImportQueue.isAuthorized userRole = true
          /\ (exists job, jobOf w jobId = Some job /\ Job.status job <> processing)
          /\ ImportQueue.getJob jobId e w' = (Ok None, w')
          /\ (forall other, other <> jobId ->
                JsMap.get (jobsOf w') other = JsMap.get (jobsOf w) other)
          /\ QueueState.queue (importQueue w') = QueueState.queue (importQueue w)
          /\ QueueState.processing (importQueue w')
             = QueueState.processing (importQueue w)
          /\ heap w' = heap w /\ published w' = published w /\ tasks w' = tasks w
          /\ business w' = business w
      | Ok false =>
          w' = w /\ ImportQueue.isAuthorized userRole = true
          /\ JsMap.get (jobsOf w) jobId = None
      | Throw message =>
          w' = w
          /\ (ImportQueue.isAuthorized userRole = false
              \/ (exists job, jobOf w jobId = Some job /\ Job.status job = processing)
              \/ (JsMap.get (jobsOf w) jobId <> None /\ jobOf w jobId = None))
      end.
Proof.
  intros jobId userRole e w Hnd r w' Hrun. rewrite deleteJob_run in Hrun.
  unfold jobOf.
  destruct (ImportQueue.isAuthorized userRole) eqn:Hauth; cbn [negb] in Hrun.
  2:{ injection Hrun as <- <-. split; [reflexivity | left; reflexivity]. }
  destruct (JsMap.get (jobsOf w) jobId) as [ref|] eqn:Hget.
  2:{ injection Hrun as <- <-. repeat split; reflexivity. }
  destruct (nth_error (heap w) ref) as [job|] eqn:Hjob.
  2:{ injection Hrun as <- <-. split; [reflexivity|]. right. right.
      split; [discriminate | reflexivity]. }
  destruct (JobStatus_eqb (Job.status job) processing) eqn:Hstatus.
  - injection Hrun as <- <-. split; [reflexivity|]. right. left.
    exists job. split; [reflexivity|].
    destruct (Job.status job); try discriminate Hstatus. reflexivity.
  - injection Hrun as <- <-. split; [reflexivity|]. split.
    { exists job. split; [reflexivity|]. intro Hp. rewrite Hp in Hstatus.
      discriminate Hstatus. }
    split.
    { apply getJob_missing. destruct w as [tk dr cfg lm ps q hp pub tsk].
      unfold jobsOf in *. cbn [importQueue] in *. cbn. apply delete_get_same. exact Hnd. }
    split.
    { intros other Hother. destruct w as [tk dr cfg lm ps q hp pub tsk].
      unfold jobsOf. cbn. apply delete_get_other. intro Heq. apply Hother.
      symmetry. exact Heq. }
    destruct w as [tk dr cfg lm ps q hp pub tsk]. repeat split.
Qed.

(** In the scenario an admin deletes the waiting job: getJob no longer finds
    it, and its id is still in the waiting list. *)
Lemma deleteJob_outcomes_witness :
  exists w',
    ImportQueue.deleteJob Scenario.second admin Sample.env Scenario.twoJobs = (Ok true, w')
    /\ ImportQueue.getJob Scenario.second Sample.env w' = (Ok None, w')
    /\ QueueState.queue (importQueue w') = [Scenario.second].
Proof.
  assert (Hnd : NoDup (JsMap.keys (jobsOf Scenario.twoJobs))).
  { vm_compute. repeat constructor; simpl; intuition discriminate. }
  destruct (ImportQueue.deleteJob Scenario.second admin Sample.env Scenario.twoJobs)
    as [r w'] eqn:Hrun.
  pose proof (deleteJob_outcomes Scenario.second admin Sample.env Scenario.twoJobs Hnd
                r w' Hrun) as H.
  assert (Hr : r = Ok true).
  { apply (f_equal fst) in Hrun. vm_compute in Hrun. symmetry. exact Hrun. }
  subst r. exists w'. split; [reflexivity|].
  destruct H as (_ & _ & Hgone & _ & Hqueue & _).
  split; [exact Hgone | rewrite Hqueue; reflexivity].
Defined.

(** ** A queue that stops *)

Lemma processNext_busy :
  forall e w,
    QueueState.processing (importQueue w) = true ->
    ImportQueue.processNext e w = (Ok tt, w).
Proof.
  intros e w Hbusy. destruct w as [tk dr cfg lm ps q hp pub tsk].
  unfold ImportQueue.processNext, bind, gets. cbn [importQueue] in *.
  rewrite Hbusy. reflexivity.
Qed.

Lemma processNext_orphan :
  forall e w jobId rest,
    QueueState.processing (importQueue w) = false ->
    QueueState.queue (importQueue w) = jobId :: rest ->
    JsMap.get (jobsOf w) jobId = None ->
    ImportQueue.processNext e w
    = (Ok tt,
       with_importQueue
         (ImportQueue.with_queue rest
            (ImportQueue.with_processing true (importQueue w))) w).
Proof.
  intros e w jobId rest Hfree Hqueue Hget. destruct w as [tk dr cfg lm ps q hp pub tsk].
  unfold jobsOf in Hget. cbn [importQueue] in *.
  unfold ImportQueue.processNext, bind, gets. cbn [importQueue].
  rewrite Hfree, Hqueue. cbn. rewrite Hget. reflexivity.
Qed.

(** X22. When the id at the head of the waiting list has no job in the job map,
    which is what deleteJob leaves behind for a job that was still queued,
    processNext marks the queue as busy, takes the id off the list and stops:
    no job object changes, nothing is published, and no further work is
    scheduled, so nothing is left to mark the queue as free again. *)
Theorem processNext_stops_at_deleted_job :
  forall e w jobId rest,
    QueueState.processing (importQueue w) = false ->
    QueueState.queue (importQueue w) = jobId :: rest ->
    JsMap.get (jobsOf w) jobId = None ->
    QueueState.processing (importQueue (snd (ImportQueue.processNext e w))) = true
    /\ QueueState.queue (importQueue (snd (ImportQueue.processNext e w))) = rest
    /\ jobsOf (snd (ImportQueue.processNext e w)) = jobsOf w
    /\ heap (snd (ImportQueue.processNext e w)) = heap w
    /\ published (snd (ImportQueue.processNext e w)) = published w
    /\ tasks (snd (ImportQueue.processNext e w)) = tasks w
    /\ (Forall (fun t => isTimer t = true) (tasks w) ->
        stalled (snd (ImportQueue.processNext e w))).
Proof.
  intros e w jobId rest Hfree Hqueue Hget.
  rewrite (processNext_orphan e w jobId rest Hfree Hqueue Hget).
  destruct w as [tk dr cfg lm ps q hp pub tsk].
  repeat split. assumption.
Qed.

(** In the scenario the waiting job is deleted and the first import ends: the
    timer that calls processNext then finds the deleted id. *)
Lemma processNext_stops_at_deleted_job_witness :
  QueueState.queue (importQueue Scenario.orphaned) = [Scenario.second]
  /\ stalled (snd (ImportQueue.processNext Sample.env Scenario.orphaned)).
Proof.
  assert (Hfree : QueueState.processing (importQueue Scenario.orphaned) = false)
    by (vm_compute; reflexivity).
  assert (Hqueue : QueueState.queue (importQueue Scenario.orphaned) = [Scenario.second])
    by (vm_compute; reflexivity).
  assert (Hget : JsMap.get (jobsOf Scenario.orphaned) Scenario.second = None)
    by (vm_compute; reflexivity).
  split; [exact Hqueue|].
  destruct (processNext_stops_at_deleted_job Sample.env Scenario.orphaned
              Scenario.second [] Hfree Hqueue Hget) as (_ & _ & _ & _ & _ & _ & Hstalled).
  apply Hstalled. vm_compute. repeat constructor.
Defined.

Lemma clearContent_run :
  forall jobId e w,
    ImportQueue.clearContent jobId e w
    = (Ok tt,
       match JsMap.get (jobsOf w) jobId with
       | Some r => with_heap (ImportQueue.updateAt (heap w) r ImportQueue.without_content) w
       | None => w
       end).
Proof.
  intros jobId e w. destruct w as [tk dr cfg lm ps q hp pub tsk].
  unfold ImportQueue.clearContent, bind, gets, jobsOf. cbn [importQueue].
  destruct (JsMap.get (QueueState.jobs q) jobId); reflexivity.
Qed.

Lemma updateAt_status :
  forall (l : list InternalJob) n f,
    (forall j, Job.status (f j) = Job.status j) ->
    List.map Job.status (ImportQueue.updateAt l n f) = List.map Job.status l.
Proof.
  induction l as [|a l IH]; intros [|n] f Hf; simpl; auto.
  - rewrite Hf. reflexivity.
  - rewrite IH; auto.
Qed.

Lemma stalled_timer :
  forall e w t,
    QueueState.processing (importQueue w) = true ->
    isTimer t = true ->
    QueueState.processing (importQueue (snd (ImportQueue.runTask t e w))) = true
    /\ tasks (snd (ImportQueue.runTask t e w)) = tasks w
    /\ statusesOf (snd (ImportQueue.runTask t e w)) = statusesOf w
    /\ published (snd (ImportQueue.runTask t e w)) = published w
    /\ importQueue (snd (ImportQueue.runTask t e w)) = importQueue w.
Proof.
  intros e w t Hbusy Htimer. destruct t as [| |jobId|]; try discriminate Htimer.
  - cbn [ImportQueue.runTask]. rewrite clearContent_run. cbn [snd].
    destruct (JsMap.get (jobsOf w) jobId) as [r|]; [|repeat split; exact Hbusy].
    destruct w as [tk dr cfg lm ps q hp pub tsk]. unfold statusesOf.
    cbn [importQueue with_heap heap tasks published] in *.
    repeat split; [exact Hbusy|]. apply updateAt_status. reflexivity.
  - cbn [ImportQueue.runTask]. rewrite processNext_busy by exact Hbusy.
    repeat split. exact Hbusy.
Qed.

(** X23. A queue that is marked as busy while only timers are pending stays
    so: a timer that fires, a deleteJob and an enqueue all leave it busy with
    only timers pending, and no job changes its status.  A job accepted by
    enqueue in this state is returned as queued and is appended to the
    waiting list; its import is not started. *)
Theorem stalled_queue_starts_no_job :
  forall e w,
    stalled w ->
    (forall w', step e w w' ->
       stalled w' /\ statusesOf w' = statusesOf w /\ published w' = published w
       /\ importQueue w' = importQueue w)
    /\ (forall jobId userRole,
          stalled (snd (ImportQueue.deleteJob jobId userRole e w))
          /\ statusesOf (snd (ImportQueue.deleteJob jobId userRole e w)) = statusesOf w)
    /\ (forall filename content uploadedBy userRole,
          stalled (snd (ImportQueue.enqueue filename content uploadedBy userRole e w)))
    /\ (forall filename content uploadedBy userRole job w',
          ImportQueue.enqueue filename content uploadedBy userRole e w = (Ok job, w') ->
          Job.status job = queued
          /\ Job.startedAt job = None
          /\ statusesOf w' = (statusesOf w ++ [queued])%list
          /\ QueueState.queue (importQueue w')
             = (QueueState.queue (importQueue w) ++ [Job.jobId job])%list).
Proof.
  intros e w [Hbusy Htimers]. split; [|split; [|split]].
  - intros w' Hstep. inversion Hstep as [w0 before t after r w1 Htasks Hrun]; subst.
    rewrite Htasks in Htimers. apply Forall_app in Htimers.
    destruct Htimers as [Hbefore Hafter].
    inversion Hafter as [|t0 l Ht Hrest]; subst.
    assert (Hbusy' : QueueState.processing
                       (importQueue (with_tasks (before ++ after)%list w)) = true).
    { destruct w as [tk dr cfg lm ps q hp pub tsk]. exact Hbusy. }
    destruct (stalled_timer e _ t Hbusy' Ht) as (Hp & Htk & Hst & Hpub & Hq).
    rewrite Hrun in Hp, Htk, Hst, Hpub, Hq. cbn [snd] in *.
    split; [split; [exact Hp|]|].
    + rewrite Htk. destruct w as [tk dr cfg lm ps q hp pub tsk]. cbn [tasks with_tasks].
      apply Forall_app. split; assumption.
    + rewrite Hst, Hpub, Hq. destruct w as [tk dr cfg lm ps q hp pub tsk].
      repeat split.
  - intros jobId userRole. rewrite deleteJob_run.
    destruct (negb (ImportQueue.isAuthorized userRole));
      [split; [split; assumption | reflexivity]|].
    destruct (JsMap.get (jobsOf w) jobId) as [r|];
      [|split; [split; assumption | reflexivity]].
    destruct (nth_error (heap w) r) as [job|];
      [|split; [split; assumption | reflexivity]].
    destruct (JobStatus_eqb (Job.status job) processing);
      [split; [split; assumption | reflexivity]|].
    destruct w as [tk dr cfg lm ps q hp pub tsk]. cbn [snd].
    split; [split; assumption | reflexivity].
  - intros filename content uploadedBy userRole.
    destruct (ImportQueue.isAuthorized userRole) eqn:Hauth.
    + rewrite enqueue_prefix by exact Hauth.
      destruct (100 <=? JsMap.size (prunedJobs (clock e (ticks w)) w))%nat.
      * destruct w as [tk dr cfg lm ps q hp pub tsk]. split; assumption.
      * assert (Hbusy' : QueueState.processing
                           (importQueue (enqueued filename content uploadedBy e w)) = true).
        { destruct w as [tk dr cfg lm ps q hp pub tsk]. exact Hbusy. }
        unfold bind at 1. rewrite processNext_busy by exact Hbusy'.
        unfold bind, ImportQueue.deref.
        destruct (nth_error (heap (enqueued filename content uploadedBy e w))
                    (List.length (heap w))); cbn [snd];
          (split; [exact Hbusy' | destruct w as [tk dr cfg lm ps q hp pub tsk];
                                  exact Htimers]).
    + rewrite enqueue_refused by exact Hauth. split; assumption.
  - intros filename content uploadedBy userRole job w' Hrun.
    destruct (ImportQueue.isAuthorized userRole) eqn:Hauth.
    2:{ rewrite enqueue_refused in Hrun by exact Hauth. discriminate Hrun. }
    rewrite enqueue_prefix in Hrun by exact Hauth.
    destruct (100 <=? JsMap.size (prunedJobs (clock e (ticks w)) w))%nat;
      [discriminate Hrun|].
    assert (Hbusy' : QueueState.processing
                       (importQueue (enqueued filename content uploadedBy e w)) = true).
    { destruct w as [tk dr cfg lm ps q hp pub tsk]. exact Hbusy. }
    unfold bind at 1 in Hrun. rewrite processNext_busy in Hrun by exact Hbusy'.
    assert (Hjob : nth_error (heap (enqueued filename content uploadedBy e w))
                     (List.length (heap w))
                   = Some (newJob filename content uploadedBy e w)).
    { destruct w as [tk dr cfg lm ps q hp pub tsk]. apply nth_error_last. }
    unfold bind, ImportQueue.deref in Hrun. rewrite Hjob in Hrun.
    injection Hrun as <- <-.
    destruct w as [tk dr cfg lm ps q hp pub tsk]. unfold statusesOf.
    cbn [enqueued heap importQueue QueueState.queue]. rewrite map_app.
    repeat split.
Qed.

(** In the scenario, once the queue has stopped at the deleted job, a new
    file is accepted and left waiting. *)
Lemma stalled_queue_starts_no_job_witness :
  stalled (snd (ImportQueue.processNext Sample.env Scenario.orphaned))
  /\ exists job w',
       ImportQueue.enqueue "c.csv" Sample.csvValid "anna" admin Sample.env
         (snd (ImportQueue.processNext Sample.env Scenario.orphaned)) = (Ok job, w')
       /\ Job.status job = queued.
Proof.
  assert (Hstalled : stalled (snd (ImportQueue.processNext Sample.env Scenario.orphaned))).
  { split; [vm_compute; reflexivity | vm_compute; repeat constructor]. }
  split; [exact Hstalled|].
  destruct (ImportQueue.enqueue "c.csv" Sample.csvValid "anna" admin Sample.env
              (snd (ImportQueue.processNext Sample.env Scenario.orphaned)))
    as [[job|message] w'] eqn:Hrun.
  - exists job, w'. split; [reflexivity|].
    destruct (stalled_queue_starts_no_job Sample.env _ Hstalled) as (_ & _ & _ & Henqueue).
    destruct (Henqueue _ _ _ _ _ _ Hrun) as [Hstatus _]. exact Hstatus.
  - apply (f_equal fst) in Hrun. vm_compute in Hrun. discriminate Hrun.
Defined.

(** ** The list of all jobs *)

Lemma insertSorted_permutation :
  forall (A : Type) cmp (x : A) l, Permutation (ImportQueue.insertSorted cmp x l) (x :: l).
Proof.
  intros A cmp x l. induction l as [|y r IH]; simpl; [apply Permutation_refl|].
  destruct (cmp x y <=? 0); [apply Permutation_refl|].
  etransitivity; [apply perm_skip; exact IH | apply perm_swap].
Qed.

Lemma sort_permutation :
  forall (A : Type) cmp (l : list A), Permutation (ImportQueue.sort cmp l) l.
Proof.
  intros A cmp l. induction l as [|x r IH]; simpl; [apply Permutation_refl|].
  etransitivity; [apply insertSorted_permutation | apply perm_skip; exact IH].
Qed.

Lemma newestFirst_dated :
  forall a b,
    Job.createdAt a <> None -> Job.createdAt b <> None ->
    ImportQueue.newestFirst a b = createdTime b - createdTime a.
Proof.
  intros a b Ha Hb. unfold ImportQueue.newestFirst, createdTime.
  destruct (Job.createdAt a); [|contradiction Ha; reflexivity].
  destruct (Job.createdAt b); [|contradiction Hb; reflexivity].
  reflexivity.
Qed.

Lemma insertSorted_sorted :
  forall x l,
    Job.createdAt x <> None ->
    Forall (fun job => Job.createdAt job <> None) l ->
    StronglySorted notOlder l ->
    StronglySorted notOlder (ImportQueue.insertSorted ImportQueue.newestFirst x l).
Proof.
  intros x l Hx Hdated Hsorted. induction Hsorted as [|y r Hr IH Hy]; simpl.
  - constructor; constructor.
  - inversion Hdated as [|y0 r0 Hdy Hdr]; subst.
    rewrite (newestFirst_dated x y Hx Hdy).
    destruct (createdTime y - createdTime x <=? 0) eqn:Hcmp.
    + apply Z.leb_le in Hcmp. constructor; [constructor; assumption|].
      constructor; [unfold notOlder; lia|].
      eapply Forall_impl; [|exact Hy]. unfold notOlder. intros z Hz. lia.
    + apply Z.leb_gt in Hcmp. constructor; [apply IH; exact Hdr|].
      apply insertSorted_Forall; [unfold notOlder; lia | exact Hy].
Qed.

Lemma sort_sorted :
  forall l,
    Forall (fun job => Job.createdAt job <> None) l ->
    StronglySorted notOlder (ImportQueue.sort ImportQueue.newestFirst l).
Proof.
  intros l Hdated. induction Hdated as [|x r Hx Hr IH]; simpl; [constructor|].
  apply insertSorted_sorted; [exact Hx | apply sort_Forall; exact Hr | exact IH].
Qed.

(** X24. getAllJobs lists every job of the job map once, without its content,
    and changes nothing.  When every job has a valid creation date, as the
    jobs made by enqueue have, the list is ordered from the newest to the
    oldest: no job comes after one that was created earlier. *)
Theorem getAllJobs_newest_first :
  forall e w objects,
    lookupAll (heap w) (JsMap.values (jobsOf w)) = Some objects ->
    exists jobs,
      ImportQueue.getAllJobs e w = (Ok jobs, w)
      /\ Permutation jobs (List.map ImportQueue.sanitizeJob objects)
      /\ List.length jobs = JsMap.size (jobsOf w)
      /\ (Forall (fun job => Job.createdAt job <> None) objects ->
          StronglySorted notOlder jobs).
Proof.
  intros e w objects Hobjects.
  exists (ImportQueue.sort ImportQueue.newestFirst
            (List.map ImportQueue.sanitizeJob objects)).
  split; [|split; [|split]].
  - unfold ImportQueue.getAllJobs, bind, gets. rewrite derefAll_lookupAll.
    unfold jobsOf in Hobjects. rewrite Hobjects. reflexivity.
  - apply sort_permutation.
  - rewrite (Permutation_length (sort_permutation _ _ _)). rewrite length_map.
    clear e. revert objects Hobjects. unfold JsMap.size.
    generalize (jobsOf w) as jobs. induction jobs as [|[k r] rest IH]; simpl.
    + intros objects H. injection H as <-. reflexivity.
    + intros objects H. destruct (nth_error (heap w) r); [|discriminate].
      destruct (lookupAll (heap w) (JsMap.values rest)) as [l|] eqn:Hl; [|discriminate].
      injection H as <-. simpl. f_equal. apply IH. reflexivity.
  - intros Hdated. apply sort_sorted. apply Forall_forall. intros job Hjob.
    apply in_map_iff in Hjob. destruct Hjob as [object [<- Hin]].
    rewrite Forall_forall in Hdated. exact (Hdated object Hin).
Qed.

(** In the scenario the second job is listed before the first. *)
Lemma getAllJobs_newest_first_witness :
  exists objects jobs,
    lookupAll (heap Scenario.twoJobs) (JsMap.values (jobsOf Scenario.twoJobs))
    = Some objects
    /\ ImportQueue.getAllJobs Sample.env Scenario.twoJobs = (Ok jobs, Scenario.twoJobs)
    /\ List.map Job.jobId jobs = [Scenario.second; Scenario.first].
Proof.
  destruct (lookupAll (heap Scenario.twoJobs) (JsMap.values (jobsOf Scenario.twoJobs)))
    as [objects|] eqn:Hobjects; [|vm_compute in Hobjects; discriminate Hobjects].
  destruct (getAllJobs_newest_first Sample.env Scenario.twoJobs objects Hobjects)
    as (jobs & Hrun & _).
  exists objects, jobs. split; [reflexivity|]. split; [exact Hrun|].
  apply (f_equal fst) in Hrun. vm_compute in Hrun. injection Hrun as <-. reflexivity.
Defined.

(** ** Subscriptions *)

Lemma existsb_eqb_In :
  forall (c : nat) l, List.existsb (Nat.eqb c) l = true <-> In c l.
Proof.
  intros c l. rewrite existsb_exists. split.
  - intros [x [Hin Heq]]. apply Nat.eqb_eq in Heq. subst x. exact Hin.
  - intros Hin. exists c. split; [exact Hin | apply Nat.eqb_refl].
Qed.

Lemma filter_eqb_absent :
  forall (c : nat) l, ~ In c l -> List.filter (Nat.eqb c) l = [].
Proof.
  intros c l. induction l as [|x r IH]; simpl; [reflexivity|].
  intros Hnot. destruct (Nat.eqb c x) eqn:Heq.
  - apply Nat.eqb_eq in Heq. exfalso. apply Hnot. left. symmetry. exact Heq.
  - apply IH. intro H. apply Hnot. right. exact H.
Qed.

Lemma filter_eqb_once :
  forall (c : nat) l, NoDup l -> In c l -> List.filter (Nat.eqb c) l = [c].
Proof.
  intros c l Hnd. induction Hnd as [|x r Hx Hr IH]; simpl; [intros []|].
  intros [Heq | Hin].
  - subst x. rewrite Nat.eqb_refl. rewrite filter_eqb_absent by exact Hx. reflexivity.
  - destruct (Nat.eqb c x) eqn:Heq; [|apply IH; exact Hin].
    apply Nat.eqb_eq in Heq. subst x. contradiction.
Qed.

Lemma filter_others_absent :
  forall (c : nat) l, ~ In c l -> List.filter (fun x => negb (Nat.eqb c x)) l = l.
Proof.
  intros c l. induction l as [|x r IH]; simpl; [reflexivity|].
  intros Hnot. destruct (Nat.eqb c x) eqn:Heq; simpl.
  - apply Nat.eqb_eq in Heq. exfalso. apply Hnot. left. symmetry. exact Heq.
  - rewrite IH; [reflexivity|]. intro H. apply Hnot. right. exact H.
Qed.

Lemma subscribe_run :
  forall callback e w,
    ImportQueue.subscribe callback e w
    = (Ok tt,
       if List.existsb (Nat.eqb callback) (subscribersOf w) then w
       else with_importQueue
              (ImportQueue.with_subscribers (subscribersOf w ++ [callback])%list
                 (importQueue w)) w).
Proof.
  intros callback e w. destruct w as [tk dr cfg lm ps q hp pub tsk].
  destruct q as [jobs queue proc subs stores sess].
  unfold ImportQueue.subscribe, ImportQueue.updQueue, modify, subscribersOf.
  cbn [importQueue QueueState.subscribers].
  destruct (List.existsb (Nat.eqb callback) subs); reflexivity.
Qed.

Lemma unsubscribe_run :
  forall callback e w,
    ImportQueue.unsubscribe callback e w
    = (Ok tt,
       with_importQueue
         (ImportQueue.with_subscribers
            (List.filter (fun c => negb (Nat.eqb callback c)) (subscribersOf w))
            (importQueue w)) w).
Proof. intros callback e w. reflexivity. Qed.

(** X25. The subscribers form a set.  Starting from subscribers without
    repetitions, subscribe leaves them without repetitions, adds the callback
    after the others unless it is there already, and changes nothing when
    called again, so that one notification calls the callback once however
    many times it has subscribed.  The function that subscribe returns removes
    the callback, keeps the subscribers before it and those after it in their
    order and changes nothing else; for a callback that was not subscribed
    before, subscribing and unsubscribing restores the world. *)
Theorem subscribers_form_a_set :
  forall callback e w,
    NoDup (subscribersOf w) ->
    let w1 := snd (ImportQueue.subscribe callback e w) in
    let w2 := snd (ImportQueue.unsubscribe callback e w1) in
    NoDup (subscribersOf w1)
    /\ (forall c, In c (subscribersOf w1) <-> c = callback \/ In c (subscribersOf w))
    /\ (exists added, subscribersOf w1 = (subscribersOf w ++ added)%list)
    /\ callsTo callback w1 = 1%nat
    /\ snd (ImportQueue.subscribe callback e w1) = w1
    /\ NoDup (subscribersOf w2)
    /\ (forall c, In c (subscribersOf w2) <-> c <> callback /\ In c (subscribersOf w))
    /\ callsTo callback w2 = 0%nat
    /\ (~ In callback (subscribersOf w) -> w2 = w)
    /\ (exists before after,
          subscribersOf w1 = (before ++ callback :: after)%list
          /\ subscribersOf w2 = (before ++ after)%list
          /\ w2 = with_importQueue
                    (ImportQueue.with_subscribers (before ++ after)%list (importQueue w))
                    w).
Proof.
  intros callback e w Hnd. cbv zeta. rewrite unsubscribe_run. rewrite !subscribe_run.
  cbn [snd].
  destruct (List.existsb (Nat.eqb callback) (subscribersOf w)) eqn:Hin.
  - rewrite Hin. apply existsb_eqb_In in Hin.
    assert (Hfilter : forall c,
               In c (List.filter (fun c => negb (Nat.eqb callback c)) (subscribersOf w))
               <-> c <> callback /\ In c (subscribersOf w)).
    { intros c. rewrite filter_In. split.
      - intros [Hc Hne]. split; [|exact Hc]. intros ->. rewrite Nat.eqb_refl in Hne.
        discriminate Hne.
      - intros [Hne Hc]. split; [exact Hc|]. destruct (Nat.eqb callback c) eqn:Heq;
          [|reflexivity]. apply Nat.eqb_eq in Heq. exfalso. apply Hne. symmetry.
        exact Heq. }
    destruct w as [tk dr cfg lm ps q hp pub tsk].
    destruct q as [jobs queue proc subs stores sess].
    unfold subscribersOf, callsTo in *. cbn [importQueue QueueState.subscribers
      with_importQueue ImportQueue.with_subscribers subscribersOf] in *.
    split; [exact Hnd|]. split.
    { intros c. split; [intros H; right; exact H|]. intros [-> | H]; assumption. }
    split; [exists []; rewrite app_nil_r; reflexivity|].
    split; [rewrite filter_eqb_once by assumption; reflexivity|].
    split; [reflexivity|].
    split; [apply NoDup_filter; exact Hnd|].
    split; [exact Hfilter|].
    split.
    { rewrite filter_eqb_absent; [reflexivity|]. intro H. apply Hfilter in H.
      destruct H as [Hne _]. apply Hne. reflexivity. }
    split; [intros Hnot; contradiction|].
    destruct (in_split _ _ Hin) as [before [after Hsplit]].
    exists before, after. split; [exact Hsplit|].
    assert (Hrest : List.filter (fun c => negb (Nat.eqb callback c)) subs
                    = (before ++ after)%list).
    { rewrite Hsplit in Hnd. apply NoDup_remove_2 in Hnd.
      rewrite Hsplit, filter_app. cbn [List.filter]. rewrite Nat.eqb_refl. cbn [negb].
      rewrite !filter_others_absent; [reflexivity | |];
        intro H; apply Hnd; apply in_or_app; [right | left]; exact H. }
    rewrite Hrest. split; reflexivity.
  - assert (Hnot : ~ In callback (subscribersOf w)).
    { intro H. apply existsb_eqb_In in H. rewrite H in Hin. discriminate Hin. }
    assert (Hnd1 : NoDup (subscribersOf w ++ [callback])).
    { apply NoDup_app; [exact Hnd | repeat constructor; intros [] |].
      intros c Hc [<- | []]. contradiction. }
    destruct w as [tk dr cfg lm ps q hp pub tsk].
    destruct q as [jobs queue proc subs stores sess].
    unfold subscribersOf, callsTo in *. cbn [importQueue QueueState.subscribers
      with_importQueue ImportQueue.with_subscribers subscribersOf] in *.
    assert (Hthere : List.existsb (Nat.eqb callback) (subs ++ [callback]) = true).
    { apply existsb_eqb_In. apply in_or_app. right. left. reflexivity. }
    rewrite Hthere.
    assert (Hback : List.filter (fun c => negb (Nat.eqb callback c)) (subs ++ [callback])
                    = subs).
    { rewrite filter_app. rewrite filter_others_absent by exact Hnot. simpl.
      rewrite Nat.eqb_refl. simpl. apply app_nil_r. }
    rewrite Hback.
    split; [exact Hnd1|]. split.
    { intros c. rewrite in_app_iff. simpl. intuition congruence. }
    split; [exists [callback]; reflexivity|].
    split.
    { rewrite filter_eqb_once; [reflexivity | exact Hnd1|]. apply in_or_app. right.
      left. reflexivity. }
    split; [reflexivity|].
    split; [exact Hnd|].
    split.
    { intros c. split.
      - intros Hc. split; [|exact Hc]. intros ->. contradiction.
      - intros [_ Hc]. exact Hc. }
    split; [rewrite filter_eqb_absent by exact Hnot; reflexivity|].
    split; [intros _; reflexivity|].
    exists subs, []. rewrite app_nil_r. repeat split.
Qed.

(** A callback that subscribes twice to the fresh queue is called once. *)
Lemma subscribers_form_a_set_witness :
  NoDup (subscribersOf Sample.world)
  /\ callsTo 7%nat
       (snd (ImportQueue.subscribe 7%nat Sample.env
               (snd (ImportQueue.subscribe 7%nat Sample.env Sample.world)))) = 1%nat.
Proof.
  assert (Hnd : NoDup (subscribersOf Sample.world)) by constructor.
  split; [exact Hnd|].
  destruct (subscribers_form_a_set 7%nat Sample.env Sample.world Hnd)
    as (_ & _ & _ & Hcalls & Hagain & _).
  rewrite Hagain. exact Hcalls.
Defined.

(** ** What an import may change *)

Lemma processFile_keeps_business :
  forall f c u, Keeps business (FileProcessor.processFile f c u).
Proof. intros f c u. unfold FileProcessor.processFile. keeps. Qed.

#[local] Hint Resolve processFile_keeps_business : keeps.

Lemma processNext_keeps_business : Keeps business ImportQueue.processNext.
Proof. unfold ImportQueue.processNext. keeps. Qed.

#[local] Hint Resolve processNext_keeps_business : keeps.

Lemma enqueue_keeps_business :
  forall filename content uploadedBy userRole,
    Keeps business (ImportQueue.enqueue filename content uploadedBy userRole).
Proof. intros. unfold ImportQueue.enqueue. keeps. Qed.

Lemma deleteJob_keeps_business :
  forall jobId userRole, Keeps business (ImportQueue.deleteJob jobId userRole).
Proof. intros. unfold ImportQueue.deleteJob. keeps. Qed.

Lemma runTask_keeps_business :
  forall t, appliesImport t = false -> Keeps business (ImportQueue.runTask t).
Proof.
  intros [job jobId result|job jobId result outcome|jobId|] Hnot; cbn [ImportQueue.runTask].
  - unfold ImportQueue.resumeAfterProcessFile. cbn [appliesImport] in Hnot.
    rewrite Hnot. keeps.
  - unfold ImportQueue.resumeAfterApply. keeps.
  - unfold ImportQueue.clearContent. keeps.
  - apply processNext_keeps_business.
Qed.

(** X26. The stores, the policies, the audit log and the pricing
    configurations change only when the rows of an import are applied.
    enqueue and deleteJob leave them as they are, whatever their arguments and
    outcome, and so does every piece of pending work of the queue except the
    continuation of processNext for a result that is valid and has at least
    one row: an import that fails validation, or that has no rows, changes no
    store and no policy. *)
Theorem only_valid_imports_change_stores :
  forall e w,
    (forall filename content uploadedBy userRole,
       business (snd (ImportQueue.enqueue filename content uploadedBy userRole e w))
       = business w)
    /\ (forall jobId userRole,
          business (snd (ImportQueue.deleteJob jobId userRole e w)) = business w)
    /\ (forall t,
          appliesImport t = false ->
          business (snd (ImportQueue.runTask t e w)) = business w)
    /\ (forall job jobId result,
          ValidationResult.isValid (ProcessingResult.validation result) = false
          \/ ProcessingResult.rows result = [] ->
          business (snd (ImportQueue.resumeAfterProcessFile job jobId result e w))
          = business w).
Proof.
  intros e w. split; [|split; [|split]].
  - intros. apply enqueue_keeps_business.
  - intros. apply deleteJob_keeps_business.
  - intros t Hnot. apply runTask_keeps_business. exact Hnot.
  - intros job jobId result Hcase.
    apply (runTask_keeps_business (AwaitProcessFile job jobId result)).
    cbn [appliesImport]. destruct Hcase as [-> | ->]; [reflexivity|].
    apply Bool.andb_false_r.
Qed.

(** ** The end of an import that fails validation *)

Lemma nth_error_updateAt :
  forall (A : Type) (l : list A) n f,
    nth_error (ImportQueue.updateAt l n f) n = option_map f (nth_error l n).
Proof.
  induction l as [|a l IH]; intros [|n] f; simpl; auto.
Qed.

Lemma nth_error_updateAt_other :
  forall (A : Type) (l : list A) n m f,
    n <> m -> nth_error (ImportQueue.updateAt l n f) m = nth_error l m.
Proof.
  induction l as [|a l IH]; intros [|n] [|m] f Hne; simpl; auto.
  contradiction Hne. reflexivity.
Qed.

Ltac run_queue :=
  unfold tryCatch, bind, ImportQueue.updJob, ImportQueue.updQueue, modify, gets,
    ImportQueue.deref, ImportQueue.notifySubscribers, new_Date, Date_now,
    ImportQueue.scheduleClearContent, spawn, ret;
  cbn [heap with_heap ticks draws pricingConfigs lifecycleManager policyService
       importQueue published tasks with_published with_ticks with_tasks
       with_importQueue].

Ltac world_fields :=
  cbv beta iota delta
    [snd heap with_heap with_tasks with_importQueue with_published with_ticks ticks
     draws pricingConfigs lifecycleManager policyService importQueue published tasks].

(** X27. When processNext resumes with a result that failed validation, it
    ends the job at once: the job is failed, at progress 100, with the result,
    the time of completion and the error that counts the validation errors;
    its content is still held.  The other job objects are not touched, the
    subscribers are told twice (progress 50, then the end), the queue is
    marked as free, the timer that clears the content is set, and the timer
    for the next job is set when a job is waiting. *)
Theorem invalid_result_fails_the_job :
  forall job jobId result e w j0,
    nth_error (heap w) job = Some j0 ->
    ValidationResult.isValid (ProcessingResult.validation result) = false ->
    exists j,
      nth_error (heap (snd (ImportQueue.resumeAfterProcessFile job jobId result e w))) job
      = Some j
      /\ Job.status j = failed
      /\ Job.progress j = 100%nat
      /\ Job.result j = Some result
      /\ Job.error j
         = Some ("Validazione fallita con "
                 ++ JS.showZ (Z.of_nat (List.length
                      (ValidationResult.errors (ProcessingResult.validation result))))
                 ++ " errori")
      /\ Job.completedAt j = Some (Some (clock e (ticks w)))
      /\ Job.content j = Job.content j0
      /\ Job.jobId j = Job.jobId j0
      /\ (forall other, other <> job ->
            nth_error (heap (snd (ImportQueue.resumeAfterProcessFile job jobId result e w)))
              other
            = nth_error (heap w) other)
      /\ QueueState.processing
           (importQueue (snd (ImportQueue.resumeAfterProcessFile job jobId result e w)))
         = false
      /\ published (snd (ImportQueue.resumeAfterProcessFile job jobId result e w))
         = (published w
            ++ notices (subscribersOf w)
                 (ImportQueue.sanitizeJob (ImportQueue.set_progress 50 j0))
            ++ notices (subscribersOf w) (ImportQueue.sanitizeJob j))%list
      /\ tasks (snd (ImportQueue.resumeAfterProcessFile job jobId result e w))
         = (tasks w ++ ClearContentTimer jobId
              :: match QueueState.queue (importQueue w) with
                 | [] => []
                 | _ :: _ => [ProcessNextTimer]
                 end)%list.
Proof.
  intros job jobId result e w j0 Hjob Hinvalid.
  destruct w as [tk dr cfg lm ps q hp pub tsk]. cbn [heap] in Hjob.
  unfold ImportQueue.resumeAfterProcessFile. rewrite Hinvalid. cbn [andb].
  unfold ImportQueue.complete. rewrite Hinvalid. run_queue.
  rewrite !nth_error_updateAt, Hjob. cbn [option_map]. run_queue.
  unfold ImportQueue.afterTry. run_queue.
  rewrite !nth_error_updateAt, Hjob. cbn [option_map]. run_queue.
  unfold subscribersOf, notices. destruct q as [jobs queue proc subs stores sess].
  cbn [ImportQueue.with_processing QueueState.queue QueueState.subscribers
       QueueState.processing QueueState.jobs QueueState.stores
       QueueState.currentSessionId importQueue].
  eexists. split.
  { destruct queue; world_fields; rewrite !nth_error_updateAt, Hjob; reflexivity. }
  do 7 (split; [reflexivity|]).
  split.
  { intros other Hother.
    destruct queue; world_fields;
      rewrite !nth_error_updateAt_other by (intro H; apply Hother; symmetry; exact H);
      reflexivity. }
  destruct queue; cbn; rewrite <- ?app_assoc; repeat split.
Qed.

(** A result with one validation error, for the job of a one-job queue. *)
Lemma invalid_result_fails_the_job_witness :
  exists j,
    nth_error
      (heap (snd (ImportQueue.resumeAfterProcessFile 0%nat Scenario.first
                    Scenario.invalidResult Sample.env Scenario.oneJob))) 0%nat
    = Some j
    /\ Job.status j = failed
    /\ Job.error j = Some "Validazione fallita con 1 errori".
Proof.
  destruct (nth_error (heap Scenario.oneJob) 0%nat) as [j0|] eqn:Hjob;
    [|vm_compute in Hjob; discriminate Hjob].
  destruct (invalid_result_fails_the_job 0%nat Scenario.first Scenario.invalidResult
              Sample.env Scenario.oneJob j0 Hjob eq_refl)
    as (j & Hget & Hstatus & _ & _ & Herror & _).
  exists j. split; [exact Hget|]. split; [exact Hstatus|]. exact Herror.
Defined.

(** ** How long the content of a file is held *)

Lemma processFile_keeps_contents :
  forall f c u, Keeps contentsOf (FileProcessor.processFile f c u).
Proof. intros f c u. unfold FileProcessor.processFile. keeps. Qed.

#[local] Hint Resolve processFile_keeps_contents : keeps.

Lemma processNext_keeps_contents : Keeps contentsOf ImportQueue.processNext.
Proof. unfold ImportQueue.processNext. keeps_all. Qed.

Lemma runTask_keeps_contents :
  forall t, clearsContent t = false -> Keeps contentsOf (ImportQueue.runTask t).
Proof.
  intros [job jobId result | job jobId result outcome | jobId | ] Hnot;
    cbn [ImportQueue.runTask]; try discriminate Hnot.
  - unfold ImportQueue.resumeAfterProcessFile. keeps_all.
  - unfold ImportQueue.resumeAfterApply. keeps_all.
  - apply processNext_keeps_contents.
Qed.

Lemma map_updateAt :
  forall (A B : Type) (g : A -> B) (f : A -> A) (h : B -> B) (l : list A) n,
    (forall a, g (f a) = h (g a)) ->
    List.map g (ImportQueue.updateAt l n f) = ImportQueue.updateAt (List.map g l) n h.
Proof.
  intros A B g f h l. induction l as [|a r IH]; intros n Hf; simpl; [reflexivity|].
  destruct n; simpl; [rewrite Hf; reflexivity | rewrite IH by exact Hf; reflexivity].
Qed.

(** X28. The content of an uploaded file stays in its job object until the
    timer set at the end of the job fires.  enqueue, for a role that may
    import and a job map with room, adds one object that holds the content,
    and adds nothing otherwise; processing a job, to its end and whatever the
    outcome, deleting a job, and every other piece of pending work leave
    every content as it is.  The timer removes the content of its own job
    only, and removes nothing when that job is no longer in the job map. *)
Theorem content_is_held_until_the_timer :
  forall e w,
    (forall t, clearsContent t = false ->
       contentsOf (snd (ImportQueue.runTask t e w)) = contentsOf w)
    /\ (forall jobId userRole,
          contentsOf (snd (ImportQueue.deleteJob jobId userRole e w)) = contentsOf w)
    /\ (forall filename content uploadedBy userRole,
          contentsOf (snd (ImportQueue.enqueue filename content uploadedBy userRole e w))
          = if ImportQueue.isAuthorized userRole
               && negb (100 <=? JsMap.size (prunedJobs (clock e (ticks w)) w))%nat
            then (contentsOf w ++ [Some content])%list
            else contentsOf w)
    /\ (forall jobId,
          contentsOf (snd (ImportQueue.clearContent jobId e w))
          = match JsMap.get (jobsOf w) jobId with
            | Some r => ImportQueue.updateAt (contentsOf w) r (fun _ => None)
            | None => contentsOf w
            end).
Proof.
  intros e w. split; [|split; [|split]].
  - intros t Hnot. apply runTask_keeps_contents. exact Hnot.
  - intros jobId userRole. rewrite deleteJob_run.
    destruct (negb (ImportQueue.isAuthorized userRole)); [reflexivity|].
    destruct (JsMap.get (jobsOf w) jobId) as [r|]; [|reflexivity].
    destruct (nth_error (heap w) r) as [job|]; [|reflexivity].
    destruct (JobStatus_eqb (Job.status job) processing); [reflexivity|].
    destruct w as [tk dr cfg lm ps q hp pub tsk]. reflexivity.
  - intros filename content uploadedBy userRole.
    destruct (ImportQueue.isAuthorized userRole) eqn:Hauth; cbn [andb].
    2:{ rewrite enqueue_refused by exact Hauth. reflexivity. }
    rewrite enqueue_prefix by exact Hauth.
    destruct (100 <=? JsMap.size (prunedJobs (clock e (ticks w)) w))%nat; cbn [negb].
    { destruct w as [tk dr cfg lm ps q hp pub tsk]. reflexivity. }
    assert (Htail : Keeps contentsOf
              (ImportQueue.processNext ;;;
               j' <- ImportQueue.deref (List.length (heap w)) ;;
               ret (ImportQueue.sanitizeJob j'))).
    { apply Keeps_bind; [apply processNext_keeps_contents | intros _]. keeps. }
    rewrite Htail. destruct w as [tk dr cfg lm ps q hp pub tsk].
    unfold contentsOf. cbn [enqueued heap]. rewrite map_app. reflexivity.
  - intros jobId. rewrite clearContent_run. cbn [snd].
    destruct (JsMap.get (jobsOf w) jobId) as [r|]; [|reflexivity].
    destruct w as [tk dr cfg lm ps q hp pub tsk]. unfold contentsOf.
    cbn [with_heap heap]. apply map_updateAt. reflexivity.
Qed.
